(** * ctags/main/get.c: the preprocessing character stream and the
      argument-list extractor

    A shallow embedding of [get.c] (the C-preprocessor layer of the tag
    extractor): the in-place comment stripper [stripCodeBuffer], the
    argument-list extractor [getArglistFromStr], the conditional stack
    ([pushConditional], [popConditional], ...), the comment, string and
    character skippers, the directive reader and the driver [cppGetc].

    Conventions.
    - A [char] buffer is a [list ascii]; a pointer into it is an index.
      Reading a cell that is not modelled gives NUL, writing one does
      nothing (stdpp's list insert); the theorems are stated for buffers
      that hold a NUL-terminated string, where neither happens.
    - An [int] holding a character or [EOF] is a [Z].
    - C [boolean] is [bool]. *)

From Stdlib Require Import ZArith List Ascii String Bool Lia.
From stdpp Require Import base list.

Open Scope char_scope.

(** ** Characters of a [char] buffer *)

Definition NUL : ascii := "000".

(** [isspace] of <ctype.h> in the C locale: space, \t, \n, \v, \f, \r. *)
Definition isspace (c : ascii) : bool :=
  let n := nat_of_ascii c in
  Nat.eqb n 32 || (Nat.leb 9 n && Nat.leb n 13).

(** [buf[i]] *)
Definition rd (buf : list ascii) (i : nat) : ascii := nth i buf NUL.

(** [buf[i] = c] *)
Definition wr (buf : list ascii) (i : nat) (c : ascii) : list ascii :=
  <[i := c]> buf.

(** The string a [char *] points to: the bytes before the first NUL. *)
Fixpoint c_str (buf : list ascii) : list ascii :=
  match buf with
  | [] => []
  | c :: rest => if (c =? NUL) then [] else c :: c_str rest
  end.

(** ** stripCodeBuffer *)

Inductive ParseState : Set :=
| st_none_t
| st_escape_t
| st_c_comment_t
| st_cpp_comment_t
| st_double_quote_t
| st_single_quote_t.

Definition ParseState_eqb (a b : ParseState) : bool :=
  match a, b with
  | st_none_t, st_none_t | st_escape_t, st_escape_t
  | st_c_comment_t, st_c_comment_t | st_cpp_comment_t, st_cpp_comment_t
  | st_double_quote_t, st_double_quote_t
  | st_single_quote_t, st_single_quote_t => true
  | _, _ => false
  end.

(** The variables of [stripCodeBuffer]: the buffer, the read cursor [i],
    the write cursor [pos] and the two parse states. *)
Record stripVars : Set := mkStrip {
  s_buf : list ascii;
  s_i : nat;
  s_pos : nat;
  s_state : ParseState;
  s_prev_state : ParseState
}.

(** [if ((pos > 0) && (buf[pos-1] != ' ')) buf[pos++] = ' ';] *)
Definition put_space (buf : list ascii) (pos : nat) : list ascii * nat :=
  if Nat.ltb 0 pos && negb (rd buf (pos - 1) =? " ")
  then (wr buf pos " ", S pos)
  else (buf, pos).

(** One execution of the body of the [while] loop, [++i] included. *)
Definition strip_body (v : stripVars) : stripVars :=
  let buf := s_buf v in
  let i := s_i v in
  let pos := s_pos v in
  let state := s_state v in
  let prev_state := s_prev_state v in
  let c := rd buf i in
  if c =? "/" then
    match state with
    | st_none_t =>
        if rd buf (i + 1) =? "*" then
          mkStrip buf (S i) pos st_c_comment_t prev_state
        else if rd buf (i + 1) =? "/" then
          mkStrip buf (S i) pos st_cpp_comment_t prev_state
        else
          mkStrip (wr buf pos "/") (S i) (S pos) state prev_state
    | st_c_comment_t =>
        if rd buf (i - 1) =? "*" then
          let '(buf', pos') := put_space buf pos in
          mkStrip buf' (S i) pos' st_none_t prev_state
        else
          mkStrip buf (S i) pos state prev_state
    | _ => mkStrip buf (S i) pos state prev_state
    end
  else if c =? "034" then
    match state with
    | st_none_t => mkStrip buf (S i) pos st_double_quote_t prev_state
    | st_double_quote_t => mkStrip buf (S i) pos st_none_t prev_state
    | _ => mkStrip buf (S i) pos state prev_state
    end
  else if c =? "'" then
    match state with
    | st_none_t => mkStrip buf (S i) pos st_single_quote_t prev_state
    | st_single_quote_t => mkStrip buf (S i) pos st_none_t prev_state
    | _ => mkStrip buf (S i) pos state prev_state
    end
  else
    if (c =? "\") && negb (ParseState_eqb st_escape_t state) then
      mkStrip buf (S i) pos st_escape_t state
    else if ParseState_eqb st_escape_t state then
      mkStrip buf (S i) pos prev_state st_none_t
    else if (c =? "010") && ParseState_eqb st_cpp_comment_t state then
      let '(buf', pos') := put_space buf pos in
      mkStrip buf' (S i) pos' st_none_t prev_state
    else if ParseState_eqb st_none_t state then
      if isspace c then
        let '(buf', pos') := put_space buf pos in
        mkStrip buf' (S i) pos' state prev_state
      else
        mkStrip (wr buf pos c) (S i) (S pos) state prev_state
    else
      mkStrip buf (S i) pos state prev_state.

(** [while (buf[i] != '\0') { ... }]: the loop runs at most once per cell
    of the buffer, which is the fuel [stripCodeBuffer] gives it. *)
Fixpoint strip_loop (fuel : nat) (v : stripVars) : stripVars :=
  match fuel with
  | O => v
  | S fuel' =>
      if rd (s_buf v) (s_i v) =? NUL then v
      else strip_loop fuel' (strip_body v)
  end.

Definition strip_init (buf : list ascii) : stripVars :=
  mkStrip buf 0 0 st_none_t st_none_t.

(** The variables when the loop is left. *)
Definition strip_exit (buf : list ascii) : stripVars :=
  strip_loop (length buf) (strip_init buf).

(** [stripCodeBuffer (buf)]: the buffer after the call
    ([buf[pos] = '\0'] ends it). *)
Definition stripCodeBuffer (buf : list ascii) : list ascii :=
  let v := strip_exit buf in
  wr (s_buf v) (s_pos v) NUL.

(** A buffer holding the C string [s]: its bytes and the NUL. *)
Definition buffer_of (s : string) : list ascii :=
  list_ascii_of_string s ++ [NUL].

(** ** getArglistFromStr *)

(** [strncmp (buf, needle, strlen (needle)) == 0] *)
Fixpoint starts_with (needle buf : list ascii) : bool :=
  match needle, buf with
  | [], _ => true
  | n :: needle', b :: buf' => (n =? b) && starts_with needle' buf'
  | _ :: _, [] => false
  end.

(** [strstr (buf, needle)] as an offset from [buf], [None] for NULL. *)
Fixpoint strstr (buf needle : list ascii) : option nat :=
  if starts_with needle buf then Some 0
  else match buf with
       | [] => None
       | c :: rest =>
           if c =? NUL then None else option_map S (strstr rest needle)
       end.

(** [strchr (buf, ch)] as an offset from [buf], [None] for NULL. *)
Fixpoint strchr (buf : list ascii) (ch : ascii) : option nat :=
  match buf with
  | [] => None
  | c :: rest =>
      if c =? ch then Some 0
      else if c =? NUL then None
      else option_map S (strchr rest ch)
  end.

(** The [for] loop of [getArglistFromStr]; [rest] is the memory from
    [end] on, the result is the final value of [end]. *)
Fixpoint arglist_scan (rest : list ascii) (level : Z) (e : nat) : nat :=
  if (0 <? level)%Z then
    match rest with
    | [] => e
    | c :: rest' =>
        if c =? NUL then e
        else if c =? "(" then arglist_scan rest' (level + 1)%Z (S e)
        else if c =? ")" then arglist_scan rest' (level - 1)%Z (S e)
        else arglist_scan rest' level (S e)
    end
  else e.

(** [getArglistFromStr (buf, name)]: the returned string ([None] for
    NULL) and the buffer as the call leaves it. A NULL argument is
    [None]. *)
Definition getArglistFromStr (buf name : option (list ascii))
  : option (list ascii) * option (list ascii) :=
  match buf, name with
  | Some b, Some n =>
      if rd n 0 =? NUL then (None, buf)
      else
        let b1 := stripCodeBuffer b in
        match strstr b1 (c_str n) with
        | None => (None, Some b1)
        | Some k1 =>
            match strchr (drop k1 b1) "(" with
            | None => (None, Some b1)
            | Some k2 =>
                let start := k1 + k2 in
                let e := arglist_scan (drop (S start) b1) 1 (S start) in
                let b2 := wr b1 e NUL in
                (Some (c_str (drop start b2)), Some b2)
            end
        end
  | _, _ => (None, buf)
  end.

(** *** Vocabulary of the claims about the two functions *)

(** The text [stripCodeBuffer] leaves for the string [s], computed on
    lists: [lastw] is the byte last written ([" "] when nothing was
    written yet, which the guard [pos > 0] treats the same way), [prevc]
    the byte before the one being read. *)
Inductive stripAction : Set :=
| Drop
| Copy (c : ascii)
| Blank.

Definition strip_decide (state prev_state : ParseState)
  (prevc c nextc : ascii) : stripAction * ParseState * ParseState :=
  if c =? "/" then
    match state with
    | st_none_t =>
        if nextc =? "*" then (Drop, st_c_comment_t, prev_state)
        else if nextc =? "/" then (Drop, st_cpp_comment_t, prev_state)
        else (Copy "/", state, prev_state)
    | st_c_comment_t =>
        if prevc =? "*" then (Blank, st_none_t, prev_state)
        else (Drop, state, prev_state)
    | _ => (Drop, state, prev_state)
    end
  else if c =? "034" then
    match state with
    | st_none_t => (Drop, st_double_quote_t, prev_state)
    | st_double_quote_t => (Drop, st_none_t, prev_state)
    | _ => (Drop, state, prev_state)
    end
  else if c =? "'" then
    match state with
    | st_none_t => (Drop, st_single_quote_t, prev_state)
    | st_single_quote_t => (Drop, st_none_t, prev_state)
    | _ => (Drop, state, prev_state)
    end
  else
    match state with
    | st_escape_t => (Drop, prev_state, st_none_t)
    | _ =>
        if c =? "\" then (Drop, st_escape_t, state)
        else match state with
             | st_cpp_comment_t =>
                 if c =? "010" then (Blank, st_none_t, prev_state)
                 else (Drop, state, prev_state)
             | st_none_t =>
                 if isspace c then (Blank, state, prev_state)
                 else (Copy c, state, prev_state)
             | _ => (Drop, state, prev_state)
             end
    end.

Fixpoint strip_text (state prev_state : ParseState) (prevc lastw : ascii)
  (s : list ascii) : list ascii :=
  match s with
  | [] => []
  | c :: rest =>
      let '(a, state', prev') :=
        strip_decide state prev_state prevc c (hd NUL rest) in
      match a with
      | Drop => strip_text state' prev' c lastw rest
      | Copy x => x :: strip_text state' prev' c x rest
      | Blank =>
          if lastw =? " " then strip_text state' prev' c lastw rest
          else " " :: strip_text state' prev' c " " rest
      end
  end.

Definition stripped (s : list ascii) : list ascii :=
  strip_text st_none_t st_none_t NUL " " s.

(** Parentheses: [paren_ok d l] holds when, starting from depth [d], the
    depth never goes below zero along [l] and is zero at its end. *)
Fixpoint paren_ok (d : nat) (l : list ascii) : bool :=
  match l with
  | [] => Nat.eqb d 0
  | c :: l' =>
      if c =? "(" then paren_ok (S d) l'
      else if c =? ")" then
        match d with
        | O => false
        | S d' => paren_ok d' l'
        end
      else paren_ok d l'
  end.

Definition balanced (l : list ascii) : bool := paren_ok 0 l.

(** [opens_for d l]: starting from depth [d > 0], the depth stays
    positive along all of [l] (the parenthesis is never closed). *)
Fixpoint stays_open (d : nat) (l : list ascii) : bool :=
  match d with
  | O => false
  | S d' =>
      match l with
      | [] => true
      | c :: l' =>
          if c =? "(" then stays_open (S d) l'
          else if c =? ")" then stays_open d' l'
          else stays_open d l'
      end
  end.

Definition starts_with_lparen (l : list ascii) : bool :=
  match l with
  | c :: _ => c =? "("
  | [] => false
  end.

Definition ends_with_rparen (l : list ascii) : bool :=
  match rev l with
  | c :: _ => c =? ")"
  | [] => false
  end.

(** A comment opener: ["/"] directly followed by ["*"] or ["/"]. *)
Fixpoint has_comment_opener (l : list ascii) : bool :=
  match l with
  | [] => false
  | c :: rest =>
      ((c =? "/") && ((hd NUL rest =? "*") || (hd NUL rest =? "/")))
      || has_comment_opener rest
  end.

(** [segment r l]: [r] is a run of consecutive bytes of [l]. *)
Definition segment (r l : list ascii) : Prop :=
  exists pre post, l = pre ++ r ++ post.

(** The indices [stripCodeBuffer] stores to: one entry per store of the
    loop, oldest first. *)
Definition body_store (v : stripVars) : list nat :=
  if Nat.eqb (s_pos (strip_body v)) (s_pos v) then [] else [s_pos v].

Fixpoint loop_stores (fuel : nat) (v : stripVars) : list nat :=
  match fuel with
  | O => []
  | S fuel' =>
      if rd (s_buf v) (s_i v) =? NUL then []
      else body_store v ++ loop_stores fuel' (strip_body v)
  end.

(** The variables after [k] executions of the loop body ([None] once the
    loop has been left). *)
Fixpoint strip_after (k : nat) (v : stripVars) : option stripVars :=
  match k with
  | O => Some v
  | S k' =>
      if rd (s_buf v) (s_i v) =? NUL then None
      else strip_after k' (strip_body v)
  end.

(** The text after one more byte has been treated. *)
Definition apply_action (a : stripAction) (out : list ascii) : list ascii :=
  match a with
  | Drop => out
  | Copy x => out ++ [x]
  | Blank => if List.last out " " =? " " then out else out ++ [" "]
  end.

(** The loop invariant of [stripCodeBuffer] on a buffer that holds the
    string [s] followed by NUL and the bytes [t]: the cells below [pos]
    hold the text written so far, every other cell is as it was, and
    finishing the scan from here gives [stripped s]. *)
Definition strip_inv (s t : list ascii) (v : stripVars) : Prop :=
  exists pre rest out prevc,
    s = pre ++ rest /\
    s_buf v = out ++ drop (length out) (s ++ NUL :: t) /\
    s_i v = length pre /\
    s_pos v = length out /\
    length out <= length pre /\
    (s_state v <> st_none_t -> length out < length pre) /\
    (s_state v = st_c_comment_t ->
     rd (s ++ NUL :: t) (length pre - 1) = prevc) /\
    out ++ strip_text (s_state v) (s_prev_state v) prevc
             (List.last out " ") rest = stripped s.


(** Every index [stripCodeBuffer] stores to, the final [buf[pos] = '\0']
    last. *)
Definition stripCodeBuffer_stores (buf : list ascii) : list nat :=
  loop_stores (length buf) (strip_init buf) ++ [s_pos (strip_exit buf)].

(** A text that a second pass of the stripper copies as it is, as far as
    quotes, backslashes and white space go: [lastw] is the byte before it
    ([" "] at the start). *)
Fixpoint tidy (lastw : ascii) (y : list ascii) : bool :=
  match y with
  | [] => true
  | c :: rest =>
      negb (c =? "034") && negb (c =? "'") && negb (c =? "\")
      && (if isspace c then (c =? " ") && negb (lastw =? " ") else true)
      && tidy c rest
  end.

(** The bytes the [for] loop of [getArglistFromStr] passes over when it
    starts at depth [d] in front of the string [l]. *)
Fixpoint arg_take (l : list ascii) (d : nat) : list ascii :=
  match l with
  | [] => []
  | c :: l' =>
      match d with
      | O => []
      | S d' =>
          c :: arg_take l'
                 (if c =? "(" then S d else if c =? ")" then d' else d)
      end
  end.

(** [unclosed r]: [r] starts with ["("] and that parenthesis is not closed
    anywhere in [r]. *)
Definition unclosed (r : list ascii) : bool :=
  match r with
  | c :: body => (c =? "(") && stays_open 1 body
  | [] => false
  end.

Definition plain_byte (c : ascii) : Prop :=
  c <> "034" /\ c <> "'" /\ c <> "\".

(* ------------------------------------------------------------------ *)
(** ** The preprocessor layer *)

Close Scope char_scope.
Open Scope Z_scope.

(** The [int] value of a character constant. *)
Definition chr (c : ascii) : Z := Z.of_nat (nat_of_ascii c).
Arguments chr c%_char_scope.

(** [EOF] of <stdio.h>. *)
Definition EOF : Z := -1.

(** The character constants of read.h and the macros of get.h are not
    under src/. The spec names the constants by the characters they stand
    for and asks for the two sentinels to be distinct and to differ from
    every byte and from [EOF]. *)

(** Modelled from the spec: the space character. *)
Definition SPACE : Z := chr " ".

(** Modelled from the spec: the tab character. *)
Definition TAB : Z := chr "009".

(** Modelled from the spec: the newline character. *)
Definition NEWLINE : Z := chr "010".

(** Modelled from the spec: the double quote that opens and closes a
    string literal. *)
Definition DOUBLE_QUOTE : Z := chr "034".

(** Modelled from the spec: the single quote that opens and closes a
    character literal. *)
Definition SINGLE_QUOTE : Z := chr "'".

(** Modelled from the spec: the backslash. *)
Definition BACKSLASH : Z := chr "\".

(** Modelled from the spec: the sentinel returned for a string literal, a
    fixed value that is no byte (outside 0..255) and is not [EOF]. *)
Definition STRING_SYMBOL : Z := 256 + chr "S".

(** Modelled from the spec: the sentinel returned for a character
    literal, a fixed value that is no byte, is not [EOF] and is not
    [STRING_SYMBOL]. *)
Definition CHAR_SYMBOL : Z := 256 + chr "C".

(** <ctype.h> in the C locale, on [int]. *)
Definition isupper (c : Z) : bool := (chr "A" <=? c) && (c <=? chr "Z").

Definition islower (c : Z) : bool := (chr "a" <=? c) && (c <=? chr "z").

Definition isalpha (c : Z) : bool := isupper c || islower c.

Definition isdigit (c : Z) : bool := (chr "0" <=? c) && (c <=? chr "9").

Definition isalnum (c : Z) : bool := isalpha c || isdigit c.

Definition toupper (c : Z) : Z := if islower c then c - 32 else c.

(** [#define isspacetab(c) ((c) == SPACE || (c) == TAB)] *)
Definition isspacetab (c : Z) : bool := (c =? SPACE) || (c =? TAB).

(** Modelled from the spec: the macro [isident] of get.h, a character
    that may continue an identifier (a letter, a digit, the underscore or
    the dollar of VMS). *)
Definition isident (c : Z) : bool :=
  isalnum c || (c =? chr "_") || (c =? chr "$").

(** Modelled from the spec: the macro [isident1] of get.h, a character
    that may start an identifier (a letter, the underscore, the tilde of
    a C++ destructor or the dollar of VMS). *)
Definition isident1 (c : Z) : bool :=
  isalpha c || (c =? chr "_") || (c =? chr "~") || (c =? chr "$").

(** A string literal of the source as the list of its [int] values. *)
Definition str (s : string) : list Z := map chr (list_ascii_of_string s).

(** The string held by a [char] array whose cells are [int] values. *)
Fixpoint c_strZ (buf : list Z) : list Z :=
  match buf with
  | [] => []
  | c :: rest => if c =? 0 then [] else c :: c_strZ rest
  end.

(** [#define stringMatch(s1,s2) (strcmp (s1,s2) == 0)] with a literal
    for [s2]. *)
Definition stringMatch (s1 : list Z) (s2 : string) : bool :=
  bool_decide (c_strZ s1 = str s2).

Definition MaxCppNestingLevel : nat := 20.
Definition MaxDirectiveName : nat := 10.

Inductive Comment : Set :=
| COMMENT_NONE
| COMMENT_C
| COMMENT_CPLUS
| COMMENT_D.

Record conditionalInfo : Set := mkConditional {
  ignoreAllBranches : bool;
  singleBranch : bool;
  branchChosen : bool;
  ignoring : bool
}.

Inductive eState : Set :=
| DRCTV_NONE
| DRCTV_DEFINE
| DRCTV_HASH
| DRCTV_IF
| DRCTV_PRAGMA
| DRCTV_UNDEF.

(** [struct sDirective]. [nestLevel] is an [unsigned int] that the code
    only increments below 19 and only decrements above 0, so it never
    wraps; [ifdef] is the array of [MaxCppNestingLevel] frames; [name] is
    the text of the vString (empty also while the pointer is NULL). *)
Record sDirective : Set := mkDirective {
  state : eState;
  accept : bool;
  name : list Z;
  nestLevel : nat;
  ifdef : list conditionalInfo
}.

Record cppState : Set := mkCpp {
  ungetch : Z;
  ungetch2 : Z;
  resolveRequired : bool;
  hasAtLiteralStrings : bool;
  hasCxxRawLiteralStrings : bool;
  directive : sDirective
}.

Definition noConditional : conditionalInfo :=
  mkConditional false false false false.

(** The initial value of the static [Cpp]; the frames the initialiser
    does not list are zero. *)
Definition Cpp_static : cppState :=
  mkCpp 0 0 false false false
    (mkDirective DRCTV_NONE false [] 0
       (replicate MaxCppNestingLevel noConditional)).

(** The globals of get.c: [BraceFormat] and [Cpp]. *)
Record cppGlobals : Set := mkGlobals {
  BraceFormat : bool;
  Cpp : cppState
}.

Definition set_directive (d : sDirective) (s : cppState) : cppState :=
  mkCpp (ungetch s) (ungetch2 s) (resolveRequired s)
    (hasAtLiteralStrings s) (hasCxxRawLiteralStrings s) d.

Definition set_resolveRequired (b : bool) (s : cppState) : cppState :=
  mkCpp (ungetch s) (ungetch2 s) b
    (hasAtLiteralStrings s) (hasCxxRawLiteralStrings s) (directive s).

Definition set_state (st : eState) (d : sDirective) : sDirective :=
  mkDirective st (accept d) (name d) (nestLevel d) (ifdef d).

Definition set_accept (a : bool) (d : sDirective) : sDirective :=
  mkDirective (state d) a (name d) (nestLevel d) (ifdef d).

Definition set_name (n : list Z) (d : sDirective) : sDirective :=
  mkDirective (state d) (accept d) n (nestLevel d) (ifdef d).

Definition set_nestLevel (n : nat) (d : sDirective) : sDirective :=
  mkDirective (state d) (accept d) (name d) n (ifdef d).

(** [Cpp.directive.ifdef [n]] *)
Definition frame (d : sDirective) (n : nat) : conditionalInfo :=
  nth n (ifdef d) noConditional.

(** [Cpp.directive.ifdef [n] = f] *)
Definition set_frame (n : nat) (f : conditionalInfo) (d : sDirective)
  : sDirective :=
  mkDirective (state d) (accept d) (name d) (nestLevel d)
    (<[n := f]> (ifdef d)).

Definition isBraceFormat (g : cppGlobals) : bool := BraceFormat g.

Definition getDirectiveNestLevel (g : cppGlobals) : nat :=
  nestLevel (directive (Cpp g)).

Definition cppInit (state0 hasAt hasRaw : bool) (g : cppGlobals)
  : cppGlobals :=
  let d := directive (Cpp g) in
  mkGlobals state0
    (mkCpp 0 0 false hasAt hasRaw
       (mkDirective DRCTV_NONE true [] 0
          (<[0%nat := noConditional]> (ifdef d)))).

Definition cppTerminate (g : cppGlobals) : cppGlobals :=
  mkGlobals (BraceFormat g)
    (set_directive (set_name [] (directive (Cpp g))) (Cpp g)).

Definition cppBeginStatement (g : cppGlobals) : cppGlobals :=
  mkGlobals (BraceFormat g) (set_resolveRequired true (Cpp g)).

Definition cppEndStatement (g : cppGlobals) : cppGlobals :=
  mkGlobals (BraceFormat g) (set_resolveRequired false (Cpp g)).

(** Modelled from the spec: the macro [Assert] of debug.h checks its
    condition in a debug build, where a failure ends the program, and is
    compiled out of a release build. [cppUngetc_Assert] is the condition
    [Cpp.ungetch2 == 0] that [cppUngetc] asserts: the second slot is
    free. *)
Definition cppUngetc_Assert (g : cppGlobals) : bool :=
  ungetch2 (Cpp g) =? 0.

(** The two stores of [cppUngetc]: the whole function where the [Assert]
    is compiled out, and what follows the [Assert] where it is checked. *)
Definition cppUngetc (c : Z) (g : cppGlobals) : cppGlobals :=
  let s := Cpp g in
  mkGlobals (BraceFormat g)
    (mkCpp c (ungetch s) (resolveRequired s) (hasAtLiteralStrings s)
       (hasCxxRawLiteralStrings s) (directive s)).

(** [cppUngetc] with the [Assert] checked: [None] when it fails. *)
Definition cppUngetc_checked (c : Z) (g : cppGlobals)
  : option cppGlobals :=
  if cppUngetc_Assert g then Some (cppUngetc c g) else None.

(** *** The conditional stack *)

Section Conditionals.

(** [Option.if0], [BraceFormat] and [Cpp.resolveRequired], which these
    functions read and do not write. *)
Variable Option_if0 : bool.
Variable BraceFormat_ : bool.
Variable resolveRequired_ : bool.

(** [currentConditional ()] is the frame at [nestLevel]. *)
Definition currentConditional (d : sDirective) : conditionalInfo :=
  frame d (nestLevel d).

Definition isIgnore (d : sDirective) : bool :=
  ignoring (frame d (nestLevel d)).

Definition setIgnore (ignore : bool) (d : sDirective)
  : bool * sDirective :=
  let f := frame d (nestLevel d) in
  (ignore,
   set_frame (nestLevel d)
     (mkConditional (ignoreAllBranches f) (singleBranch f)
        (branchChosen f) ignore) d).

Definition isIgnoreBranch (d : sDirective) : bool * sDirective :=
  let d1 :=
    if resolveRequired_ && negb BraceFormat_ then
      let f := currentConditional d in
      set_frame (nestLevel d)
        (mkConditional (ignoreAllBranches f) true (branchChosen f)
           (ignoring f)) d
    else d in
  let f := currentConditional d1 in
  (ignoreAllBranches f || (branchChosen f && singleBranch f), d1).

Definition chooseBranch (d : sDirective) : sDirective :=
  if negb BraceFormat_ then
    let f := currentConditional d in
    set_frame (nestLevel d)
      (mkConditional (ignoreAllBranches f) (singleBranch f)
         (singleBranch f || resolveRequired_) (ignoring f)) d
  else d.

Definition pushConditional (firstBranchChosen : bool) (d : sDirective)
  : bool * sDirective :=
  let ignoreAllBranches_ := isIgnore d in
  if (nestLevel d <? MaxCppNestingLevel - 1)%nat then
    let d1 := set_nestLevel (S (nestLevel d)) d in
    let singleBranch_ := resolveRequired_ in
    let ignoring_ :=
      ignoreAllBranches_
      || (negb firstBranchChosen && negb BraceFormat_
          && (singleBranch_ || negb Option_if0)) in
    (ignoring_,
     set_frame (nestLevel d1)
       (mkConditional ignoreAllBranches_ singleBranch_ firstBranchChosen
          ignoring_) d1)
  else (false, d).

Definition popConditional (d : sDirective) : bool * sDirective :=
  let d1 :=
    if (0 <? nestLevel d)%nat then set_nestLevel (nestLevel d - 1) d
    else d in
  (isIgnore d1, d1).

End Conditionals.

(** *** State passing *)

Definition St (S A : Type) : Type := S -> A * S.

Definition ret {S A : Type} (a : A) : St S A := fun s => (a, s).

Definition bind {S A B : Type} (m : St S A) (k : A -> St S B) : St S B :=
  fun s => let (a, s') := m s in k a s'.

Notation "'do' x <- m ; k" := (bind m (fun x => k))
  (at level 10, x name, m at level 100, k at level 200).

Notation "m ;; k" := (bind m (fun _ => k))
  (at level 100, k at level 200, right associativity).

(** *** The input file *)

(** The byte reader of read.c is not under src/. The spec has it as
    [readByte], [unreadByte] and [nthPrevByte]: reading past the end
    gives [EOF], a pushed-back character is delivered next, and the n-th
    previous byte is counted back from the read head. *)

(** Modelled from the spec: the input file, as the bytes behind the read
    head (nearest first) and what is still to be delivered (the
    pushed-back characters in front). *)
Record inputFile : Set := mkFile {
  f_prev : list Z;
  f_ahead : list Z
}.

(** Modelled from the spec: [getcFromInputFile ()] delivers the next
    character and moves the read head over it; at the end of the input it
    delivers [EOF]. *)
Definition getcFromInputFile : St inputFile Z :=
  fun f =>
    match f_ahead f with
    | [] => (EOF, f)
    | c :: rest => (c, mkFile (c :: f_prev f) rest)
    end.

(** Modelled from the spec: [fileUngetc (c)] moves the read head back by
    one and makes [c] the next character delivered. *)
Definition fileUngetc (c : Z) : St inputFile unit :=
  fun f => (tt, mkFile (tl (f_prev f)) (c :: f_ahead f)).

(** Modelled from the spec: [fileGetNthPrevC (n, def)] is the n-th byte
    behind the read head, the one read last being number 0, and [def]
    when there is none. *)
Definition fileGetNthPrevC (n : nat) (def : Z) : St inputFile Z :=
  fun f => (nth n (f_prev f) def, f).

(** A file that starts at its first byte. *)
Definition file_of (l : list Z) : inputFile := mkFile [] l.

(** A loop that reads the file at least once per turn ends after at most
    one turn per pending character and one more for [EOF]. *)
Definition turns (f : inputFile) : nat := S (length (f_ahead f)).

(** *** Reading a directive and an identifier *)

(** The [for] loop of [readDirective]: [n] turns are left, the result is
    the final [i] and [c] and the array. *)
Fixpoint readDirective_loop (n i : nat) (c : Z) (name : list Z)
  : St inputFile (nat * Z * list Z) :=
  match n with
  | O => ret (i, c, name)
  | S n' =>
      if (0 <? i)%nat then
        do c' <- getcFromInputFile ;
        if (c' =? EOF) || negb (isalpha c') then
          fileUngetc c' ;; ret (i, c', name)
        else readDirective_loop n' (S i) c' (<[i := c']> name)
      else readDirective_loop n' (S i) c (<[i := c]> name)
  end.

(** [readDirective (c, name, maxLength)]: the returned flag and the
    array. *)
Definition readDirective (c : Z) (name : list Z) (maxLength : nat)
  : St inputFile (bool * list Z) :=
  do r <- readDirective_loop (maxLength - 1) 0 c name ;
  let '(i, c', name') := r in
  ret (isspacetab c', <[i := 0]> name').

Fixpoint readIdentifier_loop (fuel : nat) (c : Z) (name : list Z)
  : St inputFile (Z * list Z) :=
  match fuel with
  | O => ret (c, name)
  | S fuel' =>
      let name' := name ++ [c] in
      do c' <- getcFromInputFile ;
      if negb (c' =? EOF) && isident c' then
        readIdentifier_loop fuel' c' name'
      else ret (c', name')
  end.

(** [readIdentifier (c, name)]: the text left in [name]. *)
Definition readIdentifier (c : Z) : St inputFile (list Z) :=
  fun f =>
    (do r <- readIdentifier_loop (turns f) c [] ;
     fileUngetc (fst r) ;;
     ret (snd r)) f.

(** *** Comments, strings and character literals *)

Definition isComment : St inputFile Comment :=
  do next <- getcFromInputFile ;
  if next =? chr "*" then ret COMMENT_C
  else if next =? chr "/" then ret COMMENT_CPLUS
  else if next =? chr "+" then ret COMMENT_D
  else fileUngetc next ;; ret COMMENT_NONE.

(** The [while] loop shared in shape by [skipOverCComment] and
    [skipOverDComment]; [star] is ["*"] or ["+"]. *)
Fixpoint skipOverComment_loop (star : Z) (fuel : nat) (c : Z)
  : St inputFile Z :=
  match fuel with
  | O => ret c
  | S fuel' =>
      if negb (c =? EOF) then
        if negb (c =? star) then
          do c' <- getcFromInputFile ;
          skipOverComment_loop star fuel' c'
        else
          do next <- getcFromInputFile ;
          if negb (next =? chr "/") then
            skipOverComment_loop star fuel' next
          else ret SPACE
      else ret c
  end.

Definition skipOverCComment : St inputFile Z :=
  fun f =>
    (do c <- getcFromInputFile ;
     skipOverComment_loop (chr "*") (turns f) c) f.

Definition skipOverDComment : St inputFile Z :=
  fun f =>
    (do c <- getcFromInputFile ;
     skipOverComment_loop (chr "+") (turns f) c) f.

Fixpoint skipOverCplusComment_loop (fuel : nat) : St inputFile Z :=
  match fuel with
  | O => ret EOF
  | S fuel' =>
      do c <- getcFromInputFile ;
      if negb (c =? EOF) then
        if c =? BACKSLASH then
          getcFromInputFile ;; skipOverCplusComment_loop fuel'
        else if c =? NEWLINE then ret c
        else skipOverCplusComment_loop fuel'
      else ret c
  end.

Definition skipOverCplusComment : St inputFile Z :=
  fun f => skipOverCplusComment_loop (turns f) f.

Fixpoint skipToEndOfString_loop (ignoreBackslash : bool) (fuel : nat)
  : St inputFile unit :=
  match fuel with
  | O => ret tt
  | S fuel' =>
      do c <- getcFromInputFile ;
      if negb (c =? EOF) then
        if (c =? BACKSLASH) && negb ignoreBackslash then
          getcFromInputFile ;;
          skipToEndOfString_loop ignoreBackslash fuel'
        else if c =? DOUBLE_QUOTE then ret tt
        else skipToEndOfString_loop ignoreBackslash fuel'
      else ret tt
  end.

Definition skipToEndOfString (ignoreBackslash : bool) : St inputFile Z :=
  fun f =>
    (skipToEndOfString_loop ignoreBackslash (turns f) ;;
     ret STRING_SYMBOL) f.

Definition isCxxRawLiteralDelimiterChar (c : Z) : bool :=
  negb (c =? chr " ") && negb (c =? chr "012") && negb (c =? chr "010")
  && negb (c =? chr "013") && negb (c =? chr "009")
  && negb (c =? chr "011") && negb (c =? chr "(") && negb (c =? chr ")")
  && negb (c =? chr "\").

(** [delim[delimLen++] = c]: the [int] is stored into a [char]. [char] is
    taken eight bits wide and signed, as the compilers of the usual
    targets have it (the choice is the implementation's): a byte from 128
    on is stored as a negative number, and then equals no character that
    [getcFromInputFile] returns. *)
Definition to_char (c : Z) : Z := (c + 128) mod 256 - 128.

(** [while ((c = getcFromInputFile ()) != EOF && i < delimLen &&
    delim[i] == c) i++;] of [skipToEndOfCxxRawLiteralString]: the final
    [c] and [i]; [delim] holds the stored [char]s, which the comparison
    promotes to [int]. The loop ends after at most [delimLen + 1]
    turns. *)
Fixpoint rawDelim_loop (fuel : nat) (delim : list Z) (i : nat)
  : St inputFile (Z * nat) :=
  match fuel with
  | O => ret (EOF, i)
  | S fuel' =>
      do c <- getcFromInputFile ;
      if negb (c =? EOF) && (i <? length delim)%nat
         && (nth i delim 0 =? c)
      then rawDelim_loop fuel' delim (S i)
      else ret (c, i)
  end.

(** The [do ... while] loop of [skipToEndOfCxxRawLiteralString]. *)
Fixpoint rawLiteral_loop (fuel : nat) (c : Z) (delim : list Z)
  (collectDelim : bool) : St inputFile unit :=
  match fuel with
  | O => ret tt
  | S fuel' =>
      let next (delim' : list Z) (collect' : bool) : St inputFile unit :=
        do c' <- getcFromInputFile ;
        if negb (c' =? EOF) then rawLiteral_loop fuel' c' delim' collect'
        else ret tt in
      if collectDelim then
        if isCxxRawLiteralDelimiterChar c && (length delim <? 16)%nat
        then next (delim ++ [to_char c]) true
        else next delim false
      else if c =? chr ")" then
        do r <- rawDelim_loop (S (length delim)) delim 0 ;
        if Nat.eqb (snd r) (length delim) && (fst r =? DOUBLE_QUOTE)
        then ret tt
        else fileUngetc (fst r) ;; next delim false
      else next delim false
  end.

Definition skipToEndOfCxxRawLiteralString : St inputFile Z :=
  fun f =>
    (do c <- getcFromInputFile ;
     if negb (c =? chr "(") && negb (isCxxRawLiteralDelimiterChar c) then
       fileUngetc c ;; skipToEndOfString false
     else
       rawLiteral_loop (S (turns f)) c [] true ;; ret STRING_SYMBOL) f.

(** [strchr ("DHOB", c) != NULL]; the terminating NUL of the literal is
    found too. *)
Definition in_DHOB (c : Z) : bool :=
  (c =? chr "D") || (c =? chr "H") || (c =? chr "O") || (c =? chr "B")
  || (c =? 0).

Fixpoint skipToEndOfChar_loop (fuel : nat) (count veraBase : Z)
  : St inputFile unit :=
  match fuel with
  | O => ret tt
  | S fuel' =>
      do c <- getcFromInputFile ;
      if negb (c =? EOF) then
        let count' := count + 1 in
        if c =? BACKSLASH then
          getcFromInputFile ;; skipToEndOfChar_loop fuel' count' veraBase
        else if c =? SINGLE_QUOTE then ret tt
        else if c =? NEWLINE then fileUngetc c
        else if (count' =? 1) && in_DHOB (toupper c) then
          skipToEndOfChar_loop fuel' count' c
        else if negb (veraBase =? 0) && negb (isalnum c) then fileUngetc c
        else skipToEndOfChar_loop fuel' count' veraBase
      else ret tt
  end.

Definition skipToEndOfChar : St inputFile Z :=
  fun f => (skipToEndOfChar_loop (turns f) 0 0 ;; ret CHAR_SYMBOL) f.

(** *** The scanner *)

(** A tag handed to [makeTagEntry]: the fields [makeDefineTag] sets.
    [te_parameterized] stands for the signature, which
    [getArglistFromFilePos] reads back from the file (leaving the file
    position as it found it). *)
Record tagEntryInfo : Set := mkTag {
  te_name : list Z;
  te_lineNumberEntry : bool;
  te_isFileScope : bool;
  te_parameterized : bool
}.

(** What the scanner reads from outside get.c: [Option.if0],
    [Option.include.fileScope], [Option.locate != EX_PATTERN],
    [includingDefineTags ()] and [isHeaderFile ()]. *)
Record options : Set := mkOptions {
  if0 : bool;
  include_fileScope : bool;
  locate_not_pattern : bool;
  includingDefineTags : bool;
  isHeaderFile : bool
}.

(** What a call of [cppGetc] works on: [Cpp.directive], the input file
    and the tags made so far. The other fields of [Cpp] and [BraceFormat]
    are only read while it scans. *)
Record scanner : Set := mkScanner {
  sc_directive : sDirective;
  sc_file : inputFile;
  sc_tags : list tagEntryInfo
}.

Definition M (A : Type) : Type := St scanner A.

Definition onFile {A : Type} (m : St inputFile A) : M A :=
  fun s =>
    let (a, f) := m (sc_file s) in
    (a, mkScanner (sc_directive s) f (sc_tags s)).

Definition onDirective {A : Type} (m : sDirective -> A * sDirective)
  : M A :=
  fun s =>
    let (a, d) := m (sc_directive s) in
    (a, mkScanner d (sc_file s) (sc_tags s)).

Definition getDirective {A : Type} (p : sDirective -> A) : M A :=
  fun s => (p (sc_directive s), s).

Definition setDirective (u : sDirective -> sDirective) : M unit :=
  fun s => (tt, mkScanner (u (sc_directive s)) (sc_file s) (sc_tags s)).

Definition makeTagEntry (e : tagEntryInfo) : M unit :=
  fun s =>
    (tt, mkScanner (sc_directive s) (sc_file s) (sc_tags s ++ [e])).

Section Scanner.

Variable Option : options.
Variable BraceFormat_ : bool.
Variable resolveRequired_ : bool.
Variable hasAtLiteralStrings_ : bool.
Variable hasCxxRawLiteralStrings_ : bool.

Definition makeDefineTag (name : list Z) (parameterized : bool) : M unit :=
  let isFileScope := negb (isHeaderFile Option) in
  if includingDefineTags Option
     && (negb isFileScope || include_fileScope Option)
  then
    makeTagEntry
      (mkTag name (locate_not_pattern Option) isFileScope parameterized)
  else ret tt.

Definition directiveDefine (c : Z) : M unit :=
  (if isident1 c then
     do name <- onFile (readIdentifier c) ;
     setDirective (set_name name) ;;
     do nc <- onFile getcFromInputFile ;
     onFile (fileUngetc nc) ;;
     let parameterized := nc =? chr "(" in
     do ign <- getDirective isIgnore ;
     if negb ign then makeDefineTag name parameterized else ret tt
   else ret tt) ;;
  setDirective (set_state DRCTV_NONE).

(** [do c = getcFromInputFile (); while (c == SPACE);] *)
Fixpoint skipSpaces_loop (fuel : nat) : St inputFile Z :=
  match fuel with
  | O => ret SPACE
  | S fuel' =>
      do c <- getcFromInputFile ;
      if c =? SPACE then skipSpaces_loop fuel' else ret c
  end.

Definition directivePragma (c : Z) : M unit :=
  (if isident1 c then
     do name <- onFile (readIdentifier c) ;
     setDirective (set_name name) ;;
     if bool_decide (name = str "weak") then
       do c' <- onFile (fun f => skipSpaces_loop (turns f) f) ;
       if isident1 c' then
         do name' <- onFile (readIdentifier c') ;
         setDirective (set_name name') ;;
         makeDefineTag name' false
       else ret tt
     else ret tt
   else ret tt) ;;
  setDirective (set_state DRCTV_NONE).

Definition directiveIf (c : Z) : M bool :=
  do ignore <-
    onDirective
      (pushConditional (if0 Option) BraceFormat_ resolveRequired_
         (negb (c =? chr "0"))) ;
  setDirective (set_state DRCTV_NONE) ;;
  ret ignore.

(** [strncmp (directive, "if", (size_t) 2) == 0] *)
Definition starts_if (directive : list Z) : bool :=
  (nth 0 directive 0 =? chr "i") && (nth 1 directive 0 =? chr "f").

(** [directiveHash]; the local array [directive] is not initialised in
    the source, and no cell is read that [readDirective] has not
    written. *)
Definition directiveHash (c : Z) : M bool :=
  do r <- onFile (readDirective c (replicate MaxDirectiveName 0)
                    MaxDirectiveName) ;
  let directive := snd r in
  if stringMatch directive "define" then
    setDirective (set_state DRCTV_DEFINE) ;; ret false
  else if stringMatch directive "undef" then
    setDirective (set_state DRCTV_UNDEF) ;; ret false
  else if starts_if directive then
    setDirective (set_state DRCTV_IF) ;; ret false
  else if stringMatch directive "elif" || stringMatch directive "else"
  then
    do b <- onDirective (isIgnoreBranch BraceFormat_ resolveRequired_) ;
    do ignore <- onDirective (setIgnore b) ;
    (if negb ignore && stringMatch directive "else" then
       setDirective (chooseBranch BraceFormat_ resolveRequired_)
     else ret tt) ;;
    setDirective (set_state DRCTV_NONE) ;;
    ret ignore
  else if stringMatch directive "endif" then
    do ignore <- onDirective popConditional ;
    setDirective (set_state DRCTV_NONE) ;;
    ret ignore
  else if stringMatch directive "pragma" then
    setDirective (set_state DRCTV_PRAGMA) ;; ret false
  else
    setDirective (set_state DRCTV_NONE) ;; ret false.

Definition handleDirective (c : Z) : M bool :=
  do ignore <- getDirective isIgnore ;
  do st <- getDirective state ;
  match st with
  | DRCTV_NONE => getDirective isIgnore
  | DRCTV_DEFINE => directiveDefine c ;; ret ignore
  | DRCTV_HASH => directiveHash c
  | DRCTV_IF => directiveIf c
  | DRCTV_PRAGMA => directivePragma c ;; ret ignore
  | DRCTV_UNDEF => directiveDefine c ;; ret ignore
  end.

(** The locals of [cppGetc] that live across the loop: [c], [directive]
    and [ignore]. *)
Definition locals : Set := (Z * bool * bool)%type.

(** The label [enter]. *)
Definition cppGetc_enter (c : Z) (directive ignore : bool) : M locals :=
  setDirective (set_accept false) ;;
  if directive then
    do ignore' <- handleDirective c ;
    ret (c, directive, ignore')
  else ret (c, directive, ignore).

(** [case '#'], also reached by [goto process]. *)
Definition cppGetc_hash (c : Z) (directive ignore : bool) : M locals :=
  do acc <- getDirective accept ;
  if acc then
    setDirective (set_state DRCTV_HASH) ;;
    setDirective (set_accept false) ;;
    ret (c, true, ignore)
  else ret (c, directive, ignore).

(** [case BACKSLASH], also reached by [goto process]. In a
    [do ... while] loop [continue] goes to the test of the loop, as the
    end of the [switch] does. *)
Definition cppGetc_backslash (c : Z) (directive ignore : bool)
  : M locals :=
  do next <- onFile getcFromInputFile ;
  if next =? NEWLINE then ret (c, directive, ignore)
  else onFile (fileUngetc next) ;; ret (c, directive, ignore).

Definition cppGetc_trigraph (c : Z) (directive ignore : bool)
  : M locals :=
  do next <- onFile getcFromInputFile ;
  if negb (next =? chr "?") then
    onFile (fileUngetc next) ;; ret (c, directive, ignore)
  else
    do next <- onFile getcFromInputFile ;
    if next =? chr "(" then ret (chr "[", directive, ignore)
    else if next =? chr ")" then ret (chr "]", directive, ignore)
    else if next =? chr "<" then ret (chr "{", directive, ignore)
    else if next =? chr ">" then ret (chr "}", directive, ignore)
    else if next =? chr "/" then
      cppGetc_backslash BACKSLASH directive ignore
    else if next =? chr "!" then ret (chr "|", directive, ignore)
    else if next =? SINGLE_QUOTE then ret (chr "^", directive, ignore)
    else if next =? chr "-" then ret (chr "~", directive, ignore)
    else if next =? chr "=" then cppGetc_hash (chr "#") directive ignore
    else
      onFile (fileUngetc (chr "?")) ;;
      onFile (fileUngetc next) ;;
      ret (c, directive, ignore).

(** The [default] case up to the label [enter]: [Some c'] when it leaves
    the [switch] with a string skipped, [None] when it falls through to
    [enter]. *)
Definition cppGetc_literal (c : Z) : M (option Z) :=
  if (c =? chr "@") && hasAtLiteralStrings_ then
    do next <- onFile getcFromInputFile ;
    if next =? DOUBLE_QUOTE then
      setDirective (set_accept false) ;;
      do c' <- onFile (skipToEndOfString true) ;
      ret (Some c')
    else onFile (fileUngetc next) ;; ret None
  else if (c =? chr "R") && hasCxxRawLiteralStrings_ then
    do prev <- onFile (fileGetNthPrevC 1 0) ;
    do prev2 <- onFile (fileGetNthPrevC 2 0) ;
    do prev3 <- onFile (fileGetNthPrevC 3 0) ;
    if negb (isident prev)
       || (negb (isident prev2)
           && ((prev =? chr "L") || (prev =? chr "u")
               || (prev =? chr "U")))
       || (negb (isident prev3)
           && ((prev2 =? chr "u") && (prev =? chr "8")))
    then
      do next <- onFile getcFromInputFile ;
      if negb (next =? DOUBLE_QUOTE) then
        onFile (fileUngetc next) ;; ret None
      else
        setDirective (set_accept false) ;;
        do c' <- onFile skipToEndOfCxxRawLiteralString ;
        ret (Some c')
    else ret None
  else ret None.

(** The [switch] of [cppGetc], entered at the label [process]: the
    locals when the test of the loop is reached. *)
Definition cppGetc_process (c : Z) (directive ignore : bool) : M locals :=
  if c =? EOF then ret (c, false, false)
  else if (c =? TAB) || (c =? SPACE) then ret (c, directive, ignore)
  else if c =? NEWLINE then
    setDirective (set_accept true) ;;
    ret (c, if directive && negb ignore then false else directive, ignore)
  else if c =? DOUBLE_QUOTE then
    setDirective (set_accept false) ;;
    do c' <- onFile (skipToEndOfString false) ;
    ret (c', directive, ignore)
  else if c =? chr "#" then cppGetc_hash c directive ignore
  else if c =? SINGLE_QUOTE then
    setDirective (set_accept false) ;;
    do c' <- onFile skipToEndOfChar ;
    ret (c', directive, ignore)
  else if c =? chr "/" then
    do comment <- onFile isComment ;
    match comment with
    | COMMENT_C =>
        do c' <- onFile skipOverCComment ;
        ret (c', directive, ignore)
    | COMMENT_CPLUS =>
        do c' <- onFile skipOverCplusComment ;
        (if c' =? NEWLINE then onFile (fileUngetc c') else ret tt) ;;
        ret (c', directive, ignore)
    | COMMENT_D =>
        do c' <- onFile skipOverDComment ;
        ret (c', directive, ignore)
    | COMMENT_NONE =>
        setDirective (set_accept false) ;;
        ret (c, directive, ignore)
    end
  else if c =? BACKSLASH then cppGetc_backslash c directive ignore
  else if c =? chr "?" then cppGetc_trigraph c directive ignore
  else if c =? chr "<" then
    do next <- onFile getcFromInputFile ;
    if next =? chr ":" then cppGetc_enter (chr "[") directive ignore
    else if next =? chr "%" then cppGetc_enter (chr "{") directive ignore
    else onFile (fileUngetc next) ;; cppGetc_enter c directive ignore
  else if c =? chr ":" then
    do next <- onFile getcFromInputFile ;
    if next =? chr ">" then cppGetc_enter (chr "]") directive ignore
    else onFile (fileUngetc next) ;; cppGetc_enter c directive ignore
  else if c =? chr "%" then
    do next <- onFile getcFromInputFile ;
    if next =? chr ">" then cppGetc_enter (chr "}") directive ignore
    else if next =? chr ":" then cppGetc_hash (chr "#") directive ignore
    else onFile (fileUngetc next) ;; cppGetc_enter c directive ignore
  else
    do r <- cppGetc_literal c ;
    match r with
    | Some c' => ret (c', directive, ignore)
    | None => cppGetc_enter c directive ignore
    end.

(** One turn of the [do ... while] loop of [cppGetc]: a character is
    read and the [switch] is run; the result is the locals when the test
    of the loop is reached. *)
Definition cppGetc_turn (directive ignore : bool) : M locals :=
  do c <- onFile getcFromInputFile ;
  cppGetc_process c directive ignore.

(** The [do ... while (directive || ignore)] loop of [cppGetc]; [None]
    when [fuel] turns were not enough. *)
Fixpoint cppGetc_loop (fuel : nat) (directive ignore : bool)
  (s : scanner) : option (Z * scanner) :=
  match fuel with
  | O => None
  | S fuel' =>
      let '((c', directive', ignore'), s2) :=
        cppGetc_turn directive ignore s in
      if directive' || ignore' then cppGetc_loop fuel' directive' ignore' s2
      else Some (c', s2)
  end.

End Scanner.

(** The whole state [cppGetc] runs in. *)
Record world : Set := mkWorld {
  w_globals : cppGlobals;
  w_file : inputFile;
  w_tags : list tagEntryInfo
}.

(** [cppGetc ()]: the character returned and the state after the call;
    [None] when [fuel] turns of the loop were not enough. *)
Definition cppGetc (Option : options) (fuel : nat) (w : world)
  : option (Z * world) :=
  let g := w_globals w in
  let s := Cpp g in
  if negb (ungetch s =? 0) then
    Some (ungetch s,
          mkWorld
            (mkGlobals (BraceFormat g)
               (mkCpp (ungetch2 s) 0 (resolveRequired s)
                  (hasAtLiteralStrings s) (hasCxxRawLiteralStrings s)
                  (directive s)))
            (w_file w) (w_tags w))
  else
    match
      cppGetc_loop Option (BraceFormat g) (resolveRequired s)
        (hasAtLiteralStrings s) (hasCxxRawLiteralStrings s) fuel
        false false (mkScanner (directive s) (w_file w) (w_tags w))
    with
    | None => None
    | Some (c, sc) =>
        Some (c,
              mkWorld
                (mkGlobals (BraceFormat g)
                   (set_directive (sc_directive sc) s))
                (sc_file sc) (sc_tags sc))
    end.

Definition world_cppUngetc (c : Z) (w : world) : world :=
  mkWorld (cppUngetc c (w_globals w)) (w_file w) (w_tags w).

(** A session on the text [l]: [cppInit] on the static state, the file
    at its first byte, no tag yet. *)
Definition session (braceFormat hasAt hasRaw : bool) (l : list Z)
  : world :=
  mkWorld (cppInit braceFormat hasAt hasRaw (mkGlobals false Cpp_static))
    (file_of l) [].

(** The characters [n] calls of [cppGetc] return, up to and with the
    first [EOF]. *)
Fixpoint cppGetc_calls (Option : options) (fuel n : nat) (w : world)
  : option (list Z) :=
  match n with
  | O => Some []
  | S n' =>
      match cppGetc Option fuel w with
      | None => None
      | Some (c, w') =>
          if c =? EOF then Some [c]
          else option_map (cons c) (cppGetc_calls Option fuel n' w')
      end
  end.

(** *** Sequences of calls *)

(** The calls that touch the conditional stack: [pushConditional] (from
    [#if]), [popConditional] (from [#endif]), the handling of [#elif] and
    of [#else] in [directiveHash], and the two statement marks. *)
Inductive cond_call : Set :=
| call_push (firstBranchChosen : bool)
| call_pop
| call_elif
| call_else
| call_beginStatement
| call_endStatement.

Definition on_directive (u : sDirective -> sDirective) (g : cppGlobals)
  : cppGlobals :=
  mkGlobals (BraceFormat g) (set_directive (u (directive (Cpp g))) (Cpp g)).

Definition branch_change (BraceFormat_ resolveRequired_ is_else : bool)
  (d : sDirective) : sDirective :=
  let (b, d1) := isIgnoreBranch BraceFormat_ resolveRequired_ d in
  let (ignore, d2) := setIgnore b d1 in
  if negb ignore && is_else
  then chooseBranch BraceFormat_ resolveRequired_ d2
  else d2.

Definition cond_step (Option_if0 : bool) (g : cppGlobals) (c : cond_call)
  : cppGlobals :=
  let bf := BraceFormat g in
  let rr := resolveRequired (Cpp g) in
  match c with
  | call_push b =>
      on_directive (fun d => snd (pushConditional Option_if0 bf rr b d)) g
  | call_pop => on_directive (fun d => snd (popConditional d)) g
  | call_elif => on_directive (branch_change bf rr false) g
  | call_else => on_directive (branch_change bf rr true) g
  | call_beginStatement => cppBeginStatement g
  | call_endStatement => cppEndStatement g
  end.

Definition cond_run (Option_if0 : bool) (calls : list cond_call)
  (g : cppGlobals) : cppGlobals :=
  fold_left (cond_step Option_if0) calls g.

(** The calls of the public pushback interface. *)
Inductive io_call : Set :=
| call_getc
| call_ungetc (c : Z).

Fixpoint io_run (Option : options) (fuel : nat) (calls : list io_call)
  (w : world) : option (list Z) :=
  match calls with
  | [] => Some []
  | call_getc :: rest =>
      match cppGetc Option fuel w with
      | None => None
      | Some (c, w') => option_map (cons c) (io_run Option fuel rest w')
      end
  | call_ungetc c :: rest => io_run Option fuel rest (world_cppUngetc c w)
  end.

(** The state with both pushback slots given. *)
Definition with_slots (u u2 : Z) (w : world) : world :=
  let g := w_globals w in
  let s := Cpp g in
  mkWorld
    (mkGlobals (BraceFormat g)
       (mkCpp u u2 (resolveRequired s) (hasAtLiteralStrings s)
          (hasCxxRawLiteralStrings s) (directive s)))
    (w_file w) (w_tags w).

(** *** Vocabulary of the claims about the skippers and the driver *)

(** A raw input text: bytes, so no [EOF] among them. *)
Definition no_EOF (l : list Z) : Prop := Forall (fun c => c <> EOF) l.

(** [comment_closes star l]: the text [l] holds [star] directly followed
    by ["/"], the end of a comment. *)
Fixpoint comment_closes (star : Z) (l : list Z) : bool :=
  match l with
  | [] => false
  | c :: r =>
      ((c =? star) && match r with
                      | x :: _ => x =? chr "/"
                      | [] => false
                      end)
      || comment_closes star r
  end.

(** [string_open ignoreBackslash l]: the text [l] after an opening double
    quote has no closing one. *)
Fixpoint string_open (ignoreBackslash : bool) (l : list Z) : bool :=
  match l with
  | [] => true
  | c :: r =>
      if (c =? BACKSLASH) && negb ignoreBackslash then
        match r with
        | [] => true
        | _ :: r' => string_open ignoreBackslash r'
        end
      else if c =? DOUBLE_QUOTE then false
      else string_open ignoreBackslash r
  end.

(** [char_open count veraBase l]: the text [l] inside a character literal
    ([count] characters in, [veraBase] as [skipToEndOfChar] has it) runs
    to the end of the input: no closing quote, no newline and no end of a
    Vera number comes first. *)
Fixpoint char_open (count veraBase : Z) (l : list Z) : bool :=
  match l with
  | [] => true
  | c :: r =>
      if c =? BACKSLASH then
        match r with
        | [] => true
        | _ :: r' => char_open (count + 1) veraBase r'
        end
      else if c =? SINGLE_QUOTE then false
      else if c =? NEWLINE then false
      else if (count + 1 =? 1) && in_DHOB (toupper c) then
        char_open (count + 1) c r
      else if negb (veraBase =? 0) && negb (isalnum c) then false
      else char_open (count + 1) veraBase r
  end.

(** The alphabetic characters [readDirective] takes from the input after
    the first one it is given: at most [n]. *)
Fixpoint alpha_run (n : nat) (l : list Z) : list Z :=
  match n, l with
  | S n', c :: r => if isalpha c then c :: alpha_run n' r else []
  | _, _ => []
  end.

(** [at_text w p l]: no character is pushed back and the file has [p]
    behind the read head and [l] in front of it. *)
Definition at_text (w : world) (p l : list Z) : Prop :=
  ungetch (Cpp (w_globals w)) = 0 /\ w_file w = mkFile p l.

(** Options for the examples: [if0] off, file-scope and define tags on,
    not a header file. *)
Definition plain_options : options := mkOptions false true true true false.

(** A suppressed branch, between two directive lines: no directive is
    being read and the current frame is ignoring. *)
Definition suppressed (d : sDirective) : Prop :=
  state d = DRCTV_NONE /\ isIgnore d = true.

(** [same_stack d d']: the conditional stack of [d'] is that of [d]. *)
Definition same_stack (d d' : sDirective) : Prop :=
  nestLevel d' = nestLevel d /\ ifdef d' = ifdef d.

(** An ordinary character: one at which [cppGetc] starts no literal, no
    comment, no directive, no line continuation, no trigraph and no
    digraph. *)
Definition ordinary (c : Z) : bool :=
  negb (c =? EOF) && negb (c =? DOUBLE_QUOTE) && negb (c =? chr "#")
  && negb (c =? SINGLE_QUOTE) && negb (c =? chr "/")
  && negb (c =? BACKSLASH) && negb (c =? chr "?") && negb (c =? chr "<")
  && negb (c =? chr ":") && negb (c =? chr "%").

(** The text of a conditional block: the line [#if 0], the lines of
    [body] and the line [#endif]. *)
Definition if0_block (body : list Z) : list Z :=
  str "#if 0" ++ [NEWLINE] ++ body ++ [NEWLINE] ++ str "#endif"
  ++ [NEWLINE].

(** [kept d d0]: [d0] has the conditional stack of [d] and is in a
    suppressed branch. *)
Definition kept (d d0 : sDirective) : Prop :=
  same_stack d d0 /\ suppressed d0.

(** What one turn of the loop of [cppGetc] does when it starts in a
    suppressed branch with the directive [d]: either it has read [EOF]
    and leaves the loop with it, or it stays in the loop ([directive] and
    [ignore] both set) with the conditional stack as it was, and the
    branch is still suppressed or a directive line has just begun. *)
Definition turn_suppressed (d : sDirective) (r : locals * scanner) : Prop :=
  (fst (fst (fst r)) = EOF /\ snd (fst (fst r)) = false
   /\ snd (fst r) = false)
  \/
  (snd (fst (fst r)) = true /\ snd (fst r) = true
   /\ same_stack d (sc_directive (snd r))
   /\ (suppressed (sc_directive (snd r))
       \/ state (sc_directive (snd r)) = DRCTV_HASH)).

(** [n] turns of the loop, started with [directive] and [ignore] set, in
    which no directive line begins. *)
Fixpoint no_directive_begins (Option : options)
  (bf rr hasAt hasRaw : bool) (n : nat) (s : scanner) : Prop :=
  match n with
  | O => True
  | S n' =>
      let s' := snd (cppGetc_turn Option bf rr hasAt hasRaw true true s) in
      state (sc_directive s') <> DRCTV_HASH
      /\ no_directive_begins Option bf rr hasAt hasRaw n' s'
  end.

(* ------------------------------------------------------------------ *)
(** ** Vocabulary of the further properties *)

(** The frames in use form a stack whose flags agree from one level to
    the next: a frame records in [ignoreAllBranches] whether the frame
    below it is ignoring, and a frame that ignores all its branches is
    ignoring. *)
Definition stack_inv (d : sDirective) : Prop :=
  length (ifdef d) = MaxCppNestingLevel /\
  (nestLevel d < MaxCppNestingLevel)%nat /\
  (forall n, (n < nestLevel d)%nat ->
     ignoreAllBranches (frame d (S n)) = ignoring (frame d n)) /\
  (forall n, (n <= nestLevel d)%nat ->
     ignoreAllBranches (frame d n) = true -> ignoring (frame d n) = true).

(** A call that neither opens nor closes a conditional. *)
Definition same_level (c : cond_call) : bool :=
  match c with
  | call_push _ | call_pop => false
  | _ => true
  end.

(** A call other than [cppBeginStatement]. *)
Definition no_begin (c : cond_call) : bool :=
  match c with
  | call_beginStatement => false
  | _ => true
  end.

(** An [#elif] or an [#else]. *)
Definition is_branch_change (c : cond_call) : bool :=
  match c with
  | call_elif | call_else => true
  | _ => false
  end.

(** What a character adds to the input still to be scanned: a pushed-back
    [EOF] adds nothing. *)
Definition weight (c : Z) : nat := if c =? EOF then 0%nat else 1%nat.

(** The characters of a file that are still to be scanned. *)
Definition pending (f : inputFile) : nat :=
  list_sum (map weight (f_ahead f)).

(** The options under which [makeDefineTag] makes no tag. *)
Definition tags_disabled (O : options) : bool :=
  negb (includingDefineTags O)
  || (negb (isHeaderFile O) && negb (include_fileScope O)).

(** [tags_grow O old new]: the tags [new] are the tags [old] followed by
    tags whose flags are those the options [O] give, and by none when
    the options disable them. *)
Definition tags_grow (O : options) (old new : list tagEntryInfo) : Prop :=
  exists added,
    new = old ++ added /\
    Forall (fun e => te_lineNumberEntry e = locate_not_pattern O /\
                     te_isFileScope e = negb (isHeaderFile O)) added /\
    (tags_disabled O = true -> added = []).

(** A value that is neither of the two quote characters. *)
Definition no_quote (c : Z) : Prop :=
  c <> DOUBLE_QUOTE /\ c <> SINGLE_QUOTE.

(** A value on which the loop of [cppGetc] can end a line: the newline
    or [EOF]. *)
Definition line_end (c : Z) : Prop := c = NEWLINE \/ c = EOF.

Close Scope Z_scope.
Open Scope char_scope.

(** A byte of [stripCodeBuffer]'s input that is copied or blanked where
    it stands outside comments and literals: no slash, no quote, no
    backslash. *)
Definition code_byte (c : ascii) : bool :=
  negb (c =? "/") && negb (c =? "034") && negb (c =? "'")
  && negb (c =? "\").

(** [comment_body prevc body]: inside a C comment whose last byte read
    was [prevc], the text [body] neither closes the comment (no ["/"]
    directly after a ["*"]) nor holds a backslash. *)
Fixpoint comment_body (prevc : ascii) (body : list ascii) : bool :=
  match body with
  | [] => true
  | c :: rest =>
      negb (c =? "\") && negb ((c =? "/") && (prevc =? "*"))
      && comment_body c rest
  end.

(** A byte of the rest of a line that ends neither a C++ comment nor
    escapes: no newline, no backslash. *)
Definition line_byte (c : ascii) : bool :=
  negb (c =? "010") && negb (c =? "\").

(** A byte inside a literal opened by the quote [q] that neither closes
    it nor escapes. *)
Definition literal_byte (q c : ascii) : bool :=
  negb (c =? q) && negb (c =? "\").

Close Scope char_scope.
Open Scope Z_scope.

(** The tag [makeDefineTag] makes for [name] under the options [O]: one
    tag, or none when the options exclude it. *)
Definition define_tag (O : options) (name : list Z) (parameterized : bool)
  : list tagEntryInfo :=
  if includingDefineTags O && (isHeaderFile O || include_fileScope O)
  then [mkTag name (locate_not_pattern O) (negb (isHeaderFile O))
          parameterized]
  else [].

(** A blank: the space or the tab. *)
Definition blank (c : Z) : bool := (c =? SPACE) || (c =? TAB).

(* ================================================================== *)
(** * Properties *)

Close Scope Z_scope.
Open Scope char_scope.

Example strip_ex1 :
  c_str (stripCodeBuffer (buffer_of "f( a /* x */ ,  b )// t")) =
  list_ascii_of_string "f( a , b )".
Proof. vm_compute. reflexivity. Qed.

Example strip_ex2 :
  stripped (list_ascii_of_string "f( a /* x */ ,  b )// t") =
  list_ascii_of_string "f( a , b )".
Proof. vm_compute. reflexivity. Qed.

Example arglist_ex1 :
  fst (getArglistFromStr (Some (buffer_of "#define ADD(a, (b)) a+b"))
         (Some (buffer_of "ADD"))) =
  Some (list_ascii_of_string "(a, (b))").
Proof. vm_compute. reflexivity. Qed.

(** ** stripCodeBuffer: the buffer against the text *)

Lemma rd_app_drop (out B : list ascii) (j : nat) :
  length out <= j -> rd (out ++ drop (length out) B) j = rd B j.
Proof.
  intros Hj. unfold rd.
  rewrite app_nth2 by lia.
  rewrite <- (take_drop (length out) B) at 2.
  destruct (Nat.le_gt_cases (length B) (length out)) as [Hl | Hl].
  - rewrite drop_ge by lia. rewrite take_ge by lia.
    rewrite app_nil_r.
    rewrite (nth_overflow B) by lia.
    destruct (j - length out); reflexivity.
  - rewrite app_nth2; rewrite length_take; try lia.
    replace (length out `min` length B) with (length out) by lia.
    reflexivity.
Qed.

Lemma rd_app_last (out X : list ascii) :
  out <> [] -> rd (out ++ X) (length out - 1) = List.last out " ".
Proof.
  intros Hne. unfold rd.
  destruct (exists_last Hne) as [o [x ->]].
  rewrite length_app. simpl.
  rewrite List.last_last.
  rewrite <- app_assoc. simpl.
  rewrite app_nth2 by lia.
  replace (length o + 1 - 1 - length o) with 0 by lia. reflexivity.
Qed.

Lemma wr_app_drop (out B : list ascii) (c : ascii) :
  length out < length B ->
  wr (out ++ drop (length out) B) (length out) c =
  (out ++ [c]) ++ drop (length (out ++ [c])) B.
Proof.
  intros Hl. unfold wr.
  rewrite insert_app_r_alt by lia.
  rewrite Nat.sub_diag.
  rewrite length_app. simpl.
  rewrite <- app_assoc. apply (f_equal (app out)).
  replace (length out + 1) with (length out + 1) by lia.
  rewrite <- drop_drop.
  destruct (drop (length out) B) as [| x r] eqn:E.
  - apply (f_equal length) in E. rewrite length_drop in E. simpl in E. lia.
  - reflexivity.
Qed.

Lemma put_space_spec (out B : list ascii) :
  length out < length B ->
  put_space (out ++ drop (length out) B) (length out) =
  (apply_action Blank out ++ drop (length (apply_action Blank out)) B,
   length (apply_action Blank out)).
Proof.
  intros Hl. unfold put_space, apply_action.
  destruct out as [| o out'] eqn:E.
  - reflexivity.
  - rewrite <- E in *.
    assert (Hne : out <> []) by (subst; discriminate).
    replace (Nat.ltb 0 (length out)) with true
      by (symmetry; apply Nat.ltb_lt; subst; simpl; lia).
    rewrite rd_app_last by assumption. simpl.
    destruct (List.last out " " =? " "); simpl.
    + reflexivity.
    + rewrite wr_app_drop by assumption. rewrite length_app. simpl.
      f_equal. lia.
Qed.

Lemma strip_body_decide (B out : list ascii) (i : nat)
  (state prev : ParseState) (prevc : ascii) :
  length out <= i -> i < length B ->
  (state <> st_none_t -> length out < i) ->
  (state = st_c_comment_t -> rd B (i - 1) = prevc) ->
  forall a state' prev',
    strip_decide state prev prevc (rd B i) (rd B (i + 1)) =
      (a, state', prev') ->
    strip_body (mkStrip (out ++ drop (length out) B) i (length out)
                  state prev) =
    mkStrip (apply_action a out ++ drop (length (apply_action a out)) B)
      (S i) (length (apply_action a out)) state' prev'.
Proof.
  intros Hle Hi Hst Hprev a state' prev' Hd.
  assert (HlB : length out < length B) by lia.
  unfold strip_body; cbn [s_buf s_i s_pos s_state s_prev_state].
  rewrite !rd_app_drop by lia.
  unfold strip_decide in Hd.
  pose proof (put_space_spec out B HlB) as Hps.
  pose proof (fun c => wr_app_drop out B c HlB) as Hwr.
  destruct (rd B i =? "/").
  { destruct state; try (inversion Hd; subst; reflexivity).
    - destruct (rd B (i + 1) =? "*"); [inversion Hd; subst; reflexivity |].
      destruct (rd B (i + 1) =? "/"); inversion Hd; subst; try reflexivity.
      rewrite Hwr. cbn [apply_action]. rewrite !length_app.
      simpl. f_equal. lia.
    - rewrite rd_app_drop by (specialize (Hst ltac:(discriminate)); lia).
      rewrite (Hprev eq_refl).
      destruct (prevc =? "*"); inversion Hd; subst; try reflexivity.
      rewrite Hps. reflexivity. }
  destruct (rd B i =? "034").
  { destruct state; inversion Hd; subst; reflexivity. }
  destruct (rd B i =? "'").
  { destruct state; inversion Hd; subst; reflexivity. }
  destruct state; cbn [ParseState_eqb negb andb];
    rewrite ?andb_true_r, ?andb_false_r;
    try (destruct (rd B i =? "\"); inversion Hd; subst; reflexivity).
  - destruct (rd B i =? "\"); [inversion Hd; subst; reflexivity |].
    destruct (isspace (rd B i)); inversion Hd; subst.
    + rewrite Hps. reflexivity.
    + rewrite Hwr. cbn [apply_action]. rewrite !length_app.
      simpl. f_equal. lia.
  - destruct (rd B i =? "\"); [inversion Hd; subst; reflexivity |].
    destruct (rd B i =? "010"); inversion Hd; subst; try reflexivity.
    rewrite Hps. reflexivity.
Qed.

Lemma strip_decide_busy (state prev : ParseState) (prevc c nextc : ascii)
  (a : stripAction) (state' prev' : ParseState) :
  strip_decide state prev prevc c nextc = (a, state', prev') ->
  state' <> st_none_t -> a = Drop.
Proof.
  unfold strip_decide. intros Hd Hne.
  repeat match type of Hd with
         | context [if ?b then _ else _] => destruct b
         | context [match ?s with st_none_t => _ | _ => _ end] => destruct s
         end; inversion Hd; subst; try reflexivity; congruence.
Qed.

Lemma apply_action_length (a : stripAction) (out : list ascii) :
  length out <= length (apply_action a out) <= S (length out).
Proof.
  destruct a; simpl; try lia.
  - rewrite length_app. simpl. lia.
  - destruct (List.last out " " =? " "); try rewrite length_app; simpl; lia.
Qed.

Lemma strip_text_cons (state prev : ParseState) (prevc c : ascii)
  (out rest : list ascii) (a : stripAction) (state' prev' : ParseState) :
  strip_decide state prev prevc c (hd NUL rest) = (a, state', prev') ->
  out ++ strip_text state prev prevc (List.last out " ") (c :: rest) =
  apply_action a out ++
  strip_text state' prev' c (List.last (apply_action a out) " ") rest.
Proof.
  intros Hd. cbn [strip_text]. rewrite Hd.
  destruct a; cbn [apply_action].
  - reflexivity.
  - rewrite List.last_last. rewrite <- app_assoc. reflexivity.
  - destruct (List.last out " " =? " ") eqn:E.
    + reflexivity.
    + rewrite List.last_last. rewrite <- app_assoc. reflexivity.
Qed.

Lemma rd_middle (pre rest : list ascii) (c : ascii) :
  rd (pre ++ c :: rest) (length pre) = c.
Proof.
  unfold rd. rewrite app_nth2 by lia. rewrite Nat.sub_diag. reflexivity.
Qed.

Lemma rd_middle_next (pre rest t : list ascii) (c : ascii) :
  Forall (fun x => x <> NUL) rest ->
  rd (pre ++ c :: rest ++ NUL :: t) (length pre + 1) = hd NUL rest.
Proof.
  intros _. unfold rd. rewrite app_nth2 by lia.
  replace (length pre + 1 - length pre) with 1 by lia.
  destruct rest; reflexivity.
Qed.

Lemma strip_inv_init (s t : list ascii) :
  strip_inv s t (strip_init (s ++ NUL :: t)).
Proof.
  exists [], s, [], NUL. simpl. rewrite drop_0.
  repeat split; try reflexivity; try lia; try congruence.
Qed.

Lemma strip_inv_bounds (s t : list ascii) (v : stripVars) :
  strip_inv s t v -> s_pos v <= s_i v /\ s_i v <= length s.
Proof.
  intros (pre & rest & out & prevc & Hs & _ & Hi & Hpos & Hle & _).
  rewrite Hi, Hpos. split; [exact Hle |].
  rewrite Hs, length_app. lia.
Qed.

Lemma strip_inv_rd (s t : list ascii) (v : stripVars) :
  Forall (fun c => c <> NUL) s ->
  strip_inv s t v ->
  (rd (s_buf v) (s_i v) =? NUL) = Nat.eqb (s_i v) (length s).
Proof.
  intros Hnul (pre & rest & out & prevc & Hs & Hbuf & Hi & Hpos & Hle & _).
  rewrite Hbuf, Hi. rewrite rd_app_drop by lia.
  rewrite Hs. rewrite <- app_assoc, length_app.
  destruct rest as [| c rest].
  - simpl. rewrite rd_middle. rewrite Nat.add_0_r, Nat.eqb_refl.
    reflexivity.
  - cbn [app]. rewrite rd_middle.
    rewrite Hs in Hnul. apply Forall_app in Hnul as [_ Hnul].
    pose proof (Forall_inv Hnul) as Hc. simpl in Hc.
    destruct (c =? NUL) eqn:E.
    + apply Ascii.eqb_eq in E. contradiction.
    + symmetry. apply Nat.eqb_neq. simpl. lia.
Qed.

Lemma strip_inv_body (s t : list ascii) (v : stripVars) :
  Forall (fun c => c <> NUL) s ->
  strip_inv s t v ->
  s_i v < length s ->
  strip_inv s t (strip_body v) /\
  s_i (strip_body v) = S (s_i v) /\
  s_pos v <= s_pos (strip_body v) <= S (s_pos v).
Proof.
  intros Hnul (pre & rest & out & prevc & Hs & Hbuf & Hi & Hpos & Hle
               & Hst & Hprev & Htext) Hlt.
  destruct v as [buf i pos state prev]. simpl in *. subst buf i pos.
  destruct rest as [| c rest].
  { rewrite app_nil_r in Hs. subst pre. lia. }
  set (B := s ++ NUL :: t) in *.
  assert (HB : B = pre ++ c :: rest ++ NUL :: t).
  { unfold B. rewrite Hs. rewrite <- app_assoc. reflexivity. }
  assert (Hrd : rd B (length pre) = c) by (rewrite HB; apply rd_middle).
  assert (Hnx : rd B (length pre + 1) = hd NUL rest).
  { rewrite HB. apply rd_middle_next.
    rewrite Hs in Hnul. apply Forall_app in Hnul as [_ Hnul].
    exact (Forall_inv_tail Hnul). }
  assert (HlB : length pre < length B).
  { rewrite HB, length_app. simpl. lia. }
  destruct (strip_decide state prev prevc c (hd NUL rest))
    as [[a state'] prev'] eqn:Hd.
  rewrite (strip_body_decide B out (length pre) state prev prevc
             Hle HlB Hst Hprev a state' prev')
    by (rewrite Hrd, Hnx; exact Hd).
  pose proof (apply_action_length a out) as Hal.
  cbn [s_i s_pos]. split; [| split; [reflexivity | exact Hal]].
  exists (pre ++ [c]), rest, (apply_action a out), c.
  cbn [s_buf s_i s_pos s_state s_prev_state].
  rewrite length_app. simpl.
  repeat split.
  - rewrite Hs, <- app_assoc. reflexivity.
  - lia.
  - lia.
  - intros Hne. rewrite (strip_decide_busy _ _ _ _ _ _ _ _ Hd Hne). simpl.
    lia.
  - intros _. replace (length pre + 1 - 1) with (length pre) by lia.
    exact Hrd.
  - rewrite <- Htext. symmetry. apply strip_text_cons. exact Hd.
Qed.

Lemma strip_inv_exit (s t : list ascii) (v : stripVars) :
  strip_inv s t v ->
  s_i v = length s ->
  s_buf v = stripped s ++ drop (length (stripped s)) (s ++ NUL :: t) /\
  s_pos v = length (stripped s).
Proof.
  intros (pre & rest & out & prevc & Hs & Hbuf & Hi & Hpos & Hle
          & _ & _ & Htext) Hend.
  assert (rest = []) as ->.
  { rewrite Hs, length_app in Hend. destruct rest; [reflexivity |].
    simpl in Hend. lia. }
  simpl in Htext. rewrite app_nil_r in Htext. subst out.
  split; assumption.
Qed.

Lemma strip_loop_inv (s t : list ascii) :
  Forall (fun c => c <> NUL) s ->
  forall (fuel : nat) (v : stripVars),
    strip_inv s t v ->
    length s - s_i v <= fuel ->
    strip_inv s t (strip_loop fuel v) /\ s_i (strip_loop fuel v) = length s.
Proof.
  intros Hnul. induction fuel as [| fuel IH]; intros v Hinv Hfuel.
  - simpl. split; [exact Hinv |].
    pose proof (strip_inv_bounds s t v Hinv). lia.
  - cbn [strip_loop]. rewrite (strip_inv_rd s t v Hnul Hinv).
    destruct (Nat.eqb (s_i v) (length s)) eqn:E.
    + apply Nat.eqb_eq in E. split; assumption.
    + apply Nat.eqb_neq in E.
      pose proof (strip_inv_bounds s t v Hinv) as [_ Hb].
      destruct (strip_inv_body s t v Hnul Hinv) as (Hinv' & Hi' & _);
        [lia |].
      apply IH; [exact Hinv' | lia].
Qed.

Lemma strip_text_chars (P : ascii -> Prop) (s : list ascii) :
  P " " ->
  Forall P s ->
  forall state prev prevc lastw,
    Forall P (strip_text state prev prevc lastw s).
Proof.
  intros Hsp. induction 1 as [| c rest Hc Hrest IH];
    intros state prev prevc lastw.
  - constructor.
  - cbn [strip_text].
    destruct (strip_decide state prev prevc c (hd NUL rest))
      as [[a state'] prev'] eqn:Hd.
    destruct a as [| x |].
    + apply IH.
    + assert (x = c) as ->.
      { unfold strip_decide in Hd.
        repeat match type of Hd with
               | context [if ?b then _ else _] => destruct b eqn:?
               | context [match ?s with st_none_t => _ | _ => _ end] =>
                   destruct s
               end; inversion Hd; subst; try reflexivity;
          symmetry; apply Ascii.eqb_eq; assumption. }
      constructor; [exact Hc | apply IH].
    + destruct (lastw =? " "); [apply IH |].
      constructor; [exact Hsp | apply IH].
Qed.

Lemma strip_text_length (s : list ascii) :
  forall state prev prevc lastw,
    length (strip_text state prev prevc lastw s) <= length s.
Proof.
  induction s as [| c rest IH]; intros state prev prevc lastw.
  - simpl. lia.
  - cbn [strip_text].
    destruct (strip_decide state prev prevc c (hd NUL rest))
      as [[a state'] prev'].
    destruct a as [| x |]; [| | destruct (lastw =? " ")]; simpl;
      match goal with
      | |- context [strip_text ?a ?b ?c ?d rest] =>
          specialize (IH a b c d); lia
      end.
Qed.

Lemma c_str_app (s t : list ascii) :
  Forall (fun c => c <> NUL) s -> c_str (s ++ NUL :: t) = s.
Proof.
  induction 1 as [| c rest Hc Hrest IH]; simpl.
  - reflexivity.
  - destruct (c =? NUL) eqn:E.
    + apply Ascii.eqb_eq in E. contradiction.
    + rewrite IH. reflexivity.
Qed.

Lemma stripped_no_NUL (s : list ascii) :
  Forall (fun c => c <> NUL) s -> Forall (fun c => c <> NUL) (stripped s).
Proof.
  intros Hs. apply strip_text_chars; [discriminate | exact Hs].
Qed.

(** What [stripCodeBuffer] leaves in a buffer that holds a C string. *)
Lemma stripCodeBuffer_spec (s t : list ascii) :
  Forall (fun c => c <> NUL) s ->
  stripCodeBuffer (s ++ NUL :: t) =
  stripped s ++ NUL :: drop (S (length (stripped s))) (s ++ NUL :: t).
Proof.
  intros Hnul. unfold stripCodeBuffer, strip_exit.
  destruct (strip_loop_inv s t Hnul (length (s ++ NUL :: t))
              (strip_init (s ++ NUL :: t)) (strip_inv_init s t))
    as [Hinv Hi].
  { rewrite length_app. simpl. lia. }
  destruct (strip_inv_exit s t _ Hinv Hi) as [Hbuf Hpos].
  rewrite Hbuf, Hpos.
  pose proof (strip_text_length s st_none_t st_none_t NUL " ") as Hlen.
  fold (stripped s) in Hlen.
  rewrite wr_app_drop by (rewrite length_app; simpl; lia).
  rewrite <- app_assoc, length_app. simpl.
  replace (length (stripped s) + 1) with (S (length (stripped s))) by lia.
  reflexivity.
Qed.

Lemma stripCodeBuffer_c_str (s t : list ascii) :
  Forall (fun c => c <> NUL) s ->
  c_str (stripCodeBuffer (s ++ NUL :: t)) = stripped s.
Proof.
  intros Hnul. rewrite stripCodeBuffer_spec by assumption.
  apply c_str_app, stripped_no_NUL, Hnul.
Qed.

(** ** stripCodeBuffer works in place *)

Lemma strip_after_inv (s t : list ascii) :
  Forall (fun c => c <> NUL) s ->
  forall (k : nat) (v0 v : stripVars),
    strip_inv s t v0 ->
    strip_after k v0 = Some v ->
    strip_inv s t v /\ s_i v = s_i v0 + k.
Proof.
  intros Hnul. induction k as [| k IH]; intros v0 v Hinv Hk.
  - simpl in Hk. inversion Hk; subst. split; [exact Hinv | lia].
  - cbn [strip_after] in Hk.
    rewrite (strip_inv_rd s t v0 Hnul Hinv) in Hk.
    destruct (Nat.eqb (s_i v0) (length s)) eqn:E; [discriminate |].
    apply Nat.eqb_neq in E.
    pose proof (strip_inv_bounds s t v0 Hinv) as [_ Hb].
    destruct (strip_inv_body s t v0 Hnul Hinv) as (Hinv' & Hi' & _);
      [lia |].
    destruct (IH _ _ Hinv' Hk) as [Hv Hiv]. split; [exact Hv | lia].
Qed.

Lemma loop_stores_bound (s t : list ascii) :
  Forall (fun c => c <> NUL) s ->
  forall (fuel : nat) (v : stripVars),
    strip_inv s t v ->
    Forall (fun j => j < length s) (loop_stores fuel v).
Proof.
  intros Hnul. induction fuel as [| fuel IH]; intros v Hinv.
  - constructor.
  - cbn [loop_stores]. rewrite (strip_inv_rd s t v Hnul Hinv).
    destruct (Nat.eqb (s_i v) (length s)) eqn:E; [constructor |].
    apply Nat.eqb_neq in E.
    pose proof (strip_inv_bounds s t v Hinv) as [Hp Hb].
    destruct (strip_inv_body s t v Hnul Hinv) as (Hinv' & _ & _); [lia |].
    apply Forall_app. split; [| apply IH; exact Hinv'].
    unfold body_store.
    destruct (Nat.eqb (s_pos (strip_body v)) (s_pos v)); constructor;
      [lia | constructor].
Qed.

(** C10, as the code has it. On a buffer holding the string [s], its NUL
    and the bytes [t]: at every step of the loop [i] counts the steps and
    [pos <= i]; every store of the loop goes to a cell before the original
    NUL; the final [buf[pos] = '\0'] goes to a cell at or before the
    original NUL, never beyond it; the bytes after the original NUL are
    untouched; and the string left is no longer than the string found. *)
Theorem stripCodeBuffer_in_place (s t : list ascii) :
  Forall (fun c => c <> NUL) s ->
  (forall k v, strip_after k (strip_init (s ++ NUL :: t)) = Some v ->
               s_i v = k /\ s_pos v <= s_i v) /\
  Forall (fun j => j < length s)
    (loop_stores (length (s ++ NUL :: t)) (strip_init (s ++ NUL :: t))) /\
  s_pos (strip_exit (s ++ NUL :: t)) <= length s /\
  length (stripCodeBuffer (s ++ NUL :: t)) = length (s ++ NUL :: t) /\
  drop (S (length s)) (stripCodeBuffer (s ++ NUL :: t)) = t /\
  length (c_str (stripCodeBuffer (s ++ NUL :: t))) <= length s.
Proof.
  intros Hnul.
  pose proof (strip_inv_init s t) as Hinit.
  pose proof (strip_text_length s st_none_t st_none_t NUL " ") as Hlen.
  fold (stripped s) in Hlen.
  split; [| split; [| split; [| split; [| split]]]].
  - intros k v Hk.
    destruct (strip_after_inv s t Hnul k _ v Hinit Hk) as [Hv Hi].
    simpl in Hi. split; [exact Hi |].
    apply (strip_inv_bounds s t v Hv).
  - apply (loop_stores_bound s t Hnul). exact Hinit.
  - unfold strip_exit.
    destruct (strip_loop_inv s t Hnul (length (s ++ NUL :: t))
                (strip_init (s ++ NUL :: t)) Hinit) as [Hinv Hi].
    { rewrite length_app. simpl. lia. }
    pose proof (strip_inv_bounds s t _ Hinv). lia.
  - rewrite stripCodeBuffer_spec by assumption.
    rewrite length_app. cbn [length]. rewrite length_drop, !length_app.
    cbn [length]. lia.
  - rewrite stripCodeBuffer_spec by assumption.
    rewrite drop_app_ge by (simpl; lia).
    replace (S (length s) - length (stripped s))
      with (S (length s - length (stripped s))) by lia.
    cbn [drop]. rewrite drop_drop.
    replace (S (length (stripped s)) + (length s - length (stripped s)))
      with (S (length s)) by lia.
    rewrite drop_app_ge by lia.
    replace (S (length s) - length s) with 1 by lia. reflexivity.
  - rewrite stripCodeBuffer_c_str by assumption. exact Hlen.
Qed.

Lemma stripCodeBuffer_in_place_witness :
  let s := list_ascii_of_string "a /* b */ c" in
  s_pos (strip_exit (s ++ NUL :: [])) <= length s /\
  length (c_str (stripCodeBuffer (s ++ NUL :: []))) <= length s.
Proof.
  intros s.
  assert (Hs : Forall (fun c => c <> NUL) s)
    by (repeat constructor; discriminate).
  destruct (stripCodeBuffer_in_place s [] Hs) as (_ & _ & H3 & _ & _ & H6).
  split; [exact H3 | exact H6].
Defined.

(** C10 as stated fails: when nothing is removed the final store lands on
    the original terminating NUL. For the string ["a"] the stores go to
    cells 0 and 1, and cell 1 held the NUL. *)
Lemma stripCodeBuffer_stores_reach_NUL :
  stripCodeBuffer_stores (buffer_of "a") = [0; 1] /\
  rd (buffer_of "a") 1 = NUL /\
  ~ Forall (fun j => j < length (c_str (buffer_of "a")))
      (stripCodeBuffer_stores (buffer_of "a")).
Proof.
  split; [reflexivity | split; [reflexivity |]].
  intros H. vm_compute in H.
  apply Forall_inv_tail in H. apply Forall_inv in H. lia.
Qed.

(** ** stripCodeBuffer applied twice *)

Lemma strip_decide_copy (state prev : ParseState) (prevc c nextc x : ascii)
  (state' prev' : ParseState) :
  strip_decide state prev prevc c nextc = (Copy x, state', prev') ->
  x = c /\ state = st_none_t /\ state' = st_none_t /\
  (c =? "034") = false /\ (c =? "'") = false /\ (c =? "\") = false /\
  isspace c = false.
Proof.
  unfold strip_decide. intros Hd.
  destruct (c =? "/") eqn:E1.
  - apply Ascii.eqb_eq in E1. subst c.
    destruct state; try discriminate.
    + destruct (nextc =? "*"); [discriminate |].
      destruct (nextc =? "/"); [discriminate |].
      inversion Hd; subst. repeat split; reflexivity.
    + destruct (prevc =? "*"); discriminate.
  - destruct (c =? "034") eqn:E2; [destruct state; discriminate |].
    destruct (c =? "'") eqn:E3; [destruct state; discriminate |].
    destruct state; try discriminate;
      destruct (c =? "\") eqn:E4; try discriminate.
    + destruct (isspace c) eqn:E5; [discriminate |].
      inversion Hd; subst. repeat split; reflexivity.
    + destruct (c =? "010"); discriminate.
Qed.

Lemma strip_text_tidy (s : list ascii) :
  forall state prev prevc lastw,
    tidy lastw (strip_text state prev prevc lastw s) = true.
Proof.
  induction s as [| c rest IH]; intros state prev prevc lastw.
  - reflexivity.
  - cbn [strip_text].
    destruct (strip_decide state prev prevc c (hd NUL rest))
      as [[a state'] prev'] eqn:Hd.
    destruct a as [| x |].
    + apply IH.
    + destruct (strip_decide_copy _ _ _ _ _ _ _ _ Hd)
        as (-> & _ & _ & E2 & E3 & E4 & E5).
      cbn [tidy]. rewrite E2, E3, E4, E5, IH. reflexivity.
    + destruct (lastw =? " ") eqn:El; [apply IH |].
      cbn [tidy]. rewrite El, IH. reflexivity.
Qed.

Lemma tidy_fixed (y : list ascii) :
  forall lastw prev prevc,
    tidy lastw y = true ->
    has_comment_opener y = false ->
    strip_text st_none_t prev prevc lastw y = y.
Proof.
  induction y as [| c rest IH]; intros lastw prev prevc Ht Hc.
  - reflexivity.
  - cbn [tidy] in Ht. cbn [has_comment_opener] in Hc.
    apply orb_false_iff in Hc as [Hc1 Hc2].
    repeat (apply andb_true_iff in Ht as [Ht ?]).
    cbn [strip_text]. unfold strip_decide.
    destruct (c =? "/") eqn:E1.
    + cbn [andb] in Hc1. apply orb_false_iff in Hc1 as [-> ->].
      apply Ascii.eqb_eq in E1. subst c.
      f_equal. apply IH; assumption.
    + destruct (c =? "034"); [discriminate |].
      destruct (c =? "'"); [discriminate |].
      destruct (c =? "\"); [discriminate |].
      destruct (isspace c).
      * match goal with
        | H : _ && _ = true |- _ => apply andb_true_iff in H as [Hsp Hl]
        end.
        apply Ascii.eqb_eq in Hsp. subst c.
        destruct (lastw =? " "); [discriminate |].
        f_equal. apply IH; assumption.
      * f_equal. apply IH; assumption.
Qed.

Lemma opener_shrinks (y : list ascii) :
  forall prev prevc lastw,
    has_comment_opener y = true ->
    length (strip_text st_none_t prev prevc lastw y) < length y.
Proof.
  induction y as [| c rest IH]; intros prev prevc lastw Hc.
  - discriminate.
  - cbn [has_comment_opener] in Hc. cbn [strip_text].
    destruct (strip_decide st_none_t prev prevc c (hd NUL rest))
      as [[a state'] prev'] eqn:Hd.
    assert (Hle : forall st pv pc lw,
               length (strip_text st pv pc lw rest) <= length rest)
      by (intros; apply strip_text_length).
    destruct ((c =? "/") && ((hd NUL rest =? "*") || (hd NUL rest =? "/")))
      eqn:Hopen.
    + unfold strip_decide in Hd.
      apply andb_true_iff in Hopen as [E1 E2]. rewrite E1 in Hd.
      destruct (hd NUL rest =? "*").
      * inversion Hd; subst. cbn [length].
        match goal with
        | |- context [strip_text ?a ?b ?c ?d rest] =>
            specialize (Hle a b c d); lia
        end.
      * cbn [orb] in E2. rewrite E2 in Hd. inversion Hd; subst.
        cbn [length].
        match goal with
        | |- context [strip_text ?a ?b ?c ?d rest] =>
            specialize (Hle a b c d); lia
        end.
    + cbn [orb] in Hc.
      destruct state';
        try (rewrite (strip_decide_busy _ _ _ _ _ _ _ _ Hd) by discriminate;
             cbn [length];
             match goal with
             | |- context [strip_text ?a ?b ?c ?d rest] =>
                 specialize (Hle a b c d); lia
             end).
      destruct a as [| x |]; [| | destruct (lastw =? " ")]; cbn [length];
        match goal with
        | |- context [strip_text st_none_t ?b ?c ?d rest] =>
            specialize (IH b c d Hc); lia
        end.
Qed.

Lemma stripped_twice (s : list ascii) :
  stripped (stripped s) = stripped s <->
  has_comment_opener (stripped s) = false.
Proof.
  split.
  - intros Heq.
    destruct (has_comment_opener (stripped s)) eqn:E; [| reflexivity].
    pose proof (opener_shrinks (stripped s) st_none_t NUL " " E) as Hlt.
    fold (stripped (stripped s)) in Hlt. rewrite Heq in Hlt. lia.
  - intros Hc. apply tidy_fixed; [| exact Hc].
    apply strip_text_tidy.
Qed.

(** C5, as the code has it. For a buffer holding a string [s], a second
    call of [stripCodeBuffer] leaves the string of the first call
    unchanged exactly when that string has no ["/"] directly followed by
    ["*"] or ["/"]. *)
Theorem stripCodeBuffer_twice (s t : list ascii) :
  Forall (fun c => c <> NUL) s ->
  c_str (stripCodeBuffer (stripCodeBuffer (s ++ NUL :: t))) =
  c_str (stripCodeBuffer (s ++ NUL :: t))
  <->
  has_comment_opener (c_str (stripCodeBuffer (s ++ NUL :: t))) = false.
Proof.
  intros Hnul.
  rewrite (stripCodeBuffer_c_str s t Hnul).
  rewrite (stripCodeBuffer_spec s t Hnul).
  rewrite stripCodeBuffer_c_str by (apply stripped_no_NUL; exact Hnul).
  apply stripped_twice.
Qed.

Lemma stripCodeBuffer_twice_witness :
  let b := buffer_of "f( a /* x */ ,  b )// t" in
  c_str (stripCodeBuffer (stripCodeBuffer b)) = c_str (stripCodeBuffer b).
Proof.
  intros b.
  assert (Hs : Forall (fun c => c <> NUL)
                 (list_ascii_of_string "f( a /* x */ ,  b )// t"))
    by (repeat constructor; discriminate).
  apply (proj2 (stripCodeBuffer_twice _ [] Hs)).
  vm_compute. reflexivity.
Defined.

(** C5 as stated fails: the two quotes of ["/''*"] are dropped and leave
    ["/*"], which a second call takes for the start of a comment. *)
Lemma stripCodeBuffer_not_idempotent :
  c_str (stripCodeBuffer (buffer_of "/''*")) = list_ascii_of_string "/*" /\
  c_str (stripCodeBuffer (stripCodeBuffer (buffer_of "/''*"))) = [] /\
  stripCodeBuffer (stripCodeBuffer (buffer_of "/''*")) <>
  stripCodeBuffer (buffer_of "/''*").
Proof.
  split; [reflexivity | split; [reflexivity |]].
  vm_compute. discriminate.
Qed.

(** ** getArglistFromStr *)

Lemma strstr_bound (needle l r : list ascii) :
  Forall (fun c => c <> NUL) l ->
  forall k, strstr (l ++ NUL :: r) needle = Some k -> k <= length l.
Proof.
  induction 1 as [| c l Hc Hl IH]; intros k Hk.
  - cbn [app strstr] in Hk. destruct (starts_with needle (NUL :: r)).
    + inversion Hk. simpl. lia.
    + rewrite Ascii.eqb_refl in Hk. discriminate.
  - cbn [app strstr] in Hk.
    destruct (starts_with needle (c :: l ++ NUL :: r)).
    + inversion Hk. simpl. lia.
    + destruct (c =? NUL); [discriminate |].
      destruct (strstr (l ++ NUL :: r) needle) as [k' |]; [| discriminate].
      inversion Hk. simpl. specialize (IH k' eq_refl). lia.
Qed.

Lemma strchr_split (ch : ascii) (l r : list ascii) :
  ch <> NUL ->
  forall k, strchr (l ++ NUL :: r) ch = Some k ->
            exists pre post, l = pre ++ ch :: post /\ length pre = k.
Proof.
  intros Hch. induction l as [| c l IH]; intros k Hk.
  - cbn [app strchr] in Hk. destruct (NUL =? ch) eqn:E.
    + apply Ascii.eqb_eq in E. congruence.
    + rewrite Ascii.eqb_refl in Hk. discriminate.
  - cbn [app strchr] in Hk. destruct (c =? ch) eqn:E.
    + apply Ascii.eqb_eq in E. subst c. inversion Hk.
      exists [], l. split; reflexivity.
    + destruct (c =? NUL); [discriminate |].
      destruct (strchr (l ++ NUL :: r) ch) as [k' |]; [| discriminate].
      inversion Hk. destruct (IH k' eq_refl) as (pre & post & -> & Hlen).
      exists (c :: pre), post. split; [reflexivity | simpl; lia].
Qed.

Lemma arglist_scan_take (l r : list ascii) :
  Forall (fun c => c <> NUL) l ->
  forall d e,
    arglist_scan (l ++ NUL :: r) (Z.of_nat d) e = e + length (arg_take l d).
Proof.
  induction 1 as [| c l Hc Hl IH]; intros d e.
  - simpl. destruct (0 <? Z.of_nat d)%Z; lia.
  - cbn [app arglist_scan arg_take].
    destruct d as [| d'].
    + simpl. lia.
    + replace (0 <? Z.of_nat (S d'))%Z with true
        by (symmetry; apply Z.ltb_lt; lia).
      destruct (c =? NUL) eqn:E.
      { apply Ascii.eqb_eq in E. contradiction. }
      destruct (c =? "(").
      * replace (Z.of_nat (S d') + 1)%Z with (Z.of_nat (S (S d'))) by lia.
        rewrite IH. simpl. lia.
      * destruct (c =? ")").
        -- replace (Z.of_nat (S d') - 1)%Z with (Z.of_nat d') by lia.
           rewrite IH. simpl. lia.
        -- rewrite IH. simpl. lia.
Qed.

Lemma arg_take_prefix (l : list ascii) :
  forall d, exists post, l = arg_take l d ++ post.
Proof.
  induction l as [| c l IH]; intros d.
  - exists []. reflexivity.
  - destruct d as [| d'].
    + exists (c :: l). reflexivity.
    + cbn [arg_take].
      destruct (IH (if c =? "(" then S (S d')
                    else if c =? ")" then d' else S d')) as [post Hpost].
      exists post. simpl. rewrite <- Hpost. reflexivity.
Qed.

Lemma tidy_plain (y : list ascii) :
  forall lastw, tidy lastw y = true -> Forall plain_byte y.
Proof.
  induction y as [| c rest IH]; intros lastw Ht.
  - constructor.
  - cbn [tidy] in Ht. repeat (apply andb_true_iff in Ht as [Ht ?]).
    constructor; [| eapply IH; eassumption].
    unfold plain_byte.
    repeat split; intros ->; simpl in *; discriminate.
Qed.

Lemma segment_plain (r l : list ascii) :
  segment r l -> Forall plain_byte l -> Forall plain_byte r.
Proof.
  intros (pre & post & ->) Hl.
  apply Forall_app in Hl as [_ Hl]. apply Forall_app in Hl as [Hr _].
  exact Hr.
Qed.

(** The value [getArglistFromStr] returns for a buffer that holds the
    string [s], in terms of the stripped text. *)
Lemma getArglistFromStr_value (s t name r : list ascii) :
  Forall (fun c => c <> NUL) s ->
  fst (getArglistFromStr (Some (s ++ NUL :: t)) (Some name)) = Some r ->
  exists pre post,
    stripped s = pre ++ "(" :: post /\ r = "(" :: arg_take post 1.
Proof.
  intros Hnul Hr. unfold getArglistFromStr in Hr.
  destruct (rd name 0 =? NUL); [discriminate |].
  rewrite (stripCodeBuffer_spec s t Hnul) in Hr.
  set (st := stripped s) in *.
  set (r1 := drop (S (length st)) (s ++ NUL :: t)) in *.
  assert (Hst : Forall (fun c => c <> NUL) st)
    by (apply stripped_no_NUL; exact Hnul).
  destruct (strstr (st ++ NUL :: r1) (c_str name)) as [k1 |] eqn:Hk1;
    [| discriminate].
  pose proof (strstr_bound _ _ _ Hst _ Hk1) as Hb1.
  rewrite drop_app_le in Hr by exact Hb1.
  destruct (strchr (drop k1 st ++ NUL :: r1) "(") as [k2 |] eqn:Hk2;
    [| discriminate].
  destruct (strchr_split "(" _ _ ltac:(discriminate) _ Hk2)
    as (pre & post & Hsplit & Hlen).
  cbn [fst] in Hr. inversion Hr as [Hr']. clear Hr. clear r Hr'.
  assert (Hst_eq : st = (take k1 st ++ pre) ++ "(" :: post).
  { rewrite <- app_assoc, <- Hsplit, take_drop. reflexivity. }
  assert (Hstart : length (take k1 st ++ pre) = k1 + k2).
  { rewrite length_app, length_take. lia. }
  exists (take k1 st ++ pre), post. split; [exact Hst_eq |].
  set (P := take k1 st ++ pre) in *.
  assert (Hpost : Forall (fun c => c <> NUL) post).
  { rewrite Hst_eq in Hst. apply Forall_app in Hst as [_ Hst].
    exact (Forall_inv_tail Hst). }
  destruct (arg_take_prefix post 1) as [post' Hpost'].
  set (T := arg_take post 1) in *.
  assert (HT : Forall (fun c => c <> NUL) T).
  { rewrite Hpost' in Hpost. apply Forall_app in Hpost as [HT _].
    exact HT. }
  assert (Hb1eq : st ++ NUL :: r1 = P ++ "(" :: post ++ NUL :: r1).
  { rewrite Hst_eq at 1. rewrite <- app_assoc. reflexivity. }
  rewrite Hb1eq. rewrite <- Hstart.
  replace (drop (S (length P)) (P ++ "(" :: post ++ NUL :: r1))
    with (post ++ NUL :: r1).
  2:{ rewrite drop_app_ge by lia.
      replace (S (length P) - length P) with 1 by lia. reflexivity. }
  pose proof (arglist_scan_take post r1 Hpost 1 (S (length P))) as Hscan.
  change (Z.of_nat 1) with 1%Z in Hscan. rewrite Hscan. clear Hscan.
  fold T.
  assert (Hfull : P ++ "(" :: post ++ NUL :: r1
                  = (P ++ "(" :: T) ++ (post' ++ NUL :: r1)).
  { rewrite Hpost' at 1. rewrite <- !app_assoc. reflexivity. }
  rewrite Hfull. unfold wr.
  replace (S (length P) + length T) with (length (P ++ "(" :: T) + 0)
    by (rewrite length_app; simpl; lia).
  rewrite insert_app_r.
  rewrite <- app_assoc. rewrite drop_app_ge by lia.
  rewrite Nat.sub_diag. cbn [drop app].
  assert (Hins : exists l, <[0:=NUL]> (post' ++ NUL :: r1) = NUL :: l).
  { destruct post' as [| x post'']; eexists; reflexivity. }
  destruct Hins as [l ->].
  apply (c_str_app ("(" :: T)).
  constructor; [discriminate | exact HT].
Qed.

(** The bytes the scan of [getArglistFromStr] passes over, when the
    parenthesis is closed, are a balanced run and the closing
    parenthesis. *)
Lemma arg_take_group (l : list ascii) :
  forall d,
    (exists inner,
       arg_take l (S d) = inner ++ [")"] /\ paren_ok d inner = true)
    \/
    (stays_open (S d) l = true /\ arg_take l (S d) = l).
Proof.
  induction l as [| c l IH]; intros d.
  - right. split; reflexivity.
  - cbn [arg_take stays_open].
    destruct (c =? "(") eqn:E1.
    + destruct (IH (S d)) as [(inner & Ha & Hp) | [Hs Ht]].
      * left. exists (c :: inner). split.
        -- rewrite Ha. reflexivity.
        -- cbn [paren_ok]. rewrite E1. exact Hp.
      * right. split; [exact Hs | rewrite Ht; reflexivity].
    + destruct (c =? ")") eqn:E2.
      * destruct d as [| d'].
        -- left. exists []. split; [| reflexivity].
           apply Ascii.eqb_eq in E2. subst c.
           destruct l; reflexivity.
        -- destruct (IH d') as [(inner & Ha & Hp) | [Hs Ht]].
           ++ left. exists (c :: inner). split.
              ** rewrite Ha. reflexivity.
              ** cbn [paren_ok]. rewrite E1, E2. exact Hp.
           ++ right. split; [exact Hs | rewrite Ht; reflexivity].
      * destruct (IH d) as [(inner & Ha & Hp) | [Hs Ht]].
        -- left. exists (c :: inner). split.
           ++ rewrite Ha. reflexivity.
           ++ cbn [paren_ok]. rewrite E1, E2. exact Hp.
        -- right. split; [exact Hs | rewrite Ht; reflexivity].
Qed.

Lemma paren_ok_snoc (inner : list ascii) :
  forall d, paren_ok d inner = true -> paren_ok (S d) (inner ++ [")"]) = true.
Proof.
  induction inner as [| c inner IH]; intros d Hp.
  - exact Hp.
  - cbn [app paren_ok] in *.
    destruct (c =? "("); [exact (IH (S d) Hp) |].
    destruct (c =? ")"); [| exact (IH d Hp)].
    destruct d as [| d']; [discriminate | exact (IH d' Hp)].
Qed.

Lemma has_comment_opener_app_r (pre r : list ascii) :
  has_comment_opener (pre ++ r) = false -> has_comment_opener r = false.
Proof.
  induction pre as [| c pre IH]; [exact (fun H => H) |].
  cbn [app has_comment_opener]. intros H.
  apply orb_false_iff in H as [_ H]. exact (IH H).
Qed.

Lemma has_comment_opener_app_l (r post : list ascii) :
  has_comment_opener (r ++ post) = false -> has_comment_opener r = false.
Proof.
  induction r as [| c r IH]; [reflexivity |].
  cbn [app has_comment_opener]. intros H.
  apply orb_false_iff in H as [H1 H2].
  rewrite (IH H2), orb_false_r.
  destruct r as [| x r]; [| exact H1].
  cbn [hd]. apply andb_false_r.
Qed.

(** With no quote and no backslash in the text, outside the literals and
    escapes, the stripper writes no ["/"] directly before a ["*"] or a
    ["/"]: a slash is copied only when neither follows it in the text, and
    what is dropped between two copied bytes is a comment, which leaves a
    space. [lastw] is the byte last written. *)
Lemma strip_text_no_opener (s : list ascii) :
  forall state prev prevc lastw,
    Forall plain_byte s ->
    state = st_none_t \/ state = st_c_comment_t
      \/ state = st_cpp_comment_t ->
    (lastw = "/" ->
     state = st_none_t /\ hd NUL s <> "*" /\ hd NUL s <> "/") ->
    has_comment_opener (lastw :: strip_text state prev prevc lastw s)
    = false.
Proof.
  induction s as [| c rest IH]; intros state prev prevc lastw Hs Hst Hl.
  - cbn [strip_text has_comment_opener hd].
    rewrite orb_false_r. apply andb_false_r.
  - pose proof (Forall_inv Hs) as (Hq & Hsq & Hb).
    pose proof (Forall_inv_tail Hs) as Hrest.
    assert (Edq : (c =? "034") = false) by (apply Ascii.eqb_neq; exact Hq).
    assert (Esq : (c =? "'") = false) by (apply Ascii.eqb_neq; exact Hsq).
    assert (Ebs : (c =? "\") = false) by (apply Ascii.eqb_neq; exact Hb).
    assert (Hdrop : forall state',
               (state = st_none_t -> c = "/") ->
               state' = st_none_t \/ state' = st_c_comment_t
                 \/ state' = st_cpp_comment_t ->
               has_comment_opener
                 (lastw :: strip_text state' prev c lastw rest) = false).
    { intros state' Hc Hst'. apply IH; [exact Hrest | exact Hst' |].
      intros Hlw. destruct (Hl Hlw) as (Hn & _ & Hh).
      exfalso. apply Hh. exact (Hc Hn). }
    assert (Hblank : has_comment_opener
                       (lastw ::
                        (if lastw =? " "
                         then strip_text st_none_t prev c lastw rest
                         else " " :: strip_text st_none_t prev c " " rest))
                     = false).
    { destruct (lastw =? " ") eqn:El.
      - apply IH; [exact Hrest | left; reflexivity |].
        intros Hlw. apply Ascii.eqb_eq in El. rewrite Hlw in El.
        discriminate El.
      - change (has_comment_opener
                  (lastw :: " " :: strip_text st_none_t prev c " " rest))
          with (((lastw =? "/") && false)
                || has_comment_opener
                     (" " :: strip_text st_none_t prev c " " rest)).
        rewrite andb_false_r. cbn [orb].
        apply IH; [exact Hrest | left; reflexivity |].
        intros Hlw. discriminate Hlw. }
    assert (Hcopy : forall x,
               (lastw = "/" -> x <> "*" /\ x <> "/") ->
               (x = "/" -> hd NUL rest <> "*" /\ hd NUL rest <> "/") ->
               has_comment_opener
                 (lastw :: x :: strip_text st_none_t prev c x rest) = false).
    { intros x Hx Hnext.
      change (has_comment_opener
                (lastw :: x :: strip_text st_none_t prev c x rest))
        with (((lastw =? "/") && ((x =? "*") || (x =? "/")))
              || has_comment_opener
                   (x :: strip_text st_none_t prev c x rest)).
      rewrite (IH st_none_t prev c x Hrest (or_introl eq_refl)).
      - rewrite orb_false_r. destruct (lastw =? "/") eqn:El; [| reflexivity].
        apply Ascii.eqb_eq in El. destruct (Hx El) as [H1 H2].
        apply Ascii.eqb_neq in H1, H2. rewrite H1, H2. reflexivity.
      - intros Hx'. destruct (Hnext Hx') as [H1 H2].
        split; [reflexivity | split; [exact H1 | exact H2]]. }
    cbn [strip_text]. unfold strip_decide.
    rewrite Edq, Esq, Ebs.
    destruct (c =? "/") eqn:E1.
    + apply Ascii.eqb_eq in E1.
      destruct Hst as [-> | [-> | ->]].
      * destruct (hd NUL rest =? "*") eqn:E2;
          [apply Hdrop; [intros _; exact E1 | right; left; reflexivity] |].
        destruct (hd NUL rest =? "/") eqn:E3;
          [apply Hdrop; [intros _; exact E1 | right; right; reflexivity] |].
        apply Hcopy.
        -- intros Hlw. destruct (Hl Hlw) as (_ & _ & Hh).
           exfalso. apply Hh. exact E1.
        -- intros _. apply Ascii.eqb_neq in E2, E3. split; assumption.
      * destruct (prevc =? "*").
        -- exact Hblank.
        -- apply Hdrop; [discriminate | right; left; reflexivity].
      * apply Hdrop; [discriminate | right; right; reflexivity].
    + apply Ascii.eqb_neq in E1.
      destruct Hst as [-> | [-> | ->]].
      * destruct (isspace c).
        -- exact Hblank.
        -- apply Hcopy.
           ++ intros Hlw. destruct (Hl Hlw) as (_ & H1 & _).
              split; [exact H1 | exact E1].
           ++ intros Hc. contradiction.
      * apply Hdrop; [discriminate | right; left; reflexivity].
      * destruct (c =? "010").
        -- exact Hblank.
        -- apply Hdrop; [discriminate | right; right; reflexivity].
Qed.

Lemma stripped_no_opener (s : list ascii) :
  Forall plain_byte s -> has_comment_opener (stripped s) = false.
Proof.
  intros Hs.
  pose proof (strip_text_no_opener s st_none_t st_none_t NUL " " Hs
                (or_introl eq_refl)) as H.
  cbn [has_comment_opener] in H. apply orb_false_iff in H as [_ H].
  - exact H.
  - intros Hlw. discriminate Hlw.
Qed.

(** C1, as the code has it. [getArglistFromStr] returns NULL or a string
    that starts with ["("], is a run of consecutive bytes of the stripped
    buffer and holds no quote and no backslash; it holds no comment opener
    when the buffer holds no quote and no backslash. When the parenthesis
    it starts with is closed in the stripped buffer, the string is that
    parenthesis, a balanced run and the matching [")"], so it ends with
    [")"] and is balanced; when it is not, the string runs to the end of
    the stripped buffer and stays unclosed. *)
Theorem getArglistFromStr_result (s t name r : list ascii) :
  Forall (fun c => c <> NUL) s ->
  fst (getArglistFromStr (Some (s ++ NUL :: t)) (Some name)) = Some r ->
  starts_with_lparen r = true /\
  segment r (stripped s) /\
  Forall plain_byte r /\
  (Forall plain_byte s -> has_comment_opener r = false) /\
  ((ends_with_rparen r = true /\ balanced r = true /\
    exists inner, r = "(" :: inner ++ [")"] /\ balanced inner = true)
   \/
   (unclosed r = true /\ exists pre, stripped s = pre ++ r)).
Proof.
  intros Hnul Hr.
  destruct (getArglistFromStr_value s t name r Hnul Hr)
    as (pre & post & Hst & ->).
  destruct (arg_take_prefix post 1) as [post' Hpost'].
  assert (Hseg : segment ("(" :: arg_take post 1) (stripped s)).
  { exists pre, post'. rewrite Hst. cbn [app]. rewrite <- Hpost'.
    reflexivity. }
  split; [reflexivity | split; [exact Hseg | split; [| split]]].
  - apply (segment_plain _ _ Hseg).
    apply (tidy_plain _ " "). apply strip_text_tidy.
  - intros Hplain. destruct Hseg as (pre0 & post0 & Hseg).
    pose proof (stripped_no_opener s Hplain) as Hno.
    rewrite Hseg in Hno.
    apply has_comment_opener_app_r in Hno.
    apply has_comment_opener_app_l in Hno. exact Hno.
  - destruct (arg_take_group post 0) as [(inner & Ha & Hb) | [Hs Ht]].
    + left. rewrite Ha. split; [| split].
      * change ("(" :: inner ++ [")"]) with (("(" :: inner) ++ [")"]).
        unfold ends_with_rparen. rewrite rev_app_distr. reflexivity.
      * exact (paren_ok_snoc inner 0 Hb).
      * exists inner. split; [reflexivity | exact Hb].
    + right. split.
      * unfold unclosed. rewrite Ht. exact Hs.
      * exists pre. rewrite Ht. exact Hst.
Qed.

Lemma getArglistFromStr_result_witness :
  starts_with_lparen (list_ascii_of_string "(a, (b))") = true /\
  segment (list_ascii_of_string "(a, (b))")
    (stripped (list_ascii_of_string "#define ADD(a, (b)) a+b")).
Proof.
  assert (Hs : Forall (fun c => c <> NUL)
                 (list_ascii_of_string "#define ADD(a, (b)) a+b"))
    by (repeat constructor; discriminate).
  destruct (getArglistFromStr_result
              (list_ascii_of_string "#define ADD(a, (b)) a+b") []
              (buffer_of "ADD") (list_ascii_of_string "(a, (b))") Hs
              eq_refl) as (H1 & H2 & _).
  split; [exact H1 | exact H2].
Defined.

(** C1 as stated fails twice. A parenthesis that is never closed is
    returned as it stands: not balanced and with no [")"] at its end. And
    the dropped literals can leave a comment behind: the result for
    [f(a/'c'*b, d *'c'/ e)] is [(a/*b, d */ e)], which holds the comment
    [/*b, d */]. *)
Lemma getArglistFromStr_unbalanced :
  (fst (getArglistFromStr (Some (buffer_of "f(a")) (Some (buffer_of "f"))) =
     Some (list_ascii_of_string "(a") /\
   ends_with_rparen (list_ascii_of_string "(a") = false /\
   balanced (list_ascii_of_string "(a") = false) /\
  (fst (getArglistFromStr (Some (buffer_of "f(a/'c'*b, d *'c'/ e)"))
          (Some (buffer_of "f"))) =
     Some (list_ascii_of_string "(a/*b, d */ e)") /\
   has_comment_opener (list_ascii_of_string "(a/*b, d */ e)") = true /\
   list_ascii_of_string "(a/*b, d */ e)" =
     list_ascii_of_string "(a" ++ list_ascii_of_string "/*b, d */"
     ++ list_ascii_of_string " e)").
Proof. repeat split; reflexivity. Qed.

(* ------------------------------------------------------------------ *)
(** ** The conditional stack *)

Close Scope char_scope.
Open Scope Z_scope.

Lemma pushConditional_nestLevel (o bf rr b : bool) (d : sDirective) :
  (nestLevel d <= 19)%nat ->
  (nestLevel (snd (pushConditional o bf rr b d)) <= 19)%nat.
Proof.
  intros H. unfold pushConditional, MaxCppNestingLevel.
  destruct (nestLevel d <? 20 - 1)%nat eqn:E;
    cbn [snd nestLevel set_frame set_nestLevel]; [| exact H].
  apply Nat.ltb_lt in E. lia.
Qed.

Lemma popConditional_nestLevel (d : sDirective) :
  (nestLevel (snd (popConditional d)) <= nestLevel d)%nat.
Proof.
  unfold popConditional. destruct (0 <? nestLevel d)%nat; simpl; lia.
Qed.

Lemma branch_change_nestLevel (bf rr e : bool) (d : sDirective) :
  nestLevel (branch_change bf rr e d) = nestLevel d.
Proof.
  unfold branch_change, isIgnoreBranch, setIgnore, chooseBranch.
  destruct (rr && negb bf); simpl;
    destruct (negb _ && e); simpl; destruct (negb bf); reflexivity.
Qed.

Lemma cond_step_nestLevel (o : bool) (g : cppGlobals) (c : cond_call) :
  (getDirectiveNestLevel g <= 19)%nat ->
  (getDirectiveNestLevel (cond_step o g c) <= 19)%nat.
Proof.
  unfold getDirectiveNestLevel. intros H.
  destruct c; unfold cond_step, on_directive, cppBeginStatement,
    cppEndStatement; cbn [Cpp directive set_directive set_resolveRequired];
    try exact H.
  - apply pushConditional_nestLevel, H.
  - pose proof (popConditional_nestLevel (directive (Cpp g))). lia.
  - rewrite branch_change_nestLevel. exact H.
  - rewrite branch_change_nestLevel. exact H.
Qed.

Lemma cond_run_nestLevel (o : bool) (calls : list cond_call) :
  forall g,
    (getDirectiveNestLevel g <= 19)%nat ->
    (getDirectiveNestLevel (cond_run o calls g) <= 19)%nat.
Proof.
  induction calls as [| c calls IH]; intros g H.
  - exact H.
  - apply IH, cond_step_nestLevel, H.
Qed.

(** C3. From [cppInit], whatever calls follow, [nestLevel] stays within
    0..19; [pushConditional] at level 19 changes nothing (and returns
    FALSE), and [popConditional] at level 0 changes nothing. *)
Theorem nestLevel_bounded :
  (forall (o braceFormat hasAt hasRaw : bool) (g0 : cppGlobals)
          (calls : list cond_call),
      (0 <= getDirectiveNestLevel
              (cond_run o calls (cppInit braceFormat hasAt hasRaw g0))
       <= 19)%nat) /\
  (forall (o bf rr b : bool) (d : sDirective),
      nestLevel d = 19%nat ->
      pushConditional o bf rr b d = (false, d)) /\
  (forall d : sDirective,
      nestLevel d = 0%nat ->
      snd (popConditional d) = d).
Proof.
  split; [| split].
  - intros. split; [lia |].
    apply cond_run_nestLevel. unfold getDirectiveNestLevel. simpl. lia.
  - intros o bf rr b d H. unfold pushConditional. rewrite H. reflexivity.
  - intros d H. unfold popConditional. rewrite H. reflexivity.
Qed.

Lemma frame_set_frame (n : nat) (f : conditionalInfo) (d : sDirective) :
  (n < length (ifdef d))%nat -> frame (set_frame n f d) n = f.
Proof.
  intros H. unfold frame, set_frame. simpl.
  apply nth_lookup_Some with (d := noConditional).
  apply list_lookup_insert_eq. exact H.
Qed.

(** C4. Below the cap, [pushConditional] opens the next frame with
    [ignoreAllBranches] the parent's [ignoring], [singleBranch] the value
    of [resolveRequired], [branchChosen] its argument, and [ignoring] the
    value given by the formula, which is also what it returns. *)
Theorem pushConditional_ignoring (o bf rr first : bool) (d : sDirective) :
  (nestLevel d < 19)%nat ->
  length (ifdef d) = MaxCppNestingLevel ->
  let parent := frame d (nestLevel d) in
  let value := ignoring parent || (negb first && negb bf && (rr || negb o)) in
  let r := pushConditional o bf rr first d in
  nestLevel (snd r) = S (nestLevel d) /\
  frame (snd r) (nestLevel (snd r)) =
    mkConditional (ignoring parent) rr first value /\
  singleBranch (frame (snd r) (nestLevel (snd r))) = rr /\
  ignoring (frame (snd r) (nestLevel (snd r))) = value /\
  fst r = value.
Proof.
  intros Hlt Hlen parent value r.
  unfold r, pushConditional, MaxCppNestingLevel in *.
  replace (nestLevel d <? 20 - 1)%nat with true
    by (symmetry; apply Nat.ltb_lt; lia).
  cbn [fst snd]. cbn [nestLevel set_frame set_nestLevel].
  rewrite frame_set_frame by (simpl; lia).
  repeat split; reflexivity.
Qed.

Lemma pushConditional_ignoring_witness :
  let d := directive (Cpp (cppInit false false false
                             (mkGlobals false Cpp_static))) in
  fst (pushConditional false false false false d) = true.
Proof.
  intros d.
  destruct (pushConditional_ignoring false false false false d)
    as (_ & _ & _ & _ & H).
  - simpl. lia.
  - reflexivity.
  - exact H.
Defined.

(* ------------------------------------------------------------------ *)
(** ** The input file and the skippers *)

Lemma getc_nil (f : inputFile) :
  f_ahead f = [] -> getcFromInputFile f = (EOF, f).
Proof. unfold getcFromInputFile. intros ->. reflexivity. Qed.

Lemma getc_cons (p : list Z) (c : Z) (r : list Z) :
  getcFromInputFile (mkFile p (c :: r)) = (c, mkFile (c :: p) r).
Proof. reflexivity. Qed.

(** *** Comments *)

Lemma skipOverComment_loop_EOF (star : Z) (fuel : nat) (f : inputFile) :
  skipOverComment_loop star fuel EOF f = (EOF, f).
Proof. destruct fuel; reflexivity. Qed.

Lemma skipOverComment_loop_value (star : Z) (fuel : nat) :
  forall (c : Z) (f : inputFile),
    (length (f_ahead f) < fuel)%nat \/ c = EOF ->
    fst (skipOverComment_loop star fuel c f) = SPACE \/
    fst (skipOverComment_loop star fuel c f) = EOF.
Proof.
  induction fuel as [| fuel IH]; intros c f H.
  - destruct H as [H | ->]; [lia | right; reflexivity].
  - cbn [skipOverComment_loop].
    destruct (c =? EOF) eqn:Ec; cbn [negb].
    { right. apply Z.eqb_eq in Ec. subst c. reflexivity. }
    destruct H as [H | H]; [| apply Z.eqb_neq in Ec; contradiction].
    destruct f as [p [| x r]].
    + destruct (negb (c =? star)); unfold bind; cbv beta;
        rewrite getc_nil by reflexivity.
      * apply IH; right; reflexivity.
      * change (negb (EOF =? chr "/")) with true. cbn iota.
        apply IH. right. reflexivity.
    + simpl in H.
      destruct (negb (c =? star)); unfold bind; cbv beta;
        rewrite getc_cons.
      * apply IH. left. simpl. lia.
      * destruct (negb (x =? chr "/")).
        -- apply IH. left. simpl. lia.
        -- left. reflexivity.
Qed.

Lemma skipOverComment_loop_S (star : Z) (fuel : nat) (c : Z) :
  skipOverComment_loop star (S fuel) c =
  if negb (c =? EOF) then
    if negb (c =? star) then
      do c' <- getcFromInputFile ;
      skipOverComment_loop star fuel c'
    else
      do next <- getcFromInputFile ;
      if negb (next =? chr "/") then skipOverComment_loop star fuel next
      else ret SPACE
  else ret c.
Proof. reflexivity. Qed.

Lemma skipOverComment_loop_enough (star : Z) (fuel : nat) :
  forall (c : Z) (f : inputFile),
    (length (f_ahead f) < fuel)%nat \/ c = EOF ->
    skipOverComment_loop star (S fuel) c f =
    skipOverComment_loop star fuel c f.
Proof.
  induction fuel as [| fuel IH]; intros c f H.
  - destruct H as [H | ->]; [lia | reflexivity].
  - rewrite (skipOverComment_loop_S star (S fuel)).
    rewrite (skipOverComment_loop_S star fuel).
    destruct (c =? EOF) eqn:Ec; cbn [negb]; [reflexivity |].
    destruct H as [H | H]; [| apply Z.eqb_neq in Ec; contradiction].
    destruct f as [p [| x r]].
    + destruct (negb (c =? star)); unfold bind; cbv beta;
        rewrite !getc_nil by reflexivity.
      * apply IH; right; reflexivity.
      * change (negb (EOF =? chr "/")) with true. cbn iota.
        apply IH. right. reflexivity.
    + simpl in H.
      destruct (negb (c =? star)); unfold bind; cbv beta;
        rewrite !getc_cons.
      * apply IH. left. simpl. lia.
      * destruct (negb (x =? chr "/")); [| reflexivity].
        apply IH. left. simpl. lia.
Qed.

Lemma skipOverCplusComment_loop_value (fuel : nat) :
  forall f : inputFile,
    fst (skipOverCplusComment_loop fuel f) = NEWLINE \/
    fst (skipOverCplusComment_loop fuel f) = EOF.
Proof.
  induction fuel as [| fuel IH]; intros f.
  - right. reflexivity.
  - cbn [skipOverCplusComment_loop]. unfold bind; cbv beta.
    destruct (getcFromInputFile f) as [c f1].
    destruct (c =? EOF) eqn:Ec; cbn [negb].
    { right. apply Z.eqb_eq in Ec. subst c. reflexivity. }
    destruct (c =? BACKSLASH).
    + destruct (getcFromInputFile f1) as [c2 f2]. apply IH.
    + destruct (c =? NEWLINE) eqn:En.
      * left. apply Z.eqb_eq in En. subst c. reflexivity.
      * apply IH.
Qed.

Lemma getc_shorter (f : inputFile) :
  (length (f_ahead (snd (getcFromInputFile f))) <= length (f_ahead f))%nat /\
  (fst (getcFromInputFile f) <> EOF ->
   (length (f_ahead (snd (getcFromInputFile f))) < length (f_ahead f))%nat).
Proof.
  destruct f as [p [| x r]]; simpl.
  - split; [lia | intros H; contradiction].
  - split; lia.
Qed.

Lemma skipOverCplusComment_loop_S (fuel : nat) :
  skipOverCplusComment_loop (S fuel) =
  do c <- getcFromInputFile ;
  if negb (c =? EOF) then
    if c =? BACKSLASH then
      getcFromInputFile ;; skipOverCplusComment_loop fuel
    else if c =? NEWLINE then ret c
    else skipOverCplusComment_loop fuel
  else ret c.
Proof. reflexivity. Qed.

Lemma skipOverCplusComment_loop_enough (fuel : nat) :
  forall f : inputFile,
    (length (f_ahead f) < fuel)%nat ->
    skipOverCplusComment_loop (S fuel) f = skipOverCplusComment_loop fuel f.
Proof.
  induction fuel as [| fuel IH]; intros f H; [lia |].
  rewrite (skipOverCplusComment_loop_S (S fuel)).
  rewrite (skipOverCplusComment_loop_S fuel). unfold bind; cbv beta.
  pose proof (getc_shorter f) as [Hle Hlt].
  destruct (getcFromInputFile f) as [c f1]. cbn [fst snd] in Hle, Hlt.
  destruct (c =? EOF) eqn:Ec; cbn [negb]; [reflexivity |].
  apply Z.eqb_neq in Ec. specialize (Hlt Ec).
  destruct (c =? BACKSLASH).
  - pose proof (getc_shorter f1) as [Hle1 _].
    destruct (getcFromInputFile f1) as [c2 f2]. cbn [snd] in Hle1.
    apply IH. lia.
  - destruct (c =? NEWLINE); [reflexivity |]. apply IH. lia.
Qed.

(** C7, as the code has it. Entered after the opening delimiter, the C
    and the D comment skippers return [SPACE] or [EOF]; the C++ comment
    skipper returns [NEWLINE] (the newline that ends the comment) or
    [EOF]. *)
Theorem comment_skippers_return (f : inputFile) :
  (fst (skipOverCComment f) = SPACE \/ fst (skipOverCComment f) = EOF) /\
  (fst (skipOverDComment f) = SPACE \/ fst (skipOverDComment f) = EOF) /\
  (fst (skipOverCplusComment f) = NEWLINE \/
   fst (skipOverCplusComment f) = EOF).
Proof.
  pose proof (getc_shorter f) as [Hle Hlt].
  split; [| split].
  - unfold skipOverCComment, bind, turns; cbv beta.
    destruct (getcFromInputFile f) as [c f1]. cbn [fst snd] in Hle, Hlt.
    apply skipOverComment_loop_value. left. lia.
  - unfold skipOverDComment, bind, turns; cbv beta.
    destruct (getcFromInputFile f) as [c f1]. cbn [fst snd] in Hle, Hlt.
    apply skipOverComment_loop_value. left. lia.
  - apply skipOverCplusComment_loop_value.
Qed.

(** C7 as stated fails for the C++ comment skipper: on the rest of the
    line ["x\n"] it returns the newline, which is neither [SPACE] nor
    [EOF]. *)
Lemma skipOverCplusComment_returns_newline :
  fst (skipOverCplusComment (file_of [chr "x"; NEWLINE])) = NEWLINE /\
  NEWLINE <> SPACE /\ NEWLINE <> EOF.
Proof. split; [reflexivity | split; discriminate]. Qed.

(** *** Running into the end of the input *)

Lemma skipOverComment_loop_open (star : Z) (fuel : nat) :
  forall (l : list Z) (c : Z) (p : list Z),
    c <> EOF ->
    no_EOF l ->
    comment_closes star (c :: l) = false ->
    (length l < fuel)%nat ->
    exists p',
      skipOverComment_loop star fuel c (mkFile p l) = (EOF, mkFile p' []).
Proof.
  induction fuel as [| fuel IH]; intros l c p Hc Hl Hopen Hfuel; [lia |].
  rewrite skipOverComment_loop_S.
  replace (c =? EOF) with false by (symmetry; apply Z.eqb_neq; exact Hc).
  cbn [negb]. cbn [comment_closes] in Hopen.
  apply orb_false_iff in Hopen as [Hhere Hrest].
  destruct l as [| x r].
  - exists p.
    destruct (negb (c =? star)); unfold bind; cbv beta;
      rewrite getc_nil by reflexivity.
    + apply skipOverComment_loop_EOF.
    + change (negb (EOF =? chr "/")) with true. cbn iota.
      apply skipOverComment_loop_EOF.
  - pose proof (Forall_inv Hl) as Hx. pose proof (Forall_inv_tail Hl) as Hr.
    simpl in Hfuel.
    destruct (c =? star) eqn:Es; cbn [negb andb] in *;
      unfold bind; cbv beta; rewrite getc_cons.
    + rewrite Hhere. cbn [negb].
      apply IH; [exact Hx | exact Hr | exact Hrest | lia].
    + apply IH; [exact Hx | exact Hr | exact Hrest | lia].
Qed.

Lemma skipOverCComment_open (p l : list Z) :
  no_EOF l ->
  comment_closes (chr "*") l = false ->
  exists p', skipOverCComment (mkFile p l) = (EOF, mkFile p' []).
Proof.
  intros Hl Hopen. unfold skipOverCComment, bind, turns; cbv beta.
  destruct l as [| c r].
  - exists p. rewrite getc_nil by reflexivity.
    apply skipOverComment_loop_EOF.
  - rewrite getc_cons.
    apply skipOverComment_loop_open.
    + exact (Forall_inv Hl).
    + exact (Forall_inv_tail Hl).
    + exact Hopen.
    + simpl. lia.
Qed.

Lemma skipToEndOfString_loop_S (ib : bool) (fuel : nat) :
  skipToEndOfString_loop ib (S fuel) =
  do c <- getcFromInputFile ;
  if negb (c =? EOF) then
    if (c =? BACKSLASH) && negb ib then
      getcFromInputFile ;; skipToEndOfString_loop ib fuel
    else if c =? DOUBLE_QUOTE then ret tt
    else skipToEndOfString_loop ib fuel
  else ret tt.
Proof. reflexivity. Qed.

Lemma skipToEndOfString_loop_end (ib : bool) (fuel : nat) (p : list Z) :
  skipToEndOfString_loop ib fuel (mkFile p []) = (tt, mkFile p []).
Proof. destruct fuel; reflexivity. Qed.

Lemma skipToEndOfString_loop_open (ib : bool) (fuel : nat) :
  forall (l p : list Z),
    no_EOF l ->
    string_open ib l = true ->
    (length l < fuel)%nat ->
    exists p',
      skipToEndOfString_loop ib fuel (mkFile p l) = (tt, mkFile p' []).
Proof.
  induction fuel as [| fuel IH]; intros l p Hl Hopen Hfuel; [lia |].
  rewrite skipToEndOfString_loop_S. unfold bind at 1; cbv beta.
  destruct l as [| c r].
  - exists p. reflexivity.
  - rewrite getc_cons.
    pose proof (Forall_inv Hl) as Hc. pose proof (Forall_inv_tail Hl) as Hr.
    replace (c =? EOF) with false by (symmetry; apply Z.eqb_neq; exact Hc).
    cbn [negb]. cbn [string_open] in Hopen. simpl in Hfuel.
    destruct ((c =? BACKSLASH) && negb ib).
    + unfold bind; cbv beta. destruct r as [| x r'].
      * rewrite getc_nil by reflexivity. eexists.
        apply skipToEndOfString_loop_end.
      * rewrite getc_cons.
        apply IH; [exact (Forall_inv_tail Hr) | exact Hopen |].
        simpl in Hfuel. lia.
    + destruct (c =? DOUBLE_QUOTE); [discriminate |].
      apply IH; [exact Hr | exact Hopen | lia].
Qed.

Lemma skipToEndOfString_value (ib : bool) (f : inputFile) :
  fst (skipToEndOfString ib f) = STRING_SYMBOL.
Proof.
  unfold skipToEndOfString, bind, ret; cbv beta.
  destruct (skipToEndOfString_loop ib (turns f) f). reflexivity.
Qed.

Lemma skipToEndOfString_open (ib : bool) (p l : list Z) :
  no_EOF l ->
  string_open ib l = true ->
  exists p',
    skipToEndOfString ib (mkFile p l) = (STRING_SYMBOL, mkFile p' []).
Proof.
  intros Hl Hopen. unfold skipToEndOfString, bind, ret, turns; cbv beta.
  destruct (skipToEndOfString_loop_open ib (S (length l)) l p Hl Hopen)
    as [p' Hp']; [lia |].
  cbn [f_ahead]. rewrite Hp'. exists p'. reflexivity.
Qed.

Lemma skipToEndOfChar_loop_S (fuel : nat) (count veraBase : Z) :
  skipToEndOfChar_loop (S fuel) count veraBase =
  do c <- getcFromInputFile ;
  if negb (c =? EOF) then
    let count' := count + 1 in
    if c =? BACKSLASH then
      getcFromInputFile ;; skipToEndOfChar_loop fuel count' veraBase
    else if c =? SINGLE_QUOTE then ret tt
    else if c =? NEWLINE then fileUngetc c
    else if (count' =? 1) && in_DHOB (toupper c) then
      skipToEndOfChar_loop fuel count' c
    else if negb (veraBase =? 0) && negb (isalnum c) then fileUngetc c
    else skipToEndOfChar_loop fuel count' veraBase
  else ret tt.
Proof. reflexivity. Qed.

Lemma skipToEndOfChar_loop_end (fuel : nat) (count veraBase : Z)
  (p : list Z) :
  skipToEndOfChar_loop fuel count veraBase (mkFile p []) = (tt, mkFile p []).
Proof. destruct fuel; reflexivity. Qed.

Lemma skipToEndOfChar_loop_open (fuel : nat) :
  forall (l p : list Z) (count veraBase : Z),
    no_EOF l ->
    char_open count veraBase l = true ->
    (length l < fuel)%nat ->
    exists p',
      skipToEndOfChar_loop fuel count veraBase (mkFile p l) =
      (tt, mkFile p' []).
Proof.
  induction fuel as [| fuel IH]; intros l p count veraBase Hl Hopen Hfuel;
    [lia |].
  rewrite skipToEndOfChar_loop_S. unfold bind at 1; cbv beta.
  destruct l as [| c r].
  - exists p. reflexivity.
  - rewrite getc_cons.
    pose proof (Forall_inv Hl) as Hc. pose proof (Forall_inv_tail Hl) as Hr.
    replace (c =? EOF) with false by (symmetry; apply Z.eqb_neq; exact Hc).
    cbn [negb]. cbv zeta. cbn [char_open] in Hopen. simpl in Hfuel.
    destruct (c =? BACKSLASH).
    + unfold bind; cbv beta. destruct r as [| x r'].
      * rewrite getc_nil by reflexivity. eexists.
        apply skipToEndOfChar_loop_end.
      * rewrite getc_cons.
        apply IH; [exact (Forall_inv_tail Hr) | exact Hopen |].
        simpl in Hfuel. lia.
    + destruct (c =? SINGLE_QUOTE); [discriminate |].
      destruct (c =? NEWLINE); [discriminate |].
      destruct ((count + 1 =? 1) && in_DHOB (toupper c)).
      * apply IH; [exact Hr | exact Hopen | lia].
      * destruct (negb (veraBase =? 0) && negb (isalnum c));
          [discriminate |].
        apply IH; [exact Hr | exact Hopen | lia].
Qed.

Lemma skipToEndOfChar_value (f : inputFile) :
  fst (skipToEndOfChar f) = CHAR_SYMBOL.
Proof.
  unfold skipToEndOfChar, bind, ret; cbv beta.
  destruct (skipToEndOfChar_loop (turns f) 0 0 f). reflexivity.
Qed.

Lemma skipToEndOfChar_open (p l : list Z) :
  no_EOF l ->
  char_open 0 0 l = true ->
  exists p', skipToEndOfChar (mkFile p l) = (CHAR_SYMBOL, mkFile p' []).
Proof.
  intros Hl Hopen. unfold skipToEndOfChar, bind, ret, turns; cbv beta.
  destruct (skipToEndOfChar_loop_open (S (length l)) l p 0 0 Hl Hopen)
    as [p' Hp']; [lia |].
  cbn [f_ahead]. rewrite Hp'. exists p'. reflexivity.
Qed.

(** *** The turns given to the loops are enough *)

Lemma skipToEndOfString_loop_enough (ib : bool) (fuel : nat) :
  forall f : inputFile,
    (length (f_ahead f) < fuel)%nat ->
    skipToEndOfString_loop ib (S fuel) f = skipToEndOfString_loop ib fuel f.
Proof.
  induction fuel as [| fuel IH]; intros f H; [lia |].
  rewrite (skipToEndOfString_loop_S ib (S fuel)).
  rewrite (skipToEndOfString_loop_S ib fuel). unfold bind; cbv beta.
  pose proof (getc_shorter f) as [Hle Hlt].
  destruct (getcFromInputFile f) as [c f1]. cbn [fst snd] in Hle, Hlt.
  destruct (c =? EOF) eqn:Ec; cbn [negb]; [reflexivity |].
  apply Z.eqb_neq in Ec. specialize (Hlt Ec).
  destruct ((c =? BACKSLASH) && negb ib).
  - unfold bind; cbv beta.
    pose proof (getc_shorter f1) as [Hle1 _].
    destruct (getcFromInputFile f1) as [c2 f2]. cbn [snd] in Hle1.
    apply IH. lia.
  - destruct (c =? DOUBLE_QUOTE); [reflexivity |]. apply IH. lia.
Qed.

Lemma skipToEndOfChar_loop_enough (fuel : nat) :
  forall (count veraBase : Z) (f : inputFile),
    (length (f_ahead f) < fuel)%nat ->
    skipToEndOfChar_loop (S fuel) count veraBase f =
    skipToEndOfChar_loop fuel count veraBase f.
Proof.
  induction fuel as [| fuel IH]; intros count veraBase f H; [lia |].
  rewrite (skipToEndOfChar_loop_S (S fuel)).
  rewrite (skipToEndOfChar_loop_S fuel). unfold bind; cbv beta.
  pose proof (getc_shorter f) as [Hle Hlt].
  destruct (getcFromInputFile f) as [c f1]. cbn [fst snd] in Hle, Hlt.
  destruct (c =? EOF) eqn:Ec; cbn [negb]; [reflexivity |].
  apply Z.eqb_neq in Ec. specialize (Hlt Ec). cbv zeta.
  destruct (c =? BACKSLASH).
  - unfold bind; cbv beta.
    pose proof (getc_shorter f1) as [Hle1 _].
    destruct (getcFromInputFile f1) as [c2 f2]. cbn [snd] in Hle1.
    apply IH. lia.
  - destruct (c =? SINGLE_QUOTE); [reflexivity |].
    destruct (c =? NEWLINE); [reflexivity |].
    destruct ((count + 1 =? 1) && in_DHOB (toupper c)); [apply IH; lia |].
    destruct (negb (veraBase =? 0) && negb (isalnum c)); [reflexivity |].
    apply IH. lia.
Qed.

Lemma readIdentifier_loop_S (fuel : nat) (c : Z) (name : list Z) :
  readIdentifier_loop (S fuel) c name =
  do c' <- getcFromInputFile ;
  if negb (c' =? EOF) && isident c' then
    readIdentifier_loop fuel c' (name ++ [c])
  else ret (c', name ++ [c]).
Proof. reflexivity. Qed.

Lemma readIdentifier_loop_enough (fuel : nat) :
  forall (c : Z) (name : list Z) (f : inputFile),
    (length (f_ahead f) < fuel)%nat ->
    readIdentifier_loop (S fuel) c name f =
    readIdentifier_loop fuel c name f.
Proof.
  induction fuel as [| fuel IH]; intros c name f H; [lia |].
  rewrite (readIdentifier_loop_S (S fuel)).
  rewrite (readIdentifier_loop_S fuel). unfold bind; cbv beta.
  pose proof (getc_shorter f) as [Hle Hlt].
  destruct (getcFromInputFile f) as [c1 f1]. cbn [fst snd] in Hle, Hlt.
  destruct (c1 =? EOF) eqn:Ec; cbn [negb andb]; [reflexivity |].
  apply Z.eqb_neq in Ec. specialize (Hlt Ec).
  destruct (isident c1); [| reflexivity]. apply IH. lia.
Qed.

Lemma skipSpaces_loop_S (fuel : nat) :
  skipSpaces_loop (S fuel) =
  do c <- getcFromInputFile ;
  if c =? SPACE then skipSpaces_loop fuel else ret c.
Proof. reflexivity. Qed.

Lemma skipSpaces_loop_enough (fuel : nat) :
  forall f : inputFile,
    (length (f_ahead f) < fuel)%nat ->
    skipSpaces_loop (S fuel) f = skipSpaces_loop fuel f.
Proof.
  induction fuel as [| fuel IH]; intros f H; [lia |].
  rewrite (skipSpaces_loop_S (S fuel)).
  rewrite (skipSpaces_loop_S fuel). unfold bind; cbv beta.
  pose proof (getc_shorter f) as [Hle Hlt].
  destruct (getcFromInputFile f) as [c f1]. cbn [fst snd] in Hle, Hlt.
  destruct (c =? SPACE) eqn:Ec; [| reflexivity].
  apply IH. apply Z.eqb_eq in Ec.
  assert (c <> EOF) by (subst c; discriminate).
  specialize (Hlt H0). lia.
Qed.

Lemma rawDelim_loop_S (fuel : nat) (delim : list Z) (i : nat) :
  rawDelim_loop (S fuel) delim i =
  do c <- getcFromInputFile ;
  if negb (c =? EOF) && (i <? length delim)%nat && (nth i delim 0 =? c)
  then rawDelim_loop fuel delim (S i)
  else ret (c, i).
Proof. reflexivity. Qed.

Lemma rawDelim_loop_enough (fuel : nat) :
  forall (delim : list Z) (i : nat) (f : inputFile),
    (length delim - i < fuel)%nat ->
    rawDelim_loop (S fuel) delim i f = rawDelim_loop fuel delim i f.
Proof.
  induction fuel as [| fuel IH]; intros delim i f H; [lia |].
  rewrite (rawDelim_loop_S (S fuel) delim i), (rawDelim_loop_S fuel delim i).
  unfold bind; cbv beta.
  destruct (getcFromInputFile f) as [c f1].
  destruct (negb (c =? EOF)); cbn [andb]; [| reflexivity].
  destruct (i <? length delim)%nat eqn:Ei; cbn [andb]; [| reflexivity].
  apply Nat.ltb_lt in Ei.
  destruct (nth i delim 0 =? c); [| reflexivity].
  apply IH. lia.
Qed.

Lemma rawDelim_loop_shorter (fuel : nat) :
  forall (delim : list Z) (i : nat) (f : inputFile),
    (length (f_ahead (snd (rawDelim_loop fuel delim i f)))
     <= length (f_ahead f))%nat /\
    (fst (fst (rawDelim_loop fuel delim i f)) <> EOF ->
     (length (f_ahead (snd (rawDelim_loop fuel delim i f)))
      < length (f_ahead f))%nat).
Proof.
  induction fuel as [| fuel IH]; intros delim i f.
  - cbn [rawDelim_loop ret fst snd]. split; [lia | intros H; contradiction].
  - rewrite rawDelim_loop_S. unfold bind; cbv beta.
    pose proof (getc_shorter f) as [Hle Hlt].
    destruct (getcFromInputFile f) as [c f1]. cbn [fst snd] in Hle, Hlt.
    destruct (negb (c =? EOF) && (i <? length delim)%nat
              && (nth i delim 0 =? c)) eqn:E.
    + apply andb_true_iff in E as [E _].
      apply andb_true_iff in E as [E _].
      apply negb_true_iff, Z.eqb_neq in E. specialize (Hlt E).
      destruct (IH delim (S i) f1) as [H1 H2].
      split; [lia | intros; lia].
    + cbn [ret fst snd]. split; [exact Hle | exact Hlt].
Qed.

Lemma rawLiteral_loop_S (fuel : nat) (c : Z) (delim : list Z)
  (collectDelim : bool) :
  rawLiteral_loop (S fuel) c delim collectDelim =
  let next (delim' : list Z) (collect' : bool) : St inputFile unit :=
    do c' <- getcFromInputFile ;
    if negb (c' =? EOF) then rawLiteral_loop fuel c' delim' collect'
    else ret tt in
  if collectDelim then
    if isCxxRawLiteralDelimiterChar c && (length delim <? 16)%nat
    then next (delim ++ [to_char c]) true
    else next delim false
  else if c =? chr ")" then
    do r <- rawDelim_loop (S (length delim)) delim 0 ;
    if Nat.eqb (snd r) (length delim) && (fst r =? DOUBLE_QUOTE)
    then ret tt
    else fileUngetc (fst r) ;; next delim false
  else next delim false.
Proof. reflexivity. Qed.

Lemma rawLiteral_loop_enough (fuel : nat) :
  forall (c : Z) (delim : list Z) (collectDelim : bool) (f : inputFile),
    (length (f_ahead f) < fuel)%nat ->
    rawLiteral_loop (S fuel) c delim collectDelim f =
    rawLiteral_loop fuel c delim collectDelim f.
Proof.
  induction fuel as [| fuel IH]; intros c delim collectDelim f H; [lia |].
  rewrite (rawLiteral_loop_S (S fuel) c delim collectDelim),
    (rawLiteral_loop_S fuel c delim collectDelim).
  cbv zeta.
  assert (Hnext : forall delim' collect' (g : inputFile),
             (length (f_ahead g) <= fuel)%nat ->
             (do c' <- getcFromInputFile ;
              if negb (c' =? EOF)
              then rawLiteral_loop (S fuel) c' delim' collect'
              else ret tt) g =
             (do c' <- getcFromInputFile ;
              if negb (c' =? EOF)
              then rawLiteral_loop fuel c' delim' collect'
              else ret tt) g).
  { intros delim' collect' g Hg. unfold bind; cbv beta.
    pose proof (getc_shorter g) as [Hle Hlt].
    destruct (getcFromInputFile g) as [c1 g1]. cbn [fst snd] in Hle, Hlt.
    destruct (c1 =? EOF) eqn:Ec; cbn [negb]; [reflexivity |].
    apply Z.eqb_neq in Ec. specialize (Hlt Ec). apply IH. lia. }
  destruct collectDelim.
  - destruct (isCxxRawLiteralDelimiterChar c && (length delim <? 16)%nat);
      apply Hnext; lia.
  - destruct (c =? chr ")"); [| apply Hnext; lia].
    unfold bind in *; cbv beta in *.
    pose proof (rawDelim_loop_shorter (S (length delim)) delim 0 f)
      as [Hle Hlt].
    destruct (rawDelim_loop (S (length delim)) delim 0 f) as [[c1 i1] f1].
    cbn [fst snd] in *.
    destruct (Nat.eqb i1 (length delim) && (c1 =? DOUBLE_QUOTE));
      [reflexivity |].
    cbn [fileUngetc].
    destruct (Z.eq_dec c1 EOF) as [-> | Hc].
    + reflexivity.
    + specialize (Hlt Hc). apply Hnext. cbn [f_ahead length]. lia.
Qed.

(* ------------------------------------------------------------------ *)
(** ** The driver *)

Lemma bind_onFile {A B : Type} (m : St inputFile A) (k : A -> M B)
  (d : sDirective) (f : inputFile) (tags : list tagEntryInfo) :
  bind (onFile m) k (mkScanner d f tags) =
  k (fst (m f)) (mkScanner d (snd (m f)) tags).
Proof.
  unfold bind, onFile. cbn [sc_file sc_directive sc_tags].
  destruct (m f). reflexivity.
Qed.

Lemma bind_onDirective {A B : Type} (m : sDirective -> A * sDirective)
  (k : A -> M B) (d : sDirective) (f : inputFile)
  (tags : list tagEntryInfo) :
  bind (onDirective m) k (mkScanner d f tags) =
  k (fst (m d)) (mkScanner (snd (m d)) f tags).
Proof.
  unfold bind, onDirective. cbn [sc_file sc_directive sc_tags].
  destruct (m d). reflexivity.
Qed.

Lemma bind_getDirective {A B : Type} (g : sDirective -> A) (k : A -> M B)
  (d : sDirective) (f : inputFile) (tags : list tagEntryInfo) :
  bind (getDirective g) k (mkScanner d f tags) =
  k (g d) (mkScanner d f tags).
Proof. reflexivity. Qed.

Lemma bind_setDirective {B : Type} (u : sDirective -> sDirective)
  (k : unit -> M B) (d : sDirective) (f : inputFile)
  (tags : list tagEntryInfo) :
  bind (setDirective u) k (mkScanner d f tags) =
  k tt (mkScanner (u d) f tags).
Proof. reflexivity. Qed.

Lemma bind_ret {S A B : Type} (a : A) (k : A -> St S B) (s : S) :
  bind (ret a) k s = k a s.
Proof. reflexivity. Qed.

Lemma bind_run {S A B : Type} (m : St S A) (k : A -> St S B) (s s' : S)
  (a : A) :
  m s = (a, s') -> bind m k s = k a s'.
Proof. unfold bind. intros ->. reflexivity. Qed.

Section Driver.

Variable Option : options.
Variable bf rr hasAt hasRaw : bool.

Abbreviation loop := (cppGetc_loop Option bf rr hasAt hasRaw).
Abbreviation process := (cppGetc_process Option bf rr hasAt hasRaw).

Lemma cppGetc_loop_S (fuel : nat) (directive ignore : bool)
  (d : sDirective) (p : list Z) (c : Z) (l : list Z)
  (tags : list tagEntryInfo) :
  loop (S fuel) directive ignore (mkScanner d (mkFile p (c :: l)) tags) =
  let '((c', directive', ignore'), s2) :=
    process c directive ignore (mkScanner d (mkFile (c :: p) l) tags) in
  if directive' || ignore' then loop fuel directive' ignore' s2
  else Some (c', s2).
Proof. reflexivity. Qed.

Lemma cppGetc_loop_EOF (fuel : nat) (directive ignore : bool)
  (d : sDirective) (p : list Z) (tags : list tagEntryInfo) :
  loop (S fuel) directive ignore (mkScanner d (mkFile p []) tags) =
  Some (EOF, mkScanner d (mkFile p []) tags).
Proof. reflexivity. Qed.

Lemma process_slash (directive ignore : bool) :
  process (chr "/") directive ignore =
  do comment <- onFile isComment ;
  match comment with
  | COMMENT_C =>
      do c' <- onFile skipOverCComment ;
      ret (c', directive, ignore)
  | COMMENT_CPLUS =>
      do c' <- onFile skipOverCplusComment ;
      (if c' =? NEWLINE then onFile (fileUngetc c') else ret tt) ;;
      ret (c', directive, ignore)
  | COMMENT_D =>
      do c' <- onFile skipOverDComment ;
      ret (c', directive, ignore)
  | COMMENT_NONE =>
      setDirective (set_accept false) ;;
      ret (chr "/", directive, ignore)
  end.
Proof. reflexivity. Qed.

Lemma process_double_quote (directive ignore : bool) :
  process DOUBLE_QUOTE directive ignore =
  (setDirective (set_accept false) ;;
   do c' <- onFile (skipToEndOfString false) ;
   ret (c', directive, ignore)).
Proof. reflexivity. Qed.

Lemma process_single_quote (directive ignore : bool) :
  process SINGLE_QUOTE directive ignore =
  (setDirective (set_accept false) ;;
   do c' <- onFile skipToEndOfChar ;
   ret (c', directive, ignore)).
Proof. reflexivity. Qed.

Lemma cppGetc_loop_comment (fuel : nat) (directive ignore : bool)
  (d : sDirective) (p body : list Z) (tags : list tagEntryInfo) :
  no_EOF body ->
  comment_closes (chr "*") body = false ->
  exists p',
    loop (S (S fuel)) directive ignore
      (mkScanner d (mkFile p (chr "/" :: chr "*" :: body)) tags) =
    Some (EOF, mkScanner d (mkFile p' []) tags).
Proof.
  intros Hb Hopen.
  destruct (skipOverCComment_open (chr "*" :: chr "/" :: p) body Hb Hopen)
    as [p' Hp'].
  exists p'. rewrite cppGetc_loop_S, process_slash.
  rewrite bind_onFile.
  change (isComment (mkFile (chr "/" :: p) (chr "*" :: body)))
    with (COMMENT_C, mkFile (chr "*" :: chr "/" :: p) body).
  cbn [fst snd]. rewrite bind_onFile, Hp'. cbn [fst snd]. unfold ret.
  destruct (directive || ignore); [| reflexivity].
  apply cppGetc_loop_EOF.
Qed.

Lemma cppGetc_loop_string (fuel : nat) (directive ignore : bool)
  (d : sDirective) (p body : list Z) (tags : list tagEntryInfo) :
  no_EOF body ->
  string_open false body = true ->
  exists p',
    loop (S (S fuel)) directive ignore
      (mkScanner d (mkFile p (DOUBLE_QUOTE :: body)) tags) =
    Some (if directive || ignore then EOF else STRING_SYMBOL,
          mkScanner (set_accept false d) (mkFile p' []) tags).
Proof.
  intros Hb Hopen.
  destruct (skipToEndOfString_open false (DOUBLE_QUOTE :: p) body Hb Hopen)
    as [p' Hp'].
  exists p'. rewrite cppGetc_loop_S, process_double_quote.
  rewrite bind_setDirective, bind_onFile, Hp'. cbn [fst snd]. unfold ret.
  destruct (directive || ignore); [| reflexivity].
  apply cppGetc_loop_EOF.
Qed.

Lemma cppGetc_loop_char (fuel : nat) (directive ignore : bool)
  (d : sDirective) (p body : list Z) (tags : list tagEntryInfo) :
  no_EOF body ->
  char_open 0 0 body = true ->
  exists p',
    loop (S (S fuel)) directive ignore
      (mkScanner d (mkFile p (SINGLE_QUOTE :: body)) tags) =
    Some (if directive || ignore then EOF else CHAR_SYMBOL,
          mkScanner (set_accept false d) (mkFile p' []) tags).
Proof.
  intros Hb Hopen.
  destruct (skipToEndOfChar_open (SINGLE_QUOTE :: p) body Hb Hopen)
    as [p' Hp'].
  exists p'. rewrite cppGetc_loop_S, process_single_quote.
  rewrite bind_setDirective, bind_onFile, Hp'. cbn [fst snd]. unfold ret.
  destruct (directive || ignore); [| reflexivity].
  apply cppGetc_loop_EOF.
Qed.

End Driver.

Lemma cppGetc_scan (Option : options) (fuel : nat) (b : bool) (u2 : Z)
  (rr hasAt hasRaw : bool) (d : sDirective) (f : inputFile)
  (tags : list tagEntryInfo) :
  cppGetc Option fuel
    (mkWorld (mkGlobals b (mkCpp 0 u2 rr hasAt hasRaw d)) f tags) =
  match
    cppGetc_loop Option b rr hasAt hasRaw fuel false false
      (mkScanner d f tags)
  with
  | None => None
  | Some (c, sc) =>
      Some (c,
            mkWorld
              (mkGlobals b (mkCpp 0 u2 rr hasAt hasRaw (sc_directive sc)))
              (sc_file sc) (sc_tags sc))
  end.
Proof. reflexivity. Qed.

Lemma at_text_world (w : world) (p l : list Z) :
  at_text w p l ->
  exists b u2 rr hasAt hasRaw d tags,
    w = mkWorld (mkGlobals b (mkCpp 0 u2 rr hasAt hasRaw d)) (mkFile p l)
          tags.
Proof.
  destruct w as [[b [u u2 rr hasAt hasRaw d]] f tags].
  unfold at_text. simpl. intros [-> ->].
  exists b, u2, rr, hasAt, hasRaw, d, tags. reflexivity.
Qed.

(** C6, as the code has it. When the input ends inside a C comment,
    [skipOverCComment] returns [EOF] and so does the call of [cppGetc]
    that met the comment, whatever it was doing. When the input ends
    inside a string or a character literal, [skipToEndOfString] and
    [skipToEndOfChar] return their sentinel, [STRING_SYMBOL] or
    [CHAR_SYMBOL], not [EOF]; the call of [cppGetc] that met the literal
    returns the sentinel when it met it outside a directive line and a
    suppressed branch (as a call that starts at the literal does) and
    [EOF] otherwise, and the call after it returns [EOF]. Every call
    returns a value: no error is raised. *)
Theorem premature_EOF (Option : options) (fuel : nat) (p body : list Z) :
  no_EOF body ->
  (comment_closes (chr "*") body = false ->
   fst (skipOverCComment (mkFile (chr "*" :: chr "/" :: p) body)) = EOF /\
   (forall (bf rr hasAt hasRaw directive ignore : bool) (d : sDirective)
           (tags : list tagEntryInfo),
       exists p',
         cppGetc_loop Option bf rr hasAt hasRaw (S (S fuel)) directive
           ignore
           (mkScanner d (mkFile p (chr "/" :: chr "*" :: body)) tags) =
         Some (EOF, mkScanner d (mkFile p' []) tags)) /\
   (forall w : world,
       at_text w p (chr "/" :: chr "*" :: body) ->
       exists w', cppGetc Option (S (S fuel)) w = Some (EOF, w'))) /\
  (string_open false body = true ->
   fst (skipToEndOfString false (mkFile (DOUBLE_QUOTE :: p) body)) =
     STRING_SYMBOL /\
   STRING_SYMBOL <> EOF /\
   (forall (bf rr hasAt hasRaw directive ignore : bool) (d : sDirective)
           (tags : list tagEntryInfo),
       exists p',
         cppGetc_loop Option bf rr hasAt hasRaw (S (S fuel)) directive
           ignore (mkScanner d (mkFile p (DOUBLE_QUOTE :: body)) tags) =
         Some (if directive || ignore then EOF else STRING_SYMBOL,
               mkScanner (set_accept false d) (mkFile p' []) tags)) /\
   (forall w : world,
       at_text w p (DOUBLE_QUOTE :: body) ->
       exists w' w'',
         cppGetc Option (S (S fuel)) w = Some (STRING_SYMBOL, w') /\
         cppGetc Option (S (S fuel)) w' = Some (EOF, w''))) /\
  (char_open 0 0 body = true ->
   fst (skipToEndOfChar (mkFile (SINGLE_QUOTE :: p) body)) = CHAR_SYMBOL /\
   CHAR_SYMBOL <> EOF /\
   (forall (bf rr hasAt hasRaw directive ignore : bool) (d : sDirective)
           (tags : list tagEntryInfo),
       exists p',
         cppGetc_loop Option bf rr hasAt hasRaw (S (S fuel)) directive
           ignore (mkScanner d (mkFile p (SINGLE_QUOTE :: body)) tags) =
         Some (if directive || ignore then EOF else CHAR_SYMBOL,
               mkScanner (set_accept false d) (mkFile p' []) tags)) /\
   (forall w : world,
       at_text w p (SINGLE_QUOTE :: body) ->
       exists w' w'',
         cppGetc Option (S (S fuel)) w = Some (CHAR_SYMBOL, w') /\
         cppGetc Option (S (S fuel)) w' = Some (EOF, w''))).
Proof.
  intros Hb. split; [| split].
  - intros Hopen. split; [| split].
    + destruct (skipOverCComment_open (chr "*" :: chr "/" :: p) body Hb
                  Hopen) as [p' ->]. reflexivity.
    + intros. apply cppGetc_loop_comment; assumption.
    + intros w Hw.
      destruct (at_text_world w _ _ Hw)
        as (b & u2 & rr & hasAt & hasRaw & d & tags & ->).
      destruct (cppGetc_loop_comment Option b rr hasAt hasRaw fuel false
                  false d p body tags Hb Hopen) as [p' Hp'].
      rewrite cppGetc_scan, Hp'. eexists. reflexivity.
  - intros Hopen.
    split; [apply skipToEndOfString_value | split; [discriminate |]].
    split.
    + intros. apply cppGetc_loop_string; assumption.
    + intros w Hw.
      destruct (at_text_world w _ _ Hw)
        as (b & u2 & rr & hasAt & hasRaw & d & tags & ->).
      destruct (cppGetc_loop_string Option b rr hasAt hasRaw fuel false
                  false d p body tags Hb Hopen) as [p' Hp'].
      rewrite cppGetc_scan, Hp'. cbn [orb sc_directive sc_file sc_tags].
      eexists. eexists. split; [reflexivity |].
      rewrite cppGetc_scan, cppGetc_loop_EOF. reflexivity.
  - intros Hopen.
    split; [apply skipToEndOfChar_value | split; [discriminate |]].
    split.
    + intros. apply cppGetc_loop_char; assumption.
    + intros w Hw.
      destruct (at_text_world w _ _ Hw)
        as (b & u2 & rr & hasAt & hasRaw & d & tags & ->).
      destruct (cppGetc_loop_char Option b rr hasAt hasRaw fuel false
                  false d p body tags Hb Hopen) as [p' Hp'].
      rewrite cppGetc_scan, Hp'. cbn [orb sc_directive sc_file sc_tags].
      eexists. eexists. split; [reflexivity |].
      rewrite cppGetc_scan, cppGetc_loop_EOF. reflexivity.
Qed.

Lemma premature_EOF_witness :
  exists w' w'',
    cppGetc plain_options 2
      (session false false false (DOUBLE_QUOTE :: str "abc")) =
      Some (STRING_SYMBOL, w') /\
    cppGetc plain_options 2 w' = Some (EOF, w'').
Proof.
  assert (Hb : no_EOF (str "abc")) by (repeat constructor; discriminate).
  destruct (premature_EOF plain_options 0 [] (str "abc") Hb)
    as (_ & H & _).
  destruct (H eq_refl) as (_ & _ & _ & Hw).
  apply (Hw (session false false false (DOUBLE_QUOTE :: str "abc"))).
  split; reflexivity.
Defined.

(** C6 as stated fails for the two literal skippers: at the end of the
    input they return their sentinel, and it is the sentinel that
    [cppGetc] hands to its caller. *)
Lemma unterminated_literal_not_EOF :
  fst (skipToEndOfString false (file_of (str "abc"))) = STRING_SYMBOL /\
  fst (skipToEndOfChar (file_of (str "x"))) = CHAR_SYMBOL /\
  STRING_SYMBOL <> EOF /\ CHAR_SYMBOL <> EOF /\
  option_map fst
    (cppGetc plain_options 2
       (session false false false (DOUBLE_QUOTE :: str "abc"))) =
    Some STRING_SYMBOL /\
  option_map fst
    (cppGetc plain_options 2
       (session false false false (SINGLE_QUOTE :: str "x"))) =
    Some CHAR_SYMBOL.
Proof.
  repeat split; try reflexivity; discriminate.
Qed.

(* ------------------------------------------------------------------ *)
(** ** The pushback slots *)

Lemma cppGetc_slots (Option : options) (fuel : nat) (a : Z) (w : world) :
  cppGetc Option fuel (with_slots 0 a w) =
  match cppGetc Option fuel (with_slots 0 0 w) with
  | None => None
  | Some (c, w') => Some (c, with_slots 0 a w')
  end.
Proof.
  destruct w as [[b [u u2 rr hasAt hasRaw d]] f tags].
  unfold with_slots. cbn [w_globals Cpp BraceFormat resolveRequired
    hasAtLiteralStrings hasCxxRawLiteralStrings directive w_file w_tags].
  rewrite !cppGetc_scan.
  destruct (cppGetc_loop Option b rr hasAt hasRaw fuel false false
              (mkScanner d f tags)) as [[c sc] |]; reflexivity.
Qed.

Lemma cppUngetc_slots (c a : Z) (w : world) :
  world_cppUngetc c (with_slots 0 a w) = with_slots c 0 w.
Proof. reflexivity. Qed.

Lemma io_run_slots (Option : options) (fuel : nat) (calls : list io_call) :
  forall (a b : Z) (w : world),
    io_run Option fuel calls (with_slots 0 a w) =
    io_run Option fuel calls (with_slots 0 b w).
Proof.
  induction calls as [| [| c] calls IH]; intros a b w.
  - reflexivity.
  - cbn [io_run]. rewrite (cppGetc_slots Option fuel a).
    rewrite (cppGetc_slots Option fuel b).
    destruct (cppGetc Option fuel (with_slots 0 0 w)) as [[c w'] |];
      [| reflexivity].
    rewrite (IH a b w'). reflexivity.
  - cbn [io_run]. rewrite !cppUngetc_slots. reflexivity.
Qed.

(** C9. A pushed-back character other than NUL is what the next
    [cppGetc] returns, with the file left alone and the slots as they were
    (given the second slot was free, as [cppUngetc] asserts). A pushed-back
    NUL is not returned: the next [cppGetc] reads the file as if nothing
    had been pushed back, and the character that [cppUngetc] moved to the
    second slot is never returned by any later call. *)
Theorem pushback_round_trip (Option : options) (fuel : nat) (w : world) :
  (forall c, c <> 0 ->
     cppGetc Option fuel (world_cppUngetc c w) =
     Some (c, with_slots (ungetch (Cpp (w_globals w))) 0 w)) /\
  (ungetch2 (Cpp (w_globals w)) = 0 ->
   with_slots (ungetch (Cpp (w_globals w))) 0 w = w) /\
  cppGetc Option fuel (world_cppUngetc 0 w) =
    match cppGetc Option fuel (with_slots 0 0 w) with
    | None => None
    | Some (c, w') =>
        Some (c, with_slots 0 (ungetch (Cpp (w_globals w))) w')
    end /\
  (forall calls,
     io_run Option fuel calls (world_cppUngetc 0 w) =
     io_run Option fuel calls (with_slots 0 0 w)).
Proof.
  destruct w as [[b [u u2 rr hasAt hasRaw d]] f tags].
  split; [| split; [| split]].
  - intros c Hc. unfold cppGetc, world_cppUngetc, cppUngetc, with_slots.
    cbn [w_globals Cpp BraceFormat ungetch ungetch2 resolveRequired
      hasAtLiteralStrings hasCxxRawLiteralStrings directive w_file w_tags].
    replace (c =? 0) with false by (symmetry; apply Z.eqb_neq; exact Hc).
    reflexivity.
  - cbn [w_globals Cpp ungetch ungetch2]. intros ->. reflexivity.
  - change (world_cppUngetc 0
              (mkWorld (mkGlobals b (mkCpp u u2 rr hasAt hasRaw d)) f tags))
      with (with_slots 0 u
              (mkWorld (mkGlobals b (mkCpp u u2 rr hasAt hasRaw d)) f tags)).
    apply cppGetc_slots.
  - intros calls.
    change (world_cppUngetc 0
              (mkWorld (mkGlobals b (mkCpp u u2 rr hasAt hasRaw d)) f tags))
      with (with_slots 0 u
              (mkWorld (mkGlobals b (mkCpp u u2 rr hasAt hasRaw d)) f tags)).
    apply io_run_slots.
Qed.

Lemma pushback_round_trip_witness :
  let w := session false false false (str "xy") in
  cppGetc plain_options 1 (world_cppUngetc (chr "a") w) =
    Some (chr "a", w) /\
  io_run plain_options 1 [call_getc; call_getc; call_getc]
    (world_cppUngetc 0 (world_cppUngetc (chr "a") w)) =
    Some [chr "x"; chr "y"; EOF].
Proof.
  intros w.
  destruct (pushback_round_trip plain_options 1 w) as (H1 & H2 & _ & _).
  destruct (pushback_round_trip plain_options 1
              (world_cppUngetc (chr "a") w)) as (_ & _ & _ & H4).
  split.
  - rewrite (H1 (chr "a")) by discriminate.
    rewrite (H2 eq_refl). reflexivity.
  - rewrite H4. reflexivity.
Defined.

Lemma nestLevel_bounded_witness :
  pushConditional false false false true
    (set_nestLevel 19 (directive Cpp_static)) =
    (false, set_nestLevel 19 (directive Cpp_static)) /\
  snd (popConditional (directive Cpp_static)) = directive Cpp_static.
Proof.
  destruct nestLevel_bounded as (_ & Hpush & Hpop).
  split.
  - apply Hpush. reflexivity.
  - apply Hpop. reflexivity.
Defined.

(* ------------------------------------------------------------------ *)
(** ** readDirective *)

Lemma alpha_run_length (n : nat) :
  forall l, (length (alpha_run n l) <= n)%nat.
Proof.
  induction n as [| n IH]; intros l; [simpl; lia |].
  destruct l as [| c r]; [simpl; lia |].
  cbn [alpha_run]. destruct (isalpha c); simpl; [| lia].
  specialize (IH r). lia.
Qed.

Lemma isalpha_not_EOF (c : Z) : isalpha c = true -> (c =? EOF) = false.
Proof.
  unfold isalpha, isupper, islower, EOF. intros H.
  apply Z.eqb_neq. intros ->. discriminate.
Qed.

Lemma insert_middle (pre : list Z) (x : Z) (rest : list Z) :
  rest <> [] ->
  <[length pre := x]> (pre ++ rest) = pre ++ x :: drop 1 rest.
Proof.
  intros Hne. replace (length pre) with (length pre + 0)%nat by lia.
  rewrite insert_app_r. destruct rest; [contradiction | reflexivity].
Qed.

Lemma readDirective_loop_S (n i : nat) (c : Z) (name : list Z) :
  readDirective_loop (S n) i c name =
  if (0 <? i)%nat then
    do c' <- getcFromInputFile ;
    if (c' =? EOF) || negb (isalpha c') then
      fileUngetc c' ;; ret (i, c', name)
    else readDirective_loop n (S i) c' (<[i := c']> name)
  else readDirective_loop n (S i) c (<[i := c]> name).
Proof. reflexivity. Qed.

Lemma readDirective_loop_spec (n : nat) :
  forall (i : nat) (c : Z) (name p l : list Z),
    (0 < i)%nat ->
    (i + n <= length name)%nat ->
    exists c' f',
      readDirective_loop n i c name (mkFile p l) =
        ((i + length (alpha_run n l), c',
          take i name ++ alpha_run n l
          ++ drop (i + length (alpha_run n l)) name)%nat, f') /\
      fst (getcFromInputFile f') = nth (length (alpha_run n l)) l EOF /\
      f_ahead (snd (getcFromInputFile f')) =
        drop (S (length (alpha_run n l))) l.
Proof.
  induction n as [| n IH]; intros i c name p l Hi Hlen.
  - exists c, (mkFile p l). cbn [alpha_run length readDirective_loop app].
    rewrite Nat.add_0_r, take_drop. split; [reflexivity |].
    destruct l; split; reflexivity.
  - rewrite readDirective_loop_S.
    replace (0 <? i)%nat with true by (symmetry; apply Nat.ltb_lt; lia).
    unfold bind at 1; cbv beta.
    destruct l as [| x r].
    + rewrite getc_nil by reflexivity.
      change ((EOF =? EOF) || negb (isalpha EOF)) with true. cbv iota.
      exists EOF, (mkFile (tl p) [EOF]).
      cbn [alpha_run length app]. rewrite Nat.add_0_r, take_drop.
      repeat split; reflexivity.
    + rewrite getc_cons. cbn [alpha_run].
      destruct (isalpha x) eqn:Ea.
      * rewrite (isalpha_not_EOF x Ea). cbn [negb orb].
        destruct (IH (S i) x (<[i := x]> name) (x :: p) r)
          as (c' & f' & Hrun & Hnext & Hrest);
          [lia | rewrite length_insert; lia |].
        exists c', f'. rewrite Hrun. cbn [length].
        split; [| split; [exact Hnext | exact Hrest]].
        f_equal. f_equal; [f_equal; lia |].
        rewrite (take_S_r _ i x)
          by (apply list_lookup_insert_eq; lia).
        rewrite take_insert_ge by lia.
        rewrite drop_insert_lt by lia.
        rewrite <- app_assoc. cbn [app].
        replace (S i + length (alpha_run n r))%nat
          with (i + S (length (alpha_run n r)))%nat by lia.
        reflexivity.
      * rewrite orb_true_r.
        exists x, (mkFile p (x :: r)).
        cbn [length app]. rewrite Nat.add_0_r, take_drop.
        repeat split; reflexivity.
Qed.

(** C8. [readDirective] on an array of [MaxDirectiveName] cells stores
    the character it is given and the alphabetic characters that follow
    it in the input, at most 8 of them (9 characters in all), puts NUL
    after them inside the array and leaves the other cells alone; the next
    character the input delivers is the first one that was not stored
    ([EOF] at the end of the input), and the input goes on after it. *)
Theorem readDirective_spec (c : Z) (name p l : list Z) :
  length name = MaxDirectiveName ->
  let r := readDirective c name MaxDirectiveName (mkFile p l) in
  let w := alpha_run 8 l in
  (length (c :: w) <= 9)%nat /\
  snd (fst r) = (c :: w) ++ 0 :: drop (length w + 2) name /\
  length (snd (fst r)) = MaxDirectiveName /\
  fst (getcFromInputFile (snd r)) = nth (length w) l EOF /\
  f_ahead (snd (getcFromInputFile (snd r))) = drop (S (length w)) l.
Proof.
  intros Hlen r w. unfold MaxDirectiveName in *.
  pose proof (alpha_run_length 8 l) as Hw. fold w in Hw.
  assert (Hr : exists c' f',
             r = ((isspacetab c',
                   (c :: w) ++ 0 :: drop (length w + 2) name), f') /\
             fst (getcFromInputFile f') = nth (length w) l EOF /\
             f_ahead (snd (getcFromInputFile f')) = drop (S (length w)) l).
  { unfold r, readDirective. unfold bind at 1; cbv beta.
    change (10 - 1)%nat with 9%nat. rewrite readDirective_loop_S.
    change (0 <? 0)%nat with false. cbv iota.
    destruct (readDirective_loop_spec 8 1 c (<[0%nat := c]> name) p l)
      as (c' & f' & Hrun & Hnext & Hrest);
      [lia | rewrite length_insert; lia |].
    fold w in Hrun, Hnext, Hrest.
    exists c', f'. rewrite Hrun. unfold ret.
    split; [| split; [exact Hnext | exact Hrest]].
    f_equal. f_equal.
    assert (Hstored :
              take 1 (<[0%nat := c]> name) ++ w
              ++ drop (1 + length w) (<[0%nat := c]> name)
              = (c :: w) ++ drop (S (length w)) name).
    { destruct name as [| n0 name']; [simpl in Hlen; lia |].
      rewrite drop_insert_lt by lia. reflexivity. }
    rewrite Hstored.
    replace (1 + length w)%nat with (length (c :: w)) by reflexivity.
    rewrite insert_middle.
    - rewrite drop_drop. f_equal. f_equal. f_equal. lia.
    - intros Hnil. apply (f_equal length) in Hnil.
      rewrite length_drop in Hnil. simpl in Hnil. lia. }
  destruct Hr as (c' & f' & -> & Hnext & Hrest).
  cbn [fst snd]. split; [simpl; lia |].
  split; [reflexivity |].
  split; [| split; [exact Hnext | exact Hrest]].
  rewrite length_app. cbn [length]. rewrite length_drop. lia.
Qed.

Lemma readDirective_spec_witness :
  let r := readDirective (chr "d") (replicate 10 0) MaxDirectiveName
             (file_of (str "efine X")) in
  snd (fst r) = str "define" ++ [0; 0; 0; 0] /\
  fst (getcFromInputFile (snd r)) = chr " ".
Proof.
  intros r.
  destruct (readDirective_spec (chr "d") (replicate 10 0) []
              (str "efine X") eq_refl) as (_ & H2 & _ & H4 & _).
  split; [exact H2 | exact H4].
Defined.

(* ------------------------------------------------------------------ *)
(** ** A suppressed branch *)

Section Suppressed.

Variable Option : options.
Variable rr hasAt hasRaw : bool.

Abbreviation loop0 := (cppGetc_loop Option false rr hasAt hasRaw).
Abbreviation process0 := (cppGetc_process Option false rr hasAt hasRaw).

Lemma ordinary_tests (c : Z) :
  ordinary c = true ->
  (c =? EOF) = false /\ (c =? DOUBLE_QUOTE) = false /\
  (c =? chr "#") = false /\ (c =? SINGLE_QUOTE) = false /\
  (c =? chr "/") = false /\ (c =? BACKSLASH) = false /\
  (c =? chr "?") = false /\ (c =? chr "<") = false /\
  (c =? chr ":") = false /\ (c =? chr "%") = false.
Proof.
  unfold ordinary. intros H.
  repeat (apply andb_true_iff in H as [H ?]).
  repeat split; apply negb_true_iff; assumption.
Qed.

Lemma process_ordinary (c : Z) (directive ignore : bool) :
  ordinary c = true ->
  process0 c directive ignore =
  if (c =? TAB) || (c =? SPACE) then ret (c, directive, ignore)
  else if c =? NEWLINE then
    setDirective (set_accept true) ;;
    ret (c, if directive && negb ignore then false else directive, ignore)
  else
    do r <- cppGetc_literal hasAt hasRaw c ;
    match r with
    | Some c' => ret (c', directive, ignore)
    | None => cppGetc_enter Option false rr c directive ignore
    end.
Proof.
  intros H.
  destruct (ordinary_tests c H)
    as (H1 & H2 & H3 & H4 & H5 & H6 & H7 & H8 & H9 & H10).
  unfold cppGetc_process.
  rewrite H1, H2, H3, H4, H5, H6, H7, H8, H9, H10. reflexivity.
Qed.

Lemma cppGetc_literal_none (c : Z) (d : sDirective) (p : list Z) (x : Z)
  (rest : list Z) (tags : list tagEntryInfo) :
  (x =? DOUBLE_QUOTE) = false ->
  cppGetc_literal hasAt hasRaw c
    (mkScanner d (mkFile (c :: p) (x :: rest)) tags) =
  (None, mkScanner d (mkFile (c :: p) (x :: rest)) tags).
Proof.
  intros Hx. unfold cppGetc_literal.
  destruct ((c =? chr "@") && hasAt).
  - rewrite bind_onFile, getc_cons. cbn [fst snd]. rewrite Hx.
    reflexivity.
  - destruct ((c =? chr "R") && hasRaw); [| reflexivity].
    rewrite !bind_onFile. cbn [fst snd fileGetNthPrevC].
    match goal with
    | |- context [if ?b then _ else _] => destruct b
    end; [| reflexivity].
    rewrite bind_onFile, getc_cons. cbn [fst snd]. rewrite Hx.
    reflexivity.
Qed.

Lemma handleDirective_none (c : Z) (d : sDirective) (f : inputFile)
  (tags : list tagEntryInfo) :
  state d = DRCTV_NONE ->
  handleDirective Option false rr c (mkScanner d f tags) =
  (isIgnore d, mkScanner d f tags).
Proof.
  intros Hst. unfold handleDirective.
  rewrite !bind_getDirective, Hst. reflexivity.
Qed.

(** One turn of the loop on an ordinary character inside a suppressed
    branch: the character is passed over. *)
Lemma turn_ordinary (fuel : nat) (c : Z) (d : sDirective) (p : list Z)
  (x : Z) (rest : list Z) (tags : list tagEntryInfo) :
  ordinary c = true ->
  (x =? DOUBLE_QUOTE) = false ->
  state d = DRCTV_NONE ->
  isIgnore d = true ->
  exists a,
    loop0 (S fuel) true true
      (mkScanner d (mkFile p (c :: x :: rest)) tags) =
    loop0 fuel true true
      (mkScanner (set_accept a d) (mkFile (c :: p) (x :: rest)) tags).
Proof.
  intros Hc Hx Hst Hig. rewrite cppGetc_loop_S.
  rewrite (process_ordinary c true true Hc).
  destruct ((c =? TAB) || (c =? SPACE)).
  { exists (accept d). destruct d. reflexivity. }
  destruct (c =? NEWLINE).
  { exists true. reflexivity. }
  exists false.
  unfold bind at 1. rewrite (cppGetc_literal_none c d p x rest tags Hx).
  unfold cppGetc_enter. rewrite bind_setDirective.
  rewrite (bind_run _ _ _ _ _
             (handleDirective_none c (set_accept false d) _ tags Hst)).
  change (isIgnore (set_accept false d)) with (isIgnore d).
  rewrite Hig. reflexivity.
Qed.

Lemma suppressed_body (body : list Z) :
  forall (fuel : nat) (d : sDirective) (p : list Z) (x : Z)
         (rest : list Z) (tags : list tagEntryInfo),
    Forall (fun c => ordinary c = true) body ->
    ordinary x = true ->
    state d = DRCTV_NONE ->
    isIgnore d = true ->
    exists a p',
      loop0 (length body + fuel) true true
        (mkScanner d (mkFile p (body ++ x :: rest)) tags) =
      loop0 fuel true true
        (mkScanner (set_accept a d) (mkFile p' (x :: rest)) tags).
Proof.
  assert (Hq : forall c, ordinary c = true -> (c =? DOUBLE_QUOTE) = false).
  { intros c Hc. apply (ordinary_tests c Hc). }
  induction body as [| c body IH]; intros fuel d p x rest tags Hb Hx Hst Hig.
  - exists (accept d), p. destruct d. reflexivity.
  - pose proof (Forall_inv Hb) as Hc. pose proof (Forall_inv_tail Hb) as Hb'.
    assert (Hnext : exists y tl, body ++ x :: rest = y :: tl
                                 /\ (y =? DOUBLE_QUOTE) = false).
    { destruct body as [| y body'].
      - exists x, rest. split; [reflexivity | apply Hq, Hx].
      - exists y, (body' ++ x :: rest).
        split; [reflexivity | apply Hq, (Forall_inv Hb')]. }
    destruct Hnext as (y & tl & Htl & Hy).
    cbn [length app Nat.add]. rewrite Htl.
    destruct (turn_ordinary (length body + fuel) c d p y tl tags
                Hc Hy Hst Hig) as [a Ha].
    rewrite Ha, <- Htl.
    destruct (IH fuel (set_accept a d) (c :: p) x rest tags Hb' Hx Hst Hig)
      as (a' & p' & Hrun).
    exists a', p'. rewrite Hrun. reflexivity.
Qed.

Lemma turn_hash (fuel : nat) (directive ignore : bool) (d : sDirective)
  (p rest : list Z) (tags : list tagEntryInfo) :
  accept d = true ->
  loop0 (S fuel) directive ignore
    (mkScanner d (mkFile p (chr "#" :: rest)) tags) =
  loop0 fuel true ignore
    (mkScanner (set_accept false (set_state DRCTV_HASH d))
       (mkFile (chr "#" :: p) rest) tags).
Proof.
  intros Hacc. rewrite cppGetc_loop_S.
  change (process0 (chr "#") directive ignore)
    with (cppGetc_hash (chr "#") directive ignore).
  unfold cppGetc_hash. rewrite bind_getDirective, Hacc.
  rewrite !bind_setDirective. reflexivity.
Qed.

Lemma directiveHash_if (d : sDirective) (p rest : list Z)
  (tags : list tagEntryInfo) :
  directiveHash false rr (chr "i")
    (mkScanner d (mkFile p (chr "f" :: SPACE :: rest)) tags) =
  (false,
   mkScanner (set_state DRCTV_IF d) (mkFile (chr "f" :: p) (SPACE :: rest))
     tags).
Proof. reflexivity. Qed.

Lemma directiveHash_endif (d : sDirective) (p rest : list Z)
  (tags : list tagEntryInfo) :
  directiveHash false rr (chr "e")
    (mkScanner d (mkFile p (str "ndif" ++ NEWLINE :: rest)) tags) =
  (isIgnore (snd (popConditional d)),
   mkScanner (set_state DRCTV_NONE (snd (popConditional d)))
     (mkFile (rev (str "ndif") ++ p) (NEWLINE :: rest)) tags).
Proof. reflexivity. Qed.

Lemma handleDirective_hash (c : Z) (d : sDirective) (f : inputFile)
  (tags : list tagEntryInfo) :
  state d = DRCTV_HASH ->
  handleDirective Option false rr c (mkScanner d f tags) =
  directiveHash false rr c (mkScanner d f tags).
Proof.
  intros Hst. unfold handleDirective.
  rewrite !bind_getDirective, Hst. reflexivity.
Qed.

Lemma handleDirective_if (c : Z) (d : sDirective) (f : inputFile)
  (tags : list tagEntryInfo) :
  state d = DRCTV_IF ->
  handleDirective Option false rr c (mkScanner d f tags) =
  directiveIf Option false rr c (mkScanner d f tags).
Proof.
  intros Hst. unfold handleDirective.
  rewrite !bind_getDirective, Hst. reflexivity.
Qed.

Lemma turn_if_word (fuel : nat) (ignore : bool) (d : sDirective)
  (p rest : list Z) (tags : list tagEntryInfo) :
  state d = DRCTV_HASH ->
  loop0 (S fuel) true ignore
    (mkScanner d (mkFile p (chr "i" :: chr "f" :: SPACE :: rest)) tags) =
  loop0 fuel true false
    (mkScanner (set_state DRCTV_IF (set_accept false d))
       (mkFile (chr "f" :: chr "i" :: p) (SPACE :: rest)) tags).
Proof.
  intros Hst. rewrite cppGetc_loop_S.
  change (process0 (chr "i") true ignore)
    with (cppGetc_enter Option false rr (chr "i") true ignore).
  unfold cppGetc_enter. rewrite bind_setDirective.
  rewrite (bind_run _ _ _ _ _
             (eq_trans
                (handleDirective_hash (chr "i") (set_accept false d) _ tags
                   Hst)
                (directiveHash_if _ _ _ _))).
  reflexivity.
Qed.

Lemma turn_endif_word (fuel : nat) (ignore : bool) (d : sDirective)
  (p rest : list Z) (tags : list tagEntryInfo) :
  state d = DRCTV_HASH ->
  loop0 (S fuel) true ignore
    (mkScanner d (mkFile p (str "endif" ++ NEWLINE :: rest)) tags) =
  loop0 fuel true (isIgnore (snd (popConditional (set_accept false d))))
    (mkScanner
       (set_state DRCTV_NONE (snd (popConditional (set_accept false d))))
       (mkFile (rev (str "endif") ++ p) (NEWLINE :: rest)) tags).
Proof.
  intros Hst.
  change (str "endif" ++ NEWLINE :: rest)
    with (chr "e" :: str "ndif" ++ NEWLINE :: rest).
  rewrite cppGetc_loop_S.
  change (process0 (chr "e") true ignore)
    with (cppGetc_enter Option false rr (chr "e") true ignore).
  unfold cppGetc_enter. rewrite bind_setDirective.
  rewrite (bind_run _ _ _ _ _
             (eq_trans
                (handleDirective_hash (chr "e") (set_accept false d) _ tags
                   Hst)
                (directiveHash_endif _ _ _ _))).
  reflexivity.
Qed.

Lemma directiveIf_zero (d : sDirective) (f : inputFile)
  (tags : list tagEntryInfo) :
  directiveIf Option false rr (chr "0") (mkScanner d f tags) =
  (fst (pushConditional (if0 Option) false rr false d),
   mkScanner
     (set_state DRCTV_NONE
        (snd (pushConditional (if0 Option) false rr false d))) f tags).
Proof.
  unfold directiveIf. rewrite bind_onDirective, bind_setDirective.
  reflexivity.
Qed.

Lemma turn_zero (fuel : nat) (ignore : bool) (d : sDirective)
  (p rest : list Z) (tags : list tagEntryInfo) :
  if0 Option = false ->
  state d = DRCTV_IF ->
  (nestLevel d < 19)%nat ->
  loop0 (S fuel) true ignore
    (mkScanner d (mkFile p (chr "0" :: rest)) tags) =
  loop0 fuel true true
    (mkScanner
       (set_state DRCTV_NONE
          (snd (pushConditional false false rr false
                  (set_accept false d))))
       (mkFile (chr "0" :: p) rest) tags).
Proof.
  intros Hif0 Hst Hlt. rewrite cppGetc_loop_S.
  change (process0 (chr "0") true ignore)
    with (cppGetc_enter Option false rr (chr "0") true ignore).
  unfold cppGetc_enter. rewrite bind_setDirective.
  rewrite (bind_run _ _ _ _ _
             (eq_trans
                (handleDirective_if (chr "0") (set_accept false d) _ tags
                   Hst)
                (directiveIf_zero _ _ _))).
  rewrite Hif0.
  assert (Hpush : fst (pushConditional false false rr false
                         (set_accept false d)) = true).
  { unfold pushConditional. cbn [nestLevel set_accept].
    replace (nestLevel d <? MaxCppNestingLevel - 1)%nat with true
      by (symmetry; apply Nat.ltb_lt; unfold MaxCppNestingLevel; lia).
    cbn [fst negb andb]. rewrite !orb_true_r. reflexivity. }
  unfold ret. rewrite Hpush. reflexivity.
Qed.

Lemma frame_set_frame_ne (n m : nat) (f : conditionalInfo)
  (d : sDirective) :
  n <> m -> frame (set_frame n f d) m = frame d m.
Proof.
  intros H. unfold frame, set_frame. cbn [ifdef].
  rewrite !nth_lookup. rewrite list_lookup_insert_ne by exact H.
  reflexivity.
Qed.

(** The line [#if 0], read by the loop of [cppGetc] from its first
    character below the nesting cap: a frame is opened and the loop goes
    on in a suppressed branch, whatever follows. *)
Lemma if0_line_opens (k : nat) (d : sDirective) (p rest : list Z)
  (tags : list tagEntryInfo) :
  if0 Option = false ->
  accept d = true ->
  (nestLevel d < 19)%nat ->
  length (ifdef d) = MaxCppNestingLevel ->
  exists d1 p1,
    loop0 (5 + k) false false
      (mkScanner d (mkFile p (str "#if 0" ++ NEWLINE :: rest)) tags) =
    loop0 k true true (mkScanner d1 (mkFile p1 rest) tags) /\
    suppressed d1 /\
    accept d1 = true /\
    nestLevel d1 = S (nestLevel d) /\
    frame d1 (nestLevel d) = frame d (nestLevel d) /\
    name d1 = name d.
Proof.
  intros Hif0 Hacc Hlt Hlen.
  change (str "#if 0" ++ NEWLINE :: rest)
    with (chr "#" :: chr "i" :: chr "f" :: SPACE :: chr "0" :: NEWLINE
          :: rest).
  change (5 + k)%nat with (S (S (S (S (S k))))).
  rewrite (turn_hash _ _ _ _ _ _ _ Hacc).
  rewrite turn_if_word by reflexivity.
  rewrite cppGetc_loop_S.
  change (process0 SPACE true false)
    with (@ret scanner _ (SPACE, true, false)).
  unfold ret at 1. cbv iota beta. cbn [orb].
  rewrite (turn_zero _ _ _ _ _ _ Hif0) by (try reflexivity; exact Hlt).
  rewrite cppGetc_loop_S.
  change (process0 NEWLINE true true)
    with (setDirective (set_accept true) ;;
          @ret scanner _ (NEWLINE, true, true)).
  rewrite bind_setDirective. unfold ret at 1. cbv iota beta. cbn [orb].
  eexists. eexists. split; [reflexivity |].
  unfold suppressed, isIgnore, pushConditional, MaxCppNestingLevel in *.
  cbn [nestLevel set_accept set_state].
  replace (nestLevel d <? 20 - 1)%nat with true
    by (symmetry; apply Nat.ltb_lt; lia).
  cbn [snd nestLevel set_accept set_state set_frame set_nestLevel name
       state accept].
  split; [split; [reflexivity |] |].
  - match goal with
    | |- ignoring (frame ?x ?n) = true =>
        change (frame x n) with (frame (set_frame n
          (mkConditional (ignoring (frame d (nestLevel d))) rr false
             (ignoring (frame d (nestLevel d))
              || (true && true && (rr || negb false)))) d) n)
    end.
    rewrite frame_set_frame by lia. cbn [ignoring].
    rewrite !orb_true_r. reflexivity.
  - repeat split.
    match goal with
    | |- frame ?x ?n = _ =>
        change (frame x n) with (frame (set_frame (S n)
          (mkConditional (ignoring (frame d (nestLevel d))) rr false
             (ignoring (frame d (nestLevel d))
              || (true && true && (rr || negb false)))) d) n)
    end.
    apply frame_set_frame_ne. lia.
Qed.

(** A [#if 0] block with an ordinary body, read by the loop of [cppGetc]
    from its first character: the loop is left at the newline that ends
    the [#endif] line. *)
Lemma if0_block_loop (k : nat) (d : sDirective) (p body rest : list Z)
  (tags : list tagEntryInfo) :
  if0 Option = false ->
  accept d = true ->
  (nestLevel d < 19)%nat ->
  length (ifdef d) = MaxCppNestingLevel ->
  isIgnore d = false ->
  Forall (fun c => ordinary c = true) body ->
  exists d' p',
    loop0 (length body + 9 + k) false false
      (mkScanner d (mkFile p (if0_block body ++ rest)) tags) =
    Some (NEWLINE, mkScanner d' (mkFile p' rest) tags) /\
    nestLevel d' = nestLevel d /\
    isIgnore d' = false /\
    accept d' = true /\
    state d' = DRCTV_NONE /\
    name d' = name d.
Proof.
  intros Hif0 Hacc Hlt Hlen Hig Hbody.
  unfold if0_block. rewrite <- !app_assoc. cbn [app].
  replace (length body + 9 + k)%nat
    with (5 + (length body + S (S (S (S k)))))%nat by lia.
  destruct (if0_line_opens (length body + S (S (S (S k)))) d p
              (body ++ NEWLINE :: str "#endif" ++ NEWLINE :: rest) tags
              Hif0 Hacc Hlt Hlen)
    as (d1 & p1 & Hopen & [Hst1 Hig1] & Hacc1 & Hn1 & Hfr1 & Hname1).
  rewrite Hopen. clear Hopen.
  destruct (suppressed_body body (S (S (S (S k)))) d1 p1
              NEWLINE (str "#endif" ++ NEWLINE :: rest) tags Hbody
              eq_refl Hst1 Hig1) as (a & p' & Hrun).
  rewrite Hrun. clear Hrun.
  rewrite cppGetc_loop_S.
  change (process0 NEWLINE true true)
    with (setDirective (set_accept true) ;;
          @ret scanner _ (NEWLINE, true, true)).
  rewrite bind_setDirective. unfold ret at 1. cbv iota beta. cbn [orb].
  change (str "#endif" ++ NEWLINE :: rest)
    with (chr "#" :: str "endif" ++ NEWLINE :: rest).
  rewrite turn_hash by reflexivity.
  rewrite turn_endif_word by reflexivity.
  set (d2 := snd (popConditional
                    (set_accept false
                       (set_accept false
                          (set_state DRCTV_HASH
                             (set_accept true (set_accept a d1))))))).
  assert (Hd2 : nestLevel d2 = nestLevel d /\ isIgnore d2 = false /\
                name d2 = name d).
  { unfold d2, popConditional.
    cbn [nestLevel set_accept set_state]. rewrite Hn1.
    cbn [Nat.ltb Nat.leb snd]. unfold isIgnore.
    cbn [nestLevel set_accept set_state set_nestLevel name].
    replace (S (nestLevel d) - 1)%nat with (nestLevel d) by lia.
    split; [reflexivity |]. split; [| exact Hname1].
    unfold isIgnore in Hig. rewrite <- Hig, <- Hfr1. reflexivity. }
  destruct Hd2 as (Hn2 & Hig2 & Hname2).
  rewrite Hig2.
  exists (set_accept true (set_state DRCTV_NONE d2)).
  eexists. split; [reflexivity |].
  repeat split; assumption.
Qed.

(** *** Every turn of the loop in a suppressed branch *)

Lemma kept_accept (d d0 : sDirective) (a : bool) :
  kept d d0 -> kept d (set_accept a d0).
Proof. intros H. exact H. Qed.

Lemma keep_ret (d d0 : sDirective) (c : Z) (f : inputFile)
  (tags : list tagEntryInfo) :
  kept d d0 -> turn_suppressed d ((c, true, true), mkScanner d0 f tags).
Proof.
  intros [Hs Hk]. right. cbn [fst snd sc_directive].
  repeat split; try apply Hs. left. exact Hk.
Qed.

Lemma keep_enter (d d0 : sDirective) (c : Z) (f : inputFile)
  (tags : list tagEntryInfo) :
  kept d d0 ->
  turn_suppressed d
    (cppGetc_enter Option false rr c true true (mkScanner d0 f tags)).
Proof.
  intros Hk. unfold cppGetc_enter. rewrite bind_setDirective.
  rewrite (bind_run _ _ _ _ _
             (handleDirective_none c (set_accept false d0) f tags
                (proj1 (proj2 Hk)))).
  change (isIgnore (set_accept false d0)) with (isIgnore d0).
  rewrite (proj2 (proj2 Hk)).
  apply keep_ret, kept_accept, Hk.
Qed.

Lemma keep_hash (d d0 : sDirective) (c : Z) (f : inputFile)
  (tags : list tagEntryInfo) :
  kept d d0 ->
  turn_suppressed d (cppGetc_hash c true true (mkScanner d0 f tags)).
Proof.
  intros Hk. unfold cppGetc_hash. rewrite bind_getDirective.
  destruct (accept d0).
  - rewrite !bind_setDirective. right. cbn [fst snd sc_directive ret].
    repeat split; try apply Hk. right. reflexivity.
  - apply keep_ret, Hk.
Qed.

Lemma keep_backslash (d d0 : sDirective) (c : Z) (f : inputFile)
  (tags : list tagEntryInfo) :
  kept d d0 ->
  turn_suppressed d (cppGetc_backslash c true true (mkScanner d0 f tags)).
Proof.
  intros Hk. unfold cppGetc_backslash. rewrite bind_onFile.
  destruct (_ =? NEWLINE).
  - apply keep_ret, Hk.
  - rewrite bind_onFile. apply keep_ret, Hk.
Qed.

Ltac keep_step Hk :=
  first
    [ apply keep_enter; exact Hk
    | apply keep_hash; exact Hk
    | apply keep_backslash; exact Hk
    | apply keep_ret; exact Hk
    | rewrite bind_onFile
    | rewrite bind_setDirective;
      match goal with
      | |- context [mkScanner (set_accept ?a ?d0) _ _] =>
          let Hk' := fresh "Hk" in
          pose proof (kept_accept _ d0 a Hk) as Hk'; keep_step Hk'
      end
    | match goal with
      | |- context [if ?b then _ else _] => destruct b
      end ].

Lemma keep_trigraph (d d0 : sDirective) (c : Z) (f : inputFile)
  (tags : list tagEntryInfo) :
  kept d d0 ->
  turn_suppressed d (cppGetc_trigraph c true true (mkScanner d0 f tags)).
Proof.
  intros Hk. unfold cppGetc_trigraph.
  repeat keep_step Hk.
Qed.

Lemma keep_literal (d d0 : sDirective) (c : Z) (f : inputFile)
  (tags : list tagEntryInfo) :
  kept d d0 ->
  turn_suppressed d
    ((do r <- cppGetc_literal hasAt hasRaw c ;
      match r with
      | Some c' => ret (c', true, true)
      | None => cppGetc_enter Option false rr c true true
      end) (mkScanner d0 f tags)).
Proof.
  intros Hk. unfold cppGetc_literal.
  destruct ((c =? chr "@") && hasAt).
  - unfold bind at 1. rewrite bind_onFile.
    destruct (_ =? DOUBLE_QUOTE).
    + rewrite bind_setDirective, bind_onFile. unfold ret.
      apply keep_ret, kept_accept, Hk.
    + rewrite bind_onFile. unfold ret. apply keep_enter, Hk.
  - destruct ((c =? chr "R") && hasRaw).
    + unfold bind at 1. rewrite !bind_onFile.
      match goal with
      | |- context [if ?b then _ else _] => destruct b
      end.
      * rewrite bind_onFile. destruct (negb _).
        -- rewrite bind_onFile. unfold ret. apply keep_enter, Hk.
        -- rewrite bind_setDirective, bind_onFile. unfold ret.
           apply keep_ret, kept_accept, Hk.
      * unfold ret. apply keep_enter, Hk.
    + unfold bind, ret. apply keep_enter, Hk.
Qed.

Lemma keep_process (d d0 : sDirective) (c : Z) (f : inputFile)
  (tags : list tagEntryInfo) :
  kept d d0 ->
  turn_suppressed d (process0 c true true (mkScanner d0 f tags)).
Proof.
  intros Hk. unfold cppGetc_process.
  destruct (c =? EOF) eqn:Ec.
  { left. apply Z.eqb_eq in Ec. subst c. repeat split. }
  destruct ((c =? TAB) || (c =? SPACE)); [apply keep_ret, Hk |].
  destruct (c =? NEWLINE).
  { rewrite bind_setDirective. apply keep_ret, kept_accept, Hk. }
  destruct (c =? DOUBLE_QUOTE).
  { rewrite bind_setDirective, bind_onFile.
    apply keep_ret, kept_accept, Hk. }
  destruct (c =? chr "#"); [apply keep_hash, Hk |].
  destruct (c =? SINGLE_QUOTE).
  { rewrite bind_setDirective, bind_onFile.
    apply keep_ret, kept_accept, Hk. }
  destruct (c =? chr "/").
  { rewrite bind_onFile. destruct (fst (isComment f)).
    - rewrite bind_setDirective. apply keep_ret, kept_accept, Hk.
    - rewrite bind_onFile. apply keep_ret, Hk.
    - rewrite bind_onFile.
      destruct (_ =? NEWLINE); [rewrite bind_onFile |];
        apply keep_ret, Hk.
    - rewrite bind_onFile. apply keep_ret, Hk. }
  destruct (c =? BACKSLASH); [apply keep_backslash, Hk |].
  destruct (c =? chr "?"); [apply keep_trigraph, Hk |].
  destruct (c =? chr "<"); [repeat keep_step Hk |].
  destruct (c =? chr ":"); [repeat keep_step Hk |].
  destruct (c =? chr "%"); [repeat keep_step Hk |].
  apply keep_literal, Hk.
Qed.

Lemma suppressed_turn (s : scanner) :
  suppressed (sc_directive s) ->
  turn_suppressed (sc_directive s)
    (cppGetc_turn Option false rr hasAt hasRaw true true s).
Proof.
  intros Hs. destruct s as [d f tags]. cbn [sc_directive] in *.
  unfold cppGetc_turn. rewrite bind_onFile.
  apply keep_process. split; [split; reflexivity | exact Hs].
Qed.

Lemma suppressed_loop (fuel : nat) :
  forall (s : scanner) (c : Z) (s' : scanner),
    suppressed (sc_directive s) ->
    no_directive_begins Option false rr hasAt hasRaw fuel s ->
    loop0 fuel true true s = Some (c, s') ->
    c = EOF.
Proof.
  induction fuel as [| fuel IH]; intros s c s' Hs Hq Hrun; [discriminate |].
  cbn [cppGetc_loop no_directive_begins] in Hrun, Hq.
  destruct Hq as [Hnh Hq].
  pose proof (suppressed_turn s Hs) as Ht.
  destruct (cppGetc_turn Option false rr hasAt hasRaw true true s)
    as [[[c1 d1] i1] s1].
  unfold turn_suppressed in Ht. cbn [fst snd] in *.
  destruct Ht as [(-> & -> & ->) | (-> & -> & _ & [Hk | Hh])].
  - cbn [orb] in Hrun. inversion Hrun. reflexivity.
  - cbn [orb] in Hrun. exact (IH s1 c s' Hk Hq Hrun).
  - contradiction.
Qed.

End Suppressed.

(** C2, as the code has it. With [Option.if0] and [BraceFormat] off:
    - a [#if 0] line that [cppGetc] reads from the start of a line, below
      the nesting cap, opens a frame and leaves the loop of [cppGetc]
      running in a suppressed branch, whatever follows;
    - in a suppressed branch every turn of the loop either reads [EOF] or
      hands nothing to the caller and keeps the conditional stack, and
      the branch stays suppressed until a directive line begins; so as
      long as no directive line begins, the only value the loop can
      return is [EOF];
    - when the body is made of ordinary characters and the line [#endif]
      follows, the call of [cppGetc] that read the ["#"] of [#if 0]
      returns the newline that ends the [#endif] line, with the input
      right after it, the nesting level as it was and nothing
      suppressed. *)
Theorem if0_branch_suppressed (Option : options) :
  if0 Option = false ->
  (forall (rr hasAt hasRaw : bool) (k : nat) (d : sDirective)
          (p rest : list Z) (tags : list tagEntryInfo),
      accept d = true ->
      (nestLevel d < 19)%nat ->
      length (ifdef d) = MaxCppNestingLevel ->
      exists d1 p1,
        cppGetc_loop Option false rr hasAt hasRaw (5 + k) false false
          (mkScanner d (mkFile p (str "#if 0" ++ NEWLINE :: rest)) tags) =
        cppGetc_loop Option false rr hasAt hasRaw k true true
          (mkScanner d1 (mkFile p1 rest) tags) /\
        suppressed d1 /\ nestLevel d1 = S (nestLevel d)) /\
  (forall (rr hasAt hasRaw : bool) (s : scanner),
      suppressed (sc_directive s) ->
      turn_suppressed (sc_directive s)
        (cppGetc_turn Option false rr hasAt hasRaw true true s)) /\
  (forall (rr hasAt hasRaw : bool) (fuel : nat) (s : scanner) (c : Z)
          (s' : scanner),
      suppressed (sc_directive s) ->
      no_directive_begins Option false rr hasAt hasRaw fuel s ->
      cppGetc_loop Option false rr hasAt hasRaw fuel true true s =
        Some (c, s') ->
      c = EOF) /\
  (forall (k : nat) (w : world) (p body rest : list Z),
      BraceFormat (w_globals w) = false ->
      at_text w p (if0_block body ++ rest) ->
      accept (directive (Cpp (w_globals w))) = true ->
      (getDirectiveNestLevel (w_globals w) < 19)%nat ->
      length (ifdef (directive (Cpp (w_globals w)))) = MaxCppNestingLevel ->
      isIgnore (directive (Cpp (w_globals w))) = false ->
      Forall (fun c => ordinary c = true) body ->
      exists w',
        cppGetc Option (length body + 9 + k) w = Some (NEWLINE, w') /\
        f_ahead (w_file w') = rest /\
        w_tags w' = w_tags w /\
        getDirectiveNestLevel (w_globals w') =
          getDirectiveNestLevel (w_globals w) /\
        isIgnore (directive (Cpp (w_globals w'))) = false /\
        accept (directive (Cpp (w_globals w'))) = true).
Proof.
  intros Hif0. split; [| split; [| split]].
  - intros rr hasAt hasRaw k d p rest tags Hacc Hlt Hlen.
    destruct (if0_line_opens Option rr hasAt hasRaw k d p rest tags
                Hif0 Hacc Hlt Hlen)
      as (d1 & p1 & Hrun & Hs & _ & Hn & _).
    exists d1, p1. repeat split; try assumption; apply Hs.
  - intros rr hasAt hasRaw s. apply suppressed_turn.
  - intros rr hasAt hasRaw fuel s c s'. apply suppressed_loop.
  - intros k w p body rest Hbf Hw Hacc Hlt Hlen Hig Hbody.
    destruct (at_text_world w _ _ Hw)
      as (b & u2 & rr & hasAt & hasRaw & d & tags & ->).
    unfold getDirectiveNestLevel in *.
    cbn [w_globals Cpp BraceFormat directive w_tags] in *. subst b.
    destruct (if0_block_loop Option rr hasAt hasRaw k d p body rest tags
                Hif0 Hacc Hlt Hlen Hig Hbody)
      as (d' & p' & Hrun & Hn & Hi & Ha & _ & _).
    rewrite cppGetc_scan, Hrun.
    eexists. split; [reflexivity |].
    cbn [w_file w_tags w_globals Cpp directive sc_directive sc_file
         sc_tags f_ahead].
    repeat split; assumption.
Qed.

Lemma if0_branch_suppressed_witness :
  exists w',
    cppGetc plain_options (length (str "skipped") + 9 + 0)
      (session false false false (if0_block (str "skipped") ++ str "kept"))
    = Some (NEWLINE, w') /\
    f_ahead (w_file w') = str "kept".
Proof.
  destruct (if0_branch_suppressed plain_options eq_refl)
    as (_ & _ & _ & Hblock).
  destruct (Hblock 0%nat
              (session false false false
                 (if0_block (str "skipped") ++ str "kept"))
              [] (str "skipped") (str "kept"))
    as (w' & Hrun & Hrest & _).
  - reflexivity.
  - split; reflexivity.
  - reflexivity.
  - cbv. lia.
  - reflexivity.
  - reflexivity.
  - repeat constructor.
  - exists w'. split; [exact Hrun | exact Hrest].
Defined.

(** C2 as stated fails at the nesting cap: after nineteen open [#if 1]
    lines the frame of [#if 0] is not opened, and the body ["x"] is
    returned. *)
Lemma if0_body_returned_at_cap :
  cppGetc_calls plain_options 40 40
    (session false false false
       (concat (replicate 19 (str "#if 1" ++ [NEWLINE]))
        ++ if0_block (str "x") ++ str "kept")) =
  Some (replicate 20 NEWLINE
        ++ [chr "x"; NEWLINE; NEWLINE] ++ str "kept" ++ [EOF]).
Proof. vm_compute. reflexivity. Qed.

(** A directive line inside the suppressed branch that has no ordinary
    character after its name (here [#include] with a quoted file name)
    ends the suppression: [directiveHash] answers FALSE for it, the
    newline then ends the directive, and the rest of the branch is
    returned. *)
Lemma if0_body_returned_after_directive :
  cppGetc_calls plain_options 40 40
    (session false false false
       (str "#if 0" ++ [NEWLINE]
        ++ str "#include " ++ [DOUBLE_QUOTE] ++ str "a.h"
        ++ [DOUBLE_QUOTE; NEWLINE]
        ++ str "int x;" ++ [NEWLINE] ++ str "#endif" ++ [NEWLINE])) =
  Some ([NEWLINE] ++ str "int x;" ++ [NEWLINE; NEWLINE; EOF]).
Proof. vm_compute. reflexivity. Qed.

(* ------------------------------------------------------------------ *)
(** * Further properties *)

(** ** The conditional stack *)

Lemma set_frame_length (n : nat) (f : conditionalInfo) (d : sDirective) :
  length (ifdef (set_frame n f d)) = length (ifdef d).
Proof. unfold set_frame. cbn [ifdef]. apply length_insert. Qed.

Lemma set_frame_nestLevel (n : nat) (f : conditionalInfo)
  (d : sDirective) :
  nestLevel (set_frame n f d) = nestLevel d.
Proof. reflexivity. Qed.

Lemma frame_set_frame_if (n m : nat) (f : conditionalInfo)
  (d : sDirective) :
  (n < length (ifdef d))%nat ->
  frame (set_frame n f d) m = if Nat.eqb n m then f else frame d m.
Proof.
  intros H. destruct (Nat.eqb n m) eqn:E.
  - apply Nat.eqb_eq in E. subst m. apply frame_set_frame, H.
  - apply Nat.eqb_neq in E. apply frame_set_frame_ne, E.
Qed.

Ltac frames :=
  repeat first
    [ rewrite set_frame_nestLevel
    | rewrite set_frame_length
    | rewrite frame_set_frame_if
        by (rewrite ?set_frame_length; assumption)
    | rewrite Nat.eqb_refl ].

(** What an [#elif] or [#else] does to the stack: the current frame gets
    new flags, nothing else changes. *)
Lemma branch_change_frames (bf rr e : bool) (d : sDirective) :
  (nestLevel d < length (ifdef d))%nat ->
  let d' := branch_change bf rr e d in
  let f := frame d (nestLevel d) in
  let sb := if rr && negb bf then true else singleBranch f in
  let ig := ignoreAllBranches f || (branchChosen f && sb) in
  nestLevel d' = nestLevel d /\
  length (ifdef d') = length (ifdef d) /\
  (forall m, m <> nestLevel d -> frame d' m = frame d m) /\
  frame d' (nestLevel d) =
    mkConditional (ignoreAllBranches f) sb
      (if negb ig && e && negb bf then sb || rr else branchChosen f) ig.
Proof.
  intros Hlen d' f sb ig. subst d' sb ig.
  unfold branch_change, isIgnoreBranch, setIgnore, chooseBranch,
    currentConditional.
  fold f.
  assert (Hne : forall m, m <> nestLevel d ->
                          Nat.eqb (nestLevel d) m = false)
    by (intros m Hm; apply Nat.eqb_neq; congruence).
  destruct rr, bf, e; cbn [andb negb fst snd]; frames; fold f;
    destruct f as [[] [] [] []];
    cbn [andb orb negb ignoreAllBranches singleBranch branchChosen
           ignoring];
    frames;
    (split; [reflexivity | split; [reflexivity | split;
       [intros m Hm; frames; rewrite ?(Hne m Hm); reflexivity
       | reflexivity]]]).
Qed.

(** What an [#if] does to the stack below the cap: one frame is opened,
    nothing else changes. *)
Lemma pushConditional_frames (o bf rr b : bool) (d : sDirective) :
  (S (nestLevel d) < length (ifdef d))%nat ->
  (nestLevel d < MaxCppNestingLevel - 1)%nat ->
  let d' := snd (pushConditional o bf rr b d) in
  let ig := isIgnore d || (negb b && negb bf && (rr || negb o)) in
  fst (pushConditional o bf rr b d) = ig /\
  nestLevel d' = S (nestLevel d) /\
  length (ifdef d') = length (ifdef d) /\
  (forall m, m <> S (nestLevel d) -> frame d' m = frame d m) /\
  frame d' (S (nestLevel d)) = mkConditional (isIgnore d) rr b ig.
Proof.
  intros Hlen Hcap d' ig. subst d' ig. unfold pushConditional.
  apply Nat.ltb_lt in Hcap. rewrite Hcap.
  cbn [fst snd nestLevel set_nestLevel set_frame].
  split; [reflexivity | split; [reflexivity | split; [| split]]].
  - rewrite set_frame_length. reflexivity.
  - intros m Hm. rewrite frame_set_frame_ne by congruence. reflexivity.
  - apply frame_set_frame. exact Hlen.
Qed.

Lemma popConditional_frames (d : sDirective) :
  let d' := snd (popConditional d) in
  nestLevel d' = Nat.pred (nestLevel d) /\
  ifdef d' = ifdef d /\
  (forall m, frame d' m = frame d m) /\
  fst (popConditional d) = ignoring (frame d (Nat.pred (nestLevel d))).
Proof.
  unfold popConditional, isIgnore.
  destruct (nestLevel d) as [| n] eqn:E; cbn [Nat.ltb Nat.leb fst snd].
  - rewrite E. repeat split; reflexivity.
  - cbn [nestLevel set_nestLevel Nat.pred].
    replace (S n - 1)%nat with n by lia.
    repeat split; reflexivity.
Qed.

Lemma stack_inv_step (o : bool) (g : cppGlobals) (c : cond_call) :
  stack_inv (directive (Cpp g)) ->
  stack_inv (directive (Cpp (cond_step o g c))).
Proof.
  intros (Hlen & Hlev & Hnest & Hall).
  unfold MaxCppNestingLevel in *.
  destruct c as [b | | | | |];
    cbn [cond_step on_directive cppBeginStatement cppEndStatement Cpp
         directive set_directive set_resolveRequired];
    try (repeat split; assumption).
  - (* #if *)
    destruct (Nat.ltb_spec (nestLevel (directive (Cpp g))) 19) as [Hc | Hc].
    + destruct (pushConditional_frames o (BraceFormat g)
                  (resolveRequired (Cpp g)) b (directive (Cpp g)))
        as (_ & HL & Hl & Hother & Hnew);
        [lia | unfold MaxCppNestingLevel; lia |].
      unfold stack_inv, MaxCppNestingLevel. rewrite HL, Hl.
      split; [exact Hlen | split; [lia | split]].
      * intros n Hn. destruct (Nat.eq_dec n (nestLevel (directive (Cpp g))))
          as [-> | Hne].
        -- rewrite Hnew, Hother by lia. reflexivity.
        -- rewrite !Hother by lia. apply Hnest. lia.
      * intros n Hn.
        destruct (Nat.eq_dec n (S (nestLevel (directive (Cpp g)))))
          as [-> | Hne].
        -- rewrite Hnew.
           cbn [ignoreAllBranches ignoring]. intros ->. reflexivity.
        -- rewrite !Hother by lia. apply Hall. lia.
    + unfold pushConditional, MaxCppNestingLevel.
      replace (nestLevel (directive (Cpp g)) <? 20 - 1)%nat with false
        by (symmetry; apply Nat.ltb_ge; lia).
      cbn [snd]. repeat split; assumption.
  - (* #endif *)
    destruct (popConditional_frames (directive (Cpp g)))
      as (HL & Hl & Hfr & _).
    unfold stack_inv, MaxCppNestingLevel. rewrite HL, Hl.
    split; [exact Hlen | split; [lia | split]].
    + intros n Hn. rewrite !Hfr. apply Hnest. lia.
    + intros n Hn. rewrite !Hfr. apply Hall. lia.
  - (* #elif *)
    destruct (branch_change_frames (BraceFormat g) (resolveRequired (Cpp g))
                false (directive (Cpp g)))
      as (HL & Hl & Hother & Hnew); [lia |].
    unfold stack_inv, MaxCppNestingLevel. rewrite HL, Hl.
    split; [exact Hlen | split; [lia | split]].
    + intros n Hn. rewrite (Hother n) by lia.
      destruct (Nat.eq_dec (S n) (nestLevel (directive (Cpp g))))
        as [E | Hne].
      * rewrite E, Hnew. cbn [ignoreAllBranches]. rewrite <- E.
        apply Hnest. lia.
      * rewrite Hother by lia. apply Hnest. lia.
    + intros n Hn.
      destruct (Nat.eq_dec n (nestLevel (directive (Cpp g))))
        as [-> | Hne].
      * rewrite Hnew. cbn [ignoreAllBranches ignoring]. intros ->.
        reflexivity.
      * rewrite Hother by lia. apply Hall. lia.
  - (* #else *)
    destruct (branch_change_frames (BraceFormat g) (resolveRequired (Cpp g))
                true (directive (Cpp g)))
      as (HL & Hl & Hother & Hnew); [lia |].
    unfold stack_inv, MaxCppNestingLevel. rewrite HL, Hl.
    split; [exact Hlen | split; [lia | split]].
    + intros n Hn. rewrite (Hother n) by lia.
      destruct (Nat.eq_dec (S n) (nestLevel (directive (Cpp g))))
        as [E | Hne].
      * rewrite E, Hnew. cbn [ignoreAllBranches]. rewrite <- E.
        apply Hnest. lia.
      * rewrite Hother by lia. apply Hnest. lia.
    + intros n Hn.
      destruct (Nat.eq_dec n (nestLevel (directive (Cpp g))))
        as [-> | Hne].
      * rewrite Hnew. cbn [ignoreAllBranches ignoring]. intros ->.
        reflexivity.
      * rewrite Hother by lia. apply Hall. lia.
Qed.

Lemma stack_inv_run (o : bool) (calls : list cond_call) :
  forall g,
    stack_inv (directive (Cpp g)) ->
    stack_inv (directive (Cpp (cond_run o calls g))).
Proof.
  induction calls as [| c calls IH]; intros g H; [exact H |].
  apply IH, stack_inv_step, H.
Qed.

Lemma stack_inv_init (bf hasAt hasRaw : bool) (g0 : cppGlobals) :
  length (ifdef (directive (Cpp g0))) = MaxCppNestingLevel ->
  stack_inv (directive (Cpp (cppInit bf hasAt hasRaw g0))).
Proof.
  intros H. unfold stack_inv, cppInit, MaxCppNestingLevel in *.
  cbn [Cpp directive ifdef nestLevel].
  rewrite length_insert.
  split; [exact H | split; [lia | split]].
  - intros n Hn. lia.
  - intros n Hn. replace n with 0%nat by lia.
    unfold frame. cbn [ifdef].
    erewrite nth_lookup_Some
      by (apply list_lookup_insert_eq; lia).
    discriminate.
Qed.

(** X1. Suppression is inherited down the conditional stack. After
    [cppInit] and any sequence of [#if], [#endif], [#elif], [#else] and
    statement marks, every frame in use above level 0 records in
    [ignoreAllBranches] whether the frame below it is ignoring, a frame
    below an ignoring one is ignoring, and so, when the current branch is
    not ignored, no enclosing branch is. *)
Theorem suppression_inherited (o bf hasAt hasRaw : bool) (g0 : cppGlobals)
  (calls : list cond_call) :
  length (ifdef (directive (Cpp g0))) = MaxCppNestingLevel ->
  let d := directive (Cpp (cond_run o calls (cppInit bf hasAt hasRaw g0))) in
  (forall n, (n < nestLevel d)%nat ->
     ignoreAllBranches (frame d (S n)) = ignoring (frame d n)) /\
  (forall n, (n < nestLevel d)%nat ->
     ignoring (frame d n) = true -> ignoring (frame d (S n)) = true) /\
  (isIgnore d = false ->
   forall n, (n <= nestLevel d)%nat -> ignoring (frame d n) = false).
Proof.
  intros Hlen d.
  pose proof (stack_inv_run o calls _
                (stack_inv_init bf hasAt hasRaw g0 Hlen))
    as (_ & _ & Hnest & Hall).
  fold d in Hnest, Hall.
  assert (Hdown : forall n, (n < nestLevel d)%nat ->
            ignoring (frame d n) = true -> ignoring (frame d (S n)) = true).
  { intros n Hn Hig. apply Hall; [lia |]. rewrite Hnest by exact Hn.
    exact Hig. }
  split; [exact Hnest | split; [exact Hdown |]].
  unfold isIgnore. intros Hcur n Hn.
  destruct (ignoring (frame d n)) eqn:E; [| reflexivity].
  exfalso.
  assert (Hup : forall k, (n + k <= nestLevel d)%nat ->
                          ignoring (frame d (n + k)) = true).
  { induction k as [| k IH]; intros Hk.
    - rewrite Nat.add_0_r. exact E.
    - replace (n + S k)%nat with (S (n + k)) by lia.
      apply Hdown; [lia |]. apply IH. lia. }
  specialize (Hup (nestLevel d - n)%nat).
  replace (n + (nestLevel d - n))%nat with (nestLevel d) in Hup by lia.
  rewrite Hup in Hcur by lia. discriminate.
Qed.

Lemma suppression_inherited_witness :
  let d := directive (Cpp (cond_run false
                             [call_push false; call_push true]
                             (cppInit false false false
                                (mkGlobals false Cpp_static)))) in
  ignoreAllBranches (frame d 2) = ignoring (frame d 1) /\
  ignoring (frame d 2) = true.
Proof.
  intros d.
  destruct (suppression_inherited false false false false
              (mkGlobals false Cpp_static)
              [call_push false; call_push true] eq_refl)
    as (H1 & H2 & _).
  split.
  - apply (H1 1%nat). vm_compute. lia.
  - apply (H2 1%nat); [vm_compute; lia | reflexivity].
Defined.

(** X2. An [#if] and its [#endif]. Below the cap [popConditional] after
    [pushConditional] is back at the level, the ignore flag and the
    frames of before, with the rest of the directive state untouched. At
    the cap the [#if] opened no frame, so its [#endif] closes the
    enclosing conditional: the level ends one lower than it was. *)
Theorem push_then_pop (o bf rr b : bool) (d : sDirective) :
  length (ifdef d) = MaxCppNestingLevel ->
  let r := popConditional (snd (pushConditional o bf rr b d)) in
  ((nestLevel d < 19)%nat ->
   nestLevel (snd r) = nestLevel d /\
   fst r = isIgnore d /\
   (forall m, (m <= nestLevel d)%nat -> frame (snd r) m = frame d m) /\
   state (snd r) = state d /\ accept (snd r) = accept d /\
   name (snd r) = name d) /\
  (nestLevel d = 19%nat ->
   snd r = set_nestLevel 18 d /\ fst r = ignoring (frame d 18)).
Proof.
  intros Hlen r. unfold MaxCppNestingLevel in Hlen. split.
  - intros Hcap.
    destruct (pushConditional_frames o bf rr b d)
      as (_ & HL & Hl & Hother & Hnew);
      [lia | unfold MaxCppNestingLevel; lia |].
    destruct (popConditional_frames (snd (pushConditional o bf rr b d)))
      as (HL' & Hl' & Hfr & Hig).
    fold r in HL', Hl', Hfr, Hig.
    rewrite HL in HL', Hig. cbn [Nat.pred] in HL', Hig.
    split; [exact HL' | split; [| split]].
    + rewrite Hig, Hother by lia. reflexivity.
    + intros m Hm. rewrite Hfr, Hother by lia. reflexivity.
    + subst r. unfold popConditional, pushConditional, MaxCppNestingLevel.
      replace (nestLevel d <? 20 - 1)%nat with true
        by (symmetry; apply Nat.ltb_lt; lia).
      cbn [snd nestLevel set_frame set_nestLevel Nat.ltb Nat.leb].
      repeat split; reflexivity.
  - intros Hcap. subst r.
    unfold popConditional, pushConditional, MaxCppNestingLevel, isIgnore.
    rewrite Hcap. cbn [Nat.ltb Nat.leb Nat.sub snd fst].
    rewrite Hcap. cbn [Nat.ltb Nat.leb Nat.sub snd fst nestLevel
                         set_nestLevel].
    split; reflexivity.
Qed.

Lemma push_then_pop_witness :
  let d := directive (Cpp (cppInit false false false
                             (mkGlobals false Cpp_static))) in
  fst (popConditional (snd (pushConditional false false false false d)))
    = isIgnore d /\
  snd (popConditional
         (snd (pushConditional false false false false
                 (set_nestLevel 19 d)))) =
    set_nestLevel 18 (set_nestLevel 19 d).
Proof.
  intros d. split.
  - destruct (push_then_pop false false false false d eq_refl)
      as [H _].
    destruct H as (_ & H & _); [vm_compute; lia | exact H].
  - destruct (push_then_pop false false false false (set_nestLevel 19 d)
                eq_refl) as [_ H].
    destruct H as [H _]; [reflexivity | exact H].
Defined.

Lemma cond_run_app (o : bool) (l1 l2 : list cond_call) (g : cppGlobals) :
  cond_run o (l1 ++ l2) g = cond_run o l2 (cond_run o l1 g).
Proof. apply fold_left_app. Qed.

Lemma cond_step_BraceFormat (o : bool) (g : cppGlobals) (c : cond_call) :
  BraceFormat (cond_step o g c) = BraceFormat g.
Proof. destruct c; reflexivity. Qed.

Lemma cond_step_resolveRequired (o : bool) (g : cppGlobals)
  (c : cond_call) :
  no_begin c = true ->
  resolveRequired (Cpp g) = false ->
  resolveRequired (Cpp (cond_step o g c)) = false.
Proof. destruct c; intros Hc H; try exact H; try reflexivity; discriminate. Qed.

(** With no statement in progress no frame in use asks for a single
    branch, and frame 0 never ignores all its branches. *)
Lemma no_statement_step (o : bool) (g : cppGlobals) (c : cond_call) :
  no_begin c = true ->
  resolveRequired (Cpp g) = false ->
  stack_inv (directive (Cpp g)) ->
  (forall n, (n <= nestLevel (directive (Cpp g)))%nat ->
     singleBranch (frame (directive (Cpp g)) n) = false) ->
  ignoreAllBranches (frame (directive (Cpp g)) 0) = false ->
  (forall n, (n <= nestLevel (directive (Cpp (cond_step o g c))))%nat ->
     singleBranch (frame (directive (Cpp (cond_step o g c))) n) = false) /\
  ignoreAllBranches (frame (directive (Cpp (cond_step o g c))) 0) = false.
Proof.
  intros Hc Hrr (Hlen & Hlev & _ & _) Hsb H0.
  unfold MaxCppNestingLevel in *.
  destruct c as [b | | | | |]; try discriminate;
    cbn [cond_step on_directive cppBeginStatement cppEndStatement Cpp
         directive set_directive set_resolveRequired];
    try (split; assumption).
  - destruct (Nat.ltb_spec (nestLevel (directive (Cpp g))) 19) as [Hcap | Hcap].
    + destruct (pushConditional_frames o (BraceFormat g)
                  (resolveRequired (Cpp g)) b (directive (Cpp g)))
        as (_ & HL & Hl & Hother & Hnew);
        [lia | unfold MaxCppNestingLevel; lia |].
      rewrite HL. split.
      * intros n Hn.
        destruct (Nat.eq_dec n (S (nestLevel (directive (Cpp g)))))
          as [-> | Hne].
        -- rewrite Hnew. cbn [singleBranch]. exact Hrr.
        -- rewrite Hother by lia. apply Hsb. lia.
      * rewrite Hother by lia. exact H0.
    + unfold pushConditional, MaxCppNestingLevel.
      replace (nestLevel (directive (Cpp g)) <? 20 - 1)%nat with false
        by (symmetry; apply Nat.ltb_ge; lia).
      cbn [snd]. split; assumption.
  - destruct (popConditional_frames (directive (Cpp g)))
      as (HL & Hl & Hfr & _).
    rewrite HL. split.
    + intros n Hn. rewrite Hfr. apply Hsb. lia.
    + rewrite Hfr. exact H0.
  - destruct (branch_change_frames (BraceFormat g) (resolveRequired (Cpp g))
                false (directive (Cpp g)))
      as (HL & Hl & Hother & Hnew); [lia |].
    rewrite HL. split.
    + intros n Hn.
      destruct (Nat.eq_dec n (nestLevel (directive (Cpp g))))
        as [-> | Hne].
      * rewrite Hnew, Hrr. cbn [singleBranch andb]. apply Hsb. lia.
      * rewrite Hother by lia. apply Hsb. lia.
    + destruct (Nat.eq_dec 0%nat (nestLevel (directive (Cpp g))))
        as [E | Hne].
      * rewrite E, Hnew. cbn [ignoreAllBranches]. rewrite <- E. exact H0.
      * rewrite Hother by lia. exact H0.
  - destruct (branch_change_frames (BraceFormat g) (resolveRequired (Cpp g))
                true (directive (Cpp g)))
      as (HL & Hl & Hother & Hnew); [lia |].
    rewrite HL. split.
    + intros n Hn.
      destruct (Nat.eq_dec n (nestLevel (directive (Cpp g))))
        as [-> | Hne].
      * rewrite Hnew, Hrr. cbn [singleBranch andb]. apply Hsb. lia.
      * rewrite Hother by lia. apply Hsb. lia.
    + destruct (Nat.eq_dec 0%nat (nestLevel (directive (Cpp g))))
        as [E | Hne].
      * rewrite E, Hnew. cbn [ignoreAllBranches]. rewrite <- E. exact H0.
      * rewrite Hother by lia. exact H0.
Qed.

Lemma no_statement_run (o : bool) (calls : list cond_call) :
  forall g,
    forallb no_begin calls = true ->
    resolveRequired (Cpp g) = false ->
    stack_inv (directive (Cpp g)) ->
    (forall n, (n <= nestLevel (directive (Cpp g)))%nat ->
       singleBranch (frame (directive (Cpp g)) n) = false) ->
    ignoreAllBranches (frame (directive (Cpp g)) 0) = false ->
    let g' := cond_run o calls g in
    resolveRequired (Cpp g') = false /\
    stack_inv (directive (Cpp g')) /\
    (forall n, (n <= nestLevel (directive (Cpp g')))%nat ->
       singleBranch (frame (directive (Cpp g')) n) = false) /\
    ignoreAllBranches (frame (directive (Cpp g')) 0) = false.
Proof.
  induction calls as [| c calls IH]; intros g Hc Hrr Hinv Hsb H0.
  - intros g'. subst g'. cbn [cond_run fold_left].
    split; [exact Hrr | split; [exact Hinv | split; [exact Hsb | exact H0]]].
  - cbn [forallb] in Hc. apply andb_true_iff in Hc as [Hc Hcs].
    destruct (no_statement_step o g c Hc Hrr Hinv Hsb H0) as [Hsb' H0'].
    apply (IH (cond_step o g c) Hcs).
    + apply cond_step_resolveRequired; assumption.
    + apply stack_inv_step, Hinv.
    + exact Hsb'.
    + exact H0'.
Qed.

Lemma no_statement_init (o bf hasAt hasRaw : bool) (g0 : cppGlobals)
  (calls : list cond_call) :
  length (ifdef (directive (Cpp g0))) = MaxCppNestingLevel ->
  forallb no_begin calls = true ->
  let g' := cond_run o calls (cppInit bf hasAt hasRaw g0) in
  resolveRequired (Cpp g') = false /\
  stack_inv (directive (Cpp g')) /\
  (forall n, (n <= nestLevel (directive (Cpp g')))%nat ->
     singleBranch (frame (directive (Cpp g')) n) = false) /\
  ignoreAllBranches (frame (directive (Cpp g')) 0) = false.
Proof.
  intros Hlen Hc.
  assert (H0 : frame (directive (Cpp (cppInit bf hasAt hasRaw g0))) 0
               = noConditional).
  { unfold frame, cppInit. cbn [Cpp directive ifdef].
    apply nth_lookup_Some. apply list_lookup_insert_eq.
    unfold MaxCppNestingLevel in Hlen. lia. }
  apply no_statement_run.
  - exact Hc.
  - reflexivity.
  - apply stack_inv_init, Hlen.
  - intros n Hn. cbn in Hn. replace n with 0%nat by lia.
    rewrite H0. reflexivity.
  - rewrite H0. reflexivity.
Qed.

(** X3. With no statement in progress, an [#elif] or [#else] branch is
    ignored exactly when the branch that encloses the conditional is.
    After [cppInit] and any calls among which [cppBeginStatement] does
    not occur, the handling of [#elif] or [#else] leaves the ignore flag
    false at level 0 and equal to that of the frame below otherwise. *)
Theorem branch_follows_enclosing (o bf hasAt hasRaw : bool)
  (g0 : cppGlobals) (calls : list cond_call) (c : cond_call) :
  length (ifdef (directive (Cpp g0))) = MaxCppNestingLevel ->
  forallb no_begin calls = true ->
  is_branch_change c = true ->
  let g := cond_run o calls (cppInit bf hasAt hasRaw g0) in
  let d := directive (Cpp g) in
  isIgnore (directive (Cpp (cond_step o g c))) =
    match nestLevel d with
    | O => false
    | S n => ignoring (frame d n)
    end.
Proof.
  intros Hlen Hc Hb g d.
  destruct (no_statement_init o bf hasAt hasRaw g0 calls Hlen Hc)
    as (Hrr & (Hl & Hlev & Hnest & _) & Hsb & H0).
  fold g in Hrr, Hl, Hlev, Hnest, Hsb, H0.
  fold d in Hl, Hlev, Hnest, Hsb, H0.
  unfold MaxCppNestingLevel in *.
  assert (Hgen : forall e,
            isIgnore (branch_change (BraceFormat g) (resolveRequired (Cpp g))
                        e d) =
            match nestLevel d with
            | O => false
            | S n => ignoring (frame d n)
            end).
  { intros e.
    destruct (branch_change_frames (BraceFormat g) (resolveRequired (Cpp g))
                e d) as (HL & _ & _ & Hnew); [lia |].
    unfold isIgnore. rewrite HL, Hnew, Hrr.
    cbn [ignoring andb]. rewrite (Hsb (nestLevel d)) by lia.
    rewrite andb_false_r, orb_false_r.
    destruct (nestLevel d) as [| n] eqn:E.
    - exact H0.
    - apply Hnest. lia. }
  destruct c; try discriminate;
    cbn [cond_step on_directive Cpp directive set_directive];
    apply Hgen.
Qed.

Lemma branch_follows_enclosing_witness :
  isIgnore
    (directive
       (Cpp (cond_run false [call_push false; call_else]
               (cppInit false false false (mkGlobals false Cpp_static)))))
  = false.
Proof.
  exact (branch_follows_enclosing false false false false
           (mkGlobals false Cpp_static) [call_push false] call_else
           eq_refl eq_refl eq_refl).
Defined.

Lemma cond_run_BraceFormat (o : bool) (calls : list cond_call) :
  forall g, BraceFormat (cond_run o calls g) = BraceFormat g.
Proof.
  induction calls as [| c calls IH]; intros g; [reflexivity |].
  cbn [cond_run fold_left]. fold (cond_run o calls (cond_step o g c)).
  rewrite IH. apply cond_step_BraceFormat.
Qed.

(** X4. In brace-format mode, as long as no statement is marked as in
    progress, no branch of any conditional is ignored, the first branch
    of an [#if 0] included: after [cppInit (TRUE, ...)] and any calls
    among which [cppBeginStatement] does not occur, no frame in use is
    ignoring. *)
Theorem braceFormat_follows_all (o hasAt hasRaw : bool) (g0 : cppGlobals)
  (calls : list cond_call) :
  length (ifdef (directive (Cpp g0))) = MaxCppNestingLevel ->
  forallb no_begin calls = true ->
  let d := directive (Cpp (cond_run o calls (cppInit true hasAt hasRaw g0))) in
  isIgnore d = false /\
  (forall n, (n <= nestLevel d)%nat -> ignoring (frame d n) = false).
Proof.
  intros Hlen Hc d.
  assert (Hall : forall n, (n <= nestLevel d)%nat ->
                           ignoring (frame d n) = false);
    [| split; [apply Hall; lia | exact Hall]].
  subst d. revert Hc.
  induction calls as [| c calls IH] using rev_ind; intros Hc n Hn.
  - cbn in Hn. replace n with 0%nat by lia.
    unfold frame, cppInit. cbn [cond_run fold_left Cpp directive ifdef].
    erewrite nth_lookup_Some
      by (apply list_lookup_insert_eq; unfold MaxCppNestingLevel in Hlen;
          lia).
    reflexivity.
  - rewrite forallb_app in Hc. apply andb_true_iff in Hc as [Hcs Hc].
    cbn [forallb] in Hc. rewrite andb_true_r in Hc.
    specialize (IH Hcs).
    destruct (no_statement_init o true hasAt hasRaw g0 calls Hlen Hcs)
      as (Hrr & (Hl & Hlev & Hnest & Hia) & Hsb & H0).
    rewrite cond_run_app in Hn |- *.
    cbn [cond_run fold_left] in Hn |- *.
    pose proof (cond_run_BraceFormat o calls
                  (cppInit true hasAt hasRaw g0)) as Hbf.
    cbn [cppInit BraceFormat] in Hbf.
    set (g := cond_run o calls (cppInit true hasAt hasRaw g0)) in *.
    fold (cond_run o calls (cppInit true hasAt hasRaw g0)) in Hn |- *.
    fold g in Hn |- *.
    unfold MaxCppNestingLevel in *.
    destruct c as [b | | | | |]; try discriminate;
      cbn [cond_step on_directive cppBeginStatement cppEndStatement Cpp
           directive set_directive set_resolveRequired] in Hn |- *.
    + destruct (Nat.ltb_spec (nestLevel (directive (Cpp g))) 19)
        as [Hcap | Hcap].
      * destruct (pushConditional_frames o (BraceFormat g)
                    (resolveRequired (Cpp g)) b (directive (Cpp g)))
          as (_ & HL & _ & Hother & Hnew);
          [lia | unfold MaxCppNestingLevel; lia |].
        rewrite HL in Hn.
        destruct (Nat.eq_dec n (S (nestLevel (directive (Cpp g)))))
          as [-> | Hne].
        -- rewrite Hnew. cbn [ignoring]. rewrite Hbf.
           cbn [negb andb]. rewrite andb_false_r, orb_false_r.
           apply IH. lia.
        -- rewrite Hother by lia. apply IH. lia.
      * unfold pushConditional, MaxCppNestingLevel in Hn |- *.
        replace (nestLevel (directive (Cpp g)) <? 20 - 1)%nat with false
          in Hn |- * by (symmetry; apply Nat.ltb_ge; lia).
        cbn [snd] in Hn |- *. apply IH, Hn.
    + destruct (popConditional_frames (directive (Cpp g)))
        as (HL & _ & Hfr & _).
      rewrite HL in Hn. rewrite Hfr. apply IH. lia.
    + destruct (branch_change_frames (BraceFormat g)
                  (resolveRequired (Cpp g)) false (directive (Cpp g)))
        as (HL & _ & Hother & Hnew); [lia |].
      rewrite HL in Hn.
      destruct (Nat.eq_dec n (nestLevel (directive (Cpp g))))
        as [-> | Hne].
      * rewrite Hnew, Hrr. cbn [ignoring andb].
        rewrite (Hsb (nestLevel (directive (Cpp g)))) by lia.
        rewrite andb_false_r, orb_false_r.
        destruct (ignoreAllBranches
                    (frame (directive (Cpp g))
                       (nestLevel (directive (Cpp g))))) eqn:E;
          [| reflexivity].
        apply Hia in E; [| lia]. rewrite IH in E by lia. discriminate.
      * rewrite Hother by lia. apply IH. lia.
    + destruct (branch_change_frames (BraceFormat g)
                  (resolveRequired (Cpp g)) true (directive (Cpp g)))
        as (HL & _ & Hother & Hnew); [lia |].
      rewrite HL in Hn.
      destruct (Nat.eq_dec n (nestLevel (directive (Cpp g))))
        as [-> | Hne].
      * rewrite Hnew, Hrr. cbn [ignoring andb].
        rewrite (Hsb (nestLevel (directive (Cpp g)))) by lia.
        rewrite andb_false_r, orb_false_r.
        destruct (ignoreAllBranches
                    (frame (directive (Cpp g))
                       (nestLevel (directive (Cpp g))))) eqn:E;
          [| reflexivity].
        apply Hia in E; [| lia]. rewrite IH in E by lia. discriminate.
      * rewrite Hother by lia. apply IH. lia.
    + apply IH, Hn.
Qed.

Lemma braceFormat_follows_all_witness :
  isIgnore
    (directive
       (Cpp (cond_run false [call_push false; call_push false; call_else]
               (cppInit true false false (mkGlobals false Cpp_static)))))
  = false.
Proof.
  exact (proj1 (braceFormat_follows_all false false false
                  (mkGlobals false Cpp_static)
                  [call_push false; call_push false; call_else]
                  eq_refl eq_refl)).
Defined.

Lemma single_branch_step (o : bool) (g : cppGlobals) (c : cond_call) :
  same_level c = true ->
  BraceFormat g = false ->
  (nestLevel (directive (Cpp g)) < length (ifdef (directive (Cpp g))))%nat ->
  branchChosen (currentConditional (directive (Cpp g))) = true ->
  singleBranch (currentConditional (directive (Cpp g))) = true ->
  let g' := cond_step o g c in
  BraceFormat g' = false /\
  (nestLevel (directive (Cpp g')) < length (ifdef (directive (Cpp g'))))%nat /\
  branchChosen (currentConditional (directive (Cpp g'))) = true /\
  singleBranch (currentConditional (directive (Cpp g'))) = true /\
  (is_branch_change c = true -> isIgnore (directive (Cpp g')) = true).
Proof.
  intros Hc Hbf Hlen Hbc Hsb g'. subst g'.
  unfold currentConditional, isIgnore in *.
  destruct c as [b | | | | |]; try discriminate;
    cbn [cond_step on_directive cppBeginStatement cppEndStatement Cpp
         directive set_directive set_resolveRequired BraceFormat
         is_branch_change].
  - destruct (branch_change_frames (BraceFormat g)
                (resolveRequired (Cpp g)) false (directive (Cpp g)) Hlen)
      as (HL & Hl & _ & Hnew).
    rewrite HL, Hl, Hnew, Hbc, Hsb.
    destruct (resolveRequired (Cpp g) && negb (BraceFormat g));
      destruct (ignoreAllBranches
                  (frame (directive (Cpp g))
                     (nestLevel (directive (Cpp g)))));
      cbn [branchChosen singleBranch ignoring andb orb negb];
      repeat split; assumption.
  - destruct (branch_change_frames (BraceFormat g)
                (resolveRequired (Cpp g)) true (directive (Cpp g)) Hlen)
      as (HL & Hl & _ & Hnew).
    rewrite HL, Hl, Hnew, Hbc, Hsb.
    destruct (resolveRequired (Cpp g) && negb (BraceFormat g));
      destruct (ignoreAllBranches
                  (frame (directive (Cpp g))
                     (nestLevel (directive (Cpp g)))));
      cbn [branchChosen singleBranch ignoring andb orb negb];
      repeat split; assumption.
  - repeat split; try assumption. discriminate.
  - repeat split; try assumption. discriminate.
Qed.

(** X5. The single-branch rule. When an [#if] is met while a statement
    is in progress (not in brace-format mode, below the nesting cap) and
    its first branch is taken, every [#elif] and [#else] branch of that
    conditional is ignored, whatever statement marks and earlier branch
    changes come in between. *)
Theorem single_branch_rule (o : bool) (g : cppGlobals)
  (calls : list cond_call) (c : cond_call) :
  BraceFormat g = false ->
  resolveRequired (Cpp g) = true ->
  length (ifdef (directive (Cpp g))) = MaxCppNestingLevel ->
  (nestLevel (directive (Cpp g)) < 19)%nat ->
  forallb same_level calls = true ->
  is_branch_change c = true ->
  isIgnore
    (directive (Cpp (cond_run o (call_push true :: calls ++ [c]) g)))
  = true.
Proof.
  intros Hbf Hrr Hlen Hcap Hcs Hc.
  unfold MaxCppNestingLevel in Hlen.
  cbn [cond_run fold_left].
  fold (cond_run o (calls ++ [c]) (cond_step o g (call_push true))).
  rewrite cond_run_app.
  set (g1 := cond_step o g (call_push true)).
  assert (H1 : BraceFormat g1 = false /\
               (nestLevel (directive (Cpp g1))
                < length (ifdef (directive (Cpp g1))))%nat /\
               branchChosen (currentConditional (directive (Cpp g1))) = true /\
               singleBranch (currentConditional (directive (Cpp g1))) = true).
  { subst g1.
    cbn [cond_step on_directive Cpp directive set_directive BraceFormat].
    destruct (pushConditional_frames o (BraceFormat g)
                (resolveRequired (Cpp g)) true (directive (Cpp g)))
      as (_ & HL & Hl & _ & Hnew);
      [lia | unfold MaxCppNestingLevel; lia |].
    unfold currentConditional. rewrite HL, Hl, Hnew.
    cbn [branchChosen singleBranch].
    repeat split; [exact Hbf | lia | exact Hrr]. }
  clearbody g1. revert g1 H1.
  induction calls as [| c1 calls IH]; intros g1 (Hb & Hl & Hbc & Hsb).
  - cbn [cond_run fold_left].
    apply (single_branch_step o g1 c); try assumption.
    destruct c; try discriminate; reflexivity.
  - cbn [forallb] in Hcs. apply andb_true_iff in Hcs as [Hc1 Hcs].
    cbn [cond_run fold_left].
    fold (cond_run o calls (cond_step o g1 c1)).
    apply (IH Hcs).
    destruct (single_branch_step o g1 c1 Hc1 Hb Hl Hbc Hsb)
      as (H1 & H2 & H3 & H4 & _).
    repeat split; assumption.
Qed.

Lemma single_branch_rule_witness :
  isIgnore
    (directive
       (Cpp (cond_run false
               (call_push true :: [call_endStatement; call_elif]
                ++ [call_else])
               (cppBeginStatement
                  (cppInit false false false
                     (mkGlobals false Cpp_static))))))
  = true.
Proof.
  apply (single_branch_rule false
           (cppBeginStatement
              (cppInit false false false (mkGlobals false Cpp_static)))
           [call_endStatement; call_elif] call_else);
    try reflexivity.
  vm_compute. lia.
Defined.

(* ------------------------------------------------------------------ *)
(** ** The two pushback slots *)

Lemma cppGetc_pushed (Option : options) (fuel : nat) (w : world) :
  ungetch (Cpp (w_globals w)) <> 0 ->
  cppGetc Option fuel w =
  Some (ungetch (Cpp (w_globals w)),
        with_slots (ungetch2 (Cpp (w_globals w))) 0 w).
Proof.
  intros H. unfold cppGetc.
  replace (ungetch (Cpp (w_globals w)) =? 0) with false
    by (symmetry; apply Z.eqb_neq; exact H).
  reflexivity.
Qed.

(** X6. The pushback is a stack of depth two. With both slots free, two
    characters pushed back with [cppUngetc] pass its [Assert] and are
    returned by the next two calls of [cppGetc] in reverse order, no
    character of the file is read, and the state is then what it was
    before the pushbacks; a third character pushed back on top of the two
    fails the [Assert]. *)
Theorem pushback_last_in_first_out (Option : options) (fuel : nat)
  (w : world) (a b : Z) :
  a <> 0 -> b <> 0 ->
  ungetch (Cpp (w_globals w)) = 0 ->
  ungetch2 (Cpp (w_globals w)) = 0 ->
  cppGetc Option fuel (world_cppUngetc b (world_cppUngetc a w)) =
    Some (b, world_cppUngetc a w) /\
  cppGetc Option fuel (world_cppUngetc a w) = Some (a, w) /\
  io_run Option fuel [call_ungetc a; call_ungetc b; call_getc; call_getc] w
    = Some [b; a] /\
  cppUngetc_checked a (w_globals w) = Some (cppUngetc a (w_globals w)) /\
  cppUngetc_checked b (cppUngetc a (w_globals w)) =
    Some (cppUngetc b (cppUngetc a (w_globals w))) /\
  (forall c,
     cppUngetc_checked c (cppUngetc b (cppUngetc a (w_globals w))) = None).
Proof.
  intros Ha Hb Hu Hu2.
  destruct w as [[bf [u u2 rr hasAt hasRaw d]] f tags].
  cbn [w_globals Cpp ungetch ungetch2] in Hu, Hu2. subst u u2.
  assert (H1 : cppGetc Option fuel
                 (world_cppUngetc b
                    (world_cppUngetc a
                       (mkWorld (mkGlobals bf (mkCpp 0 0 rr hasAt hasRaw d))
                          f tags))) =
               Some (b, world_cppUngetc a
                          (mkWorld
                             (mkGlobals bf (mkCpp 0 0 rr hasAt hasRaw d))
                             f tags))).
  { rewrite cppGetc_pushed by exact Hb. reflexivity. }
  assert (H2 : cppGetc Option fuel
                 (world_cppUngetc a
                    (mkWorld (mkGlobals bf (mkCpp 0 0 rr hasAt hasRaw d))
                       f tags)) =
               Some (a, mkWorld (mkGlobals bf (mkCpp 0 0 rr hasAt hasRaw d))
                          f tags)).
  { rewrite cppGetc_pushed by exact Ha. reflexivity. }
  split; [exact H1 | split; [exact H2 | split]].
  { cbn [io_run]. rewrite H1. cbn [option_map]. rewrite H2. reflexivity. }
  split; [reflexivity | split; [reflexivity |]].
  intros c. unfold cppUngetc_checked, cppUngetc_Assert, cppUngetc.
  cbn [w_globals Cpp ungetch ungetch2].
  replace (a =? 0) with false by (symmetry; apply Z.eqb_neq; exact Ha).
  reflexivity.
Qed.

Lemma pushback_last_in_first_out_witness :
  io_run plain_options 0
    [call_ungetc (chr "a"); call_ungetc (chr "b"); call_getc; call_getc]
    (session false false false (str "xy"))
  = Some [chr "b"; chr "a"].
Proof.
  apply (pushback_last_in_first_out plain_options 0
           (session false false false (str "xy")) (chr "a") (chr "b"));
    [discriminate | discriminate | reflexivity | reflexivity].
Defined.

(* ------------------------------------------------------------------ *)
(** ** Where the skippers leave the input *)

Lemma skipOverComment_loop_closes (star : Z) (fuel : nat) :
  forall (l : list Z) (c : Z) (p rest : list Z),
    c <> EOF ->
    no_EOF l ->
    comment_closes star (c :: l) = false ->
    List.last (c :: l) 0 = star ->
    (length l < fuel)%nat ->
    skipOverComment_loop star fuel c (mkFile p (l ++ chr "/" :: rest)) =
    (SPACE, mkFile (chr "/" :: rev l ++ p) rest).
Proof.
  induction fuel as [| fuel IH]; intros l c p rest Hc Hl Hopen Hlast Hfuel;
    [lia |].
  rewrite skipOverComment_loop_S.
  replace (c =? EOF) with false by (symmetry; apply Z.eqb_neq; exact Hc).
  cbn [negb]. cbn [comment_closes] in Hopen.
  apply orb_false_iff in Hopen as [Hhere Hrest].
  destruct l as [| x r].
  - cbn [List.last] in Hlast. subst c. rewrite Z.eqb_refl. cbn [negb app].
    unfold bind; cbv beta. rewrite getc_cons.
    rewrite Z.eqb_refl. reflexivity.
  - pose proof (Forall_inv Hl) as Hx. pose proof (Forall_inv_tail Hl) as Hr.
    simpl in Hfuel.
    assert (Hlast' : List.last (x :: r) 0 = star) by exact Hlast.
    assert (Hgoal : skipOverComment_loop star fuel x
                      (mkFile (x :: p) (r ++ chr "/" :: rest)) =
                    (SPACE, mkFile (chr "/" :: rev (x :: r) ++ p) rest)).
    { rewrite (IH r x (x :: p) rest Hx Hr Hrest Hlast') by lia.
      cbn [rev]. rewrite <- app_assoc. reflexivity. }
    destruct (c =? star) eqn:Es; cbn [negb andb app] in *;
      unfold bind; cbv beta; rewrite getc_cons.
    + rewrite Hhere. cbn [negb]. exact Hgoal.
    + exact Hgoal.
Qed.

Lemma last_snoc (l : list Z) (x d : Z) : List.last (l ++ [x]) d = x.
Proof. apply List.last_last. Qed.

Lemma skipOverComment_stops (star : Z) (p body rest : list Z) :
  star <> EOF ->
  no_EOF body ->
  comment_closes star (body ++ [star]) = false ->
  (do c <- getcFromInputFile ;
   skipOverComment_loop star
     (turns (mkFile p (body ++ star :: chr "/" :: rest))) c)
    (mkFile p (body ++ star :: chr "/" :: rest)) =
  (SPACE, mkFile (chr "/" :: star :: rev body ++ p) rest).
Proof.
  intros Hstar Hb Hopen. unfold bind, turns; cbv beta. cbn [f_ahead].
  destruct body as [| c r].
  - cbn [app]. rewrite getc_cons.
    rewrite (skipOverComment_loop_closes star _ [] star (star :: p) rest);
      [reflexivity | exact Hstar | constructor | exact Hopen | reflexivity
      | simpl; lia].
  - cbn [app]. rewrite getc_cons.
    replace (r ++ star :: chr "/" :: rest)
      with ((r ++ [star]) ++ chr "/" :: rest)
      by (rewrite <- app_assoc; reflexivity).
    rewrite (skipOverComment_loop_closes star _ (r ++ [star]) c (c :: p) rest).
    + rewrite rev_app_distr. cbn [rev app]. rewrite <- app_assoc.
      reflexivity.
    + exact (Forall_inv Hb).
    + apply Forall_app. split; [exact (Forall_inv_tail Hb) |].
      constructor; [exact Hstar | constructor].
    + exact Hopen.
    + change (c :: r ++ [star]) with ((c :: r) ++ [star]).
      apply last_snoc.
    + cbn [length]. rewrite !length_app. cbn [length]. lia.
Qed.

(** X8. A C comment and a D comment end at the first closing pair. When
    the text after the opening delimiter is [body], the closing pair and
    [rest], with no closing pair that starts inside [body],
    [skipOverCComment] (and [skipOverDComment] for [+/]) returns [SPACE]
    and leaves the input right after the closing pair: [rest] is what is
    read next, whatever it holds. *)
Theorem comment_skipped_to_first_close (p body rest : list Z) :
  no_EOF body ->
  (comment_closes (chr "*") (body ++ [chr "*"]) = false ->
   skipOverCComment (mkFile p (body ++ chr "*" :: chr "/" :: rest)) =
   (SPACE, mkFile (chr "/" :: chr "*" :: rev body ++ p) rest)) /\
  (comment_closes (chr "+") (body ++ [chr "+"]) = false ->
   skipOverDComment (mkFile p (body ++ chr "+" :: chr "/" :: rest)) =
   (SPACE, mkFile (chr "/" :: chr "+" :: rev body ++ p) rest)).
Proof.
  intros Hb. split; intros Hopen.
  - apply (skipOverComment_stops (chr "*")); [discriminate | exact Hb
                                              | exact Hopen].
  - apply (skipOverComment_stops (chr "+")); [discriminate | exact Hb
                                              | exact Hopen].
Qed.

Lemma comment_skipped_to_first_close_witness :
  skipOverCComment (file_of (str " a * b / **/ x */")) =
  (SPACE, mkFile (rev (str " a * b / **/")) (str " x */")).
Proof.
  apply (proj1 (comment_skipped_to_first_close [] (str " a * b / *")
                  (str " x */")
                  ltac:(repeat constructor; discriminate))).
  reflexivity.
Defined.

Lemma skipOverCplusComment_loop_body (body : list Z) :
  forall (fuel : nat) (p tail : list Z),
    Forall (fun c => c <> EOF /\ c <> NEWLINE /\ c <> BACKSLASH) body ->
    skipOverCplusComment_loop (length body + fuel) (mkFile p (body ++ tail)) =
    skipOverCplusComment_loop fuel (mkFile (rev body ++ p) tail).
Proof.
  induction body as [| c r IH]; intros fuel p tail Hb.
  - reflexivity.
  - pose proof (Forall_inv Hb) as (H1 & H2 & H3).
    cbn [length Nat.add app]. rewrite skipOverCplusComment_loop_S.
    unfold bind; cbv beta. rewrite getc_cons.
    replace (c =? EOF) with false by (symmetry; apply Z.eqb_neq; exact H1).
    replace (c =? BACKSLASH) with false
      by (symmetry; apply Z.eqb_neq; exact H3).
    replace (c =? NEWLINE) with false
      by (symmetry; apply Z.eqb_neq; exact H2).
    cbn [negb]. rewrite (IH fuel (c :: p) tail (Forall_inv_tail Hb)).
    cbn [rev]. rewrite <- app_assoc. reflexivity.
Qed.

(** X9. A C++ comment ends with its line. When the rest of the line
    [body] holds no backslash, [skipOverCplusComment] returns the newline
    and leaves the input right after it; a backslash makes it swallow
    the next character, a newline included, and go on from there, so a
    continued line belongs to the comment; and a comment that the input
    ends in gives [EOF]. *)
Theorem cplus_comment_skipped_to_newline (p body rest : list Z) :
  Forall (fun c => c <> EOF /\ c <> NEWLINE /\ c <> BACKSLASH) body ->
  skipOverCplusComment (mkFile p (body ++ NEWLINE :: rest)) =
    (NEWLINE, mkFile (NEWLINE :: rev body ++ p) rest) /\
  (forall x,
     skipOverCplusComment (mkFile p (body ++ BACKSLASH :: x :: rest)) =
     skipOverCplusComment (mkFile (x :: BACKSLASH :: rev body ++ p) rest)) /\
  fst (skipOverCplusComment (mkFile p body)) = EOF.
Proof.
  intros Hb.
  assert (Hfuel : forall tail,
            turns (mkFile p (body ++ tail)) =
            (length body + S (length tail))%nat).
  { intros tail. unfold turns. cbn [f_ahead]. rewrite length_app. lia. }
  split; [| split].
  - unfold skipOverCplusComment. rewrite Hfuel.
    rewrite skipOverCplusComment_loop_body by exact Hb.
    rewrite skipOverCplusComment_loop_S. unfold bind; cbv beta.
    rewrite getc_cons. reflexivity.
  - intros x. unfold skipOverCplusComment. rewrite Hfuel.
    rewrite skipOverCplusComment_loop_body by exact Hb.
    rewrite skipOverCplusComment_loop_S. unfold bind; cbv beta.
    rewrite !getc_cons.
    change (BACKSLASH =? EOF) with false.
    change (BACKSLASH =? BACKSLASH) with true. cbn [negb].
    unfold turns. cbn [f_ahead length].
    apply skipOverCplusComment_loop_enough. cbn [f_ahead]. lia.
  - unfold skipOverCplusComment.
    replace body with (body ++ []) at 1 2 by apply app_nil_r.
    rewrite Hfuel.
    rewrite skipOverCplusComment_loop_body by exact Hb.
    reflexivity.
Qed.

Lemma cplus_comment_skipped_to_newline_witness :
  skipOverCplusComment (file_of (str " one" ++ NEWLINE :: str "two")) =
  (NEWLINE, mkFile (NEWLINE :: rev (str " one")) (str "two")).
Proof.
  apply (proj1 (cplus_comment_skipped_to_newline [] (str " one") (str "two")
                  ltac:(repeat constructor; discriminate))).
Defined.

Lemma skipToEndOfString_loop_body (ib : bool) (body : list Z) :
  forall (fuel : nat) (p tail : list Z),
    Forall (fun c => c <> EOF /\ c <> DOUBLE_QUOTE
                     /\ (ib = false -> c <> BACKSLASH)) body ->
    skipToEndOfString_loop ib (length body + fuel) (mkFile p (body ++ tail)) =
    skipToEndOfString_loop ib fuel (mkFile (rev body ++ p) tail).
Proof.
  induction body as [| c r IH]; intros fuel p tail Hb.
  - reflexivity.
  - pose proof (Forall_inv Hb) as (H1 & H2 & H3).
    cbn [length Nat.add app]. rewrite skipToEndOfString_loop_S.
    unfold bind; cbv beta. rewrite getc_cons.
    replace (c =? EOF) with false by (symmetry; apply Z.eqb_neq; exact H1).
    replace (c =? DOUBLE_QUOTE) with false
      by (symmetry; apply Z.eqb_neq; exact H2).
    replace ((c =? BACKSLASH) && negb ib) with false.
    2:{ destruct ib; [symmetry; apply andb_false_r |].
        replace (c =? BACKSLASH) with false
          by (symmetry; apply Z.eqb_neq; apply H3; reflexivity).
        reflexivity. }
    cbn [negb]. rewrite (IH fuel (c :: p) tail (Forall_inv_tail Hb)).
    cbn [rev]. rewrite <- app_assoc. reflexivity.
Qed.

(** X10. A string literal ends at its closing quote. When the text after
    the opening quote is [body], a double quote and [rest], and [body]
    holds no double quote (and no backslash, unless backslashes are
    ignored as in a verbatim string), [skipToEndOfString] returns
    [STRING_SYMBOL] and leaves the input right after the closing quote.
    When backslashes count, a backslash makes it swallow the next
    character, a double quote included, and go on from there. *)
Theorem string_skipped_to_quote (ib : bool) (p body rest : list Z) :
  Forall (fun c => c <> EOF /\ c <> DOUBLE_QUOTE
                   /\ (ib = false -> c <> BACKSLASH)) body ->
  skipToEndOfString ib (mkFile p (body ++ DOUBLE_QUOTE :: rest)) =
    (STRING_SYMBOL, mkFile (DOUBLE_QUOTE :: rev body ++ p) rest) /\
  (ib = false ->
   forall x,
     skipToEndOfString ib (mkFile p (body ++ BACKSLASH :: x :: rest)) =
     skipToEndOfString ib (mkFile (x :: BACKSLASH :: rev body ++ p) rest)).
Proof.
  intros Hb.
  assert (Hfuel : forall tail,
            turns (mkFile p (body ++ tail)) =
            (length body + S (length tail))%nat).
  { intros tail. unfold turns. cbn [f_ahead]. rewrite length_app. lia. }
  split.
  - unfold skipToEndOfString, bind; cbv beta. rewrite Hfuel.
    rewrite skipToEndOfString_loop_body by exact Hb.
    rewrite skipToEndOfString_loop_S. unfold bind; cbv beta.
    rewrite getc_cons.
    change (DOUBLE_QUOTE =? EOF) with false.
    change (DOUBLE_QUOTE =? BACKSLASH) with false.
    change (DOUBLE_QUOTE =? DOUBLE_QUOTE) with true.
    reflexivity.
  - intros -> x. unfold skipToEndOfString, bind; cbv beta. rewrite Hfuel.
    rewrite skipToEndOfString_loop_body by exact Hb.
    rewrite skipToEndOfString_loop_S. unfold bind; cbv beta.
    rewrite getc_cons.
    change (BACKSLASH =? EOF) with false.
    change (BACKSLASH =? BACKSLASH) with true. cbn [negb andb].
    rewrite getc_cons.
    unfold turns. cbn [f_ahead length].
    rewrite skipToEndOfString_loop_enough by (cbn [f_ahead]; lia).
    reflexivity.
Qed.

Lemma string_skipped_to_quote_witness :
  skipToEndOfString true
    (file_of (str "c:\" ++ DOUBLE_QUOTE :: str ";")) =
  (STRING_SYMBOL, mkFile (DOUBLE_QUOTE :: rev (str "c:\")) (str ";")).
Proof.
  apply (proj1 (string_skipped_to_quote true [] (str "c:\") (str ";")
                  ltac:(repeat constructor; discriminate))).
Defined.

Lemma skipToEndOfChar_loop_body (v : Z) (body : list Z) :
  forall (fuel : nat) (count : Z) (p tail : list Z),
    1 <= count ->
    Forall (fun c => c <> EOF /\ c <> BACKSLASH /\ c <> SINGLE_QUOTE
                     /\ c <> NEWLINE /\ (v = 0 \/ isalnum c = true)) body ->
    skipToEndOfChar_loop (length body + fuel) count v
      (mkFile p (body ++ tail)) =
    skipToEndOfChar_loop fuel (count + Z.of_nat (length body)) v
      (mkFile (rev body ++ p) tail).
Proof.
  induction body as [| c r IH]; intros fuel count p tail Hcount Hb.
  - cbn [length Nat.add app rev]. rewrite Z.add_0_r. reflexivity.
  - pose proof (Forall_inv Hb) as (H1 & H2 & H3 & H4 & H5).
    cbn [length Nat.add app]. rewrite skipToEndOfChar_loop_S.
    unfold bind; cbv beta. rewrite getc_cons.
    replace (c =? EOF) with false by (symmetry; apply Z.eqb_neq; exact H1).
    replace (c =? BACKSLASH) with false
      by (symmetry; apply Z.eqb_neq; exact H2).
    replace (c =? SINGLE_QUOTE) with false
      by (symmetry; apply Z.eqb_neq; exact H3).
    replace (c =? NEWLINE) with false
      by (symmetry; apply Z.eqb_neq; exact H4).
    cbn [negb]. cbv zeta.
    replace (count + 1 =? 1) with false by (symmetry; apply Z.eqb_neq; lia).
    cbn [andb].
    replace (negb (v =? 0) && negb (isalnum c)) with false.
    2:{ destruct H5 as [-> | ->]; [reflexivity |].
        symmetry. apply andb_false_r. }
    rewrite (IH fuel (count + 1) (c :: p) tail) by
      (try lia; exact (Forall_inv_tail Hb)).
    cbn [rev]. rewrite <- app_assoc.
    replace (count + 1 + Z.of_nat (length r))
      with (count + Z.of_nat (S (length r))) by lia.
    reflexivity.
Qed.

Lemma isalnum_range (c : Z) :
  isalnum c = true ->
  48 <= c <= 57 \/ 65 <= c <= 90 \/ 97 <= c <= 122.
Proof.
  unfold isalnum, isalpha, isupper, islower, isdigit.
  change (chr "A") with 65. change (chr "Z") with 90.
  change (chr "a") with 97. change (chr "z") with 122.
  change (chr "0") with 48. change (chr "9") with 57.
  intros H.
  apply orb_true_iff in H as [H | H].
  - apply orb_true_iff in H as [H | H];
      apply andb_true_iff in H as [Ha Hb];
      apply Z.leb_le in Ha, Hb; lia.
  - apply andb_true_iff in H as [Ha Hb].
    apply Z.leb_le in Ha, Hb. lia.
Qed.

Lemma isalnum_plain (c : Z) :
  isalnum c = true ->
  c <> EOF /\ c <> BACKSLASH /\ c <> SINGLE_QUOTE /\ c <> NEWLINE.
Proof.
  intros H. apply isalnum_range in H.
  unfold EOF. change BACKSLASH with 92. change SINGLE_QUOTE with 39.
  change NEWLINE with 10.
  repeat split; lia.
Qed.

Lemma skipToEndOfChar_vera (p : list Z) (b : Z) (digits tail : list Z) :
  in_DHOB (toupper b) = true -> isalpha b = true ->
  Forall (fun c => isalnum c = true) digits ->
  skipToEndOfChar_loop (turns (mkFile p (b :: digits ++ tail))) 0 0
    (mkFile p (b :: digits ++ tail)) =
  skipToEndOfChar_loop (S (length tail))
    (0 + 1 + Z.of_nat (length digits)) b (mkFile (rev digits ++ b :: p) tail).
Proof.
  intros Hbase Hb Hd.
  assert (Hbn : isalnum b = true)
    by (unfold isalnum; rewrite Hb; reflexivity).
  destruct (isalnum_plain b Hbn) as (B1 & B2 & B3 & B4).
  unfold turns; cbn [f_ahead length].
  rewrite length_app.
  rewrite skipToEndOfChar_loop_S.
  unfold bind; cbv beta. rewrite getc_cons.
  replace (b =? EOF) with false by (symmetry; apply Z.eqb_neq; exact B1).
  replace (b =? BACKSLASH) with false
    by (symmetry; apply Z.eqb_neq; exact B2).
  replace (b =? SINGLE_QUOTE) with false
    by (symmetry; apply Z.eqb_neq; exact B3).
  replace (b =? NEWLINE) with false
    by (symmetry; apply Z.eqb_neq; exact B4).
  cbn [negb]. cbv zeta. rewrite Hbase.
  change (0 + 1 =? 1) with true. cbn [andb].
  replace (S (length digits + length tail))
    with (length digits + S (length tail))%nat by lia.
  rewrite (skipToEndOfChar_loop_body b digits (S (length tail)) (0 + 1)
             (b :: p) tail).
  - reflexivity.
  - lia.
  - eapply Forall_impl; [exact Hd |].
    intros a Ha. destruct (isalnum_plain a Ha) as (A1 & A2 & A3 & A4).
    repeat split; try assumption. right. exact Ha.
Qed.

(** X11. Where a character literal ends. [skipToEndOfChar] returns
    [CHAR_SYMBOL] and: after a body with no quote, newline or backslash
    that does not start with a Vera base letter, it has consumed the
    closing quote; when a newline comes first it has left the newline in
    the input; and after a Vera base letter (one of D, H, O, B in either
    case) followed by alphanumeric characters it has left in the input
    the first character that is not alphanumeric, when that character is
    neither a single quote nor a backslash, and has consumed it when it
    is a single quote. *)
Theorem char_literal_end (p rest : list Z) :
  (forall body,
     Forall (fun c => c <> EOF /\ c <> BACKSLASH /\ c <> SINGLE_QUOTE
                      /\ c <> NEWLINE) body ->
     in_DHOB (toupper (hd (chr "x") body)) = false ->
     skipToEndOfChar (mkFile p (body ++ SINGLE_QUOTE :: rest)) =
       (CHAR_SYMBOL, mkFile (SINGLE_QUOTE :: rev body ++ p) rest) /\
     skipToEndOfChar (mkFile p (body ++ NEWLINE :: rest)) =
       (CHAR_SYMBOL, mkFile (rev body ++ p) (NEWLINE :: rest))) /\
  (forall b digits x,
     in_DHOB (toupper b) = true -> isalpha b = true ->
     Forall (fun c => isalnum c = true) digits ->
     isalnum x = false -> x <> EOF -> x <> BACKSLASH ->
     x <> SINGLE_QUOTE ->
     skipToEndOfChar (mkFile p (b :: digits ++ x :: rest)) =
       (CHAR_SYMBOL, mkFile (rev digits ++ b :: p) (x :: rest))) /\
  (forall b digits,
     in_DHOB (toupper b) = true -> isalpha b = true ->
     Forall (fun c => isalnum c = true) digits ->
     skipToEndOfChar (mkFile p (b :: digits ++ SINGLE_QUOTE :: rest)) =
       (CHAR_SYMBOL, mkFile (SINGLE_QUOTE :: rev digits ++ b :: p) rest)).
Proof.
  split; [| split].
  - intros body Hb Hfirst.
    assert (Hgen : forall tail,
              skipToEndOfChar_loop (turns (mkFile p (body ++ tail))) 0 0
                (mkFile p (body ++ tail)) =
              skipToEndOfChar_loop (S (length tail))
                (Z.of_nat (length body)) 0 (mkFile (rev body ++ p) tail)).
    { intros tail. unfold turns. cbn [f_ahead]. rewrite length_app.
      destruct body as [| c r]; [reflexivity |].
      pose proof (Forall_inv Hb) as (H1 & H2 & H3 & H4).
      cbn [hd] in Hfirst.
      cbn [length Nat.add app]. rewrite skipToEndOfChar_loop_S.
      unfold bind; cbv beta. rewrite getc_cons.
      replace (c =? EOF) with false by (symmetry; apply Z.eqb_neq; exact H1).
      replace (c =? BACKSLASH) with false
        by (symmetry; apply Z.eqb_neq; exact H2).
      replace (c =? SINGLE_QUOTE) with false
        by (symmetry; apply Z.eqb_neq; exact H3).
      replace (c =? NEWLINE) with false
        by (symmetry; apply Z.eqb_neq; exact H4).
      cbn [negb]. cbv zeta. rewrite Hfirst. rewrite andb_false_r.
      change (negb (0 =? 0) && negb (isalnum c)) with false. cbv iota.
      replace (S (length r + length tail))
        with (length r + S (length tail))%nat by lia.
      rewrite (skipToEndOfChar_loop_body 0 r (S (length tail)) (0 + 1)
                 (c :: p) tail).
      - cbn [rev]. rewrite <- app_assoc.
        replace (0 + 1 + Z.of_nat (length r))
          with (Z.of_nat (S (length r))) by lia.
        reflexivity.
      - lia.
      - eapply Forall_impl; [exact (Forall_inv_tail Hb) |].
        intros a (A1 & A2 & A3 & A4). repeat split; try assumption.
        left. reflexivity. }
    split.
    + unfold skipToEndOfChar, bind; cbv beta. rewrite Hgen.
      rewrite skipToEndOfChar_loop_S. unfold bind; cbv beta.
      rewrite getc_cons.
      change (SINGLE_QUOTE =? EOF) with false.
      change (SINGLE_QUOTE =? BACKSLASH) with false.
      change (SINGLE_QUOTE =? SINGLE_QUOTE) with true.
      reflexivity.
    + unfold skipToEndOfChar, bind; cbv beta. rewrite Hgen.
      rewrite skipToEndOfChar_loop_S. unfold bind; cbv beta.
      rewrite getc_cons.
      change (NEWLINE =? EOF) with false.
      change (NEWLINE =? BACKSLASH) with false.
      change (NEWLINE =? SINGLE_QUOTE) with false.
      change (NEWLINE =? NEWLINE) with true.
      reflexivity.
  - intros b digits x Hbase Hb Hd Hx Hx1 Hx2 Hx3.
    assert (Hb0 : b <> 0).
    { intros ->. discriminate. }
    unfold skipToEndOfChar, bind; cbv beta.
    rewrite (skipToEndOfChar_vera p b digits (x :: rest) Hbase Hb Hd).
    cbn [length].
    rewrite skipToEndOfChar_loop_S. unfold bind; cbv beta.
    rewrite getc_cons.
    replace (x =? EOF) with false by (symmetry; apply Z.eqb_neq; exact Hx1).
    replace (x =? BACKSLASH) with false
      by (symmetry; apply Z.eqb_neq; exact Hx2).
    replace (x =? SINGLE_QUOTE) with false
      by (symmetry; apply Z.eqb_neq; exact Hx3).
    cbn [negb]. cbv zeta.
    destruct (x =? NEWLINE); [reflexivity |].
    replace (0 + 1 + Z.of_nat (length digits) + 1 =? 1) with false
      by (symmetry; apply Z.eqb_neq; lia).
    cbn [andb]. rewrite Hx.
    replace (b =? 0) with false by (symmetry; apply Z.eqb_neq; exact Hb0).
    reflexivity.
  - intros b digits Hbase Hb Hd.
    unfold skipToEndOfChar, bind; cbv beta.
    rewrite (skipToEndOfChar_vera p b digits (SINGLE_QUOTE :: rest)
               Hbase Hb Hd).
    cbn [length].
    rewrite skipToEndOfChar_loop_S. unfold bind; cbv beta.
    rewrite getc_cons.
    change (SINGLE_QUOTE =? EOF) with false.
    change (SINGLE_QUOTE =? BACKSLASH) with false.
    change (SINGLE_QUOTE =? SINGLE_QUOTE) with true.
    reflexivity.
Qed.

Lemma char_literal_end_witness :
  skipToEndOfChar (file_of (str "ab" ++ NEWLINE :: str "c")) =
    (CHAR_SYMBOL, mkFile (rev (str "ab")) (NEWLINE :: str "c")) /\
  skipToEndOfChar (file_of (str "b1010;")) =
    (CHAR_SYMBOL, mkFile (rev (str "b1010")) (str ";")).
Proof.
  destruct (char_literal_end [] (str "c")) as [H1 _].
  destruct (char_literal_end [] []) as (_ & H2 & _).
  split.
  - apply (H1 (str "ab")); [repeat constructor; discriminate | reflexivity].
  - apply (H2 (chr "b") (str "1010") (chr ";"));
      try reflexivity; try discriminate.
    repeat constructor.
Defined.

Lemma isident_not_EOF (c : Z) : isident c = true -> c <> EOF.
Proof. intros H ->. discriminate. Qed.

Lemma readIdentifier_loop_run (run : list Z) :
  forall (fuel : nat) (c : Z) (name p rest : list Z),
    Forall (fun x => isident x = true) run ->
    isident (hd EOF rest) = false ->
    (length run < fuel)%nat ->
    readIdentifier_loop fuel c name (mkFile p (run ++ rest)) =
    (hd EOF rest, name ++ c :: run,
     mkFile (match rest with
             | [] => rev run ++ p
             | x :: _ => x :: rev run ++ p
             end) (tl rest)).
Proof.
  induction run as [| y run IH]; intros fuel c name p rest Hrun Hrest Hfuel;
    (destruct fuel as [| fuel]; [cbn [length] in Hfuel; lia |]);
    rewrite readIdentifier_loop_S; unfold bind; cbv beta.
  - cbn [app rev]. destruct rest as [| x r].
    + rewrite getc_nil by reflexivity. reflexivity.
    + rewrite getc_cons. cbn [hd] in Hrest. rewrite Hrest.
      rewrite andb_false_r. reflexivity.
  - cbn [app]. rewrite getc_cons.
    pose proof (Forall_inv Hrun) as Hy.
    replace (y =? EOF) with false
      by (symmetry; apply Z.eqb_neq, isident_not_EOF, Hy).
    rewrite Hy. cbn [negb andb].
    rewrite (IH fuel y (name ++ [c]) (y :: p) rest (Forall_inv_tail Hrun)
               Hrest) by (cbn [length] in Hfuel; lia).
    rewrite <- app_assoc. cbn [app rev].
    destruct rest; rewrite <- app_assoc; reflexivity.
Qed.

(** X12. [readIdentifier] collects the character it is given and the
    longest run of identifier characters that follows it, and leaves the
    first character that is no identifier character in the input: after
    the call the input is right behind the run, and at the end of the
    input the next character delivered is [EOF]. *)
Theorem readIdentifier_reads_run (c : Z) (p run rest : list Z) :
  Forall (fun x => isident x = true) run ->
  isident (hd EOF rest) = false ->
  let r := readIdentifier c (mkFile p (run ++ rest)) in
  fst r = c :: run /\
  (rest <> [] -> snd r = mkFile (rev run ++ p) rest) /\
  fst (getcFromInputFile (snd r)) = hd EOF rest.
Proof.
  intros Hrun Hrest r. subst r.
  unfold readIdentifier, bind, turns; cbv beta. cbn [f_ahead].
  rewrite (readIdentifier_loop_run run _ c [] p rest Hrun Hrest)
    by (rewrite length_app; lia).
  cbn [fst snd fileUngetc ret f_prev f_ahead app].
  split; [reflexivity | split].
  - intros Hne. destruct rest as [| x r]; [contradiction |]. reflexivity.
  - destruct rest; reflexivity.
Qed.

Lemma readIdentifier_reads_run_witness :
  readIdentifier (chr "M") (file_of (str "AX_2(a)")) =
  (str "MAX_2", mkFile (rev (str "AX_2")) (str "(a)")).
Proof.
  destruct (readIdentifier_reads_run (chr "M") [] (str "AX_2") (str "(a)"))
    as (H1 & H2 & _).
  - repeat constructor.
  - reflexivity.
  - apply injective_projections; [exact H1 | apply H2; discriminate].
Defined.

(** *** Raw string literals *)

Lemma rawLiteral_collect (d2 : list Z) :
  forall (fuel : nat) (c : Z) (acc p T : list Z),
    Forall (fun x => isCxxRawLiteralDelimiterChar x = true)
      (removelast (c :: d2)) ->
    no_EOF d2 ->
    (length acc + length d2 <= 16)%nat ->
    rawLiteral_loop (length d2 + fuel) c acc true (mkFile p (d2 ++ T)) =
    rawLiteral_loop fuel (List.last (c :: d2) 0)
      (acc ++ map to_char (removelast (c :: d2))) true
      (mkFile (rev d2 ++ p) T).
Proof.
  induction d2 as [| y d2 IH]; intros fuel c acc p T Hd Hne Hlen.
  - cbn [length Nat.add app rev List.last removelast map].
    rewrite app_nil_r. reflexivity.
  - change (removelast (c :: y :: d2)) with (c :: removelast (y :: d2)) in *.
    cbn [map].
    change (List.last (c :: y :: d2) 0) with (List.last (y :: d2) 0).
    pose proof (Forall_inv Hd) as Hc.
    cbn [length Nat.add app]. rewrite rawLiteral_loop_S. cbv zeta.
    rewrite Hc.
    replace (length acc <? 16)%nat with true
      by (symmetry; apply Nat.ltb_lt; cbn [length] in Hlen; lia).
    cbn [andb]. unfold bind; cbv beta. rewrite getc_cons.
    replace (y =? EOF) with false
      by (symmetry; apply Z.eqb_neq; exact (Forall_inv Hne)).
    cbn [negb].
    rewrite (IH fuel y (acc ++ [to_char c]) (y :: p) T (Forall_inv_tail Hd)
               (Forall_inv_tail Hne))
      by (rewrite length_app; cbn [length] in *; lia).
    cbn [rev]. rewrite <- !app_assoc. reflexivity.
Qed.

Lemma rawLiteral_body (delim b2 : list Z) :
  forall (fuel : nat) (c : Z) (p T : list Z),
    Forall (fun x => x <> chr ")") (removelast (c :: b2)) ->
    no_EOF b2 ->
    rawLiteral_loop (length b2 + fuel) c delim false (mkFile p (b2 ++ T)) =
    rawLiteral_loop fuel (List.last (c :: b2) 0) delim false
      (mkFile (rev b2 ++ p) T).
Proof.
  induction b2 as [| y b2 IH]; intros fuel c p T Hb Hne.
  - reflexivity.
  - change (removelast (c :: y :: b2)) with (c :: removelast (y :: b2)) in *.
    change (List.last (c :: y :: b2) 0) with (List.last (y :: b2) 0).
    pose proof (Forall_inv Hb) as Hc.
    cbn [length Nat.add app]. rewrite rawLiteral_loop_S. cbv zeta.
    replace (c =? chr ")") with false
      by (symmetry; apply Z.eqb_neq; exact Hc).
    unfold bind; cbv beta. rewrite getc_cons.
    replace (y =? EOF) with false
      by (symmetry; apply Z.eqb_neq; exact (Forall_inv Hne)).
    cbn [negb].
    rewrite (IH fuel y (y :: p) T (Forall_inv_tail Hb)
               (Forall_inv_tail Hne)).
    cbn [rev]. rewrite <- !app_assoc. reflexivity.
Qed.

Lemma rawDelim_loop_match (delim d2 : list Z) :
  forall (fuel i : nat) (x : Z) (p T : list Z),
    no_EOF d2 ->
    (i <= length delim)%nat ->
    drop i delim = d2 ->
    (length d2 < fuel)%nat ->
    rawDelim_loop fuel delim i (mkFile p (d2 ++ x :: T)) =
    ((x, length delim), mkFile (x :: rev d2 ++ p) T).
Proof.
  induction d2 as [| y d2 IH]; intros fuel i x p T Hne Hle Hdrop Hfuel;
    (destruct fuel as [| fuel]; [cbn [length] in Hfuel; lia |]);
    rewrite rawDelim_loop_S; unfold bind; cbv beta; cbn [app];
    rewrite getc_cons;
    pose proof (f_equal (@length Z) Hdrop) as Hl;
    rewrite length_drop in Hl; cbn [length] in Hl.
  - replace (i <? length delim)%nat with false
      by (symmetry; apply Nat.ltb_ge; lia).
    rewrite andb_false_r. cbn [andb].
    replace i with (length delim) by lia. reflexivity.
  - pose proof (Forall_inv Hne) as Hy.
    replace (y =? EOF) with false by (symmetry; apply Z.eqb_neq; exact Hy).
    replace (i <? length delim)%nat with true
      by (symmetry; apply Nat.ltb_lt; lia).
    assert (Hnth : nth i delim 0 = y).
    { rewrite <- (take_drop i delim) at 1. rewrite Hdrop.
      rewrite app_nth2 by (rewrite length_take; lia).
      rewrite length_take.
      replace (i - i `min` length delim)%nat with 0%nat by lia.
      reflexivity. }
    rewrite Hnth, Z.eqb_refl. cbn [negb andb].
    rewrite (IH fuel (S i) x (y :: p) T (Forall_inv_tail Hne)).
    + cbn [rev]. rewrite <- app_assoc. reflexivity.
    + lia.
    + replace (S i) with (i + 1)%nat by lia.
      rewrite <- drop_drop. rewrite Hdrop. reflexivity.
    + cbn [length] in Hfuel. lia.
Qed.

Lemma snoc_cons (l : list Z) (a : Z) :
  exists c0 d2, l ++ [a] = c0 :: d2.
Proof. destruct l as [| x l]; [exists a, [] | exists x, (l ++ [a])]; reflexivity. Qed.

Lemma to_char_small (l : list Z) :
  Forall (fun x => 0 <= x < 128) l -> map to_char l = l.
Proof.
  induction 1 as [| x l Hx Hl IH]; [reflexivity |].
  cbn [map]. rewrite IH. f_equal. unfold to_char.
  rewrite Z.mod_small by lia. lia.
Qed.

(** X13. A raw string literal [R"delim(body)delim"] is skipped as a
    whole. Entered after the opening quote, with a delimiter of at most
    16 delimiter characters, each below 128, and a body that holds no
    closing parenthesis, [skipToEndOfCxxRawLiteralString] returns
    [STRING_SYMBOL] and leaves the input right after the closing quote;
    quotes and backslashes in the body end nothing. When the opening
    quote is followed by a character that can neither be part of a
    delimiter nor open the body, the literal is skipped as an ordinary
    string. *)
Theorem raw_literal_skipped (p delim body rest : list Z) :
  (Forall (fun x => isCxxRawLiteralDelimiterChar x = true /\ 0 <= x < 128)
     delim ->
   (length delim <= 16)%nat ->
   Forall (fun x => x <> chr ")" /\ x <> EOF) body ->
   skipToEndOfCxxRawLiteralString
     (mkFile p (delim ++ chr "(" :: body ++ chr ")" :: delim
                ++ DOUBLE_QUOTE :: rest)) =
   (STRING_SYMBOL,
    mkFile (DOUBLE_QUOTE :: rev delim ++ chr ")" :: rev body
            ++ chr "(" :: rev delim ++ p) rest)) /\
  (forall c,
     c <> chr "(" -> isCxxRawLiteralDelimiterChar c = false ->
     skipToEndOfCxxRawLiteralString (mkFile p (c :: rest)) =
     skipToEndOfString false (mkFile p (c :: rest))).
Proof.
  split.
  - intros Hd0 Hlen Hb.
    assert (Hsmall : map to_char delim = delim).
    { apply to_char_small. eapply Forall_impl; [exact Hd0 |].
      intros x [_ Hx]. exact Hx. }
    assert (Hd : Forall (fun x => isCxxRawLiteralDelimiterChar x = true
                                  /\ x <> EOF) delim).
    { eapply Forall_impl; [exact Hd0 |]. intros x [Hx Hr].
      split; [exact Hx | unfold EOF; lia]. }
    set (T2 := delim ++ DOUBLE_QUOTE :: rest).
    destruct (snoc_cons delim (chr "(")) as (c0 & d2 & E0).
    destruct (snoc_cons body (chr ")")) as (c1 & b2 & E1).
    assert (HX : delim ++ chr "(" :: body ++ chr ")" :: T2
                 = c0 :: d2 ++ c1 :: b2 ++ T2).
    { change (delim ++ chr "(" :: body ++ chr ")" :: T2)
        with (delim ++ [chr "("] ++ body ++ [chr ")"] ++ T2).
      rewrite (app_assoc delim), E0. rewrite (app_assoc body), E1.
      reflexivity. }
    rewrite HX.
    assert (Hrl0 : removelast (c0 :: d2) = delim)
      by (rewrite <- E0; apply removelast_last).
    assert (Hl0 : List.last (c0 :: d2) 0 = chr "(")
      by (rewrite <- E0; apply List.last_last).
    assert (Hrl1 : removelast (c1 :: b2) = body)
      by (rewrite <- E1; apply removelast_last).
    assert (Hl1 : List.last (c1 :: b2) 0 = chr ")")
      by (rewrite <- E1; apply List.last_last).
    assert (Hne0 : no_EOF (c0 :: d2)).
    { rewrite <- E0. apply Forall_app. split.
      - eapply Forall_impl; [exact Hd |]. intros x [_ Hx]. exact Hx.
      - repeat constructor. discriminate. }
    assert (Hne1 : no_EOF (c1 :: b2)).
    { rewrite <- E1. apply Forall_app. split.
      - eapply Forall_impl; [exact Hb |]. intros x [_ Hx]. exact Hx.
      - repeat constructor. discriminate. }
    assert (Hc0 : negb (c0 =? chr "(")
                  && negb (isCxxRawLiteralDelimiterChar c0) = false).
    { destruct delim as [| y delim']; inversion E0; subst.
      - reflexivity.
      - destruct (Forall_inv Hd) as [-> _]. apply andb_false_r. }
    assert (Hlen2 : length d2 = length delim).
    { apply (f_equal (@length Z)) in E0. rewrite length_app in E0.
      cbn [length] in E0. lia. }
    assert (Hlenb : length b2 = length body).
    { apply (f_equal (@length Z)) in E1. rewrite length_app in E1.
      cbn [length] in E1. lia. }
    unfold skipToEndOfCxxRawLiteralString, bind, turns; cbv beta.
    rewrite getc_cons. rewrite Hc0. cbn [f_ahead length].
    rewrite !length_app. cbn [length]. rewrite !length_app.
    fold T2.
    replace (S (S (S (length d2 + S (length b2 + length T2)))))
      with (length d2 + S (length b2 + S (S (S (length T2)))))%nat
      by lia.
    rewrite (rawLiteral_collect d2 _ c0 [] (c0 :: p)).
    2:{ rewrite Hrl0. eapply Forall_impl; [exact Hd |].
        intros x [Hx _]. exact Hx. }
    2:{ exact (Forall_inv_tail Hne0). }
    2:{ cbn [length]. lia. }
    rewrite Hl0, Hrl0, Hsmall. cbn [app].
    rewrite rawLiteral_loop_S. cbv zeta.
    change (isCxxRawLiteralDelimiterChar (chr "(")) with false.
    cbn [andb]. unfold bind; cbv beta. rewrite getc_cons.
    replace (c1 =? EOF) with false
      by (symmetry; apply Z.eqb_neq; exact (Forall_inv Hne1)).
    cbn [negb].
    rewrite (rawLiteral_body delim b2 _ c1).
    2:{ rewrite Hrl1. eapply Forall_impl; [exact Hb |].
        intros x [Hx _]. exact Hx. }
    2:{ exact (Forall_inv_tail Hne1). }
    rewrite Hl1.
    rewrite rawLiteral_loop_S. cbv zeta.
    change (chr ")" =? chr ")") with true.
    unfold bind; cbv beta. unfold T2.
    rewrite (rawDelim_loop_match delim delim (S (length delim)) 0
               DOUBLE_QUOTE).
    2:{ eapply Forall_impl; [exact Hd |]. intros x [_ Hx]. exact Hx. }
    2:{ lia. }
    2:{ reflexivity. }
    2:{ lia. }
    cbn [fst snd]. rewrite Nat.eqb_refl.
    change (DOUBLE_QUOTE =? DOUBLE_QUOTE) with true. cbn [andb ret].
    f_equal. f_equal. f_equal. f_equal.
    change (rev b2 ++ c1 :: rev d2 ++ c0 :: p)
      with (rev b2 ++ [c1] ++ rev d2 ++ [c0] ++ p).
    rewrite (app_assoc (rev b2)), (app_assoc (rev d2)).
    change (rev b2 ++ [c1]) with (rev (c1 :: b2)).
    change (rev d2 ++ [c0]) with (rev (c0 :: d2)).
    rewrite <- E0, <- E1. rewrite !rev_app_distr. reflexivity.
  - intros c Hc1 Hc2.
    unfold skipToEndOfCxxRawLiteralString, bind; cbv beta.
    rewrite getc_cons.
    replace (c =? chr "(") with false by (symmetry; apply Z.eqb_neq; exact Hc1).
    rewrite Hc2. reflexivity.
Qed.

Lemma raw_literal_skipped_witness :
  skipToEndOfCxxRawLiteralString
    (file_of (str "xy(a\b" ++ DOUBLE_QUOTE :: str "c)xy"
              ++ DOUBLE_QUOTE :: str ";")) =
  (STRING_SYMBOL,
   mkFile (rev (str "xy(a\b" ++ DOUBLE_QUOTE :: str "c)xy"
                ++ [DOUBLE_QUOTE])) (str ";")).
Proof.
  destruct (raw_literal_skipped [] (str "xy")
              (str "a\b" ++ DOUBLE_QUOTE :: str "c") (str ";")) as [H _].
  apply H.
  - repeat constructor; (reflexivity || discriminate).
  - cbn. lia.
  - repeat constructor; discriminate.
Defined.

(* ------------------------------------------------------------------ *)
(** ** Every call of cppGetc returns *)

(** *** No function puts back more than it has read *)

Lemma getc_pending (f : inputFile) :
  (weight (fst (getcFromInputFile f)) + pending (snd (getcFromInputFile f))
   = pending f)%nat.
Proof.
  destruct f as [p [| c r]]; reflexivity.
Qed.

Lemma ungetc_pending (c : Z) (f : inputFile) :
  pending (snd (fileUngetc c f)) = (weight c + pending f)%nat.
Proof. reflexivity. Qed.

Lemma weight_le (c : Z) : (weight c <= 1)%nat.
Proof. unfold weight. destruct (c =? EOF); lia. Qed.

Lemma weight_not_EOF (c : Z) : (c =? EOF) = false -> weight c = 1%nat.
Proof. unfold weight. intros ->. reflexivity. Qed.

Lemma pending_length (f : inputFile) : (pending f <= length (f_ahead f))%nat.
Proof.
  unfold pending. induction (f_ahead f) as [| c r IH]; simpl.
  - lia.
  - pose proof (weight_le c). lia.
Qed.

(** Reading [m] from the file and splitting the result. *)
Ltac read_file m f c f1 H :=
  pose proof (H f) as ?;
  destruct (m f) as [c f1]; cbn [fst snd] in *.

Lemma skipOverComment_loop_pending (star : Z) (fuel : nat) :
  forall (c : Z) (f : inputFile),
    (pending (snd (skipOverComment_loop star fuel c f)) <= pending f)%nat.
Proof.
  induction fuel as [| fuel IH]; intros c f; [cbn; lia |].
  rewrite skipOverComment_loop_S.
  destruct (negb (c =? EOF)); [| cbn; lia].
  pose proof (getc_pending f) as Hg.
  destruct (negb (c =? star)); unfold bind; cbv beta;
    destruct (getcFromInputFile f) as [c1 f1]; cbn [fst snd] in Hg.
  - specialize (IH c1 f1). lia.
  - destruct (negb (c1 =? chr "/")).
    + specialize (IH c1 f1). lia.
    + cbn [ret snd]. lia.
Qed.

Lemma skipOverCComment_pending (f : inputFile) :
  (pending (snd (skipOverCComment f)) <= pending f)%nat.
Proof.
  unfold skipOverCComment, bind; cbv beta.
  pose proof (getc_pending f) as Hg.
  destruct (getcFromInputFile f) as [c1 f1]; cbn [fst snd] in Hg.
  pose proof (skipOverComment_loop_pending (chr "*") (turns f) c1 f1). lia.
Qed.

Lemma skipOverDComment_pending (f : inputFile) :
  (pending (snd (skipOverDComment f)) <= pending f)%nat.
Proof.
  unfold skipOverDComment, bind; cbv beta.
  pose proof (getc_pending f) as Hg.
  destruct (getcFromInputFile f) as [c1 f1]; cbn [fst snd] in Hg.
  pose proof (skipOverComment_loop_pending (chr "+") (turns f) c1 f1). lia.
Qed.

Lemma skipOverCplusComment_loop_pending (fuel : nat) :
  forall f : inputFile,
    (weight (fst (skipOverCplusComment_loop fuel f))
     + pending (snd (skipOverCplusComment_loop fuel f)) <= pending f)%nat.
Proof.
  induction fuel as [| fuel IH]; intros f; [cbn; lia |].
  rewrite skipOverCplusComment_loop_S. unfold bind; cbv beta.
  pose proof (getc_pending f) as Hg.
  destruct (getcFromInputFile f) as [c1 f1]; cbn [fst snd] in Hg.
  destruct (negb (c1 =? EOF)); [| cbn [ret fst snd]; lia].
  destruct (c1 =? BACKSLASH).
  - pose proof (getc_pending f1) as Hg1.
    destruct (getcFromInputFile f1) as [c2 f2]; cbn [fst snd] in Hg1.
    specialize (IH f2). lia.
  - destruct (c1 =? NEWLINE); [cbn [ret fst snd]; lia |].
    specialize (IH f1). lia.
Qed.

Lemma skipToEndOfString_pending (ib : bool) (f : inputFile) :
  (pending (snd (skipToEndOfString ib f)) <= pending f)%nat.
Proof.
  unfold skipToEndOfString, bind; cbv beta.
  assert (H : forall fuel g,
            (pending (snd (skipToEndOfString_loop ib fuel g))
             <= pending g)%nat).
  { induction fuel as [| fuel IH]; intros g; [cbn; lia |].
    rewrite skipToEndOfString_loop_S. unfold bind; cbv beta.
    pose proof (getc_pending g) as Hg.
    destruct (getcFromInputFile g) as [c1 f1]; cbn [fst snd] in Hg.
    destruct (negb (c1 =? EOF)); [| cbn [ret snd]; lia].
    destruct ((c1 =? BACKSLASH) && negb ib).
    - pose proof (getc_pending f1) as Hg1.
      destruct (getcFromInputFile f1) as [c2 f2]; cbn [fst snd] in Hg1.
      specialize (IH f2). lia.
    - destruct (c1 =? DOUBLE_QUOTE); [cbn [ret snd]; lia |].
      specialize (IH f1). lia. }
  specialize (H (turns f) f).
  destruct (skipToEndOfString_loop ib (turns f) f) as [u f1].
  exact H.
Qed.

Lemma skipToEndOfChar_pending (f : inputFile) :
  (pending (snd (skipToEndOfChar f)) <= pending f)%nat.
Proof.
  unfold skipToEndOfChar, bind; cbv beta.
  assert (H : forall fuel count v g,
            (pending (snd (skipToEndOfChar_loop fuel count v g))
             <= pending g)%nat).
  { induction fuel as [| fuel IH]; intros count v g; [cbn; lia |].
    rewrite skipToEndOfChar_loop_S. unfold bind; cbv beta.
    pose proof (getc_pending g) as Hg.
    destruct (getcFromInputFile g) as [c1 f1]; cbn [fst snd] in Hg.
    destruct (negb (c1 =? EOF)); [| cbn [ret snd]; lia]. cbv zeta.
    destruct (c1 =? BACKSLASH).
    - pose proof (getc_pending f1) as Hg1.
      destruct (getcFromInputFile f1) as [c2 f2]; cbn [fst snd] in Hg1.
      specialize (IH (count + 1) v f2). lia.
    - destruct (c1 =? SINGLE_QUOTE); [cbn [ret snd]; lia |].
      destruct (c1 =? NEWLINE); [rewrite ungetc_pending; lia |].
      destruct ((count + 1 =? 1) && in_DHOB (toupper c1)).
      + specialize (IH (count + 1) c1 f1). lia.
      + destruct (negb (v =? 0) && negb (isalnum c1));
          [rewrite ungetc_pending; lia |].
        specialize (IH (count + 1) v f1). lia. }
  specialize (H (turns f) 0 0 f).
  destruct (skipToEndOfChar_loop (turns f) 0 0 f) as [u f1].
  exact H.
Qed.

Lemma rawDelim_loop_pending (fuel : nat) :
  forall (delim : list Z) (i : nat) (f : inputFile),
    (weight (fst (fst (rawDelim_loop fuel delim i f)))
     + pending (snd (rawDelim_loop fuel delim i f)) <= pending f)%nat.
Proof.
  induction fuel as [| fuel IH]; intros delim i f; [cbn; lia |].
  rewrite rawDelim_loop_S. unfold bind; cbv beta.
  pose proof (getc_pending f) as Hg.
  destruct (getcFromInputFile f) as [c1 f1]; cbn [fst snd] in Hg.
  destruct (negb (c1 =? EOF) && (i <? length delim)%nat
            && (nth i delim 0 =? c1)).
  - specialize (IH delim (S i) f1). lia.
  - cbn [ret fst snd]. lia.
Qed.

Lemma rawLiteral_loop_pending (fuel : nat) :
  forall (c : Z) (delim : list Z) (collect : bool) (f : inputFile),
    (pending (snd (rawLiteral_loop fuel c delim collect f)) <= pending f)%nat.
Proof.
  induction fuel as [| fuel IH]; intros c delim collect f; [cbn; lia |].
  rewrite rawLiteral_loop_S. cbv zeta.
  assert (Hnext : forall delim' collect' g,
            Nat.le
              (pending
                 (snd ((do c' <- getcFromInputFile ;
                        if negb (c' =? EOF)
                        then rawLiteral_loop fuel c' delim' collect'
                        else ret tt) g))) (pending g)).
  { intros delim' collect' g. unfold bind; cbv beta.
    pose proof (getc_pending g) as Hg.
    destruct (getcFromInputFile g) as [c1 f1]; cbn [fst snd] in Hg.
    destruct (negb (c1 =? EOF)); [| cbn [ret snd]; lia].
    specialize (IH c1 delim' collect' f1). lia. }
  destruct collect.
  - destruct (isCxxRawLiteralDelimiterChar c && (length delim <? 16)%nat);
      apply Hnext.
  - destruct (c =? chr ")"); [| apply Hnext].
    unfold bind at 1; cbv beta.
    pose proof (rawDelim_loop_pending (S (length delim)) delim 0 f) as Hr.
    destruct (rawDelim_loop (S (length delim)) delim 0 f) as [[c1 i1] f1].
    cbn [fst snd] in *.
    destruct (Nat.eqb i1 (length delim) && (c1 =? DOUBLE_QUOTE));
      [cbn [ret snd]; lia |].
    unfold bind at 1; cbv beta. cbn [fileUngetc].
    specialize (Hnext delim false
                  (mkFile (tl (f_prev f1)) (c1 :: f_ahead f1))).
    change (pending (mkFile (tl (f_prev f1)) (c1 :: f_ahead f1)))
      with (weight c1 + pending f1)%nat in Hnext.
    lia.
Qed.

Lemma skipToEndOfCxxRawLiteralString_pending (f : inputFile) :
  (pending (snd (skipToEndOfCxxRawLiteralString f)) <= pending f)%nat.
Proof.
  unfold skipToEndOfCxxRawLiteralString, bind; cbv beta.
  pose proof (getc_pending f) as Hg.
  destruct (getcFromInputFile f) as [c1 f1]; cbn [fst snd] in Hg.
  destruct (negb (c1 =? chr "(") && negb (isCxxRawLiteralDelimiterChar c1)).
  - cbn [fileUngetc].
    pose proof (skipToEndOfString_pending false
                  (mkFile (tl (f_prev f1)) (c1 :: f_ahead f1))) as Hs.
    change (pending (mkFile (tl (f_prev f1)) (c1 :: f_ahead f1)))
      with (weight c1 + pending f1)%nat in Hs.
    lia.
  - pose proof (rawLiteral_loop_pending (S (turns f)) c1 [] true f1) as Hr.
    destruct (rawLiteral_loop (S (turns f)) c1 [] true f1) as [u f2].
    cbn [ret snd] in *. lia.
Qed.

Lemma isComment_pending (f : inputFile) :
  (pending (snd (isComment f)) <= pending f)%nat.
Proof.
  unfold isComment, bind; cbv beta.
  pose proof (getc_pending f) as Hg.
  destruct (getcFromInputFile f) as [c1 f1]; cbn [fst snd] in Hg.
  destruct (c1 =? chr "*"); [cbn [ret snd]; lia |].
  destruct (c1 =? chr "/"); [cbn [ret snd]; lia |].
  destruct (c1 =? chr "+"); [cbn [ret snd]; lia |].
  cbn [fileUngetc ret snd].
  change (pending (mkFile (tl (f_prev f1)) (c1 :: f_ahead f1)))
    with (weight c1 + pending f1)%nat.
  lia.
Qed.

Lemma readDirective_pending (c : Z) (name : list Z) (n : nat)
  (f : inputFile) :
  (pending (snd (readDirective c name n f)) <= pending f)%nat.
Proof.
  unfold readDirective, bind; cbv beta.
  assert (H : forall k i c0 nm g,
            (pending (snd (readDirective_loop k i c0 nm g)) <= pending g)%nat).
  { induction k as [| k IH]; intros i c0 nm g; [cbn; lia |].
    rewrite readDirective_loop_S.
    destruct (0 <? i)%nat; [| apply IH].
    unfold bind; cbv beta.
    pose proof (getc_pending g) as Hg.
    destruct (getcFromInputFile g) as [c1 f1]; cbn [fst snd] in Hg.
    destruct ((c1 =? EOF) || negb (isalpha c1)).
    - cbn [fileUngetc ret snd].
      change (pending (mkFile (tl (f_prev f1)) (c1 :: f_ahead f1)))
        with (weight c1 + pending f1)%nat.
      lia.
    - specialize (IH (S i) c1 (<[i:=c1]> nm) f1). lia. }
  specialize (H (n - 1)%nat 0%nat c name f).
  destruct (readDirective_loop (n - 1) 0 c name f) as [[[i c'] nm] f1].
  exact H.
Qed.

Lemma readIdentifier_pending (c : Z) (f : inputFile) :
  (pending (snd (readIdentifier c f)) <= pending f)%nat.
Proof.
  unfold readIdentifier, bind; cbv beta.
  assert (H : forall fuel c0 nm g,
            (length (f_ahead g) < fuel)%nat ->
            (weight (fst (fst (readIdentifier_loop fuel c0 nm g)))
             + pending (snd (readIdentifier_loop fuel c0 nm g))
             <= pending g)%nat).
  { induction fuel as [| fuel IH]; intros c0 nm g Hfuel; [lia |].
    rewrite readIdentifier_loop_S. unfold bind; cbv beta.
    pose proof (getc_pending g) as Hg.
    pose proof (getc_shorter g) as [_ Hlt].
    destruct (getcFromInputFile g) as [c1 f1]; cbn [fst snd] in Hg, Hlt.
    destruct (c1 =? EOF) eqn:Ec; cbn [negb andb];
      [cbn [ret fst snd]; lia |].
    destruct (isident c1); [| cbn [ret fst snd]; lia].
    apply Z.eqb_neq in Ec. specialize (Hlt Ec).
    specialize (IH c1 (nm ++ [c0]) f1). lia. }
  specialize (H (turns f) c [] f ltac:(unfold turns; lia)).
  destruct (readIdentifier_loop (turns f) c [] f) as [[c' nm] f1].
  cbn [fst snd fileUngetc ret] in *.
  change (pending (mkFile (tl (f_prev f1)) (c' :: f_ahead f1)))
    with (weight c' + pending f1)%nat.
  exact H.
Qed.

Lemma skipSpaces_loop_pending (fuel : nat) :
  forall f : inputFile,
    (pending (snd (skipSpaces_loop fuel f)) <= pending f)%nat.
Proof.
  induction fuel as [| fuel IH]; intros f; [cbn; lia |].
  rewrite skipSpaces_loop_S. unfold bind; cbv beta.
  pose proof (getc_pending f) as Hg.
  destruct (getcFromInputFile f) as [c1 f1]; cbn [fst snd] in Hg.
  destruct (c1 =? SPACE); [| cbn [ret snd]; lia].
  specialize (IH f1). lia.
Qed.

Lemma skipOverCplusComment_pending (f : inputFile) :
  (weight (fst (skipOverCplusComment f))
   + pending (snd (skipOverCplusComment f)) <= pending f)%nat.
Proof. apply skipOverCplusComment_loop_pending. Qed.

Lemma skipSpaces_pending (f : inputFile) :
  (pending (snd ((fun f => skipSpaces_loop (turns f) f) f)) <= pending f)%nat.
Proof. apply skipSpaces_loop_pending. Qed.

Lemma bind_assoc {S A B C : Type} (m : St S A) (k1 : A -> St S B)
  (k2 : B -> St S C) (s : S) :
  bind (bind m k1) k2 s = bind m (fun a => bind (k1 a) k2) s.
Proof. unfold bind. destruct (m s) as [a s1]. reflexivity. Qed.

Lemma bind_split {S A B : Type} (m : St S A) (k : A -> St S B) (s : S) :
  bind m k s = k (fst (m s)) (snd (m s)).
Proof. unfold bind. destruct (m s). reflexivity. Qed.

Lemma bind_makeTagEntry {B : Type} (e : tagEntryInfo) (k : unit -> M B)
  (d : sDirective) (f : inputFile) (tags : list tagEntryInfo) :
  bind (makeTagEntry e) k (mkScanner d f tags) =
  k tt (mkScanner d f (tags ++ [e])).
Proof. reflexivity. Qed.

Lemma skipOverCComment_value (f : inputFile) :
  fst (skipOverCComment f) = SPACE \/ fst (skipOverCComment f) = EOF.
Proof.
  pose proof (getc_shorter f) as [Hle Hlt].
  unfold skipOverCComment, bind, turns; cbv beta.
  destruct (getcFromInputFile f) as [c f1]. cbn [fst snd] in Hle, Hlt.
  apply skipOverComment_loop_value. left. lia.
Qed.

Lemma skipOverDComment_value (f : inputFile) :
  fst (skipOverDComment f) = SPACE \/ fst (skipOverDComment f) = EOF.
Proof.
  pose proof (getc_shorter f) as [Hle Hlt].
  unfold skipOverDComment, bind, turns; cbv beta.
  destruct (getcFromInputFile f) as [c f1]. cbn [fst snd] in Hle, Hlt.
  apply skipOverComment_loop_value. left. lia.
Qed.

Lemma skipOverCplusComment_value (f : inputFile) :
  fst (skipOverCplusComment f) = NEWLINE \/
  fst (skipOverCplusComment f) = EOF.
Proof. apply skipOverCplusComment_loop_value. Qed.

Lemma skipToEndOfCxxRawLiteralString_value (f : inputFile) :
  fst (skipToEndOfCxxRawLiteralString f) = STRING_SYMBOL.
Proof.
  unfold skipToEndOfCxxRawLiteralString, bind; cbv beta.
  destruct (getcFromInputFile f) as [c f1].
  destruct (negb (c =? chr "(") && negb (isCxxRawLiteralDelimiterChar c)).
  - cbn [fileUngetc]. apply skipToEndOfString_value.
  - destruct (rawLiteral_loop (S (turns f)) c [] true f1). reflexivity.
Qed.

(** The facts about the file and the value that a read leaves behind. *)
Ltac pend_file m f :=
  lazymatch m with
  | getcFromInputFile => pose proof (getc_pending f)
  | fileUngetc ?c => pose proof (ungetc_pending c f)
  | fileGetNthPrevC _ _ => idtac
  | isComment => pose proof (isComment_pending f)
  | skipOverCComment =>
      pose proof (skipOverCComment_pending f);
      pose proof (skipOverCComment_value f)
  | skipOverDComment =>
      pose proof (skipOverDComment_pending f);
      pose proof (skipOverDComment_value f)
  | skipOverCplusComment =>
      pose proof (skipOverCplusComment_pending f);
      pose proof (skipOverCplusComment_value f)
  | skipToEndOfString ?ib =>
      pose proof (skipToEndOfString_pending ib f);
      pose proof (skipToEndOfString_value ib f)
  | skipToEndOfChar =>
      pose proof (skipToEndOfChar_pending f);
      pose proof (skipToEndOfChar_value f)
  | skipToEndOfCxxRawLiteralString =>
      pose proof (skipToEndOfCxxRawLiteralString_pending f);
      pose proof (skipToEndOfCxxRawLiteralString_value f)
  | readDirective ?c ?n ?k => pose proof (readDirective_pending c n k f)
  | readIdentifier ?c => pose proof (readIdentifier_pending c f)
  | _ => pose proof (skipSpaces_pending f)
  end.

(** One step through the code of the scanner: the leading operation is
    run and what it leaves behind is recorded. *)
Ltac scan_step :=
  cbv beta;
  match goal with
  | |- context [bind (bind _ _) _ (mkScanner _ _ _)] => rewrite bind_assoc
  | |- context [bind (onFile (fileGetNthPrevC ?n ?x)) _ (mkScanner _ ?f _)] =>
      rewrite bind_onFile; cbn [fileGetNthPrevC fst snd]
  | |- context [bind (onFile ?m) _ (mkScanner _ ?f _)] =>
      rewrite bind_onFile; pend_file m f;
      destruct (m f) as [? ?]; cbn [fst snd] in *
  | |- context [bind (setDirective _) _ (mkScanner _ _ _)] =>
      rewrite bind_setDirective
  | |- context [bind (getDirective _) _ (mkScanner _ _ _)] =>
      rewrite bind_getDirective
  | |- context [bind (onDirective _) _ (mkScanner _ _ _)] =>
      rewrite bind_onDirective
  | |- context [bind (makeTagEntry _) _ (mkScanner _ _ _)] =>
      rewrite bind_makeTagEntry
  | |- context [bind (ret _) _ (mkScanner _ _ _)] => rewrite bind_ret
  | |- context [bind (if ?b then _ else _) _ (mkScanner _ _ _)] =>
      destruct b eqn:?
  | |- context [(if ?b then _ else _) (mkScanner _ _ _)] => destruct b eqn:?
  end.

Section Returns.

Variable Option : options.
Variable bf rr hasAt hasRaw : bool.

Lemma makeDefineTag_file (name : list Z) (par : bool) (s : scanner) :
  sc_file (snd (makeDefineTag Option name par s)) = sc_file s.
Proof.
  unfold makeDefineTag. destruct (_ && _); reflexivity.
Qed.

Ltac scan_done :=
  cbv beta; cbn [ret setDirective getDirective snd fst sc_file];
  rewrite ?makeDefineTag_file; cbn [sc_file]; lia.

Lemma directiveDefine_pending (c : Z) (s : scanner) :
  (pending (sc_file (snd (directiveDefine Option c s)))
   <= pending (sc_file s))%nat.
Proof.
  destruct s as [d f tags]. unfold directiveDefine. cbn [sc_file].
  destruct (isident1 c); repeat scan_step;
    rewrite ?(bind_split (makeDefineTag _ _ _)); scan_done.
Qed.

Lemma directivePragma_pending (c : Z) (s : scanner) :
  (pending (sc_file (snd (directivePragma Option c s)))
   <= pending (sc_file s))%nat.
Proof.
  destruct s as [d f tags]. unfold directivePragma. cbn [sc_file].
  destruct (isident1 c); repeat scan_step;
    rewrite ?(bind_split (makeDefineTag _ _ _)); scan_done.
Qed.

Lemma directiveIf_pending (c : Z) (s : scanner) :
  (pending (sc_file (snd (directiveIf Option bf rr c s)))
   <= pending (sc_file s))%nat.
Proof.
  destruct s as [d f tags]. unfold directiveIf. cbn [sc_file].
  repeat scan_step; scan_done.
Qed.

Lemma directiveHash_pending (c : Z) (s : scanner) :
  (pending (sc_file (snd (directiveHash bf rr c s)))
   <= pending (sc_file s))%nat.
Proof.
  destruct s as [d f tags]. unfold directiveHash. cbn [sc_file].
  repeat scan_step; scan_done.
Qed.

Lemma handleDirective_pending (c : Z) (s : scanner) :
  (pending (sc_file (snd (handleDirective Option bf rr c s)))
   <= pending (sc_file s))%nat.
Proof.
  destruct s as [d f tags]. unfold handleDirective.
  rewrite !bind_getDirective.
  destruct (state d).
  - scan_done.
  - rewrite bind_split. cbn [ret snd]. apply directiveDefine_pending.
  - apply directiveHash_pending.
  - apply directiveIf_pending.
  - rewrite bind_split. cbn [ret snd]. apply directivePragma_pending.
  - rewrite bind_split. cbn [ret snd]. apply directiveDefine_pending.
Qed.

Lemma cppGetc_enter_pending (c : Z) (dir ign : bool) (s : scanner) :
  (pending (sc_file (snd (cppGetc_enter Option bf rr c dir ign s)))
   <= pending (sc_file s))%nat.
Proof.
  destruct s as [d f tags]. unfold cppGetc_enter.
  rewrite bind_setDirective. destruct dir.
  - rewrite bind_split. cbn [ret snd].
    eapply Nat.le_trans; [apply handleDirective_pending |].
    cbn [sc_file]. lia.
  - scan_done.
Qed.

Lemma cppGetc_hash_pending (c : Z) (dir ign : bool) (s : scanner) :
  (pending (sc_file (snd (cppGetc_hash c dir ign s)))
   <= pending (sc_file s))%nat.
Proof.
  destruct s as [d f tags]. unfold cppGetc_hash.
  repeat scan_step; scan_done.
Qed.

Lemma cppGetc_backslash_pending (c : Z) (dir ign : bool) (s : scanner) :
  (pending (sc_file (snd (cppGetc_backslash c dir ign s)))
   <= pending (sc_file s))%nat.
Proof.
  destruct s as [d f tags]. unfold cppGetc_backslash. cbn [sc_file].
  repeat scan_step; scan_done.
Qed.

Ltac scan_leaf :=
  first
    [ scan_done
    | eapply Nat.le_trans;
        [ first [ apply cppGetc_enter_pending
                | apply cppGetc_hash_pending
                | apply cppGetc_backslash_pending ]
        | cbn [sc_file]; lia ] ].

Lemma cppGetc_trigraph_pending (c : Z) (dir ign : bool) (s : scanner) :
  (pending (sc_file (snd (cppGetc_trigraph c dir ign s)))
   <= pending (sc_file s))%nat.
Proof.
  destruct s as [d f tags]. unfold cppGetc_trigraph. cbn [sc_file].
  repeat scan_step; try scan_leaf.
  match goal with
  | E : negb (?z =? chr "?") = false |- _ =>
      apply negb_false_iff, Z.eqb_eq in E; subst z
  end.
  change (weight (chr "?")) with 1%nat in *. scan_done.
Qed.

Lemma cppGetc_literal_pending (c : Z) (s : scanner) :
  (pending (sc_file (snd (cppGetc_literal hasAt hasRaw c s)))
   <= pending (sc_file s))%nat.
Proof.
  destruct s as [d f tags]. unfold cppGetc_literal. cbn [sc_file].
  repeat scan_step; scan_leaf.
Qed.

Lemma cppGetc_process_pending (c : Z) (dir ign : bool) (s : scanner) :
  (pending (sc_file (snd (cppGetc_process Option bf rr hasAt hasRaw
                            c dir ign s)))
   <= pending (sc_file s))%nat.
Proof.
  destruct s as [d f tags]. unfold cppGetc_process. cbn [sc_file].
  destruct (c =? EOF); [scan_done |].
  destruct ((c =? TAB) || (c =? SPACE)); [scan_done |].
  destruct (c =? NEWLINE); [repeat scan_step; scan_done |].
  destruct (c =? DOUBLE_QUOTE); [repeat scan_step; scan_done |].
  destruct (c =? chr "#"); [apply cppGetc_hash_pending |].
  destruct (c =? SINGLE_QUOTE); [repeat scan_step; scan_done |].
  destruct (c =? chr "/").
  { rewrite bind_onFile. pose proof (isComment_pending f) as Hc.
    destruct (isComment f) as [[] f1]; cbn [fst snd] in *;
      repeat scan_step; scan_done. }
  destruct (c =? BACKSLASH); [apply cppGetc_backslash_pending |].
  destruct (c =? chr "?"); [apply cppGetc_trigraph_pending |].
  destruct (c =? chr "<"); [repeat scan_step; scan_leaf |].
  destruct (c =? chr ":"); [repeat scan_step; scan_leaf |].
  destruct (c =? chr "%"); [repeat scan_step; scan_leaf |].
  rewrite bind_split.
  pose proof (cppGetc_literal_pending c (mkScanner d f tags)) as Hl.
  destruct (cppGetc_literal hasAt hasRaw c (mkScanner d f tags))
    as [[c' |] s1]; cbn [fst snd sc_file] in *.
  - scan_done.
  - eapply Nat.le_trans; [apply cppGetc_enter_pending | exact Hl].
Qed.

(** One turn of the loop either has read [EOF], and then leaves the
    loop, or has taken at least one character from the input. *)
Lemma cppGetc_turn_progress (dir ign : bool) (s : scanner) :
  let r := cppGetc_turn Option bf rr hasAt hasRaw dir ign s in
  (snd (fst (fst r)) = false /\ snd (fst r) = false
   /\ pending (sc_file (snd r)) <= pending (sc_file s))%nat
  \/ (pending (sc_file (snd r)) < pending (sc_file s))%nat.
Proof.
  destruct s as [d f tags]. unfold cppGetc_turn. cbn [sc_file].
  rewrite bind_onFile.
  pose proof (getc_pending f) as Hg.
  destruct (getcFromInputFile f) as [c f1]. cbn [fst snd] in *.
  destruct (c =? EOF) eqn:Ec.
  - left. unfold cppGetc_process. rewrite Ec. cbn [ret fst snd sc_file].
    repeat split. lia.
  - right. rewrite (weight_not_EOF c Ec) in Hg.
    pose proof (cppGetc_process_pending c dir ign (mkScanner d f1 tags))
      as Hp.
    cbn [sc_file] in Hp. lia.
Qed.

Lemma cppGetc_loop_returns (fuel : nat) :
  forall (dir ign : bool) (s : scanner),
    (pending (sc_file s) < fuel)%nat ->
    exists c s',
      cppGetc_loop Option bf rr hasAt hasRaw fuel dir ign s = Some (c, s')
      /\ (pending (sc_file s') <= pending (sc_file s))%nat.
Proof.
  induction fuel as [| fuel IH]; intros dir ign s Hfuel; [lia |].
  cbn [cppGetc_loop].
  pose proof (cppGetc_turn_progress dir ign s) as Ht. cbv zeta in Ht.
  destruct (cppGetc_turn Option bf rr hasAt hasRaw dir ign s)
    as [[[c1 d1] i1] s1].
  cbn [fst snd] in Ht.
  destruct Ht as [(-> & -> & Hle) | Hlt].
  - cbn [orb]. exists c1, s1. split; [reflexivity | exact Hle].
  - destruct (d1 || i1).
    + destruct (IH d1 i1 s1) as (c & s' & Hrun & Hle); [lia |].
      exists c, s'. split; [exact Hrun | lia].
    + exists c1, s1. split; [reflexivity | lia].
Qed.

Lemma cppGetc_loop_more (fuel : nat) :
  forall (dir ign : bool) (s : scanner) (r : Z * scanner) (k : nat),
    cppGetc_loop Option bf rr hasAt hasRaw fuel dir ign s = Some r ->
    cppGetc_loop Option bf rr hasAt hasRaw (fuel + k) dir ign s = Some r.
Proof.
  induction fuel as [| fuel IH]; intros dir ign s r k Hrun; [discriminate |].
  cbn [cppGetc_loop Nat.add] in *.
  destruct (cppGetc_turn Option bf rr hasAt hasRaw dir ign s)
    as [[[c1 d1] i1] s1].
  destruct (d1 || i1); [apply IH |]; exact Hrun.
Qed.

End Returns.

Lemma cppGetc_returns (Option : options) (w : world) (k : nat) :
  exists c w',
    cppGetc Option (S (pending (w_file w)) + k) w = Some (c, w') /\
    (pending (w_file w') <= pending (w_file w))%nat.
Proof.
  destruct w as [[b [u u2 rr hasAt hasRaw d]] f tags].
  unfold cppGetc.
  cbn [w_globals Cpp BraceFormat ungetch ungetch2 resolveRequired
       hasAtLiteralStrings hasCxxRawLiteralStrings directive w_file w_tags].
  destruct (negb (u =? 0)).
  - eexists _, _. split; [reflexivity |]. cbn [w_file]. lia.
  - destruct (cppGetc_loop_returns Option b rr hasAt hasRaw
                (S (pending f)) false false (mkScanner d f tags))
      as (c & s' & Hrun & Hle); [cbn [sc_file]; lia |].
    rewrite (cppGetc_loop_more Option b rr hasAt hasRaw _ _ _ _ _ k Hrun).
    eexists _, _. split; [reflexivity |]. cbn [w_file sc_file] in *.
    exact Hle.
Qed.

(** X14. Every call of [cppGetc] returns. Each turn of its loop either
    reads [EOF] and leaves the loop or takes at least one character from
    the input, and no function it calls puts back more than it has read:
    so, whatever the state and the input, one more turn than there are
    characters pending is enough for the call to return, more turns
    change nothing, the input never grows, and any number of successive
    calls return too. *)
Theorem cppGetc_always_returns (Option : options) (w : world) :
  (exists c w',
     (forall k,
        cppGetc Option (S (pending (w_file w)) + k) w = Some (c, w')) /\
     (pending (w_file w') <= pending (w_file w))%nat) /\
  (forall n k,
     exists l,
       cppGetc_calls Option (S (pending (w_file w)) + k) n w = Some l).
Proof.
  split.
  - destruct (cppGetc_returns Option w 0) as (c & w' & Hrun & Hle).
    exists c, w'. split; [| exact Hle].
    intros k. destruct (cppGetc_returns Option w k) as (c2 & w2 & Hrun2 & _).
    rewrite Hrun2. rewrite Nat.add_0_r in Hrun.
    destruct w as [[b [u u2 rr hasAt hasRaw d]] f tags].
    unfold cppGetc in *.
    cbn [w_globals Cpp BraceFormat ungetch ungetch2 resolveRequired
         hasAtLiteralStrings hasCxxRawLiteralStrings directive w_file
         w_tags] in *.
    destruct (negb (u =? 0)); [congruence |].
    destruct (cppGetc_loop Option b rr hasAt hasRaw (S (pending f)) false
                false (mkScanner d f tags)) as [[c0 s0] |] eqn:E;
      [| discriminate].
    rewrite (cppGetc_loop_more Option b rr hasAt hasRaw _ _ _ _ _ k E)
      in Hrun2.
    congruence.
  - intros n. revert w.
    induction n as [| n IH]; intros w k; [exists []; reflexivity |].
    cbn [cppGetc_calls].
    destruct (cppGetc_returns Option w k) as (c & w' & Hrun & Hle).
    rewrite Hrun.
    destruct (c =? EOF); [eexists; reflexivity |].
    destruct (IH w' (pending (w_file w) - pending (w_file w') + k)%nat)
      as [l Hl].
    replace (S (pending (w_file w')) +
             (pending (w_file w) - pending (w_file w') + k))%nat
      with (S (pending (w_file w)) + k)%nat in Hl by lia.
    rewrite Hl. eexists. reflexivity.
Qed.

(* ------------------------------------------------------------------ *)
(** ** The tags a call makes *)

Lemma tags_grow_refl (O : options) (t : list tagEntryInfo) :
  tags_grow O t t.
Proof.
  exists []. rewrite app_nil_r. repeat split. constructor.
Qed.

Lemma tags_grow_trans (O : options) (t1 t2 t3 : list tagEntryInfo) :
  tags_grow O t1 t2 -> tags_grow O t2 t3 -> tags_grow O t1 t3.
Proof.
  intros (a1 & -> & H1 & D1) (a2 & -> & H2 & D2).
  exists (a1 ++ a2). rewrite app_assoc. split; [reflexivity | split].
  - apply Forall_app. split; assumption.
  - intros Hd. rewrite (D1 Hd), (D2 Hd). reflexivity.
Qed.

Section Tags.

Variable Option : options.
Variable bf rr hasAt hasRaw : bool.

Lemma makeDefineTag_tags (name : list Z) (par : bool) (s : scanner) :
  tags_grow Option (sc_tags s) (sc_tags (snd (makeDefineTag Option name par s))).
Proof.
  unfold makeDefineTag.
  destruct (includingDefineTags Option
            && (negb (negb (isHeaderFile Option))
                || include_fileScope Option)) eqn:E.
  - cbn [makeTagEntry snd sc_tags].
    eexists. split; [reflexivity | split].
    + repeat constructor.
    + unfold tags_disabled. intros Hd. exfalso.
      destruct (includingDefineTags Option), (isHeaderFile Option),
        (include_fileScope Option); discriminate.
  - apply tags_grow_refl.
Qed.

Ltac tags_done :=
  cbv beta; cbn [ret setDirective getDirective snd fst sc_tags];
  first
    [ apply tags_grow_refl
    | rewrite (bind_split (makeDefineTag _ _ _));
      cbv beta; cbn [ret setDirective snd sc_tags];
      apply makeDefineTag_tags ].

Lemma directiveDefine_tags (c : Z) (s : scanner) :
  tags_grow Option (sc_tags s) (sc_tags (snd (directiveDefine Option c s))).
Proof.
  destruct s as [d f tags]. unfold directiveDefine. cbn [sc_tags].
  destruct (isident1 c); repeat scan_step; tags_done.
Qed.

Lemma directivePragma_tags (c : Z) (s : scanner) :
  tags_grow Option (sc_tags s) (sc_tags (snd (directivePragma Option c s))).
Proof.
  destruct s as [d f tags]. unfold directivePragma. cbn [sc_tags].
  destruct (isident1 c); repeat scan_step; tags_done.
Qed.

Lemma directiveIf_tags (c : Z) (s : scanner) :
  tags_grow Option (sc_tags s)
    (sc_tags (snd (directiveIf Option bf rr c s))).
Proof.
  destruct s as [d f tags]. unfold directiveIf. cbn [sc_tags].
  repeat scan_step; tags_done.
Qed.

Lemma directiveHash_tags (c : Z) (s : scanner) :
  tags_grow Option (sc_tags s) (sc_tags (snd (directiveHash bf rr c s))).
Proof.
  destruct s as [d f tags]. unfold directiveHash. cbn [sc_tags].
  repeat scan_step; tags_done.
Qed.

Lemma handleDirective_tags (c : Z) (s : scanner) :
  tags_grow Option (sc_tags s)
    (sc_tags (snd (handleDirective Option bf rr c s))).
Proof.
  destruct s as [d f tags]. unfold handleDirective.
  rewrite !bind_getDirective.
  destruct (state d).
  - apply tags_grow_refl.
  - rewrite bind_split. cbn [ret snd]. apply directiveDefine_tags.
  - apply directiveHash_tags.
  - apply directiveIf_tags.
  - rewrite bind_split. cbn [ret snd]. apply directivePragma_tags.
  - rewrite bind_split. cbn [ret snd]. apply directiveDefine_tags.
Qed.

Lemma cppGetc_enter_tags (c : Z) (dir ign : bool) (s : scanner) :
  tags_grow Option (sc_tags s)
    (sc_tags (snd (cppGetc_enter Option bf rr c dir ign s))).
Proof.
  destruct s as [d f tags]. unfold cppGetc_enter.
  rewrite bind_setDirective. destruct dir.
  - rewrite bind_split. cbn [ret snd].
    apply (handleDirective_tags c (mkScanner (set_accept false d) f tags)).
  - apply tags_grow_refl.
Qed.

Lemma cppGetc_hash_tags (c : Z) (dir ign : bool) (s : scanner) :
  sc_tags (snd (cppGetc_hash c dir ign s)) = sc_tags s.
Proof.
  destruct s as [d f tags]. unfold cppGetc_hash.
  repeat scan_step; reflexivity.
Qed.

Lemma cppGetc_backslash_tags (c : Z) (dir ign : bool) (s : scanner) :
  sc_tags (snd (cppGetc_backslash c dir ign s)) = sc_tags s.
Proof.
  destruct s as [d f tags]. unfold cppGetc_backslash.
  repeat scan_step; reflexivity.
Qed.

Ltac tags_leaf :=
  first
    [ tags_done
    | rewrite cppGetc_hash_tags; apply tags_grow_refl
    | rewrite cppGetc_backslash_tags; apply tags_grow_refl
    | match goal with
      | |- tags_grow _ ?t
             (sc_tags (snd (cppGetc_enter _ _ _ ?c ?dir ?ign
                              (mkScanner ?d ?f ?t)))) =>
          apply (cppGetc_enter_tags c dir ign (mkScanner d f t))
      end ].

Lemma cppGetc_trigraph_tags (c : Z) (dir ign : bool) (s : scanner) :
  tags_grow Option (sc_tags s) (sc_tags (snd (cppGetc_trigraph c dir ign s))).
Proof.
  destruct s as [d f tags]. unfold cppGetc_trigraph. cbn [sc_tags].
  repeat scan_step; tags_leaf.
Qed.

Lemma cppGetc_literal_tags (c : Z) (s : scanner) :
  sc_tags (snd (cppGetc_literal hasAt hasRaw c s)) = sc_tags s.
Proof.
  destruct s as [d f tags]. unfold cppGetc_literal. cbn [sc_tags].
  repeat scan_step; reflexivity.
Qed.

Lemma cppGetc_process_tags (c : Z) (dir ign : bool) (s : scanner) :
  tags_grow Option (sc_tags s)
    (sc_tags (snd (cppGetc_process Option bf rr hasAt hasRaw c dir ign s))).
Proof.
  destruct s as [d f tags]. unfold cppGetc_process. cbn [sc_tags].
  destruct (c =? EOF); [tags_done |].
  destruct ((c =? TAB) || (c =? SPACE)); [tags_done |].
  destruct (c =? NEWLINE); [repeat scan_step; tags_done |].
  destruct (c =? DOUBLE_QUOTE); [repeat scan_step; tags_done |].
  destruct (c =? chr "#"); [tags_leaf |].
  destruct (c =? SINGLE_QUOTE); [repeat scan_step; tags_done |].
  destruct (c =? chr "/").
  { rewrite bind_onFile.
    destruct (isComment f) as [[] f1]; cbn [fst snd] in *;
      repeat scan_step; tags_done. }
  destruct (c =? BACKSLASH); [tags_leaf |].
  destruct (c =? chr "?"); [apply cppGetc_trigraph_tags |].
  destruct (c =? chr "<"); [repeat scan_step; tags_leaf |].
  destruct (c =? chr ":"); [repeat scan_step; tags_leaf |].
  destruct (c =? chr "%"); [repeat scan_step; tags_leaf |].
  rewrite bind_split.
  pose proof (cppGetc_literal_tags c (mkScanner d f tags)) as Hl.
  destruct (cppGetc_literal hasAt hasRaw c (mkScanner d f tags))
    as [[c' |] s1]; cbn [fst snd sc_tags] in *.
  - cbn [ret snd]. rewrite Hl. apply tags_grow_refl.
  - rewrite <- Hl. apply cppGetc_enter_tags.
Qed.

Lemma cppGetc_loop_tags (fuel : nat) :
  forall (dir ign : bool) (s : scanner) (c : Z) (s' : scanner),
    cppGetc_loop Option bf rr hasAt hasRaw fuel dir ign s = Some (c, s') ->
    tags_grow Option (sc_tags s) (sc_tags s').
Proof.
  induction fuel as [| fuel IH]; intros dir ign s c s' Hrun; [discriminate |].
  cbn [cppGetc_loop] in Hrun.
  assert (Ht : tags_grow Option (sc_tags s)
                 (sc_tags (snd (cppGetc_turn Option bf rr hasAt hasRaw
                                  dir ign s)))).
  { destruct s as [d f tags]. unfold cppGetc_turn. rewrite bind_onFile.
    apply (cppGetc_process_tags _ dir ign
             (mkScanner d (snd (getcFromInputFile f)) tags)). }
  destruct (cppGetc_turn Option bf rr hasAt hasRaw dir ign s)
    as [[[c1 d1] i1] s1].
  cbn [snd] in Ht.
  destruct (d1 || i1).
  - eapply tags_grow_trans; [exact Ht | exact (IH _ _ _ _ _ Hrun)].
  - inversion Hrun; subst. exact Ht.
Qed.

End Tags.

(** X15. A call of [cppGetc] only appends tags. The tags made before the
    call are all there after it, in the same order; every tag the call
    adds has its line-number flag from [Option.locate] and its
    file-scope flag from [isHeaderFile]; and when define tags are not
    included, or the file is no header file and file-scope tags are not
    included, the call adds none. *)
Theorem cppGetc_appends_tags (Option : options) (fuel : nat) (w w' : world)
  (c : Z) :
  cppGetc Option fuel w = Some (c, w') ->
  tags_grow Option (w_tags w) (w_tags w').
Proof.
  destruct w as [[b [u u2 rr hasAt hasRaw d]] f tags].
  unfold cppGetc.
  cbn [w_globals Cpp BraceFormat ungetch ungetch2 resolveRequired
       hasAtLiteralStrings hasCxxRawLiteralStrings directive w_file w_tags].
  destruct (negb (u =? 0)).
  - intros H. inversion H; subst. apply tags_grow_refl.
  - destruct (cppGetc_loop Option b rr hasAt hasRaw fuel false false
                (mkScanner d f tags)) as [[c0 s0] |] eqn:E; [| discriminate].
    intros H. inversion H; subst. cbn [w_tags].
    exact (cppGetc_loop_tags Option b rr hasAt hasRaw fuel _ _ _ _ _ E).
Qed.

Lemma cppGetc_appends_tags_witness :
  exists w',
    cppGetc plain_options 20
      (session false false false (str "#define X" ++ [NEWLINE]))
    = Some (NEWLINE, w') /\
    tags_grow plain_options [] (w_tags w').
Proof.
  eexists. split; [vm_compute; reflexivity |].
  apply (cppGetc_appends_tags plain_options 20
           (session false false false (str "#define X" ++ [NEWLINE]))
           _ NEWLINE).
  vm_compute. reflexivity.
Defined.

(* ------------------------------------------------------------------ *)
(** ** What a call returns *)

Section Values.

Variable Option : options.
Variable bf rr hasAt hasRaw : bool.

Lemma cppGetc_enter_value (c : Z) (dir ign : bool) (s : scanner) :
  fst (fst (fst (cppGetc_enter Option bf rr c dir ign s))) = c.
Proof.
  destruct s as [d f tags]. unfold cppGetc_enter.
  rewrite bind_setDirective. destruct dir; [| reflexivity].
  rewrite bind_split. reflexivity.
Qed.

Lemma cppGetc_hash_value (c : Z) (dir ign : bool) (s : scanner) :
  fst (fst (fst (cppGetc_hash c dir ign s))) = c.
Proof.
  destruct s as [d f tags]. unfold cppGetc_hash.
  repeat scan_step; reflexivity.
Qed.

Lemma cppGetc_backslash_value (c : Z) (dir ign : bool) (s : scanner) :
  fst (fst (fst (cppGetc_backslash c dir ign s))) = c.
Proof.
  destruct s as [d f tags]. unfold cppGetc_backslash.
  repeat scan_step; reflexivity.
Qed.

Ltac value_leaf :=
  cbv beta; cbn [ret fst snd];
  rewrite ?cppGetc_enter_value, ?cppGetc_hash_value,
    ?cppGetc_backslash_value;
  repeat match goal with
         | H : _ \/ _ |- _ => destruct H
         end;
  subst;
  first
    [ split; discriminate
    | split; apply Z.eqb_neq; assumption
    | assumption ].

Lemma cppGetc_trigraph_value (c : Z) (dir ign : bool) (s : scanner) :
  no_quote c ->
  no_quote (fst (fst (fst (cppGetc_trigraph c dir ign s)))).
Proof.
  intros Hc. destruct s as [d f tags]. unfold cppGetc_trigraph.
  repeat scan_step; value_leaf.
Qed.

Lemma cppGetc_literal_value (c : Z) (s : scanner) (c' : Z) :
  fst (cppGetc_literal hasAt hasRaw c s) = Some c' -> c' = STRING_SYMBOL.
Proof.
  destruct s as [d f tags]. unfold cppGetc_literal.
  repeat scan_step; cbn [ret fst]; intros E; inversion E; subst;
    reflexivity.
Qed.

Lemma cppGetc_process_value (c : Z) (dir ign : bool) (s : scanner) :
  no_quote (fst (fst (fst (cppGetc_process Option bf rr hasAt hasRaw
                             c dir ign s)))).
Proof.
  destruct s as [d f tags]. unfold cppGetc_process.
  destruct (c =? EOF) eqn:E0.
  { apply Z.eqb_eq in E0. subst c. value_leaf. }
  destruct ((c =? TAB) || (c =? SPACE)) eqn:E1.
  { apply orb_true_iff in E1 as [E1 | E1]; apply Z.eqb_eq in E1; subst c;
      value_leaf. }
  destruct (c =? NEWLINE) eqn:E2.
  { apply Z.eqb_eq in E2. subst c. repeat scan_step; value_leaf. }
  destruct (c =? DOUBLE_QUOTE) eqn:E3; [repeat scan_step; value_leaf |].
  destruct (c =? chr "#") eqn:E4.
  { apply Z.eqb_eq in E4. subst c. value_leaf. }
  destruct (c =? SINGLE_QUOTE) eqn:E5; [repeat scan_step; value_leaf |].
  assert (Hc : no_quote c) by (split; apply Z.eqb_neq; assumption).
  destruct (c =? chr "/").
  { rewrite bind_onFile.
    destruct (isComment f) as [[] f1]; cbn [fst snd] in *;
      repeat scan_step; value_leaf. }
  destruct (c =? BACKSLASH); [value_leaf |].
  destruct (c =? chr "?"); [apply cppGetc_trigraph_value; exact Hc |].
  destruct (c =? chr "<"); [repeat scan_step; value_leaf |].
  destruct (c =? chr ":"); [repeat scan_step; value_leaf |].
  destruct (c =? chr "%"); [repeat scan_step; value_leaf |].
  rewrite bind_split.
  pose proof (cppGetc_literal_value c (mkScanner d f tags)) as Hl.
  destruct (cppGetc_literal hasAt hasRaw c (mkScanner d f tags))
    as [[c' |] s1]; cbn [fst snd] in *.
  - rewrite (Hl c' eq_refl). value_leaf.
  - value_leaf.
Qed.

Lemma cppGetc_loop_value (fuel : nat) :
  forall (dir ign : bool) (s : scanner) (c : Z) (s' : scanner),
    cppGetc_loop Option bf rr hasAt hasRaw fuel dir ign s = Some (c, s') ->
    no_quote c.
Proof.
  induction fuel as [| fuel IH]; intros dir ign s c s' Hrun; [discriminate |].
  cbn [cppGetc_loop] in Hrun.
  assert (Ht : no_quote
                 (fst (fst (fst (cppGetc_turn Option bf rr hasAt hasRaw
                                   dir ign s))))).
  { destruct s as [d f tags]. unfold cppGetc_turn. rewrite bind_onFile.
    apply cppGetc_process_value. }
  destruct (cppGetc_turn Option bf rr hasAt hasRaw dir ign s)
    as [[[c1 d1] i1] s1].
  cbn [fst] in Ht.
  destruct (d1 || i1).
  - exact (IH _ _ _ _ _ Hrun).
  - inversion Hrun; subst. exact Ht.
Qed.

End Values.

(** X16. [cppGetc] never hands a quote to its caller unless the caller
    pushed one back: with no character pushed back, the value a call
    returns is neither the double quote nor the single quote, whatever
    the input and the state (a literal is returned as its sentinel). *)
Theorem cppGetc_returns_no_quote (Option : options) (fuel : nat)
  (w w' : world) (c : Z) :
  ungetch (Cpp (w_globals w)) = 0 ->
  cppGetc Option fuel w = Some (c, w') ->
  no_quote c.
Proof.
  destruct w as [[b [u u2 rr hasAt hasRaw d]] f tags].
  unfold cppGetc.
  cbn [w_globals Cpp BraceFormat ungetch ungetch2 resolveRequired
       hasAtLiteralStrings hasCxxRawLiteralStrings directive w_file w_tags].
  intros ->. cbn [negb Z.eqb].
  destruct (cppGetc_loop Option b rr hasAt hasRaw fuel false false
              (mkScanner d f tags)) as [[c0 s0] |] eqn:E; [| discriminate].
  intros H. inversion H; subst.
  exact (cppGetc_loop_value Option b rr hasAt hasRaw fuel _ _ _ _ _ E).
Qed.

Lemma cppGetc_returns_no_quote_witness :
  no_quote STRING_SYMBOL.
Proof.
  apply (cppGetc_returns_no_quote plain_options 5
           (session false false false
              (DOUBLE_QUOTE :: str "a'b" ++ [DOUBLE_QUOTE]))
           (mkWorld
              (mkGlobals false
                 (set_directive
                    (set_accept false
                       (directive
                          (Cpp (cppInit false false false
                                  (mkGlobals false Cpp_static)))))
                    (Cpp (cppInit false false false
                            (mkGlobals false Cpp_static)))))
              (mkFile (rev (DOUBLE_QUOTE :: str "a'b" ++ [DOUBLE_QUOTE])) [])
              [])
           STRING_SYMBOL).
  - reflexivity.
  - vm_compute. reflexivity.
Defined.

(* ------------------------------------------------------------------ *)
(** ** A directive line yields its newline and nothing else *)

Section Directive.

Variable Option : options.
Variable bf rr hasAt hasRaw : bool.

Lemma cppGetc_enter_flags (c : Z) (dir ign : bool) (s : scanner) :
  dir || ign = true ->
  snd (fst (fst (cppGetc_enter Option bf rr c dir ign s)))
  || snd (fst (cppGetc_enter Option bf rr c dir ign s)) = true.
Proof.
  intros H. destruct s as [d f tags]. unfold cppGetc_enter.
  rewrite bind_setDirective. destruct dir.
  - rewrite bind_split. reflexivity.
  - exact H.
Qed.

Lemma cppGetc_hash_flags (c : Z) (dir ign : bool) (s : scanner) :
  dir || ign = true ->
  snd (fst (fst (cppGetc_hash c dir ign s)))
  || snd (fst (cppGetc_hash c dir ign s)) = true.
Proof.
  intros H. destruct s as [d f tags]. unfold cppGetc_hash.
  repeat scan_step; cbn [ret fst snd]; [reflexivity | exact H].
Qed.

Lemma cppGetc_backslash_flags (c : Z) (dir ign : bool) (s : scanner) :
  dir || ign = true ->
  snd (fst (fst (cppGetc_backslash c dir ign s)))
  || snd (fst (cppGetc_backslash c dir ign s)) = true.
Proof.
  intros H. destruct s as [d f tags]. unfold cppGetc_backslash.
  repeat scan_step; cbn [ret fst snd]; exact H.
Qed.

Ltac flags_leaf H :=
  cbv beta;
  first
    [ cbn [ret fst snd]; exact H
    | apply cppGetc_enter_flags; exact H
    | apply cppGetc_hash_flags; exact H
    | apply cppGetc_backslash_flags; exact H ].

Lemma cppGetc_trigraph_flags (c : Z) (dir ign : bool) (s : scanner) :
  dir || ign = true ->
  snd (fst (fst (cppGetc_trigraph c dir ign s)))
  || snd (fst (cppGetc_trigraph c dir ign s)) = true.
Proof.
  intros H. destruct s as [d f tags]. unfold cppGetc_trigraph.
  repeat scan_step; flags_leaf H.
Qed.

Lemma cppGetc_process_flags (c : Z) (dir ign : bool) (s : scanner) :
  dir || ign = true ->
  let r := cppGetc_process Option bf rr hasAt hasRaw c dir ign s in
  snd (fst (fst r)) || snd (fst r) = true \/ line_end (fst (fst (fst r))).
Proof.
  intros H r. subst r. destruct s as [d f tags]. unfold cppGetc_process.
  destruct (c =? EOF) eqn:E0.
  { right. right. apply Z.eqb_eq in E0. subst c. reflexivity. }
  destruct ((c =? TAB) || (c =? SPACE)); [left; flags_leaf H |].
  destruct (c =? NEWLINE) eqn:E2.
  { right. left. apply Z.eqb_eq in E2. subst c. reflexivity. }
  left.
  destruct (c =? DOUBLE_QUOTE); [repeat scan_step; flags_leaf H |].
  destruct (c =? chr "#"); [flags_leaf H |].
  destruct (c =? SINGLE_QUOTE); [repeat scan_step; flags_leaf H |].
  destruct (c =? chr "/").
  { rewrite bind_onFile.
    destruct (isComment f) as [[] f1]; cbn [fst snd] in *;
      repeat scan_step; flags_leaf H. }
  destruct (c =? BACKSLASH); [flags_leaf H |].
  destruct (c =? chr "?"); [apply cppGetc_trigraph_flags; exact H |].
  destruct (c =? chr "<"); [repeat scan_step; flags_leaf H |].
  destruct (c =? chr ":"); [repeat scan_step; flags_leaf H |].
  destruct (c =? chr "%"); [repeat scan_step; flags_leaf H |].
  rewrite bind_split.
  destruct (cppGetc_literal hasAt hasRaw c (mkScanner d f tags))
    as [[c' |] s1]; cbn [fst snd] in *; flags_leaf H.
Qed.

Lemma cppGetc_loop_line_end (fuel : nat) :
  forall (dir ign : bool) (s : scanner) (c : Z) (s' : scanner),
    dir || ign = true ->
    cppGetc_loop Option bf rr hasAt hasRaw fuel dir ign s = Some (c, s') ->
    line_end c.
Proof.
  induction fuel as [| fuel IH]; intros dir ign s c s' H Hrun;
    [discriminate |].
  cbn [cppGetc_loop] in Hrun.
  assert (Ht : let r := cppGetc_turn Option bf rr hasAt hasRaw dir ign s in
               snd (fst (fst r)) || snd (fst r) = true
               \/ line_end (fst (fst (fst r)))).
  { destruct s as [d f tags]. unfold cppGetc_turn. rewrite bind_onFile.
    apply cppGetc_process_flags. exact H. }
  cbv zeta in Ht.
  destruct (cppGetc_turn Option bf rr hasAt hasRaw dir ign s)
    as [[[c1 d1] i1] s1].
  cbn [fst snd] in Ht.
  destruct (d1 || i1) eqn:E.
  - exact (IH _ _ _ _ _ E Hrun).
  - inversion Hrun; subst. destruct Ht as [Ht | Ht]; [discriminate | exact Ht].
Qed.

End Directive.

(** X17. A directive line yields its newline and nothing else. Once the
    loop of [cppGetc] is inside a directive or a suppressed branch it
    leaves only on a newline or on [EOF]; so the call that reads a ["#"]
    where a directive may start returns the newline that ends the
    directive (or [EOF]) and never a character of the directive. *)
Theorem directive_yields_newline (Option : options) (fuel : nat)
  (w w' : world) (c : Z) (p rest : list Z) :
  ungetch (Cpp (w_globals w)) = 0 ->
  accept (directive (Cpp (w_globals w))) = true ->
  w_file w = mkFile p (chr "#" :: rest) ->
  cppGetc Option fuel w = Some (c, w') ->
  c = NEWLINE \/ c = EOF.
Proof.
  destruct w as [[b [u u2 rr hasAt hasRaw d]] f tags].
  unfold cppGetc.
  cbn [w_globals Cpp BraceFormat ungetch ungetch2 resolveRequired
       hasAtLiteralStrings hasCxxRawLiteralStrings directive w_file w_tags].
  intros -> Hacc ->. cbn [negb Z.eqb].
  destruct fuel as [| fuel]; [discriminate |].
  rewrite cppGetc_loop_S.
  change (cppGetc_process Option b rr hasAt hasRaw (chr "#") false false)
    with (cppGetc_hash (chr "#") false false).
  unfold cppGetc_hash. rewrite bind_getDirective, Hacc.
  rewrite !bind_setDirective. cbn [ret orb].
  destruct (cppGetc_loop Option b rr hasAt hasRaw fuel true false _)
    as [[c0 s0] |] eqn:E; [| discriminate].
  intros H. inversion H; subst.
  exact (cppGetc_loop_line_end Option b rr hasAt hasRaw fuel true false
           _ _ _ eq_refl E).
Qed.

Lemma directive_yields_newline_witness :
  exists c w',
    cppGetc plain_options 20
      (session false false false (str "#define X 1" ++ NEWLINE :: str "y"))
    = Some (c, w') /\
    (c = NEWLINE \/ c = EOF).
Proof.
  eexists _, _. split; [vm_compute; reflexivity |].
  eapply (directive_yields_newline plain_options 20
            (session false false false
               (str "#define X 1" ++ NEWLINE :: str "y"))
            _ _ [] (str "define X 1" ++ NEWLINE :: str "y")
            eq_refl eq_refl eq_refl).
  vm_compute. reflexivity.
Defined.

(* ------------------------------------------------------------------ *)
(** ** What stripCodeBuffer makes of comments, literals and blanks *)

Close Scope Z_scope.
Open Scope char_scope.

Lemma tidy_bytes (y : list ascii) :
  forall lastw,
    tidy lastw y = true ->
    Forall (fun c => c <> "034" /\ c <> "'" /\ c <> "\"
                     /\ (isspace c = true -> c = " ")) y.
Proof.
  induction y as [| c rest IH]; intros lastw Ht; [constructor |].
  cbn [tidy] in Ht. repeat (apply andb_true_iff in Ht as [Ht ?]).
  constructor; [| eapply IH; eassumption].
  repeat split.
  - intros ->. discriminate.
  - intros ->. discriminate.
  - intros ->. discriminate.
  - intros Hsp.
    match goal with
    | H : (if isspace c then _ else _) = true |- _ =>
        rewrite Hsp in H; apply andb_true_iff in H as [H _];
        apply Ascii.eqb_eq in H; exact H
    end.
Qed.

Lemma tidy_no_pair (y : list ascii) :
  forall lastw pre post,
    tidy lastw y = true -> y <> pre ++ " " :: " " :: post.
Proof.
  induction y as [| c rest IH]; intros lastw pre post Ht Hy.
  - destruct pre; discriminate.
  - cbn [tidy] in Ht. repeat (apply andb_true_iff in Ht as [Ht ?]).
    destruct pre as [| x pre].
    + cbn [app] in Hy. inversion Hy; subst.
      match goal with
      | H : tidy " " (" " :: post) = true |- _ => cbn in H; discriminate
      end.
    + cbn [app] in Hy. inversion Hy; subst.
      match goal with
      | H : tidy _ (pre ++ _) = true |- _ =>
          exact (IH _ pre post H eq_refl)
      end.
Qed.

(** X18. The string [stripCodeBuffer] leaves is in a normal form: it
    holds no quote and no backslash, its only white space is the single
    space (no tab, newline or other blank), it does not start with a
    space and it never holds two spaces in a row. *)
Theorem stripCodeBuffer_normal_form (s t : list ascii) :
  Forall (fun c => c <> NUL) s ->
  let y := c_str (stripCodeBuffer (s ++ NUL :: t)) in
  Forall (fun c => c <> "034" /\ c <> "'" /\ c <> "\"
                   /\ (isspace c = true -> c = " ")) y /\
  hd "x" y <> " " /\
  (forall pre post, y <> pre ++ " " :: " " :: post).
Proof.
  intros Hnul y. subst y. rewrite (stripCodeBuffer_c_str s t Hnul).
  pose proof (strip_text_tidy s st_none_t st_none_t NUL " ") as Ht.
  fold (stripped s) in Ht.
  split; [exact (tidy_bytes _ _ Ht) | split].
  - destruct (stripped s) as [| c rest]; [discriminate |].
    cbn [hd]. intros ->. cbn in Ht. discriminate.
  - intros pre post. exact (tidy_no_pair _ _ pre post Ht).
Qed.

Lemma stripCodeBuffer_normal_form_witness :
  hd "x" (c_str (stripCodeBuffer (buffer_of "  f ( 'a' ,	 b )"))) <> " ".
Proof.
  assert (Hs : Forall (fun c => c <> NUL)
                 (list_ascii_of_string "  f ( 'a' ,	 b )"))
    by (repeat constructor; discriminate).
  exact (proj1 (proj2 (stripCodeBuffer_normal_form _ [] Hs))).
Defined.

(** X19. The buffers [stripCodeBuffer] leaves exactly as they are. A
    buffer holding the string [s] comes back unchanged if and only if
    [s] is tidy (no quote, no backslash, no white space but single
    spaces between other bytes, none in front) and holds no comment
    opener. *)
Theorem stripCodeBuffer_unchanged (s t : list ascii) :
  Forall (fun c => c <> NUL) s ->
  stripCodeBuffer (s ++ NUL :: t) = s ++ NUL :: t
  <->
  tidy " " s = true /\ has_comment_opener s = false.
Proof.
  intros Hnul. split.
  - intros Heq.
    assert (Hst : stripped s = s).
    { rewrite <- (stripCodeBuffer_c_str s t Hnul), Heq.
      apply c_str_app, Hnul. }
    split.
    + rewrite <- Hst. apply strip_text_tidy.
    + destruct (has_comment_opener s) eqn:E; [| reflexivity].
      pose proof (opener_shrinks s st_none_t NUL " " E) as Hlt.
      fold (stripped s) in Hlt. rewrite Hst in Hlt. lia.
  - intros [Ht Hc].
    assert (Hst : stripped s = s) by (apply tidy_fixed; assumption).
    rewrite (stripCodeBuffer_spec s t Hnul), Hst.
    f_equal. f_equal.
    rewrite drop_app_ge by lia.
    replace (S (length s) - length s) with 1 by lia. reflexivity.
Qed.

Lemma stripCodeBuffer_unchanged_witness :
  stripCodeBuffer (buffer_of "f(a, b)") = buffer_of "f(a, b)".
Proof.
  assert (Hs : Forall (fun c => c <> NUL) (list_ascii_of_string "f(a, b)"))
    by (repeat constructor; discriminate).
  apply (proj2 (stripCodeBuffer_unchanged _ [] Hs)).
  split; reflexivity.
Defined.

Lemma strip_decide_prevc (state prev : ParseState) (p1 p2 c n : ascii) :
  state <> st_c_comment_t ->
  strip_decide state prev p1 c n = strip_decide state prev p2 c n.
Proof.
  intros Hs. unfold strip_decide.
  destruct state; try reflexivity. contradiction.
Qed.

Lemma strip_text_prevc (state prev : ParseState) (p1 p2 lastw : ascii)
  (s : list ascii) :
  state <> st_c_comment_t ->
  strip_text state prev p1 lastw s = strip_text state prev p2 lastw s.
Proof.
  intros Hs. destruct s as [| c rest]; [reflexivity |].
  cbn [strip_text].
  rewrite (strip_decide_prevc state prev p1 p2 c (hd NUL rest) Hs).
  reflexivity.
Qed.

Lemma code_byte_tests (c : ascii) :
  code_byte c = true ->
  (c =? "/") = false /\ (c =? "034") = false /\ (c =? "'") = false
  /\ (c =? "\") = false.
Proof.
  unfold code_byte. intros H.
  repeat (apply andb_true_iff in H as [H ?]).
  repeat split; apply negb_true_iff; assumption.
Qed.

(** Code in front of a comment or literal is treated the same way
    whatever follows it. *)
Lemma strip_text_code_prefix (prev : ParseState) (a X Y : list ascii) :
  forallb code_byte a = true ->
  (forall pc lw,
     strip_text st_none_t prev pc lw X = strip_text st_none_t prev pc lw Y) ->
  forall pc lw,
    strip_text st_none_t prev pc lw (a ++ X) =
    strip_text st_none_t prev pc lw (a ++ Y).
Proof.
  intros Ha HXY. induction a as [| c a IH]; intros pc lw.
  - apply HXY.
  - cbn [forallb] in Ha. apply andb_true_iff in Ha as [Hc Ha].
    specialize (IH Ha).
    destruct (code_byte_tests c Hc) as (E1 & E2 & E3 & E4).
    cbn [app strip_text]. unfold strip_decide.
    rewrite E1, E2, E3, E4.
    destruct (isspace c).
    + destruct (lw =? " "); rewrite IH; reflexivity.
    + rewrite IH. reflexivity.
Qed.

Lemma last_cons_default (l : list ascii) :
  forall c d, List.last (c :: l) d = List.last l c.
Proof.
  induction l as [| x l IH]; intros c d; [reflexivity |].
  change (List.last (c :: x :: l) d) with (List.last (x :: l) d).
  rewrite (IH x d), (IH x c). reflexivity.
Qed.

Lemma strip_text_comment_body (prev : ParseState) (body : list ascii) :
  forall (pc lw : ascii) (rest : list ascii),
    comment_body pc body = true ->
    strip_text st_c_comment_t prev pc lw (body ++ rest) =
    strip_text st_c_comment_t prev (List.last body pc) lw rest.
Proof.
  induction body as [| c body IH]; intros pc lw rest Hb.
  - reflexivity.
  - cbn [comment_body] in Hb.
    apply andb_true_iff in Hb as [Hb Hrest].
    apply andb_true_iff in Hb as [Hbs Hcl].
    apply negb_true_iff in Hbs, Hcl.
    cbn [app strip_text]. unfold strip_decide.
    rewrite (last_cons_default body c pc).
    destruct (c =? "/") eqn:E1.
    + cbn [andb] in Hcl. rewrite Hcl. apply IH, Hrest.
    + destruct (c =? "034"); [apply IH, Hrest |].
      destruct (c =? "'"); [apply IH, Hrest |].
      rewrite Hbs. apply IH, Hrest.
Qed.

Lemma strip_text_line_body (prev : ParseState) (body : list ascii) :
  forall (pc lw : ascii) (rest : list ascii),
    forallb line_byte body = true ->
    exists pc',
      strip_text st_cpp_comment_t prev pc lw (body ++ rest) =
      strip_text st_cpp_comment_t prev pc' lw rest.
Proof.
  induction body as [| c body IH]; intros pc lw rest Hb.
  - exists pc. reflexivity.
  - cbn [forallb] in Hb. apply andb_true_iff in Hb as [Hc Hb].
    unfold line_byte in Hc. apply andb_true_iff in Hc as [Hn Hs].
    apply negb_true_iff in Hn, Hs.
    destruct (IH c lw rest Hb) as [pc' Hpc'].
    exists pc'. cbn [app strip_text]. unfold strip_decide.
    destruct (c =? "/"); [exact Hpc' |].
    destruct (c =? "034"); [exact Hpc' |].
    destruct (c =? "'"); [exact Hpc' |].
    rewrite Hs, Hn. exact Hpc'.
Qed.

Lemma strip_text_literal_body (q : ascii) (st prev : ParseState)
  (body : list ascii) :
  (q = "034" /\ st = st_double_quote_t) \/
  (q = "'" /\ st = st_single_quote_t) ->
  forall (pc lw : ascii) (rest : list ascii),
    forallb (literal_byte q) body = true ->
    exists pc',
      strip_text st prev pc lw (body ++ rest) =
      strip_text st prev pc' lw rest.
Proof.
  intros Hq. induction body as [| c body IH]; intros pc lw rest Hb.
  - exists pc. reflexivity.
  - cbn [forallb] in Hb. apply andb_true_iff in Hb as [Hc Hb].
    unfold literal_byte in Hc. apply andb_true_iff in Hc as [Hn Hs].
    apply negb_true_iff in Hn, Hs.
    destruct (IH c lw rest Hb) as [pc' Hpc'].
    exists pc'. cbn [app strip_text]. unfold strip_decide.
    destruct Hq as [[-> ->] | [-> ->]].
    + destruct (c =? "/"); [exact Hpc' |].
      rewrite Hn.
      destruct (c =? "'"); [exact Hpc' |].
      rewrite Hs. exact Hpc'.
    + destruct (c =? "/"); [exact Hpc' |].
      destruct (c =? "034"); [exact Hpc' |].
      rewrite Hn, Hs. exact Hpc'.
Qed.

Lemma NUL_free_app (l1 l2 : list ascii) :
  Forall (fun c => c <> NUL) l1 -> Forall (fun c => c <> NUL) l2 ->
  Forall (fun c => c <> NUL) (l1 ++ l2).
Proof. intros H1 H2. apply Forall_app. split; assumption. Qed.

Lemma strip_text_open_c (prev : ParseState) (pc lw : ascii)
  (X : list ascii) :
  strip_text st_none_t prev pc lw ("/" :: "*" :: X) =
  strip_text st_c_comment_t prev "*" lw X.
Proof. reflexivity. Qed.

Lemma strip_text_close_c (prev : ParseState) (pc lw : ascii)
  (b : list ascii) :
  strip_text st_c_comment_t prev pc lw ("*" :: "/" :: b) =
  if lw =? " " then strip_text st_none_t prev "/" lw b
  else " " :: strip_text st_none_t prev "/" " " b.
Proof. reflexivity. Qed.

Lemma strip_text_blank (prev : ParseState) (pc lw : ascii)
  (b : list ascii) :
  strip_text st_none_t prev pc lw (" " :: b) =
  if lw =? " " then strip_text st_none_t prev " " lw b
  else " " :: strip_text st_none_t prev " " " " b.
Proof. reflexivity. Qed.

(** X20. A C comment counts as one space. After code with no slash,
    quote or backslash, a comment whose body holds no backslash and no
    ["/"] directly after a ["*"] is treated exactly as a single space
    would be: the string left for [a /* body */ b] is the string left
    for [a b], whatever [b] is. *)
Theorem c_comment_is_one_space (a body b t : list ascii) :
  Forall (fun c => c <> NUL) (a ++ body ++ b) ->
  forallb code_byte a = true ->
  comment_body "*" body = true ->
  c_str (stripCodeBuffer
           ((a ++ "/" :: "*" :: body ++ "*" :: "/" :: b) ++ NUL :: t)) =
  c_str (stripCodeBuffer ((a ++ " " :: b) ++ NUL :: t)).
Proof.
  intros Hnul Ha Hbody.
  apply Forall_app in Hnul as [Hna Hnul].
  apply Forall_app in Hnul as [Hnb Hnr].
  rewrite !stripCodeBuffer_c_str.
  2:{ apply NUL_free_app; [exact Hna |].
      constructor; [discriminate | exact Hnr]. }
  2:{ apply NUL_free_app; [exact Hna |].
      constructor; [discriminate |]. constructor; [discriminate |].
      apply NUL_free_app; [exact Hnb |].
      constructor; [discriminate |]. constructor; [discriminate |].
      exact Hnr. }
  unfold stripped. apply strip_text_code_prefix; [exact Ha |].
  intros pc lw.
  rewrite strip_text_open_c.
  rewrite (strip_text_comment_body st_none_t body "*" lw
             ("*" :: "/" :: b) Hbody).
  rewrite strip_text_close_c, strip_text_blank.
  destruct (lw =? " ");
    rewrite (strip_text_prevc st_none_t st_none_t "/" " ") by discriminate;
    reflexivity.
Qed.

Lemma c_comment_is_one_space_witness :
  c_str (stripCodeBuffer (buffer_of "f(a /* x*y ' */ , b)")) =
  c_str (stripCodeBuffer (buffer_of "f(a  , b)")).
Proof.
  apply (c_comment_is_one_space
           (list_ascii_of_string "f(a ")
           (list_ascii_of_string " x*y ' ")
           (list_ascii_of_string " , b)") []).
  - repeat constructor; discriminate.
  - reflexivity.
  - reflexivity.
Defined.

Lemma strip_text_open_cpp (prev : ParseState) (pc lw : ascii)
  (X : list ascii) :
  strip_text st_none_t prev pc lw ("/" :: "/" :: X) =
  strip_text st_cpp_comment_t prev "/" lw X.
Proof. reflexivity. Qed.

Lemma strip_text_close_cpp (prev : ParseState) (pc lw : ascii)
  (b : list ascii) :
  strip_text st_cpp_comment_t prev pc lw ("010" :: b) =
  if lw =? " " then strip_text st_none_t prev "010" lw b
  else " " :: strip_text st_none_t prev "010" " " b.
Proof. reflexivity. Qed.

(** X21. A C++ comment counts as one space, or as nothing at the end.
    After code with no slash, quote or backslash, a [//] comment whose
    text holds no backslash is treated, together with the newline that
    ends it, exactly as a single space would be; and a [//] comment that
    runs to the end of the string leaves what the code before it
    leaves. *)
Theorem cplus_comment_is_one_space (a body b t : list ascii) :
  Forall (fun c => c <> NUL) (a ++ body ++ b) ->
  forallb code_byte a = true ->
  forallb line_byte body = true ->
  c_str (stripCodeBuffer
           ((a ++ "/" :: "/" :: body ++ "010" :: b) ++ NUL :: t)) =
  c_str (stripCodeBuffer ((a ++ " " :: b) ++ NUL :: t)) /\
  c_str (stripCodeBuffer ((a ++ "/" :: "/" :: body) ++ NUL :: t)) =
  c_str (stripCodeBuffer (a ++ NUL :: t)).
Proof.
  intros Hnul Ha Hbody.
  apply Forall_app in Hnul as [Hna Hnul].
  apply Forall_app in Hnul as [Hnb Hnr].
  split.
  - rewrite !stripCodeBuffer_c_str.
    2:{ apply NUL_free_app; [exact Hna |].
        constructor; [discriminate | exact Hnr]. }
    2:{ apply NUL_free_app; [exact Hna |].
        constructor; [discriminate |]. constructor; [discriminate |].
        apply NUL_free_app; [exact Hnb |].
        constructor; [discriminate | exact Hnr]. }
    unfold stripped. apply strip_text_code_prefix; [exact Ha |].
    intros pc lw.
    rewrite strip_text_open_cpp.
    destruct (strip_text_line_body st_none_t body "/" lw ("010" :: b) Hbody)
      as [pc' ->].
    rewrite strip_text_close_cpp, strip_text_blank.
    destruct (lw =? " ");
      rewrite (strip_text_prevc st_none_t st_none_t "010" " ")
        by discriminate;
      reflexivity.
  - rewrite !stripCodeBuffer_c_str.
    2:{ exact Hna. }
    2:{ apply NUL_free_app; [exact Hna |].
        constructor; [discriminate |]. constructor; [discriminate |].
        exact Hnb. }
    unfold stripped.
    rewrite <- (app_nil_r a) at 2.
    apply strip_text_code_prefix; [exact Ha |].
    intros pc lw.
    rewrite strip_text_open_cpp.
    rewrite <- (app_nil_r body).
    destruct (strip_text_line_body st_none_t body "/" lw [] Hbody)
      as [pc' ->].
    reflexivity.
Qed.

Lemma cplus_comment_is_one_space_witness :
  c_str (stripCodeBuffer (buffer_of "(a, // first
 b) // rest")) =
  c_str (stripCodeBuffer (buffer_of "(a,   b) // rest")).
Proof.
  destruct (cplus_comment_is_one_space
              (list_ascii_of_string "(a, ")
              (list_ascii_of_string " first")
              (list_ascii_of_string " b) // rest") [])
    as [H _]; [repeat constructor; discriminate | reflexivity
              | reflexivity |].
  exact H.
Defined.

Lemma strip_text_open_quote (prev : ParseState) (pc lw : ascii)
  (X : list ascii) :
  strip_text st_none_t prev pc lw ("034" :: X) =
  strip_text st_double_quote_t prev "034" lw X /\
  strip_text st_none_t prev pc lw ("'" :: X) =
  strip_text st_single_quote_t prev "'" lw X.
Proof. split; reflexivity. Qed.

Lemma strip_text_close_quote (prev : ParseState) (pc lw : ascii)
  (b : list ascii) :
  strip_text st_double_quote_t prev pc lw ("034" :: b) =
  strip_text st_none_t prev "034" lw b /\
  strip_text st_single_quote_t prev pc lw ("'" :: b) =
  strip_text st_none_t prev "'" lw b.
Proof. split; reflexivity. Qed.

(** X22. Literals vanish. After code with no slash, quote or backslash,
    a string literal whose text holds no double quote and no backslash,
    and a character literal whose text holds no single quote and no
    backslash, are dropped with their quotes and leave nothing, not even
    a space: the string left for [a "body" b] is the string left for
    [a b]. *)
Theorem literals_vanish (a body b t : list ascii) :
  Forall (fun c => c <> NUL) (a ++ body ++ b) ->
  forallb code_byte a = true ->
  (forallb (literal_byte "034") body = true ->
   c_str (stripCodeBuffer ((a ++ "034" :: body ++ "034" :: b) ++ NUL :: t)) =
   c_str (stripCodeBuffer ((a ++ b) ++ NUL :: t))) /\
  (forallb (literal_byte "'") body = true ->
   c_str (stripCodeBuffer ((a ++ "'" :: body ++ "'" :: b) ++ NUL :: t)) =
   c_str (stripCodeBuffer ((a ++ b) ++ NUL :: t))).
Proof.
  intros Hnul Ha.
  apply Forall_app in Hnul as [Hna Hnul].
  apply Forall_app in Hnul as [Hnb Hnr].
  split; intros Hbody.
  - rewrite !stripCodeBuffer_c_str.
    2:{ apply NUL_free_app; assumption. }
    2:{ apply NUL_free_app; [exact Hna |].
        constructor; [discriminate |].
        apply NUL_free_app; [exact Hnb |].
        constructor; [discriminate | exact Hnr]. }
    unfold stripped. apply strip_text_code_prefix; [exact Ha |].
    intros pc lw.
    rewrite (proj1 (strip_text_open_quote _ _ _ _)).
    destruct (strip_text_literal_body "034" st_double_quote_t st_none_t body
                (or_introl (conj eq_refl eq_refl)) "034" lw ("034" :: b)
                Hbody) as [pc' ->].
    rewrite (proj1 (strip_text_close_quote _ _ _ _)).
    apply strip_text_prevc. discriminate.
  - rewrite !stripCodeBuffer_c_str.
    2:{ apply NUL_free_app; assumption. }
    2:{ apply NUL_free_app; [exact Hna |].
        constructor; [discriminate |].
        apply NUL_free_app; [exact Hnb |].
        constructor; [discriminate | exact Hnr]. }
    unfold stripped. apply strip_text_code_prefix; [exact Ha |].
    intros pc lw.
    rewrite (proj2 (strip_text_open_quote _ _ _ _)).
    destruct (strip_text_literal_body "'" st_single_quote_t st_none_t body
                (or_intror (conj eq_refl eq_refl)) "'" lw ("'" :: b)
                Hbody) as [pc' ->].
    rewrite (proj2 (strip_text_close_quote _ _ _ _)).
    apply strip_text_prevc. discriminate.
Qed.

Lemma literals_vanish_witness :
  c_str (stripCodeBuffer (buffer_of "f('a // b', c)")) =
  c_str (stripCodeBuffer (buffer_of "f(, c)")).
Proof.
  destruct (literals_vanish
              (list_ascii_of_string "f(")
              (list_ascii_of_string "a // b")
              (list_ascii_of_string ", c)") [])
    as [_ H]; [repeat constructor; discriminate | reflexivity |].
  exact (H eq_refl).
Defined.

(* ------------------------------------------------------------------ *)
(** ** Which argument list getArglistFromStr returns *)

Lemma starts_with_app (n post : list ascii) :
  starts_with n (n ++ post) = true.
Proof.
  induction n as [| c n IH]; [destruct post; reflexivity |].
  cbn [app starts_with]. rewrite Ascii.eqb_refl. exact IH.
Qed.

Lemma starts_with_prefix (n : list ascii) :
  forall buf, starts_with n buf = true -> exists post, buf = n ++ post.
Proof.
  induction n as [| c n IH]; intros buf H.
  - exists buf. reflexivity.
  - destruct buf as [| b buf]; [discriminate |].
    cbn [starts_with] in H. apply andb_true_iff in H as [Hc H].
    apply Ascii.eqb_eq in Hc. subst b.
    destruct (IH buf H) as [post ->]. exists post. reflexivity.
Qed.

Lemma prefix_before_NUL (n : list ascii) :
  forall l r post,
    Forall (fun c => c <> NUL) n ->
    n ++ post = l ++ NUL :: r ->
    exists post', l = n ++ post'.
Proof.
  induction n as [| c n IH]; intros l r post Hn Heq.
  - exists l. reflexivity.
  - destruct l as [| x l].
    + cbn [app] in Heq. inversion Heq; subst.
      exfalso. exact (Forall_inv Hn eq_refl).
    + cbn [app] in Heq. inversion Heq; subst.
      destruct (IH l r post (Forall_inv_tail Hn) H1) as [post' ->].
      exists post'. reflexivity.
Qed.

Lemma strstr_found (n l r : list ascii) :
  Forall (fun c => c <> NUL) n ->
  Forall (fun c => c <> NUL) l ->
  forall k,
    strstr (l ++ NUL :: r) n = Some k ->
    exists pre post,
      l = pre ++ n ++ post /\ length pre = k /\
      (forall pre' post', l = pre' ++ n ++ post' -> k <= length pre').
Proof.
  intros Hn. induction 1 as [| c l Hc Hl IH]; intros k Hk.
  - cbn [app strstr] in Hk.
    destruct (starts_with n (NUL :: r)) eqn:E.
    + inversion Hk; subst k.
      destruct (starts_with_prefix _ _ E) as [post Hpost].
      destruct (prefix_before_NUL n [] r post Hn (eq_sym Hpost))
        as [post' Hp].
      exists [], post'. repeat split; [exact Hp | intros; lia].
    + rewrite Ascii.eqb_refl in Hk. discriminate.
  - cbn [app strstr] in Hk.
    destruct (starts_with n (c :: l ++ NUL :: r)) eqn:E.
    + inversion Hk; subst k.
      destruct (starts_with_prefix _ _ E) as [post Hpost].
      destruct (prefix_before_NUL n (c :: l) r post Hn (eq_sym Hpost))
        as [post' Hp].
      exists [], post'. repeat split; [exact Hp | intros; lia].
    + destruct (c =? NUL); [discriminate |].
      destruct (strstr (l ++ NUL :: r) n) as [k' |] eqn:Ek;
        [| discriminate].
      inversion Hk; subst k.
      destruct (IH k' eq_refl) as (pre & post & -> & Hlen & Hmin).
      exists (c :: pre), post. repeat split.
      * cbn [length]. lia.
      * intros pre' post' Heq. destruct pre' as [| x pre'].
        -- exfalso.
           assert (Hs : starts_with n ((c :: pre ++ n ++ post) ++ NUL :: r)
                        = true).
           { rewrite Heq. cbn [app]. rewrite <- app_assoc.
             apply starts_with_app. }
           cbn [app] in Hs. congruence.
        -- cbn [app] in Heq. inversion Heq; subst.
           specialize (Hmin pre' post' H1). cbn [length]. lia.
Qed.

Lemma strstr_missing (n l r : list ascii) :
  Forall (fun c => c <> NUL) l ->
  strstr (l ++ NUL :: r) n = None ->
  forall pre post, l <> pre ++ n ++ post.
Proof.
  induction 1 as [| c l Hc Hl IH]; intros Hk pre post Heq.
  - cbn [app strstr] in Hk.
    destruct pre; [| discriminate Heq]. destruct n; [| discriminate Heq].
    cbn in Hk. discriminate Hk.
  - cbn [app strstr] in Hk.
    destruct (starts_with n (c :: l ++ NUL :: r)) eqn:E; [discriminate |].
    destruct (c =? NUL) eqn:E2.
    { apply Ascii.eqb_eq in E2. contradiction. }
    destruct (strstr (l ++ NUL :: r) n) as [k' |] eqn:Ek;
      [discriminate Hk |].
    destruct pre as [| x pre].
    + cbn [app] in Heq.
      assert (Hs : starts_with n ((c :: l) ++ NUL :: r) = true).
      { rewrite Heq. rewrite <- app_assoc. apply starts_with_app. }
      cbn [app] in Hs. congruence.
    + cbn [app] in Heq. inversion Heq; subst.
      exact (IH eq_refl pre post eq_refl).
Qed.

Lemma strchr_first (ch : ascii) (mid rest : list ascii) :
  Forall (fun c => c <> NUL) mid ->
  ~ In ch mid ->
  strchr (mid ++ ch :: rest) ch = Some (length mid).
Proof.
  induction 1 as [| c mid Hc Hmid IH]; intros Hin.
  - cbn [app strchr]. rewrite Ascii.eqb_refl. reflexivity.
  - cbn [app strchr].
    destruct (c =? ch) eqn:E.
    + apply Ascii.eqb_eq in E. subst c. exfalso. apply Hin. left.
      reflexivity.
    + destruct (c =? NUL) eqn:E2.
      * apply Ascii.eqb_eq in E2. contradiction.
      * rewrite IH by (intros H; apply Hin; right; exact H).
        reflexivity.
Qed.

Lemma strchr_missing (ch : ascii) (l r : list ascii) :
  Forall (fun c => c <> NUL) l ->
  strchr (l ++ NUL :: r) ch = None -> ~ In ch l.
Proof.
  induction 1 as [| c l Hc Hl IH]; intros Hk Hin; [exact Hin |].
  cbn [app strchr] in Hk.
  destruct (c =? ch) eqn:E; [discriminate |].
  destruct (c =? NUL) eqn:E2.
  { apply Ascii.eqb_eq in E2. contradiction. }
  destruct (strchr (l ++ NUL :: r) ch) eqn:Ek; [discriminate |].
  destruct Hin as [-> | Hin]; [rewrite Ascii.eqb_refl in E; discriminate |].
  exact (IH eq_refl Hin).
Qed.

Lemma c_str_NUL_free (b : list ascii) : Forall (fun c => c <> NUL) (c_str b).
Proof.
  induction b as [| c b IH]; [constructor |].
  cbn [c_str]. destruct (c =? NUL) eqn:E; [constructor |].
  constructor; [| exact IH]. intros ->. discriminate.
Qed.

Lemma rd_first_NUL (name : list ascii) :
  (rd name 0 =? NUL) = true <-> c_str name = [].
Proof.
  destruct name as [| c name]; [split; reflexivity |].
  unfold rd. cbn [nth c_str].
  destruct (c =? NUL); split; intros H; try reflexivity; discriminate.
Qed.

Lemma app_eq_suffix (p1 p2 A B : list ascii) :
  p1 ++ A = p2 ++ B -> length p1 <= length p2 -> exists x, A = x ++ B.
Proof.
  revert p2. induction p1 as [| c p1 IH]; intros p2 Heq Hlen.
  - exists p2. exact Heq.
  - destruct p2 as [| d p2]; [cbn [length] in Hlen; lia |].
    cbn [app] in Heq. inversion Heq; subst.
    apply (IH p2 H1). cbn [length] in Hlen. lia.
Qed.

(** X23. When [getArglistFromStr] returns NULL. With a NULL buffer, a
    NULL name or an empty name it returns NULL and leaves the buffer
    untouched (not even stripped). Otherwise it returns NULL exactly
    when the stripped text holds no occurrence of the name that has a
    ["("] at or after it. *)
Theorem getArglistFromStr_null (s t name : list ascii) :
  Forall (fun c => c <> NUL) s ->
  let buf := Some (s ++ NUL :: t) in
  getArglistFromStr None (Some name) = (None, None) /\
  getArglistFromStr buf None = (None, buf) /\
  (c_str name = [] -> getArglistFromStr buf (Some name) = (None, buf)) /\
  (c_str name <> [] ->
   (fst (getArglistFromStr buf (Some name)) = None <->
    ~ exists pre post,
        stripped s = pre ++ c_str name ++ post /\
        In "(" (c_str name ++ post))).
Proof.
  intros Hnul buf. subst buf.
  split; [reflexivity | split; [reflexivity | split]].
  - intros Hn. unfold getArglistFromStr.
    rewrite (proj2 (rd_first_NUL name) Hn). reflexivity.
  - intros Hn. unfold getArglistFromStr.
    destruct (rd name 0 =? NUL) eqn:E.
    { apply rd_first_NUL in E. contradiction. }
    rewrite (stripCodeBuffer_spec s t Hnul).
    set (st := stripped s).
    set (r1 := drop (S (length st)) (s ++ NUL :: t)).
    assert (Hst : Forall (fun c => c <> NUL) st)
      by (apply stripped_no_NUL; exact Hnul).
    pose proof (c_str_NUL_free name) as Hnn.
    destruct (strstr (st ++ NUL :: r1) (c_str name)) as [k1 |] eqn:Hk1.
    + destruct (strstr_found _ _ _ Hnn Hst _ Hk1)
        as (pre0 & post0 & Hsplit & Hlen & Hmin).
      assert (Hdrop : drop k1 (st ++ NUL :: r1)
                      = (c_str name ++ post0) ++ NUL :: r1).
      { rewrite Hsplit, <- Hlen. rewrite <- app_assoc.
        rewrite drop_app_length. reflexivity. }
      rewrite Hdrop.
      assert (Hnp : Forall (fun c => c <> NUL) (c_str name ++ post0)).
      { rewrite Hsplit in Hst. apply Forall_app in Hst as [_ Hst].
        exact Hst. }
      destruct (strchr ((c_str name ++ post0) ++ NUL :: r1) "(")
        as [k2 |] eqn:Hk2; cbn [fst].
      * split; [discriminate |]. intros Hno. exfalso. apply Hno.
        destruct (strchr_split "(" _ _ ltac:(discriminate) _ Hk2)
          as (pre2 & post2 & Hs2 & _).
        exists pre0, post0. split; [exact Hsplit |].
        rewrite Hs2. apply in_or_app. right. left. reflexivity.
      * split; [| reflexivity]. intros _ (pre & post & Heq & Hin).
        pose proof (Hmin pre post Heq) as Hle.
        rewrite Hsplit in Heq.
        destruct (app_eq_suffix pre0 pre _ _ Heq ltac:(lia)) as [x Hx].
        apply (strchr_missing "(" _ r1 Hnp Hk2).
        rewrite Hx. apply in_or_app. right. exact Hin.
    + cbn [fst]. split; [| reflexivity].
      intros _ (pre & post & Heq & _).
      exact (strstr_missing _ _ _ Hst Hk1 pre post Heq).
Qed.

Lemma getArglistFromStr_null_witness :
  fst (getArglistFromStr (Some (buffer_of "int f /* (x) */ ;"))
         (Some (buffer_of "f"))) = None.
Proof.
  assert (Hs : Forall (fun c => c <> NUL)
                 (list_ascii_of_string "int f /* (x) */ ;"))
    by (repeat constructor; discriminate).
  destruct (getArglistFromStr_null
              (list_ascii_of_string "int f /* (x) */ ;") []
              (buffer_of "f") Hs) as (_ & _ & _ & H).
  apply (proj2 (H ltac:(discriminate))).
  intros (pre & post & Heq & Hin).
  assert (Hno : ~ In "(" (stripped (list_ascii_of_string "int f /* (x) */ ;"))).
  { intros Hin'. vm_compute in Hin'.
    repeat (destruct Hin' as [Hin' | Hin']; [discriminate Hin' |]).
    exact Hin'. }
  apply Hno. rewrite Heq. apply in_or_app. right. exact Hin.
Defined.

Lemma arg_take_inner (inner : list ascii) :
  forall (k d : nat) (X : list ascii),
    paren_ok k inner = true ->
    arg_take (inner ++ X) (S d + k) = inner ++ arg_take X (S d).
Proof.
  induction inner as [| c inner IH]; intros k d X Hp.
  - cbn [paren_ok] in Hp. apply Nat.eqb_eq in Hp. subst k.
    rewrite Nat.add_0_r. reflexivity.
  - cbn [paren_ok] in Hp. cbn [app Nat.add arg_take].
    destruct (c =? "(").
    + f_equal. rewrite <- (IH (S k) d X Hp). f_equal. lia.
    + destruct (c =? ")").
      * destruct k as [| k']; [discriminate |].
        f_equal. rewrite <- (IH k' d X Hp). f_equal. lia.
      * f_equal. rewrite <- (IH k d X Hp). reflexivity.
Qed.

(** X24. Which argument list [getArglistFromStr] returns, and what it
    leaves in the buffer. When the name occurs in the stripped text and
    the first ["("] at or after its first occurrence opens a balanced
    group [(inner)], the call returns that group, and the buffer is left
    holding the stripped text cut right after the group's closing
    parenthesis. *)
Theorem getArglistFromStr_found
  (s t name pre post mid inner rest : list ascii) :
  Forall (fun c => c <> NUL) s ->
  c_str name <> [] ->
  stripped s = pre ++ c_str name ++ post ->
  (forall pre' post',
     stripped s = pre' ++ c_str name ++ post' -> length pre <= length pre') ->
  c_str name ++ post = mid ++ "(" :: inner ++ ")" :: rest ->
  ~ In "(" mid ->
  balanced inner = true ->
  let r := getArglistFromStr (Some (s ++ NUL :: t)) (Some name) in
  fst r = Some ("(" :: inner ++ [")"]) /\
  option_map c_str (snd r) = Some (pre ++ mid ++ "(" :: inner ++ [")"]).
Proof.
  intros Hnul Hn Hsplit Hfirst Hargs Hmid Hbal r. subst r.
  unfold getArglistFromStr.
  destruct (rd name 0 =? NUL) eqn:E.
  { apply rd_first_NUL in E. contradiction. }
  rewrite (stripCodeBuffer_spec s t Hnul).
  set (st := stripped s) in *.
  set (r1 := drop (S (length st)) (s ++ NUL :: t)).
  assert (Hst : Forall (fun c => c <> NUL) st)
    by (apply stripped_no_NUL; exact Hnul).
  pose proof (c_str_NUL_free name) as Hnn.
  (* the first occurrence of the name *)
  assert (Hk1 : strstr (st ++ NUL :: r1) (c_str name) = Some (length pre)).
  { destruct (strstr (st ++ NUL :: r1) (c_str name)) as [k1 |] eqn:Hk1.
    - destruct (strstr_found _ _ _ Hnn Hst _ Hk1)
        as (pre0 & post0 & Hs0 & Hlen & Hmin).
      pose proof (Hmin pre post Hsplit).
      pose proof (Hfirst pre0 post0 Hs0).
      f_equal. lia.
    - exfalso. exact (strstr_missing _ _ _ Hst Hk1 pre post Hsplit). }
  rewrite Hk1.
  assert (Hall : st = (pre ++ mid) ++ "(" :: inner ++ ")" :: rest).
  { rewrite Hsplit, Hargs, <- app_assoc. reflexivity. }
  assert (Hnm : Forall (fun c => c <> NUL) mid /\
                Forall (fun c => c <> NUL) inner /\
                Forall (fun c => c <> NUL) rest).
  { rewrite Hall in Hst. apply Forall_app in Hst as [Hpm Hst].
    apply Forall_app in Hpm as [_ Hm].
    pose proof (Forall_inv_tail Hst) as Hst'.
    apply Forall_app in Hst' as [Hi Hst'].
    repeat split; [exact Hm | exact Hi | exact (Forall_inv_tail Hst')]. }
  destruct Hnm as (Hnmid & Hninner & Hnrest).
  assert (Hdrop : drop (length pre) (st ++ NUL :: r1)
                  = mid ++ "(" :: inner ++ ")" :: rest ++ NUL :: r1).
  { rewrite Hall. rewrite <- !app_assoc. rewrite drop_app_length.
    cbn [app]. rewrite <- app_assoc. reflexivity. }
  rewrite Hdrop.
  rewrite (strchr_first "(" mid _ Hnmid Hmid).
  set (P := pre ++ mid).
  assert (HP : length pre + length mid = length P)
    by (unfold P; rewrite length_app; reflexivity).
  rewrite HP.
  assert (Hb1 : st ++ NUL :: r1
                = P ++ "(" :: (inner ++ ")" :: rest) ++ NUL :: r1).
  { rewrite Hall. fold P. rewrite <- !app_assoc. cbn [app].
    rewrite <- app_assoc. reflexivity. }
  rewrite Hb1.
  replace (drop (S (length P))
             (P ++ "(" :: (inner ++ ")" :: rest) ++ NUL :: r1))
    with ((inner ++ ")" :: rest) ++ NUL :: r1).
  2:{ rewrite drop_app_ge by lia.
      replace (S (length P) - length P) with 1 by lia. reflexivity. }
  assert (Hir : Forall (fun c => c <> NUL) (inner ++ ")" :: rest)).
  { apply Forall_app. split; [exact Hninner |].
    constructor; [discriminate | exact Hnrest]. }
  pose proof (arglist_scan_take (inner ++ ")" :: rest) r1 Hir 1
                (S (length P))) as Hscan.
  change (Z.of_nat 1) with 1%Z in Hscan. rewrite Hscan. clear Hscan.
  pose proof (arg_take_inner inner 0 0 (")" :: rest) Hbal) as Htake.
  cbn [Nat.add] in Htake. rewrite Htake.
  change (arg_take (")" :: rest) 1) with (")" :: arg_take rest 0).
  assert (Hz : arg_take rest 0 = []) by (destruct rest; reflexivity).
  rewrite Hz.
  assert (Hfull : P ++ "(" :: (inner ++ ")" :: rest) ++ NUL :: r1
                  = (P ++ "(" :: inner ++ [")"]) ++ (rest ++ NUL :: r1)).
  { rewrite <- !app_assoc. cbn [app]. rewrite <- !app_assoc.
    reflexivity. }
  rewrite Hfull. unfold wr.
  replace (S (length P) + length (inner ++ [")"]))
    with (length (P ++ "(" :: inner ++ [")"]) + 0)
    by (rewrite !length_app; cbn [length]; rewrite length_app;
        cbn [length]; lia).
  rewrite insert_app_r.
  assert (Hins : exists l, <[0:=NUL]> (rest ++ NUL :: r1) = NUL :: l).
  { destruct rest as [| x rest']; eexists; reflexivity. }
  destruct Hins as [l ->].
  cbn [fst snd option_map]. split.
  - f_equal. rewrite <- app_assoc. rewrite drop_app_length.
    apply (c_str_app ("(" :: inner ++ [")"])).
    constructor; [discriminate |].
    apply Forall_app. split; [exact Hninner |].
    constructor; [discriminate | constructor].
  - f_equal. unfold P.
    replace ((pre ++ mid) ++ "(" :: inner ++ [")"])
      with (pre ++ mid ++ "(" :: inner ++ [")"])
      by (rewrite <- app_assoc; reflexivity).
    apply c_str_app.
    rewrite Hall in Hst. unfold P in Hst.
    rewrite <- app_assoc in Hst.
    apply Forall_app in Hst as [Hp Hst].
    apply Forall_app. split; [exact Hp |].
    apply Forall_app. split; [exact Hnmid |].
    constructor; [discriminate |].
    apply Forall_app. split; [exact Hninner |].
    constructor; [discriminate | constructor].
Qed.

Lemma getArglistFromStr_found_witness :
  fst (getArglistFromStr (Some (buffer_of "#define ADD(a, (b)) a+b // sum"))
         (Some (buffer_of "ADD"))) =
  Some (list_ascii_of_string "(a, (b))").
Proof.
  set (s := list_ascii_of_string "#define ADD(a, (b)) a+b // sum").
  assert (Hs : Forall (fun c => c <> NUL) s)
    by (repeat constructor; discriminate).
  assert (Hst : Forall (fun c => c <> NUL) (stripped s))
    by (apply stripped_no_NUL; exact Hs).
  destruct (strstr_found (list_ascii_of_string "ADD") (stripped s) []
              ltac:(repeat constructor; discriminate) Hst 8 eq_refl)
    as (_ & _ & _ & _ & Hmin).
  refine (proj1 (getArglistFromStr_found s [] (buffer_of "ADD")
                   (list_ascii_of_string "#define ")
                   (list_ascii_of_string "(a, (b)) a+b ")
                   (list_ascii_of_string "ADD")
                   (list_ascii_of_string "a, (b)")
                   (list_ascii_of_string " a+b ")
                   Hs _ eq_refl Hmin eq_refl _ eq_refl)).
  - discriminate.
  - cbn. intuition discriminate.
Defined.

(* ------------------------------------------------------------------ *)
(** ** The tag of a #define line *)

Close Scope char_scope.
Open Scope Z_scope.

Lemma isident1_range (c : Z) :
  isident1 c = true ->
  65 <= c <= 90 \/ 97 <= c <= 122 \/ c = 95 \/ c = 126 \/ c = 36.
Proof.
  unfold isident1, isalpha, isupper, islower.
  change (chr "A") with 65. change (chr "Z") with 90.
  change (chr "a") with 97. change (chr "z") with 122.
  change (chr "_") with 95. change (chr "~") with 126.
  change (chr "$") with 36.
  intros H.
  repeat (apply orb_true_iff in H as [H | H]).
  - apply andb_true_iff in H as [Ha Hb]. apply Z.leb_le in Ha, Hb. lia.
  - apply andb_true_iff in H as [Ha Hb]. apply Z.leb_le in Ha, Hb. lia.
  - apply Z.eqb_eq in H. lia.
  - apply Z.eqb_eq in H. lia.
  - apply Z.eqb_eq in H. lia.
Qed.

Lemma readIdentifier_value (c : Z) (p run : list Z) (x : Z)
  (rest : list Z) :
  Forall (fun y => isident y = true) run ->
  isident x = false ->
  readIdentifier c (mkFile p (run ++ x :: rest)) =
  (c :: run, mkFile (rev run ++ p) (x :: rest)).
Proof.
  intros Hrun Hx.
  unfold readIdentifier, bind, turns; cbv beta. cbn [f_ahead].
  rewrite (readIdentifier_loop_run run _ c [] p (x :: rest) Hrun Hx)
    by (rewrite length_app; lia).
  reflexivity.
Qed.

(** Steps through the state plumbing of a scanner computation. *)
Ltac run_m :=
  repeat (cbv beta; cbn [fst snd];
          first [ rewrite bind_assoc
                | rewrite bind_setDirective
                | rewrite bind_getDirective
                | rewrite bind_ret
                | rewrite bind_makeTagEntry ]);
  cbv beta; cbn [fst snd].

Section DefineTag.

Variable Option : options.
Variable bf rr hasAt hasRaw : bool.

Abbreviation loopG := (cppGetc_loop Option bf rr hasAt hasRaw).
Abbreviation processG := (cppGetc_process Option bf rr hasAt hasRaw).

Lemma loopG_S (fuel : nat) (dir ign : bool) (d : sDirective) (p : list Z)
  (c : Z) (l : list Z) (tags : list tagEntryInfo) :
  loopG (S fuel) dir ign (mkScanner d (mkFile p (c :: l)) tags) =
  let '((c', dir', ign'), s2) :=
    processG c dir ign (mkScanner d (mkFile (c :: p) l) tags) in
  if dir' || ign' then loopG fuel dir' ign' s2 else Some (c', s2).
Proof. reflexivity. Qed.

Lemma turn_hashG (fuel : nat) (dir ign : bool) (d : sDirective)
  (p rest : list Z) (tags : list tagEntryInfo) :
  accept d = true ->
  loopG (S fuel) dir ign (mkScanner d (mkFile p (chr "#" :: rest)) tags) =
  loopG fuel true ign
    (mkScanner (set_accept false (set_state DRCTV_HASH d))
       (mkFile (chr "#" :: p) rest) tags).
Proof.
  intros Hacc. rewrite loopG_S.
  change (processG (chr "#") dir ign)
    with (cppGetc_hash (chr "#") dir ign).
  unfold cppGetc_hash. rewrite bind_getDirective, Hacc.
  rewrite !bind_setDirective. reflexivity.
Qed.

Lemma handleDirective_hashG (c : Z) (d : sDirective) (f : inputFile)
  (tags : list tagEntryInfo) :
  state d = DRCTV_HASH ->
  handleDirective Option bf rr c (mkScanner d f tags) =
  directiveHash bf rr c (mkScanner d f tags).
Proof.
  intros Hst. unfold handleDirective.
  rewrite !bind_getDirective, Hst. reflexivity.
Qed.

(** The directive word [define] or [undef], ended by a blank. *)
Lemma turn_define_word (fuel : nat) (ign : bool) (d : sDirective)
  (p : list Z) (b : Z) (rest : list Z) (tags : list tagEntryInfo) :
  state d = DRCTV_HASH ->
  blank b = true ->
  loopG (S fuel) true ign
    (mkScanner d (mkFile p (str "define" ++ b :: rest)) tags) =
  loopG fuel true false
    (mkScanner (set_state DRCTV_DEFINE (set_accept false d))
       (mkFile (rev (str "define") ++ p) (b :: rest)) tags) /\
  loopG (S fuel) true ign
    (mkScanner d (mkFile p (str "undef" ++ b :: rest)) tags) =
  loopG fuel true false
    (mkScanner (set_state DRCTV_UNDEF (set_accept false d))
       (mkFile (rev (str "undef") ++ p) (b :: rest)) tags).
Proof.
  intros Hst Hb.
  assert (Hbb : b = SPACE \/ b = TAB).
  { unfold blank in Hb. apply orb_true_iff in Hb as [Hb | Hb];
      apply Z.eqb_eq in Hb; [left | right]; exact Hb. }
  split.
  - change (str "define" ++ b :: rest)
      with (chr "d" :: str "efine" ++ b :: rest).
    rewrite loopG_S.
    change (processG (chr "d") true ign)
      with (cppGetc_enter Option bf rr (chr "d") true ign).
    unfold cppGetc_enter. rewrite bind_setDirective.
    rewrite (bind_split (handleDirective _ _ _ _)).
    rewrite (handleDirective_hashG (chr "d") (set_accept false d) _ tags Hst).
    destruct Hbb as [-> | ->]; reflexivity.
  - change (str "undef" ++ b :: rest)
      with (chr "u" :: str "ndef" ++ b :: rest).
    rewrite loopG_S.
    change (processG (chr "u") true ign)
      with (cppGetc_enter Option bf rr (chr "u") true ign).
    unfold cppGetc_enter. rewrite bind_setDirective.
    rewrite (bind_split (handleDirective _ _ _ _)).
    rewrite (handleDirective_hashG (chr "u") (set_accept false d) _ tags Hst).
    destruct Hbb as [-> | ->]; reflexivity.
Qed.

Lemma turn_blanks (bl : list Z) :
  forall (fuel : nat) (ign : bool) (d : sDirective) (p rest : list Z)
         (tags : list tagEntryInfo),
    Forall (fun c => blank c = true) bl ->
    loopG (length bl + fuel) true ign
      (mkScanner d (mkFile p (bl ++ rest)) tags) =
    loopG fuel true ign (mkScanner d (mkFile (rev bl ++ p) rest) tags).
Proof.
  induction bl as [| b bl IH]; intros fuel ign d p rest tags Hbl.
  - reflexivity.
  - pose proof (Forall_inv Hbl) as Hb.
    cbn [length Nat.add app]. rewrite loopG_S.
    assert (Hp : processG b true ign = ret (b, true, ign)).
    { unfold cppGetc_process, blank in *.
      apply orb_true_iff in Hb as [Hb | Hb]; apply Z.eqb_eq in Hb; subst b;
        reflexivity. }
    rewrite Hp. cbn [ret orb].
    rewrite (IH fuel ign d (b :: p) rest tags (Forall_inv_tail Hbl)).
    cbn [rev]. rewrite <- app_assoc. reflexivity.
Qed.

Lemma process_ident1 (c : Z) (dir ign : bool) :
  isident1 c = true ->
  processG c dir ign =
  do r <- cppGetc_literal hasAt hasRaw c ;
  match r with
  | Some c' => ret (c', dir, ign)
  | None => cppGetc_enter Option bf rr c dir ign
  end.
Proof.
  intros H. apply isident1_range in H.
  unfold cppGetc_process.
  unfold EOF, TAB, SPACE, NEWLINE, DOUBLE_QUOTE, SINGLE_QUOTE, BACKSLASH.
  change (chr "009") with 9. change (chr " ") with 32.
  change (chr "010") with 10. change (chr "034") with 34.
  change (chr "#") with 35. change (chr "'") with 39.
  change (chr "/") with 47. change (chr "\") with 92.
  change (chr "?") with 63. change (chr "<") with 60.
  change (chr ":") with 58. change (chr "%") with 37.
  repeat match goal with
         | |- context [c =? ?k] =>
             replace (c =? k) with false
               by (symmetry; apply Z.eqb_neq; lia)
         end.
  reflexivity.
Qed.

Lemma isident_not_quote (c : Z) :
  isident c = true -> (c =? DOUBLE_QUOTE) = false.
Proof.
  intros H. destruct (c =? DOUBLE_QUOTE) eqn:E; [| reflexivity].
  apply Z.eqb_eq in E. subst c. discriminate H.
Qed.

(** The macro name: [directiveDefine] reads it, stores it, peeks at the
    next character and makes the tag unless the branch is suppressed. *)
Lemma turn_define_name (fuel : nat) (ign : bool) (d : sDirective)
  (p : list Z) (c0 : Z) (run : list Z) (x : Z) (rest : list Z)
  (tags : list tagEntryInfo) :
  state d = DRCTV_DEFINE \/ state d = DRCTV_UNDEF ->
  isident1 c0 = true ->
  Forall (fun y => isident y = true) run ->
  isident x = false ->
  (x =? DOUBLE_QUOTE) = false ->
  loopG (S fuel) true ign
    (mkScanner d (mkFile p (c0 :: run ++ x :: rest)) tags) =
  loopG fuel true (isIgnore d)
    (mkScanner
       (set_state DRCTV_NONE (set_name (c0 :: run) (set_accept false d)))
       (mkFile (rev run ++ c0 :: p) (x :: rest))
       (tags ++ (if isIgnore d then []
                 else define_tag Option (c0 :: run) (x =? chr "(")))).
Proof.
  intros Hst Hc0 Hrun Hx Hq.
  rewrite loopG_S, (process_ident1 c0 true ign Hc0).
  assert (Hlit : cppGetc_literal hasAt hasRaw c0
                   (mkScanner d (mkFile (c0 :: p) (run ++ x :: rest)) tags) =
                 (None,
                  mkScanner d (mkFile (c0 :: p) (run ++ x :: rest)) tags)).
  { destruct run as [| r run'].
    - exact (cppGetc_literal_none hasAt hasRaw c0 d p x rest tags Hq).
    - exact (cppGetc_literal_none hasAt hasRaw c0 d p r (run' ++ x :: rest)
               tags (isident_not_quote r (Forall_inv Hrun))). }
  rewrite (bind_split (cppGetc_literal hasAt hasRaw c0)), Hlit.
  cbn [fst snd].
  unfold cppGetc_enter. rewrite bind_setDirective.
  rewrite (bind_split (handleDirective _ _ _ _)).
  assert (Hh : handleDirective Option bf rr c0
                 (mkScanner (set_accept false d)
                    (mkFile (c0 :: p) (run ++ x :: rest)) tags) =
               (isIgnore d,
                mkScanner
                  (set_state DRCTV_NONE
                     (set_name (c0 :: run) (set_accept false d)))
                  (mkFile (rev run ++ c0 :: p) (x :: rest))
                  (tags ++ (if isIgnore d then []
                            else define_tag Option (c0 :: run)
                                   (x =? chr "("))))).
  { unfold handleDirective. rewrite !bind_getDirective.
    assert (Hd : forall ig : bool,
               (directiveDefine Option c0 ;; ret ig)
                 (mkScanner (set_accept false d)
                    (mkFile (c0 :: p) (run ++ x :: rest)) tags) =
               (ig,
                mkScanner
                  (set_state DRCTV_NONE
                     (set_name (c0 :: run) (set_accept false d)))
                  (mkFile (rev run ++ c0 :: p) (x :: rest))
                  (tags ++ (if isIgnore d then []
                            else define_tag Option (c0 :: run)
                                   (x =? chr "("))))).
    { intros ig. unfold directiveDefine. rewrite Hc0.
      run_m. rewrite bind_onFile.
      rewrite (readIdentifier_value c0 (c0 :: p) run x rest Hrun Hx).
      run_m. rewrite bind_onFile, getc_cons.
      run_m. rewrite bind_onFile. cbn [fileUngetc f_prev f_ahead tl].
      run_m.
      change (isIgnore (set_name (c0 :: run) (set_accept false d)))
        with (isIgnore d).
      destruct (isIgnore d); cbn [negb].
      - run_m. rewrite app_nil_r. reflexivity.
      - unfold makeDefineTag, define_tag.
        rewrite negb_involutive.
        destruct (includingDefineTags Option
                  && (isHeaderFile Option || include_fileScope Option)).
        + run_m. reflexivity.
        + run_m. rewrite app_nil_r. reflexivity. }
    change (isIgnore (set_accept false d)) with (isIgnore d).
    change (state (set_accept false d)) with (state d).
    destruct Hst as [-> | ->]; apply Hd. }
  rewrite Hh. reflexivity.
Qed.

Lemma turn_blanks_some (bl : list Z) :
  forall (fuel : nat) (ign : bool) (d : sDirective) (p rest : list Z)
         (tags : list tagEntryInfo) (r : Z * scanner),
    Forall (fun c => blank c = true) bl ->
    loopG fuel true ign (mkScanner d (mkFile p (bl ++ rest)) tags) = Some r ->
    exists fuel',
      loopG fuel' true ign (mkScanner d (mkFile (rev bl ++ p) rest) tags) =
      Some r.
Proof.
  induction bl as [| b bl IH]; intros fuel ign d p rest tags r Hbl Hrun.
  - exists fuel. exact Hrun.
  - destruct fuel as [| fuel]; [discriminate |].
    change (loopG (length [b] + fuel) true ign
              (mkScanner d (mkFile p ([b] ++ bl ++ rest)) tags) = Some r)
      in Hrun.
    rewrite (turn_blanks [b] fuel ign d p (bl ++ rest) tags) in Hrun
      by (constructor; [exact (Forall_inv Hbl) | constructor]).
    destruct (IH fuel ign d (b :: p) rest tags r (Forall_inv_tail Hbl) Hrun)
      as [fuel' H'].
    exists fuel'. cbn [rev]. rewrite <- app_assoc. exact H'.
Qed.

End DefineTag.

(** X25. A [#define] or [#undef] line makes the tag of its macro. When
    [cppGetc] reads, where a directive may start, a ["#"] directly
    followed by [define] or [undef], blanks and an identifier that ends
    before a character other than the double quote, the call appends
    first of all the tag of that identifier, marked parameterized exactly
    when ["("] follows the name directly: one tag when the options
    include it ([define_tag]), none in a suppressed branch. *)
Theorem define_line_makes_tag (Option : options) (fuel : nat)
  (w w' : world) (c : Z) (p word blanks : list Z) (c0 : Z)
  (run : list Z) (x : Z) (rest : list Z) :
  ungetch (Cpp (w_globals w)) = 0 ->
  accept (directive (Cpp (w_globals w))) = true ->
  word = str "define" \/ word = str "undef" ->
  blanks <> [] ->
  Forall (fun b => blank b = true) blanks ->
  isident1 c0 = true ->
  Forall (fun y => isident y = true) run ->
  isident x = false ->
  x <> DOUBLE_QUOTE ->
  w_file w =
    mkFile p (chr "#" :: word ++ blanks ++ c0 :: run ++ x :: rest) ->
  cppGetc Option fuel w = Some (c, w') ->
  exists more,
    w_tags w' =
    w_tags w ++
    (if isIgnore (directive (Cpp (w_globals w))) then []
     else define_tag Option (c0 :: run) (x =? chr "(")) ++ more.
Proof.
  destruct w as [[b [u u2 rr hasAt hasRaw d]] f tags].
  unfold cppGetc.
  cbn [w_globals Cpp BraceFormat ungetch ungetch2 resolveRequired
       hasAtLiteralStrings hasCxxRawLiteralStrings directive w_file w_tags].
  intros -> Hacc Hword Hne Hbl Hc0 Hrun Hx Hq ->. cbn [negb Z.eqb].
  destruct blanks as [| b0 bl]; [contradiction |].
  destruct fuel as [| fuel]; [discriminate |].
  rewrite (turn_hashG Option b rr hasAt hasRaw fuel false false d p _ tags
             Hacc).
  destruct fuel as [| fuel]; [discriminate |].
  set (d1 := set_accept false (set_state DRCTV_HASH d)).
  assert (Hst1 : state d1 = DRCTV_HASH) by reflexivity.
  destruct (turn_define_word Option b rr hasAt hasRaw fuel false d1
              (chr "#" :: p) b0 (bl ++ c0 :: run ++ x :: rest) tags Hst1
              (Forall_inv Hbl)) as [Hdef Hundef].
  assert (Hturn :
    exists st wd,
      (st = DRCTV_DEFINE \/ st = DRCTV_UNDEF) /\
      cppGetc_loop Option b rr hasAt hasRaw (S fuel) true false
        (mkScanner d1
           (mkFile (chr "#" :: p)
              (word ++ (b0 :: bl) ++ c0 :: run ++ x :: rest)) tags) =
      cppGetc_loop Option b rr hasAt hasRaw fuel true false
        (mkScanner (set_state st (set_accept false d1))
           (mkFile (wd ++ chr "#" :: p)
              ((b0 :: bl) ++ c0 :: run ++ x :: rest)) tags)).
  { destruct Hword as [-> | ->].
    - exists DRCTV_DEFINE, (rev (str "define")).
      split; [left; reflexivity |].
      exact Hdef.
    - exists DRCTV_UNDEF, (rev (str "undef")).
      split; [right; reflexivity |].
      exact Hundef. }
  clear Hdef Hundef.
  destruct Hturn as (st & wd & Hst & ->).
  set (d2 := set_state st (set_accept false d1)).
  destruct (cppGetc_loop Option b rr hasAt hasRaw fuel true false _)
    as [[c1 s1] |] eqn:E; [| intros H; discriminate H].
  intros H. inversion H; subst c1 w'. clear H.
  cbn [w_tags].
  apply (turn_blanks_some Option b rr hasAt hasRaw (b0 :: bl)) in E;
    [| exact Hbl].
  destruct E as [fuel' E].
  destruct fuel' as [| fuel']; [discriminate |].
  assert (Hst2 : state d2 = DRCTV_DEFINE \/ state d2 = DRCTV_UNDEF)
    by exact Hst.
  assert (Hq' : (x =? DOUBLE_QUOTE) = false) by (apply Z.eqb_neq; exact Hq).
  rewrite (turn_define_name Option b rr hasAt hasRaw fuel' false d2 _ c0 run
             x rest tags Hst2 Hc0 Hrun Hx Hq') in E.
  apply cppGetc_loop_tags in E.
  destruct E as (added & Hadd & _).
  cbn [sc_tags] in Hadd.
  exists added. rewrite Hadd, <- app_assoc.
  change (isIgnore d2) with (isIgnore d). reflexivity.
Qed.

Lemma define_line_makes_tag_witness :
  exists c w' more,
    cppGetc plain_options 20
      (session false false false
         (str "#define ADD(a) a" ++ NEWLINE :: str "y"))
    = Some (c, w') /\
    w_tags w' =
    [mkTag (str "ADD") (locate_not_pattern plain_options)
       (negb (isHeaderFile plain_options)) true] ++ more.
Proof.
  destruct (cppGetc plain_options 20
              (session false false false
                 (str "#define ADD(a) a" ++ NEWLINE :: str "y")))
    as [[c w'] |] eqn:E.
  - exists c, w'.
    destruct (define_line_makes_tag plain_options 20
                (session false false false
                   (str "#define ADD(a) a" ++ NEWLINE :: str "y"))
                w' c [] (str "define") [SPACE] (chr "A") (str "DD") (chr "(")
                (str "a) a" ++ NEWLINE :: str "y")
                eq_refl eq_refl (or_introl eq_refl))
      as [more Hmore].
    + discriminate.
    + repeat constructor.
    + reflexivity.
    + repeat constructor.
    + reflexivity.
    + discriminate.
    + reflexivity.
    + exact E.
    + exists more. split; [reflexivity | exact Hmore].
  - vm_compute in E. discriminate E.
Defined.

(* ------------------------------------------------------------------ *)
(** ** The tag of a #pragma weak line *)

Lemma skipSpaces_loop_run (n : nat) :
  forall (fuel : nat) (p : list Z) (c0 : Z) (rest : list Z),
    (c0 =? SPACE) = false ->
    (n < fuel)%nat ->
    exists p',
      skipSpaces_loop fuel (mkFile p (replicate n SPACE ++ c0 :: rest)) =
      (c0, mkFile (c0 :: p') rest).
Proof.
  induction n as [| n IH]; intros fuel p c0 rest Hc Hlt;
    (destruct fuel as [| fuel]; [lia |]).
  - exists p. cbn [replicate app skipSpaces_loop].
    unfold bind. rewrite getc_cons, Hc. reflexivity.
  - destruct (IH fuel (SPACE :: p) c0 rest Hc ltac:(lia)) as [p' Hp'].
    exists p'. cbn [replicate app skipSpaces_loop].
    unfold bind. rewrite getc_cons. cbv beta iota.
    change (SPACE =? SPACE) with true. cbv iota. exact Hp'.
Qed.

Section PragmaTag.

Variable Option : options.
Variable bf rr hasAt hasRaw : bool.

Abbreviation loopP := (cppGetc_loop Option bf rr hasAt hasRaw).

(** The directive word [pragma], ended by a blank. *)
Lemma turn_pragma_word (fuel : nat) (ign : bool) (d : sDirective)
  (p : list Z) (b : Z) (rest : list Z) (tags : list tagEntryInfo) :
  state d = DRCTV_HASH ->
  blank b = true ->
  loopP (S fuel) true ign
    (mkScanner d (mkFile p (str "pragma" ++ b :: rest)) tags) =
  loopP fuel true false
    (mkScanner (set_state DRCTV_PRAGMA (set_accept false d))
       (mkFile (rev (str "pragma") ++ p) (b :: rest)) tags).
Proof.
  intros Hst Hb.
  assert (Hbb : b = SPACE \/ b = TAB).
  { unfold blank in Hb. apply orb_true_iff in Hb as [Hb | Hb];
      apply Z.eqb_eq in Hb; [left | right]; exact Hb. }
  change (str "pragma" ++ b :: rest)
    with (chr "p" :: str "ragma" ++ b :: rest).
  rewrite loopG_S.
  change (cppGetc_process Option bf rr hasAt hasRaw (chr "p") true ign)
    with (cppGetc_enter Option bf rr (chr "p") true ign).
  unfold cppGetc_enter. rewrite bind_setDirective.
  rewrite (bind_split (handleDirective _ _ _ _)).
  rewrite (handleDirective_hashG Option bf rr (chr "p") (set_accept false d)
             _ tags Hst).
  destruct Hbb as [-> | ->]; reflexivity.
Qed.

(** The word [weak] and the name after it: [directivePragma] makes the
    tag without looking at the conditional stack. *)
Lemma turn_pragma_weak (fuel : nat) (ign : bool) (d : sDirective)
  (p : list Z) (n : nat) (c0 : Z) (run : list Z) (x : Z) (rest : list Z)
  (tags : list tagEntryInfo) :
  state d = DRCTV_PRAGMA ->
  isident1 c0 = true ->
  Forall (fun y => isident y = true) run ->
  isident x = false ->
  exists d' f',
    loopP (S fuel) true ign
      (mkScanner d
         (mkFile p
            (str "weak" ++ replicate (S n) SPACE ++ c0 :: run ++ x :: rest))
         tags) =
    loopP fuel true (isIgnore d)
      (mkScanner d' f'
         (tags ++ define_tag Option (c0 :: run) false)).
Proof.
  intros Hst Hc0 Hrun Hx.
  assert (Hc0' : (c0 =? SPACE) = false).
  { destruct (c0 =? SPACE) eqn:E; [| reflexivity].
    apply Z.eqb_eq in E. subst c0. discriminate Hc0. }
  assert (Hh : exists d' f',
             handleDirective Option bf rr (chr "w")
               (mkScanner (set_accept false d)
                  (mkFile (chr "w" :: p)
                     (str "eak" ++
                      SPACE :: replicate n SPACE ++ c0 :: run ++ x :: rest))
                  tags) =
             (isIgnore d,
              mkScanner d' f'
                (tags ++ define_tag Option (c0 :: run) false))).
  { unfold handleDirective. run_m.
    change (state (set_accept false d)) with (state d). rewrite Hst.
    change (isIgnore (set_accept false d)) with (isIgnore d).
    unfold directivePragma.
    change (isident1 (chr "w")) with true. cbv iota.
    run_m. rewrite bind_onFile.
    rewrite (readIdentifier_value (chr "w") (chr "w" :: p) (str "eak") SPACE
               (replicate n SPACE ++ c0 :: run ++ x :: rest)
               ltac:(repeat constructor) eq_refl).
    run_m.
    change (bool_decide (chr "w" :: str "eak" = str "weak")) with true.
    cbv iota. run_m. rewrite bind_onFile.
    destruct (skipSpaces_loop_run (S n)
                (turns (mkFile (rev (str "eak") ++ chr "w" :: p)
                          (SPACE :: replicate n SPACE ++
                           c0 :: run ++ x :: rest)))
                (rev (str "eak") ++ chr "w" :: p) c0 (run ++ x :: rest) Hc0')
      as [p' Hp'].
    { unfold turns. cbn [f_ahead length]. rewrite length_app.
      rewrite length_replicate. lia. }
    change (replicate (S n) SPACE ++ c0 :: run ++ x :: rest)
      with (SPACE :: replicate n SPACE ++ c0 :: run ++ x :: rest) in Hp'.
    cbv beta. rewrite Hp'. run_m. rewrite Hc0.
    run_m. rewrite bind_onFile.
    rewrite (readIdentifier_value c0 (c0 :: p') run x rest Hrun Hx).
    run_m.
    unfold makeDefineTag, define_tag. rewrite negb_involutive.
    destruct (includingDefineTags Option
              && (isHeaderFile Option || include_fileScope Option)).
    - run_m. eexists _, _. reflexivity.
    - run_m. rewrite app_nil_r. eexists _, _. reflexivity. }
  destruct Hh as (d' & f' & Hh).
  exists d', f'.
  change (str "weak" ++ replicate (S n) SPACE ++ c0 :: run ++ x :: rest)
    with (chr "w" :: chr "e" :: str "ak" ++
          SPACE :: replicate n SPACE ++ c0 :: run ++ x :: rest).
  rewrite loopG_S,
    (process_ident1 Option bf rr hasAt hasRaw (chr "w") true ign eq_refl).
  rewrite (bind_split (cppGetc_literal hasAt hasRaw (chr "w"))).
  rewrite (cppGetc_literal_none hasAt hasRaw (chr "w") d p (chr "e") _ tags
             eq_refl).
  cbn [fst snd].
  unfold cppGetc_enter. rewrite bind_setDirective.
  rewrite (bind_split (handleDirective _ _ _ _)).
  change (chr "e" :: str "ak" ++
          SPACE :: replicate n SPACE ++ c0 :: run ++ x :: rest)
    with (str "eak" ++
          SPACE :: replicate n SPACE ++ c0 :: run ++ x :: rest).
  rewrite Hh. reflexivity.
Qed.

End PragmaTag.

(** X26. A [#pragma weak] line makes the tag of the weak name, whatever
    the conditional stack says. When [cppGetc] reads, where a directive
    may start, a ["#"] directly followed by [pragma], blanks, [weak],
    spaces and an identifier, the call appends first of all the tag of
    that identifier, not parameterized; unlike [#define], this also
    happens inside a suppressed branch. *)
Theorem pragma_weak_makes_tag (Option : options) (fuel : nat)
  (w w' : world) (c : Z) (p blanks : list Z) (n : nat) (c0 : Z)
  (run : list Z) (x : Z) (rest : list Z) :
  ungetch (Cpp (w_globals w)) = 0 ->
  accept (directive (Cpp (w_globals w))) = true ->
  blanks <> [] ->
  Forall (fun b => blank b = true) blanks ->
  isident1 c0 = true ->
  Forall (fun y => isident y = true) run ->
  isident x = false ->
  w_file w =
    mkFile p
      (chr "#" :: str "pragma" ++ blanks ++ str "weak" ++
       replicate (S n) SPACE ++ c0 :: run ++ x :: rest) ->
  cppGetc Option fuel w = Some (c, w') ->
  exists more,
    w_tags w' = w_tags w ++ define_tag Option (c0 :: run) false ++ more.
Proof.
  destruct w as [[b [u u2 rr hasAt hasRaw d]] f tags].
  unfold cppGetc.
  cbn [w_globals Cpp BraceFormat ungetch ungetch2 resolveRequired
       hasAtLiteralStrings hasCxxRawLiteralStrings directive w_file w_tags].
  intros -> Hacc Hne Hbl Hc0 Hrun Hx ->. cbn [negb Z.eqb].
  destruct blanks as [| b0 bl]; [contradiction |].
  destruct fuel as [| fuel]; [discriminate |].
  rewrite (turn_hashG Option b rr hasAt hasRaw fuel false false d p _ tags
             Hacc).
  destruct fuel as [| fuel]; [discriminate |].
  set (d1 := set_accept false (set_state DRCTV_HASH d)).
  assert (Hst1 : state d1 = DRCTV_HASH) by reflexivity.
  change (str "pragma" ++ (b0 :: bl) ++ str "weak" ++
          replicate (S n) SPACE ++ c0 :: run ++ x :: rest)
    with (str "pragma" ++ b0 ::
          (bl ++ str "weak" ++
           replicate (S n) SPACE ++ c0 :: run ++ x :: rest)).
  rewrite (turn_pragma_word Option b rr hasAt hasRaw fuel false d1
             (chr "#" :: p) b0 _ tags Hst1 (Forall_inv Hbl)).
  set (d2 := set_state DRCTV_PRAGMA (set_accept false d1)).
  destruct (cppGetc_loop Option b rr hasAt hasRaw fuel true false _)
    as [[c1 s1] |] eqn:E; [| intros H; discriminate H].
  intros H. inversion H; subst c1 w'. clear H.
  cbn [w_tags].
  change (b0 :: bl ++ str "weak" ++
          replicate (S n) SPACE ++ c0 :: run ++ x :: rest)
    with ((b0 :: bl) ++ str "weak" ++
          replicate (S n) SPACE ++ c0 :: run ++ x :: rest) in E.
  apply (turn_blanks_some Option b rr hasAt hasRaw (b0 :: bl)) in E;
    [| exact Hbl].
  destruct E as [fuel' E].
  destruct fuel' as [| fuel']; [discriminate |].
  destruct (turn_pragma_weak Option b rr hasAt hasRaw fuel' false d2
              (rev (b0 :: bl) ++ rev (str "pragma") ++ chr "#" :: p)
              n c0 run x rest tags eq_refl Hc0 Hrun Hx)
    as (d' & f' & Hturn).
  rewrite Hturn in E.
  apply cppGetc_loop_tags in E.
  destruct E as (added & Hadd & _).
  cbn [sc_tags] in Hadd.
  exists added. rewrite Hadd, <- app_assoc. reflexivity.
Qed.

Lemma pragma_weak_makes_tag_witness :
  exists c w' more,
    cppGetc plain_options 30
      (session false false false (str "#pragma weak foo" ++ [NEWLINE]))
    = Some (c, w') /\
    w_tags w' =
    [mkTag (str "foo") (locate_not_pattern plain_options)
       (negb (isHeaderFile plain_options)) false] ++ more.
Proof.
  destruct (cppGetc plain_options 30
              (session false false false
                 (str "#pragma weak foo" ++ [NEWLINE])))
    as [[c w'] |] eqn:E.
  - exists c, w'.
    destruct (pragma_weak_makes_tag plain_options 30
                (session false false false
                   (str "#pragma weak foo" ++ [NEWLINE]))
                w' c [] [SPACE] 0 (chr "f") (str "oo") NEWLINE []
                eq_refl eq_refl)
      as [more Hmore].
    + discriminate.
    + repeat constructor.
    + reflexivity.
    + repeat constructor.
    + reflexivity.
    + reflexivity.
    + exact E.
    + exists more. split; [reflexivity | exact Hmore].
  - vm_compute in E. discriminate E.
Defined.
